(* ===== verification/_CoqProject ===== *)
-Q . S2P
Prelude.v
Bytes.v
Page.v
Disk.v
Buffer.v
LogRecord.v
Wal.v
Locks.v
LockWait.v
Node.v
BTree.v
Text.v
Sort.v
Distance.v
Hnsw.v
HnswSearch.v
HnswLinks.v
HnswIndex.v
IndexManager.v
Ast.v
Catalog.v
CatalogStore.v
Lexer.v
Parser.v
TableMeta.v
Directory.v
Query.v
Heap.v
Tables.v
Executor.v
Files.v
Session.v
Changes.v
Writes.v
Recover.v
Scans.v
Delete.v
Update.v
Errors.v
Insert.v
Reindex.v
Create.v
Database.v
Durable.v
Commits.v
Lives.v
Statements.v
Typing.v
Repl.v
Results.v
Printing.v
Threads.v
Divergences.v
