(* ===== verification/Prelude.v ===== *)
(** * venom-db: a verification development (root file)

    venom-db is a small relational database in Rust: SQL text is lexed and
    parsed, an executor runs the statement on table heaps of slotted pages
    behind a buffer pool, keeps a B-tree on every primary key, logs every row
    change and replays the log when it opens its directory again.  The library
    follows that layering, one file per component, and ends with the engine as
    a whole refining an abstract SQL machine.

    ** Parts, files and sources (all under src/src/)

    - Prelude: results of fallible code ([Ok], [Err], [Panic]), the state and
      error monad of [&mut self] methods, slices, lists and maps.
    - Bytes, Text, Sort: widths of integers, little-endian bytes, the codec
      class; UTF-8 strings and IEEE 754 [f64]; stable sorting.
    - Page: storage/page.rs.  Disk: storage/disk_manager.rs.  Buffer:
      buffer/frame.rs, lru_replacer.rs, buffer_pool.rs.  A page is its 4096
      bytes, [data.db] is its bytes, the pool caches frames over it.
    - LogRecord, Wal: recovery/log_record.rs and wal.rs.  The log is a byte
      string with a forced prefix; redo and undo are folds over the records.
    - Locks: concurrency/transaction.rs and lock_manager.rs; LockWait: waiting
      for a lock.  Nothing in the executor calls them; the shell does (Repl).
    - Node, BTree: index/node.rs and btree.rs.  IndexManager:
      engine/index_manager.rs, written against the class [OrderedIndex], which
      the B-tree implements.
    - Distance, Hnsw: index/hnsw/distance.rs and mod.rs, the graph index of
      vectors; HnswSearch, HnswLinks and HnswIndex are its theorems.  Nothing
      in the executor calls it.
    - Ast, Lexer, Parser: sql/.  Catalog, CatalogStore: engine/catalog.rs and
      storage/catalog_store.rs.
    - TableMeta, Query, Executor: engine/executor.rs: the page lists on disk,
      evaluation on rows, and the engine's state with its handlers, recovery
      included.  Directory: how the catalog and the page lists are replaced,
      call by call.
    - Heap, Tables, Session, Changes, Writes, Scans: what the proofs about the
      handlers share: the pool under the discipline of one page at a time, a
      table as the list of its rows, the invariant of a session, the change of
      one row, the log and index calls of a write, the loops over a table.  The
      pool may be dirty: the pages that differ from the file are a list of the
      discipline ([idle], [held], [working]); the log is in step with the pages
      and, between statements, has nothing open ([wal_sync], [quiet]).
    - Delete, Update, Insert, Create: one statement each; Errors: the errors
      that rows cause.  Database: a whole session against the SQL machine.
      Statements: the statements one by one.  Typing: the types of queries and
      of their answers.
    - Recover, Reindex: [Executor::recover], step by step: the log and the pages,
      then the indexes.  Files: what each handler leaves in the files.  Durable:
      a state between statements, closed and opened again.  Commits: a statement
      that has committed and not yet written its pages.  Lives: statements and
      crashes, one after the other, against the SQL machine.
    - Repl: main.rs, the shell's [run] and its loop as a step on a line; from
      lines of text to tables.  Results: the lines of a printed result.
      Printing: prompts, messages and [main]; the picture of a B-tree and the hit
      rate of the pool.  Threads: the demonstration of the lock manager with two
      threads, as a machine whose steps are taken in any order.
    - Divergences: sessions and crashes, evaluated, where the code does not do
      what SQL or its comments promise.

    ** How states and operations correspond

    A struct is a record with the same fields; a method with [&mut self] is a
    function of the state that also returns the state it reached when it fails
    ([st]); a method with [&self] is a function.  [Result::Err] is [Err] with
    the error as a constructor, a panic is [Panic] (or [None] in the files
    that say so).  A [HashMap] is a [gmap]; where the order of its iteration
    shows, that order is a parameter.  A file is its bytes.  Integers are [Z]
    (or [nat] for lengths and positions) with their ranges; an operation that
    overflows panics, as a debug build does: so the count of pins of a frame
    (2^32 - 1 at most) and of pages allocated, and the bounds of an index scan
    ([> i64::MAX]).  Only the counts of hits and misses of the pool wrap, after
    2^64 fetches: they are read by the hit rate alone.  [as u16] and [as u32]
    cut, as in any build.  An index or a slice out of range panics.

    ** What the theorems show

    - Storage: a page under any sequence of operations is a list of optional
      tuples; the pool is transparent over the disk and flushing makes it
      durable; checksums are accepted after they are stored; reads past the
      end, wrong checksums, oversized tuples have the answers the code gives.
    - Log: what was committed survives a crash at any later byte, and recovery
      rebuilds the committed operations and nothing of the transaction that
      was open.
    - Locks: an exclusive holder is alone, the first waiter gets the row when its
      holders are gone, the search for deadlocks is exact, acquire and release
      on every branch.
    - Index: the B-tree under any sequence of operations is a sorted list of
      entries; the manager over any ordered index is a map to such lists.
    - Vectors: distances are symmetric; a layer search returns what it should
      and ends; inserting keeps the graph well linked and of bounded degree; a
      search of a small index is exact.
    - Languages: the lexer inverts spelling and always ends; the parser
      accepts exactly the grammar and inverts writing it.
    - Formats: rows, nodes, page lists and the catalog in both versions read
      back from their bytes; damaged input is an error, not a panic.
    - Engine: SELECT through the index equals a scan, except that it panics on
      a bound that is out of range; INSERT, DELETE, UPDATE and CREATE TABLE do
      what SQL says and, when they succeed, leave the engine's invariant; SELECT
      is type sound; a session from an empty directory is a run of the SQL
      machine, as long as its statements are [statement_ok] (INT keys) and
      succeed or fail without harm ([clean]).  The shell runs on any lines of
      ASCII what they spell, as the executor would by itself, and panics only
      if the executor does.
    - Durability: under the same conditions, crashes between statements, between the two files that
      CREATE TABLE saves, or between the commit of an INSERT, UPDATE or DELETE
      and its pages, any number of them, leave no trace: recovery succeeds and
      gives the SQL machine's tables back, even when the pages of data.db that
      the log gives back are older or other pages; the catalog and the page
      lists are taken as they were last renamed into place.  An INSERT that has taken a
      new page is the exception (Divergences).  Replacing a file is atomic, when a
      rename is, even if renames are lost.
    - Threads: under every schedule of the demonstration all threads end.

    ** Bounds and fuel

    Loops that follow page ids or node ids take fuel: one more than the number
    of nodes (BTree, IndexManager), than the records or bytes that remain (Wal,
    Lexer), than the tokens (Parser), than the pages of a table and one
    (Executor), than the nodes of a graph twice over (Hnsw).  Each has a
    theorem that the fuel suffices: the refinement and termination theorems
    return, with the invariant as the only hypothesis.  Counters are 32 or 64
    bits and panic on overflow, so the session theorem bounds the work of a
    session ([session_cost] at most [2 ^ 25]); every counter stays below its
    width under that budget.  With restarts the log is numbered from its start
    again and the indexes are filled from every row, and the bound is [2 ^ 24].

    ** Not modelled

    Failures of the operating system (a full disk, a failing [fsync]).  The
    directory is never synced, so a file system may lose the rename of a saved
    catalog or page list; Directory allows for it, Lives does not.  A crash
    inside a statement that changes rows, before its commit: for the log alone
    Wal says what survives it, for the engine the promise does not hold and
    Divergences and Wal say how.  After the commit it is one of the
    crashes of Lives; only a page that the file does not have, or has torn, is
    not given back (Divergences).  Concurrent access to the executor,
    which is single-threaded.  The wording of the errors of statements, which go
    to the standard error.  CRC-32, Unicode tables, the text of an [f64], the iteration
    order of hash containers, random numbers and the logarithm are parameters
    with the laws the code relies on.  The [mod.rs] files only declare
    modules. *)

From Stdlib Require Export ZArith Lia.
From stdpp Require Export base tactics option strings sets gmap list.

#[global] Set Default Goal Selector "!".

(** ** Results of fallible code

    [Ok] and [Err] are Rust's [Result]; [Panic] is an unwinding panic
    (slice out of range, [unwrap] of [None], failed [assert!]), which no
    code of the repository catches. *)
Inductive result (E A : Type) :=
  | Ok (a : A)
  | Err (e : E)
  | Panic.
Arguments Ok {_ _} _.
Arguments Err {_ _} _.
Arguments Panic {_ _}.

#[global] Instance result_ret {E} : MRet (result E) := fun _ => Ok.
#[global] Instance result_bind {E} : MBind (result E) := fun _ _ f m =>
  match m with Ok a => f a | Err e => Err e | Panic => Panic end.

(** [?] on an [Option] turned into an error with [ok_or]. *)
Definition ok_or {E A} (e : E) (o : option A) : result E A :=
  match o with Some a => Ok a | None => Err e end.

(** [unwrap], indexing and slicing: the panics of the source. *)
Definition or_panic {E A} (o : option A) : result E A :=
  match o with Some a => Ok a | None => Panic end.

Lemma result_bind_ok {E A B} (m : result E A) (f : A -> result E B) b :
  (a ← m; f a) = Ok b <-> exists a, m = Ok a /\ f a = Ok b.
Proof. destruct m; cbn; naive_solver. Qed.

Lemma result_bind_assoc {E A B C} (m : result E A) (f : A -> result E B) (g : B -> result E C) :
  (y ← (x ← m; f x); g y) = (x ← m; y ← f x; g y).
Proof. by destruct m. Qed.

Lemma result_bind_ret {E A B} (a : A) (f : A -> result E B) : (x ← Ok a; f x) = f a.
Proof. done. Qed.

Lemma result_bind_ext {E A B} (m : result E A) (f f' : A -> result E B) :
  (forall a, f a = f' a) -> (x ← m; f x) = (x ← m; f' x).
Proof. destruct m; cbn; auto. Qed.

(** ** A state and error monad

    A method that takes [&mut self] and returns [Result]: the state reached
    is kept when the method fails, because Rust does not roll it back. *)
Definition st (S E A : Type) : Type := S -> S * result E A.

Section StateMonad.
Context {S E : Type}.

#[global] Instance st_ret : MRet (st S E) := fun _ a s => (s, Ok a).
#[global] Instance st_bind : MBind (st S E) := fun _ _ f m s =>
  match m s with
  | (s', Ok a) => f a s'
  | (s', Err e) => (s', Err e)
  | (s', Panic) => (s', Panic)
  end.

Definition st_get : st S E S := fun s => (s, Ok s).
Definition st_put (s : S) : st S E unit := fun _ => (s, Ok tt).
Definition st_modify (f : S -> S) : st S E unit := fun s => (f s, Ok tt).
Definition st_lift {A} (r : result E A) : st S E A := fun s => (s, r).
Definition st_fail {A} (e : E) : st S E A := fun s => (s, Err e).

Lemma st_bind_ok {A B} (m : st S E A) (f : A -> st S E B) s s' a :
  m s = (s', Ok a) -> (x ← m; f x) s = f a s'.
Proof. intros H. unfold mbind, st_bind. by rewrite H. Qed.

Lemma st_bind_err {A B} (m : st S E A) (f : A -> st S E B) s s' e :
  m s = (s', Err e) -> (x ← m; f x) s = (s', Err e).
Proof. intros H. unfold mbind, st_bind. by rewrite H. Qed.

Lemma st_bind_ext {A B} (m m' : st S E A) (f f' : A -> st S E B) s :
  m s = m' s -> (forall x s', f x s' = f' x s') -> (x ← m; f x) s = (x ← m'; f' x) s.
Proof. intros Hm Hf. unfold mbind, st_bind. rewrite Hm. destruct (m' s) as [s' [x| |]]; [apply Hf|done..]. Qed.

Lemma st_bind_assoc {A B C} (m : st S E A) (f : A -> st S E B) (g : B -> st S E C) s :
  (y ← (x ← m; f x); g y) s = (x ← m; y ← f x; g y) s.
Proof. unfold mbind, st_bind. by destruct (m s) as [s' [x| |]]. Qed.

(** Code that leaves the state alone. *)
Lemma st_bind_reads {A B} (m : st S E A) (k : A -> st S E B) s r k' :
  m s = (s, r) -> (forall x, k x s = (s, k' x)) -> (x ← m; k x) s = (s, x ← r; k' x).
Proof. intros Hm Hk. unfold mbind, st_bind. rewrite Hm. destruct r; cbn; [apply Hk|done..]. Qed.

(** A [for] loop over a list whose body may fail or return early with [?]. *)
Fixpoint st_iter {A} (f : A -> st S E unit) (l : list A) : st S E unit :=
  match l with
  | [] => mret tt
  | x :: l => _ ← f x; st_iter f l
  end.
End StateMonad.

(** Runs a [&mut self] method of a field on the whole structure. *)
Definition st_zoom {S T E E' A} (get : S -> T) (set : T -> S -> S)
    (err : E -> E') (m : st T E A) : st S E' A := fun s =>
  let '(t, r) := m (get s) in
  (set t s, match r with Ok a => Ok a | Err e => Err (err e) | Panic => Panic end).

(** ** Slices

    [slice l off n] is [&l[off..off + n]] and [splice l off b] is
    [l[off..off + b.len()].copy_from_slice(b)]; [None] is the panic of a range
    that does not fit. *)
Definition slice {A} (l : list A) (off n : nat) : option (list A) :=
  if decide (off + n <= length l) then Some (take n (drop off l)) else None.

Definition splice {A} (l : list A) (off : nat) (b : list A) : option (list A) :=
  if decide (off + length b <= length l)
  then Some (take off l ++ b ++ drop (off + length b) l) else None.

Section Slices.
Context {A : Type}.
Implicit Types l b : list A.

Lemma slice_Some l off n b :
  slice l off n = Some b <-> off + n <= length l /\ b = take n (drop off l).
Proof. unfold slice. case_decide; naive_solver. Qed.

Lemma slice_ok l off n : off + n <= length l -> slice l off n = Some (take n (drop off l)).
Proof. intros. by apply slice_Some. Qed.

Lemma slice_length l off n b : slice l off n = Some b -> length b = n.
Proof. intros [? ->]%slice_Some. rewrite length_take, length_drop. lia. Qed.

Lemma slice_lookup l off n b i :
  slice l off n = Some b -> i < n -> b !! i = l !! (off + i).
Proof. intros [? ->]%slice_Some ?. rewrite lookup_take_lt, lookup_drop by lia. done. Qed.

Lemma splice_Some l off b l' :
  splice l off b = Some l' <->
  off + length b <= length l /\ l' = take off l ++ b ++ drop (off + length b) l.
Proof. unfold splice. case_decide; naive_solver. Qed.

Lemma splice_ok l off b : off + length b <= length l -> is_Some (splice l off b).
Proof. intros. eexists. by apply splice_Some. Qed.

Lemma splice_length l off b l' : splice l off b = Some l' -> length l' = length l.
Proof.
  intros [? ->]%splice_Some. rewrite !length_app, length_take, length_drop. lia.
Qed.

Lemma splice_lookup l off b l' i :
  splice l off b = Some l' ->
  l' !! i = if decide (off <= i < off + length b) then b !! (i - off) else l !! i.
Proof.
  intros [? ->]%splice_Some. case_decide.
  - rewrite lookup_app_r; rewrite length_take; [|lia].
    rewrite lookup_app_l by lia. f_equal. lia.
  - destruct (decide (i < off)).
    + rewrite lookup_app_l by (rewrite length_take; lia). by rewrite lookup_take_lt.
    + rewrite lookup_app_r by (rewrite length_take; lia).
      rewrite lookup_app_r by (rewrite length_take; lia).
      rewrite lookup_drop, length_take. f_equal. lia.
Qed.

(** Reading back what was just written. *)
Lemma slice_splice_same l off b l' :
  splice l off b = Some l' -> slice l' off (length b) = Some b.
Proof.
  intros H. pose proof (splice_length _ _ _ _ H) as Hl.
  apply splice_Some in H as [Hle ->]. apply slice_Some. split; [lia|].
  rewrite drop_app_length' by (rewrite length_take; lia).
  by rewrite take_app_length.
Qed.

Lemma splice_idemp l off b l' : splice l off b = Some l' -> splice l' off b = Some l'.
Proof.
  intros H. pose proof (splice_length _ _ _ _ H) as Hl.
  apply splice_Some in H as Hle. destruct Hle as [Hle _].
  destruct (splice_ok l' off b) as [l2 H2]; [lia|]. rewrite H2. f_equal.
  apply list_eq. intros i. rewrite (splice_lookup _ _ _ _ i H2).
  rewrite (splice_lookup _ _ _ _ i H). by case_decide.
Qed.

(** A write does not touch a disjoint range. *)
Lemma slice_splice_other l off b l' o n :
  splice l off b = Some l' -> o + n <= off \/ off + length b <= o ->
  slice l' o n = slice l o n.
Proof.
  intros H Hd. unfold slice. rewrite (splice_length _ _ _ _ H).
  case_decide; [|done]. f_equal. apply list_eq. intros i.
  destruct (decide (i < n)); [|by rewrite !lookup_take_ge by lia].
  rewrite !lookup_take_lt, !lookup_drop, (splice_lookup _ _ _ _ _ H) by done.
  by rewrite decide_False by lia.
Qed.

(** A short write at the start of a range leaves the tail of that range. *)
Lemma slice_splice_prefix l off b l' n old :
  splice l off b = Some l' -> length b <= n -> slice l off n = Some old ->
  slice l' off n = Some (b ++ drop (length b) old).
Proof.
  intros H Hle Hs. pose proof (splice_length _ _ _ _ H) as Hl.
  pose proof (slice_length _ _ _ _ Hs) as Hlo.
  apply slice_Some in Hs as Hs'. destruct Hs' as [Hin _].
  apply slice_Some. split; [lia|]. symmetry. apply list_eq. intros i.
  destruct (decide (i < n)).
  - rewrite lookup_take_lt, lookup_drop, (splice_lookup _ _ _ _ _ H) by done.
    case_decide.
    + rewrite lookup_app_l by lia. f_equal. lia.
    + rewrite lookup_app_r, lookup_drop, (slice_lookup _ _ _ _ _ Hs) by lia.
      f_equal. lia.
  - rewrite lookup_take_ge by lia. symmetry. apply lookup_ge_None.
    rewrite length_app, length_drop. lia.
Qed.

Lemma slice_app_l b l n : n = length b -> slice (b ++ l) 0 n = Some b.
Proof.
  intros ->. apply slice_Some. rewrite length_app. split; [lia|].
  by rewrite drop_0, take_app_length.
Qed.

Lemma slice_app_skip b l o n :
  slice (b ++ l) (length b + o) n = slice l o n.
Proof.
  unfold slice. rewrite length_app. case_decide; case_decide; try lia; [|done].
  by rewrite <- drop_drop, drop_app_length.
Qed.
End Slices.

(** ** Maps *)
Section Alter.
Context `{Countable K} {A : Type}.
Implicit Types m : gmap K A.

Lemma alter_present m f k x : m !! k = Some x -> alter f k m = <[k := f x]> m.
Proof.
  intros E. apply map_eq. intros j. destruct (decide (k = j)) as [->|Hne].
  - by rewrite lookup_alter_eq, lookup_insert_eq, E.
  - by rewrite lookup_alter_ne, lookup_insert_ne.
Qed.

Lemma alter_absent m f k : m !! k = None -> alter f k m = m.
Proof.
  intros E. apply map_eq. intros j. destruct (decide (k = j)) as [->|Hne].
  - by rewrite lookup_alter_eq, E.
  - by rewrite lookup_alter_ne.
Qed.
End Alter.

(** ** Lists *)
Lemma omap_over_fmap {A B C} (f : B -> option C) (g : A -> B) (l : list A) :
  omap f (g <$> l) = omap (fun x => f (g x)) l.
Proof. induction l as [|x l IH]; [done|]. csimpl. by rewrite IH. Qed.

Lemma filter_all {A} (P : A -> Prop) `{!forall x, Decision (P x)} (l : list A) : (forall x, x ∈ l -> P x) -> filter P l = l.
Proof.
  induction l as [|x l IH]; intros HP; [done|]. rewrite filter_cons_True by (apply HP; left). f_equal.
  apply IH. intros y Hy. apply HP. by right.
Qed.

Lemma filter_over_fmap {A B} (g : A -> B) (P : B -> Prop) `{!forall x, Decision (P x)} (l : list A) :
  filter P (g <$> l) = g <$> filter (fun x => P (g x)) l.
Proof.
  induction l as [|x l IH]; [done|]. rewrite fmap_cons, !filter_cons.
  case_decide; by rewrite ?fmap_cons, IH.
Qed.

(** A map of witnesses. *)
Lemma map_choice `{Countable K} {A B} (P : K -> B -> Prop) (m : gmap K A) :
  (forall k, is_Some (m !! k) -> exists x, P k x) ->
  exists m' : gmap K B, (forall k, is_Some (m' !! k) <-> is_Some (m !! k)) /\ forall k x, m' !! k = Some x -> P k x.
Proof.
  induction m as [|k a m Hk IH] using map_ind; intros HP.
  { exists ∅. split; [intros k; rewrite !lookup_empty; by split; intros []|]. intros k x. by rewrite lookup_empty. }
  destruct IH as (m' & Hdom & Hall). { intros i Hi. apply HP. rewrite lookup_insert_is_Some'. by right. }
  destruct (HP k) as [x Hx]; [rewrite lookup_insert_eq; by eexists|]. exists (<[k := x]> m'). split.
  - intros i. rewrite !lookup_insert_is_Some'. by rewrite Hdom.
  - intros i y. destruct (decide (k = i)) as [<-|Hne]; [rewrite lookup_insert_eq; by intros [= <-]|].
    rewrite lookup_insert_ne by done. apply Hall.
Qed.
