(* ===== verification/Bytes.v ===== *)
(** * Bytes, little-endian integers and machine widths

    What the storage formats share: [u8] as [Byte.byte], the fixed-width
    integers of Rust as [Z] with their ranges, [to_le_bytes] and
    [from_le_bytes], and the codec interface with its round-trip law. *)
From Stdlib Require Export Strings.Byte.
From S2P Require Export Prelude.
Local Open Scope Z_scope.

Abbreviation bytes := (list byte).

#[export] Instance byte_eq_decision : EqDecision byte := Byte.byte_eq_dec.
#[export] Instance byte_inhabited : Inhabited byte := populate x00.
#[export] Instance byte_countable : Countable byte.
Proof.
  apply (inj_countable' Byte.to_N (fun n => default x00 (Byte.of_N n))).
  intros b. by rewrite Byte.of_to_N.
Defined.

(** ** Widths *)
Definition in_u8 (z : Z) : Prop := 0 <= z < 2 ^ 8.
Definition in_u16 (z : Z) : Prop := 0 <= z < 2 ^ 16.
Definition in_u32 (z : Z) : Prop := 0 <= z < 2 ^ 32.
Definition in_u64 (z : Z) : Prop := 0 <= z < 2 ^ 64.
Definition in_i64 (z : Z) : Prop := - 2 ^ 63 <= z < 2 ^ 63.

#[export] Instance in_u8_dec z : Decision (in_u8 z).
Proof. unfold in_u8. apply _. Defined.
#[export] Instance in_u16_dec z : Decision (in_u16 z).
Proof. unfold in_u16. apply _. Defined.
#[export] Instance in_u32_dec z : Decision (in_u32 z).
Proof. unfold in_u32. apply _. Defined.
#[export] Instance in_u64_dec z : Decision (in_u64 z).
Proof. unfold in_u64. apply _. Defined.
#[export] Instance in_i64_dec z : Decision (in_i64 z).
Proof. unfold in_i64. apply _. Defined.

(** [as u16] and [as u32] truncate. *)
Definition as_u16 (z : Z) : Z := z mod 2 ^ 16.
Definition as_u32 (z : Z) : Z := z mod 2 ^ 32.
Definition as_u64 (z : Z) : Z := z mod 2 ^ 64.
(** Two's complement reading of 64 bits. *)
Definition as_i64 (z : Z) : Z :=
  let u := z mod 2 ^ 64 in if u <? 2 ^ 63 then u else u - 2 ^ 64.

(** Unfolds the ranges and decides them. *)
Ltac width :=
  unfold in_u8, in_u16, in_u32, in_u64, in_i64, as_u16, as_u32 in *;
  change (2 ^ 8) with 256 in *; change (2 ^ 16) with 65536 in *;
  change (2 ^ 32) with 4294967296 in *;
  change (2 ^ 63) with 9223372036854775808 in *;
  change (2 ^ 64) with 18446744073709551616 in *; lia.

Lemma as_u16_small z : in_u16 z -> as_u16 z = z.
Proof. intros. apply Z.mod_small. width. Qed.
Lemma as_u32_small z : in_u32 z -> as_u32 z = z.
Proof. intros. apply Z.mod_small. width. Qed.
Lemma as_i64_small z : in_i64 z -> as_i64 (z mod 2 ^ 64) = z.
Proof.
  intros H. unfold as_i64. rewrite Z.mod_mod by done.
  destruct (decide (0 <= z)).
  - rewrite Z.mod_small by width. destruct (Z.ltb_spec z (2 ^ 63)); width.
  - replace (z mod 2 ^ 64) with (z + 2 ^ 64).
    + destruct (Z.ltb_spec (z + 2 ^ 64) (2 ^ 63)); width.
    + symmetry. rewrite <- (Z_mod_plus_full z 1), Z.mul_1_l. apply Z.mod_small. width.
Qed.

(** ** Bytes as numbers *)
Definition Z_of_byte (b : byte) : Z := Z.of_N (Byte.to_N b).
Definition byte_of_Z (z : Z) : byte := default x00 (Byte.of_N (Z.to_N (z mod 256))).

Lemma Z_of_byte_range b : in_u8 (Z_of_byte b).
Proof.
  unfold Z_of_byte. pose proof (Byte.to_N_bounded b). width.
Qed.

Lemma Z_of_byte_of_Z z : Z_of_byte (byte_of_Z z) = z mod 256.
Proof.
  unfold Z_of_byte, byte_of_Z. pose proof (Z.mod_pos_bound z 256 eq_refl).
  destruct (Byte.of_N (Z.to_N (z mod 256))) as [b|] eqn:E.
  - apply Byte.to_of_N in E. simpl. rewrite E. lia.
  - apply Byte.of_N_None_iff in E. lia.
Qed.

Lemma Z_of_byte_inj a b : Z_of_byte a = Z_of_byte b -> a = b.
Proof.
  unfold Z_of_byte. intros H%N2Z.inj.
  pose proof (Byte.of_to_N a) as Ha. rewrite H, Byte.of_to_N in Ha. congruence.
Qed.

Lemma byte_of_Z_of_byte b : byte_of_Z (Z_of_byte b) = b.
Proof.
  apply Z_of_byte_inj. rewrite Z_of_byte_of_Z.
  apply Z.mod_small. apply Z_of_byte_range.
Qed.

(** ** [to_le_bytes] and [from_le_bytes] *)
Fixpoint to_le (n : nat) (z : Z) : bytes :=
  match n with
  | O => []
  | S n => byte_of_Z z :: to_le n (z / 256)
  end.

Fixpoint of_le (l : bytes) : Z :=
  match l with
  | [] => 0
  | b :: l => Z_of_byte b + 256 * of_le l
  end.

Lemma length_to_le n z : length (to_le n z) = n.
Proof. revert z. induction n; intros; simpl; auto. Qed.

Lemma of_le_range l : 0 <= of_le l < 256 ^ Z.of_nat (length l).
Proof.
  induction l as [|b l IH]; simpl of_le; [simpl; lia|].
  pose proof (Z_of_byte_range b) as Hb. unfold in_u8 in Hb.
  simpl length. rewrite Nat2Z.inj_succ, Z.pow_succ_r by lia. lia.
Qed.

Lemma of_to_le n z : of_le (to_le n z) = z mod 256 ^ Z.of_nat n.
Proof.
  revert z. induction n as [|n IH]; intros z; simpl to_le; simpl of_le.
  - by rewrite Z.mod_1_r.
  - rewrite IH, Z_of_byte_of_Z, Nat2Z.inj_succ, Z.pow_succ_r by lia.
    by rewrite Z.rem_mul_r by lia.
Qed.

Lemma to_of_le l : to_le (length l) (of_le l) = l.
Proof.
  induction l as [|b l IH]; [done|]. simpl.
  pose proof (Z_of_byte_range b) as Hb. unfold in_u8 in Hb. f_equal.
  - apply Z_of_byte_inj. rewrite Z_of_byte_of_Z.
    replace (Z_of_byte b + 256 * of_le l) with (Z_of_byte b + of_le l * 256) by lia.
    by rewrite Z_mod_plus_full, Z.mod_small.
  - replace ((Z_of_byte b + 256 * of_le l) / 256) with (of_le l); [done|].
    apply (Z.div_unique _ _ _ (Z_of_byte b)); lia.
Qed.

Lemma of_to_le_u16 z : in_u16 z -> of_le (to_le 2 z) = z.
Proof. intros. rewrite of_to_le. apply Z.mod_small. simpl. width. Qed.
Lemma of_to_le_u32 z : in_u32 z -> of_le (to_le 4 z) = z.
Proof. intros. rewrite of_to_le. apply Z.mod_small. simpl. width. Qed.
Lemma of_to_le_u64 z : in_u64 z -> of_le (to_le 8 z) = z.
Proof. intros. rewrite of_to_le. apply Z.mod_small. simpl. width. Qed.

Lemma of_le_u16 l : length l = 2%nat -> in_u16 (of_le l).
Proof. intros H. pose proof (of_le_range l) as R. rewrite H in R. simpl in R. width. Qed.
Lemma of_le_u32 l : length l = 4%nat -> in_u32 (of_le l).
Proof. intros H. pose proof (of_le_range l) as R. rewrite H in R. simpl in R. width. Qed.
Lemma of_le_u64 l : length l = 8%nat -> in_u64 (of_le l).
Proof. intros H. pose proof (of_le_range l) as R. rewrite H in R. simpl in R. width. Qed.

Create HintDb le.
#[export] Hint Rewrite length_to_le : le.
#[export] Hint Rewrite of_to_le_u16 of_to_le_u32 of_to_le_u64 using (width || done) : le.

(** ** Codecs over a byte cursor

    The decoders of the formats advance an offset into one buffer; here a
    decoder takes the bytes that remain and returns the value with the bytes
    left.  An encoding round-trips when the decoder, run on the encoding
    followed by anything, gives the value and exactly the rest. *)
Definition decoder (A : Type) : Type := bytes -> option (A * bytes).

Class Codec (A : Type) := {
  codec_enc : A -> bytes;
  codec_dec : decoder A;
  codec_ok : A -> Prop;
  codec_roundtrip a rest :
    codec_ok a -> codec_dec (codec_enc a ++ rest) = Some (a, rest);
}.

(** [n] bytes at the cursor. *)
Definition read_n (n : nat) : decoder bytes := fun l =>
  if decide (n <= length l)%nat then Some (take n l, drop n l) else None.

Definition read_le (n : nat) : decoder Z := fun l =>
  '(b, l) ← read_n n l; Some (of_le b, l).

Lemma read_n_app n b rest : length b = n -> read_n n (b ++ rest) = Some (b, rest).
Proof.
  intros <-. unfold read_n. rewrite decide_True by (rewrite length_app; lia).
  by rewrite take_app_length, drop_app_length.
Qed.

Lemma read_le_app n z rest :
  0 <= z < 256 ^ Z.of_nat n -> read_le n (to_le n z ++ rest) = Some (z, rest).
Proof.
  intros. unfold read_le. rewrite read_n_app by apply length_to_le. simpl.
  by rewrite of_to_le, Z.mod_small.
Qed.

Lemma read_le_u16 z rest : in_u16 z -> read_le 2 (to_le 2 z ++ rest) = Some (z, rest).
Proof. intros. apply read_le_app. simpl. width. Qed.
Lemma read_le_u32 z rest : in_u32 z -> read_le 4 (to_le 4 z ++ rest) = Some (z, rest).
Proof. intros. apply read_le_app. simpl. width. Qed.
Lemma read_le_u64 z rest : in_u64 z -> read_le 8 (to_le 8 z ++ rest) = Some (z, rest).
Proof. intros. apply read_le_app. simpl. width. Qed.
