(* ===== verification/Page.v ===== *)
(** * Slotted pages: storage/page.rs

    The page is its 4096 bytes; headers and slot entries are read from and
    written to those bytes as the source does.  [None] is a panic. *)
From S2P Require Export Bytes.
Local Open Scope Z_scope.

Definition PAGE_SIZE : nat := 4096.
Definition PAGE_SIZE_Z : Z := 4096.

(** ** Data *)
Record Rid := mkRid { page_id : Z; slot_id : Z }.

#[export] Instance Rid_eq_decision : EqDecision Rid.
Proof. solve_decision. Defined.
#[export] Instance Rid_countable : Countable Rid.
Proof.
  apply (inj_countable' (fun r => (page_id r, slot_id r)) (fun p => mkRid p.1 p.2)).
  by intros [].
Defined.

Record Slot := mkSlot { offset : Z; slot_len : Z; active : bool }.

Record PageHeader := mkHeader {
  hdr_page_id : Z;
  hdr_num_slots : Z;
  free_space_offset : Z;
  checksum : Z;
}.

Record Page := mkPage { pid : Z; data : bytes; dirty : bool }.

#[export] Instance Slot_eq_decision : EqDecision Slot.
Proof. solve_decision. Defined.
#[export] Instance PageHeader_eq_decision : EqDecision PageHeader.
Proof. solve_decision. Defined.
#[export] Instance Page_eq_decision : EqDecision Page.
Proof. solve_decision. Defined.

(** ** On-disk encodings *)
Definition HEADER_SIZE : nat := 12.
Definition SLOT_SIZE : nat := 5.

Definition PageHeader_to_bytes (h : PageHeader) : bytes :=
  to_le 4 (hdr_page_id h) ++ to_le 2 (hdr_num_slots h) ++
  to_le 2 (free_space_offset h) ++ to_le 4 (checksum h).

Definition PageHeader_from_bytes (buf : bytes) : option PageHeader :=
  a ← slice buf 0 4; b ← slice buf 4 2; c ← slice buf 6 2; d ← slice buf 8 4;
  Some (mkHeader (of_le a) (of_le b) (of_le c) (of_le d)).

Definition Slot_to_bytes (s : Slot) : bytes :=
  to_le 2 (offset s) ++ to_le 2 (slot_len s) ++ [if active s then x01 else x00].

Definition Slot_from_bytes (buf : bytes) : option Slot :=
  a ← slice buf 0 2; b ← slice buf 2 2; c ← buf !! 4%nat;
  Some (mkSlot (of_le a) (of_le b) (negb (bool_decide (c = x00)))).

(** ** Header and slot helpers *)
Definition read_header (p : Page) : option PageHeader :=
  b ← slice (data p) 0 HEADER_SIZE; PageHeader_from_bytes b.

Definition write_header (p : Page) (h : PageHeader) : option Page :=
  d ← splice (data p) 0 (PageHeader_to_bytes h); Some (mkPage (pid p) d (dirty p)).

Definition slot_offset (sid : Z) : nat := HEADER_SIZE + Z.to_nat sid * SLOT_SIZE.

Definition read_slot (p : Page) (sid : Z) : option Slot :=
  b ← slice (data p) (slot_offset sid) SLOT_SIZE; Slot_from_bytes b.

Definition write_slot (p : Page) (sid : Z) (s : Slot) : option Page :=
  d ← splice (data p) (slot_offset sid) (Slot_to_bytes s);
  Some (mkPage (pid p) d (dirty p)).

Definition mark_dirty (p : Page) : Page := mkPage (pid p) (data p) true.

(** ** Public API *)
(** [Page::new]; [write_header] cannot panic on 4096 bytes ([Page_new_ok]). *)
Definition Page_new (id : Z) : Page :=
  let page := mkPage id (replicate PAGE_SIZE x00) true in
  default page (write_header page (mkHeader id 0 (as_u16 PAGE_SIZE_Z) 0)).

Definition Page_from_bytes (id : Z) (d : bytes) : Page := mkPage id d false.

(** The page after the call and the [SlotId], or [None] inside when full. *)
Definition insert_tuple (p : Page) (tuple : bytes) : option (Page * option Z) :=
  header ← read_header p;
  let tuple_len := as_u16 (Z.of_nat (length tuple)) in
  if free_space_offset header <? tuple_len then Some (p, None) (* checked_sub *)
  else
    let new_free_offset := free_space_offset header - tuple_len in
    let slot_area_end := 12 + (hdr_num_slots header + 1) * 5 in
    if new_free_offset <? slot_area_end then Some (p, None)
    else
      d ← splice (data p) (Z.to_nat new_free_offset) tuple;
      let sid := hdr_num_slots header in
      p1 ← write_slot (mkPage (pid p) d (dirty p)) sid
             (mkSlot new_free_offset tuple_len true);
      p2 ← write_header p1
             (mkHeader (hdr_page_id header) (hdr_num_slots header + 1)
                new_free_offset (checksum header));
      Some (mark_dirty p2, Some sid).

(** Outer [None]: panic; inner [None]: the [None] the source returns. *)
Definition get_tuple (p : Page) (sid : Z) : option (option bytes) :=
  header ← read_header p;
  if hdr_num_slots header <=? sid then Some None
  else
    slot ← read_slot p sid;
    if negb (active slot) then Some None
    else
      b ← slice (data p) (Z.to_nat (offset slot)) (Z.to_nat (slot_len slot));
      Some (Some b).

Definition update_tuple (p : Page) (sid : Z) (new_data : bytes) : option (Page * bool) :=
  header ← read_header p;
  if hdr_num_slots header <=? sid then Some (p, false)
  else
    slot ← read_slot p sid;
    if negb (active slot) then Some (p, false)
    else if slot_len slot <? Z.of_nat (length new_data) then Some (p, false)
    else
      d ← splice (data p) (Z.to_nat (offset slot)) new_data;
      Some (mkPage (pid p) d true, true).

Definition delete_tuple (p : Page) (sid : Z) : option (Page * bool) :=
  header ← read_header p;
  if hdr_num_slots header <=? sid then Some (p, false)
  else
    slot ← read_slot p sid;
    if negb (active slot) then Some (p, false)
    else
      p1 ← write_slot p sid (mkSlot (offset slot) (slot_len slot) false);
      Some (mark_dirty p1, true).

Definition free_space (p : Page) : option Z :=
  header ← read_header p;
  let slot_area_end := 12 + hdr_num_slots header * 5 in
  Some (Z.max 0 (free_space_offset header - slot_area_end)). (* saturating_sub *)

Definition num_slots (p : Page) : option Z := hdr_num_slots <$> read_header p.

(** ** Checksums

    [crc32fast::Hasher] is a library the repository only calls: the model
    takes its digest of a byte string, a [u32]. *)
Class Crc32 := {
  crc32 : bytes -> Z;
  crc32_u32 b : in_u32 (crc32 b);
}.

Section Checksum.
Context `{Crc32}.

Definition finalize_checksum (p : Page) : option Page :=
  header ← read_header p;
  let zero := mkHeader (hdr_page_id header) (hdr_num_slots header)
                (free_space_offset header) 0 in
  p1 ← write_header p zero;
  write_header p1 (mkHeader (hdr_page_id header) (hdr_num_slots header)
                     (free_space_offset header) (crc32 (data p1))).

Definition verify_checksum (p : Page) : option bool :=
  header ← read_header p;
  temp ← splice (data p) 8 [x00; x00; x00; x00];
  Some (bool_decide (crc32 temp = checksum header)).
End Checksum.

#[global] Arguments read_header : simpl never.
#[global] Arguments write_header : simpl never.
#[global] Arguments read_slot : simpl never.
#[global] Arguments write_slot : simpl never.

(** ** Encodings round-trip *)
Definition header_ok (h : PageHeader) : Prop :=
  in_u32 (hdr_page_id h) /\ in_u16 (hdr_num_slots h) /\
  in_u16 (free_space_offset h) /\ in_u32 (checksum h).

Definition slot_ok (s : Slot) : Prop := in_u16 (offset s) /\ in_u16 (slot_len s).

Lemma length_PageHeader_to_bytes h : length (PageHeader_to_bytes h) = HEADER_SIZE.
Proof. done. Qed.

Lemma length_Slot_to_bytes s : length (Slot_to_bytes s) = SLOT_SIZE.
Proof. by destruct s as [? ? []]. Qed.

Lemma PageHeader_roundtrip h :
  header_ok h -> PageHeader_from_bytes (PageHeader_to_bytes h) = Some h.
Proof.
  destruct h as [a b c d]. intros (?&?&?&?); simpl in *.
  transitivity (Some (mkHeader (of_le (to_le 4 a)) (of_le (to_le 2 b))
                        (of_le (to_le 2 c)) (of_le (to_le 4 d)))); [done|].
  by autorewrite with le.
Qed.

Lemma Slot_roundtrip s : slot_ok s -> Slot_from_bytes (Slot_to_bytes s) = Some s.
Proof.
  destruct s as [a b c]. intros [??]; simpl in *.
  transitivity (Some (mkSlot (of_le (to_le 2 a)) (of_le (to_le 2 b)) c)).
  - by destruct c.
  - by autorewrite with le.
Qed.

Lemma PageHeader_from_bytes_ok buf h : PageHeader_from_bytes buf = Some h -> header_ok h.
Proof.
  unfold PageHeader_from_bytes. intros H. simplify_option_eq.
  repeat match goal with Hs : slice _ _ _ = Some _ |- _ => apply slice_length in Hs end.
  refine (conj _ (conj _ (conj _ _))); simpl; by (apply of_le_u32 || apply of_le_u16).
Qed.

(** ** What each write leaves readable *)
Section Frame.
Implicit Types p : Page.

Lemma read_header_ok p h : read_header p = Some h -> header_ok h.
Proof.
  unfold read_header. intros H. simplify_option_eq. by eapply PageHeader_from_bytes_ok.
Qed.

Lemma read_header_frame p p' off b :
  splice (data p) off b = Some (data p') -> (HEADER_SIZE <= off)%nat ->
  read_header p' = read_header p.
Proof.
  intros H ?. unfold read_header.
  by rewrite (slice_splice_other _ _ _ _ 0 HEADER_SIZE H) by lia.
Qed.

Lemma read_slot_frame p p' off b i :
  splice (data p) off b = Some (data p') ->
  (slot_offset i + SLOT_SIZE <= off \/ off + length b <= slot_offset i)%nat ->
  read_slot p' i = read_slot p i.
Proof.
  intros H ?. unfold read_slot.
  by rewrite (slice_splice_other _ _ _ _ _ SLOT_SIZE H) by lia.
Qed.

Lemma write_header_ok p h :
  (HEADER_SIZE <= length (data p))%nat -> is_Some (write_header p h).
Proof.
  intros. unfold write_header.
  destruct (splice_ok (data p) 0 (PageHeader_to_bytes h)) as [d ->]; [done|].
  by eexists.
Qed.

Lemma write_header_data p h p' :
  write_header p h = Some p' ->
  splice (data p) 0 (PageHeader_to_bytes h) = Some (data p') /\
  pid p' = pid p /\ dirty p' = dirty p.
Proof. unfold write_header. intros. by simplify_option_eq. Qed.

Lemma write_header_read p h p' :
  write_header p h = Some p' -> header_ok h -> read_header p' = Some h.
Proof.
  intros [H _]%write_header_data ?. unfold read_header.
  change HEADER_SIZE with (length (PageHeader_to_bytes h)).
  rewrite (slice_splice_same _ _ _ _ H). simpl. by apply PageHeader_roundtrip.
Qed.

Lemma write_header_read_slot p h p' i :
  write_header p h = Some p' -> read_slot p' i = read_slot p i.
Proof.
  intros [H _]%write_header_data. apply (read_slot_frame _ _ _ _ _ H).
  right. rewrite length_PageHeader_to_bytes. unfold slot_offset. lia.
Qed.

Lemma write_slot_ok p i s :
  (slot_offset i + SLOT_SIZE <= length (data p))%nat -> is_Some (write_slot p i s).
Proof.
  intros. unfold write_slot.
  destruct (splice_ok (data p) (slot_offset i) (Slot_to_bytes s)) as [d ->];
    [by rewrite length_Slot_to_bytes|]. by eexists.
Qed.

Lemma write_slot_data p i s p' :
  write_slot p i s = Some p' ->
  splice (data p) (slot_offset i) (Slot_to_bytes s) = Some (data p') /\
  pid p' = pid p /\ dirty p' = dirty p.
Proof. unfold write_slot. intros. by simplify_option_eq. Qed.

Lemma write_slot_read_header p i s p' :
  write_slot p i s = Some p' -> read_header p' = read_header p.
Proof.
  intros [H _]%write_slot_data. apply (read_header_frame _ _ _ _ H).
  unfold slot_offset. lia.
Qed.

Lemma write_slot_read_same p i s p' :
  write_slot p i s = Some p' -> slot_ok s -> read_slot p' i = Some s.
Proof.
  intros [H _]%write_slot_data ?. unfold read_slot.
  rewrite <- (length_Slot_to_bytes s), (slice_splice_same _ _ _ _ H). simpl.
  by apply Slot_roundtrip.
Qed.

Lemma write_slot_read_other p i s p' j :
  write_slot p i s = Some p' -> 0 <= i -> 0 <= j -> i <> j ->
  read_slot p' j = read_slot p j.
Proof.
  intros [H _]%write_slot_data ???. apply (read_slot_frame _ _ _ _ _ H).
  rewrite length_Slot_to_bytes. unfold slot_offset, SLOT_SIZE. lia.
Qed.

Lemma read_slot_ok p i s : read_slot p i = Some s -> slot_ok s.
Proof.
  unfold read_slot, Slot_from_bytes. intros H. simplify_option_eq;
    repeat match goal with Hs : slice _ _ _ = Some _ |- _ => apply slice_length in Hs end;
    split; by apply of_le_u16.
Qed.
End Frame.

(** ** The layout invariant

    Slot entries grow from the header, tuples from the end of the page; the
    tuple of a later slot ends where that of an earlier one starts, or before. *)
Definition cell (d : bytes) (s : Slot) (x : option bytes) : Prop :=
  if active s
  then slice d (Z.to_nat (offset s)) (Z.to_nat (slot_len s)) = x /\ is_Some x
  else x = None.

Record layout (p : Page) (h : PageHeader) (ss : list Slot) : Prop := {
  lay_len : length (data p) = PAGE_SIZE;
  lay_hdr : read_header p = Some h;
  lay_num : hdr_num_slots h = Z.of_nat (length ss);
  lay_room : 12 + 5 * Z.of_nat (length ss) <= free_space_offset h <= PAGE_SIZE_Z;
  lay_slot i s : ss !! i = Some s -> read_slot p (Z.of_nat i) = Some s;
  lay_in i s : ss !! i = Some s ->
    free_space_offset h <= offset s /\ offset s + slot_len s <= PAGE_SIZE_Z;
  lay_order i j si sj : (i < j)%nat -> ss !! i = Some si -> ss !! j = Some sj ->
    offset sj + slot_len sj <= offset si;
}.

(** The tuples a page holds, by slot, with [None] for a tombstone, and the
    bytes left for one more tuple and its slot entry. *)
Record spec_page := mkSpec { cells : list (option bytes); room : Z }.

Definition page_rep (p : Page) (a : spec_page) : Prop :=
  exists h ss, layout p h ss /\ Forall2 (cell (data p)) ss (cells a) /\
    room a = free_space_offset h - (12 + 5 * Z.of_nat (length ss)).

(** The most a page has room for. *)
Definition PAGE_ROOM : Z := 4084.

Definition page_ok (p : Page) : Prop := exists a, page_rep p a.

(** The abstract page operations. *)
Definition spec_new : spec_page := mkSpec [] (4096 - 12).

Definition spec_insert (a : spec_page) (t : bytes) : spec_page * option Z :=
  let need := Z.of_nat (length t) + 5 in
  if room a <? need then (a, None)
  else (mkSpec (cells a ++ [Some t]) (room a - need), Some (Z.of_nat (length (cells a)))).

Definition spec_get (a : spec_page) (i : Z) : option bytes :=
  default None (cells a !! Z.to_nat i).

Definition spec_update (a : spec_page) (i : Z) (new : bytes) : spec_page * bool :=
  match spec_get a i with
  | Some old =>
      if (length new <=? length old)%nat
      then (mkSpec (<[Z.to_nat i := Some (new ++ drop (length new) old)]> (cells a)) (room a), true)
      else (a, false)
  | None => (a, false)
  end.

Definition spec_delete (a : spec_page) (i : Z) : spec_page * bool :=
  match spec_get a i with
  | Some _ => (mkSpec (<[Z.to_nat i := None]> (cells a)) (room a), true)
  | None => (a, false)
  end.

(** ** Facts about laid out pages *)
Section Layout.
Implicit Types (p : Page) (h : PageHeader) (ss : list Slot).

Lemma slot_offset_fits p h ss i :
  layout p h ss -> (i <= length ss)%nat ->
  12 + 5 * Z.of_nat i + 5 <= free_space_offset h ->
  (slot_offset (Z.of_nat i) + SLOT_SIZE <= Z.to_nat (free_space_offset h))%nat.
Proof. intros. unfold slot_offset, HEADER_SIZE, SLOT_SIZE. lia. Qed.

Lemma slot_ranges p h ss i s :
  layout p h ss -> ss !! i = Some s -> in_u16 (offset s) /\ in_u16 (slot_len s).
Proof. intros HL Hs. by apply (read_slot_ok p (Z.of_nat i)), (lay_slot _ _ _ HL). Qed.

Lemma lookup_slots_None ss i : Z.of_nat (length ss) <= i -> ss !! Z.to_nat i = None.
Proof. intros. apply lookup_ge_None. lia. Qed.

Lemma lookup_slots_lt ss i :
  0 <= i -> i < Z.of_nat (length ss) -> is_Some (ss !! Z.to_nat i).
Proof. intros. apply lookup_lt_is_Some. lia. Qed.

(** A cell's bytes do not change when a range clear of its tuple is written. *)
Lemma cell_frame d d' off b s x :
  splice d off b = Some d' -> in_u16 (offset s) -> in_u16 (slot_len s) ->
  (Z.of_nat off + Z.of_nat (length b) <= offset s \/
   offset s + slot_len s <= Z.of_nat off) ->
  cell d s x -> cell d' s x.
Proof.
  intros H ?? Hd. unfold cell. destruct (active s); [|done].
  rewrite (slice_splice_other _ _ _ _ _ _ H); [done|]. width.
Qed.

Lemma Forall2_cell_frame d d' off b ss l :
  splice d off b = Some d' ->
  (forall i s, ss !! i = Some s -> in_u16 (offset s) /\ in_u16 (slot_len s) /\
    (Z.of_nat off + Z.of_nat (length b) <= offset s \/
     offset s + slot_len s <= Z.of_nat off)) ->
  Forall2 (cell d) ss l -> Forall2 (cell d') ss l.
Proof.
  intros H Hs. rewrite !Forall2_lookup. intros HF i. specialize (HF i).
  destruct (ss !! i) as [s|] eqn:E; inversion HF; subst; constructor.
  destruct (Hs _ _ E) as (?&?&?). by eapply cell_frame.
Qed.

(** Writing the slot area or the header leaves every tuple. *)
Lemma Forall2_cell_low p d' off b h ss l :
  layout p h ss -> splice (data p) off b = Some d' ->
  Z.of_nat off + Z.of_nat (length b) <= free_space_offset h ->
  Forall2 (cell (data p)) ss l -> Forall2 (cell d') ss l.
Proof.
  intros HL H Hb. apply (Forall2_cell_frame _ _ _ _ _ _ H). intros i s Hs.
  destruct (slot_ranges _ _ _ _ _ HL Hs). destruct (lay_in _ _ _ HL _ _ Hs).
  split_and!; [done..|left; lia].
Qed.

(** Two writes below the tuples, as insertion and deletion make. *)
Lemma Forall2_cell_low2 d d1 d2 o1 b1 o2 b2 ss f l :
  splice d o1 b1 = Some d1 -> splice d1 o2 b2 = Some d2 ->
  Z.of_nat o1 + Z.of_nat (length b1) <= f -> Z.of_nat o2 + Z.of_nat (length b2) <= f ->
  (forall i s, ss !! i = Some s -> in_u16 (offset s) /\ in_u16 (slot_len s) /\ f <= offset s) ->
  Forall2 (cell d) ss l -> Forall2 (cell d2) ss l.
Proof.
  intros H1 H2 ?? Hs HF.
  eapply Forall2_cell_frame, Forall2_cell_frame, HF; [exact H2| |exact H1|];
    intros i s Hi; destruct (Hs _ _ Hi) as (?&?&?); split_and!; try done; left; lia.
Qed.
End Layout.

Lemma PAGE_SIZE_of_nat : Z.of_nat PAGE_SIZE = 4096.
Proof. reflexivity. Qed.

Create HintDb page.
#[export] Hint Resolve lay_len lay_hdr : page.

(** ** Each operation refines its abstract counterpart *)
Section Refinement.
Implicit Types (p : Page) (h : PageHeader) (ss : list Slot).

Lemma layout_mark_dirty p h ss : layout p h ss -> layout (mark_dirty p) h ss.
Proof. intros []. by constructor. Qed.

Lemma layout_new id : in_u32 id -> layout (Page_new id) (mkHeader id 0 4096 0) [].
Proof.
  intros Hid. unfold Page_new.
  set (p0 := mkPage id (replicate PAGE_SIZE x00) true).
  assert (Hl : length (data p0) = PAGE_SIZE) by apply length_replicate.
  change (as_u16 PAGE_SIZE_Z) with 4096.
  destruct (write_header_ok p0 (mkHeader id 0 4096 0)) as [p Hp].
  { rewrite Hl. unfold HEADER_SIZE. pose proof PAGE_SIZE_of_nat. lia. }
  rewrite Hp. simpl. constructor; try done.
  - apply write_header_data in Hp as [Hp _]. by rewrite (splice_length _ _ _ _ Hp).
  - apply (write_header_read _ _ _ Hp). by repeat split; simpl; try width.
Qed.

(** The three writes of a successful insertion. *)
Lemma insert_layout p h ss t d p1 p2 f' :
  layout p h ss ->
  f' = free_space_offset h - Z.of_nat (length t) ->
  12 + (Z.of_nat (length ss) + 1) * 5 <= f' -> in_u16 (Z.of_nat (length t)) ->
  splice (data p) (Z.to_nat f') t = Some d ->
  write_slot (mkPage (pid p) d (dirty p)) (Z.of_nat (length ss))
    (mkSlot f' (Z.of_nat (length t)) true) = Some p1 ->
  write_header p1 (mkHeader (hdr_page_id h) (hdr_num_slots h + 1) f' (checksum h))
    = Some p2 ->
  layout p2 (mkHeader (hdr_page_id h) (hdr_num_slots h + 1) f' (checksum h))
    (ss ++ [mkSlot f' (Z.of_nat (length t)) true]).
Proof.
  intros HL Hf Hroom Ht Hd H1 H2.
  pose proof (lay_room _ _ _ HL) as HR. pose proof (lay_num _ _ _ HL) as HN.
  unfold PAGE_SIZE_Z in HR.
  destruct (read_header_ok _ _ (lay_hdr _ _ _ HL)) as (?&?&?&?).
  assert (Hslot : forall i s, ss !! i = Some s -> read_slot p2 (Z.of_nat i) = Some s).
  { intros i s Hs. pose proof (lookup_lt_Some _ _ _ Hs).
    rewrite (write_header_read_slot _ _ _ _ H2).
    rewrite (write_slot_read_other _ _ _ _ _ H1) by lia.
    rewrite <- (lay_slot _ _ _ HL _ _ Hs). eapply read_slot_frame; [exact Hd|].
    left. unfold slot_offset, HEADER_SIZE, SLOT_SIZE. lia. }
  assert (Hnew : read_slot p2 (Z.of_nat (length ss))
                 = Some (mkSlot f' (Z.of_nat (length t)) true)).
  { rewrite (write_header_read_slot _ _ _ _ H2).
    apply (write_slot_read_same _ _ _ _ H1). split; simpl; width. }
  constructor; simpl.
  - apply write_header_data in H2 as [H2 _]. apply write_slot_data in H1 as [H1 _].
    rewrite (splice_length _ _ _ _ H2), (splice_length _ _ _ _ H1); simpl.
    rewrite (splice_length _ _ _ _ Hd). eauto with page.
  - apply (write_header_read _ _ _ H2). split_and!; simpl; width.
  - rewrite length_app. simpl. lia.
  - rewrite length_app. simpl. unfold PAGE_SIZE_Z. lia.
  - intros i s [[_ Hs]|[-> <-]]%lookup_snoc_Some; [by apply Hslot|exact Hnew].
  - intros i s [[_ Hs]|[-> <-]]%lookup_snoc_Some; simpl; [|unfold PAGE_SIZE_Z; lia].
    destruct (lay_in _ _ _ HL _ _ Hs). lia.
  - intros i j si sj Hij Hi [[_ Hj]|[-> <-]]%lookup_snoc_Some; simpl.
    + rewrite lookup_app_l in Hi by (apply lookup_lt_Some in Hj; lia).
      by apply (lay_order _ _ _ HL i j).
    + rewrite lookup_app_l in Hi by lia. destruct (lay_in _ _ _ HL _ _ Hi). lia.
Qed.

Lemma insert_refines p a t :
  page_rep p a -> in_u16 (Z.of_nat (length t)) ->
  exists p', insert_tuple p t = Some (p', (spec_insert a t).2) /\
    page_rep p' (spec_insert a t).1 /\ pid p' = pid p.
Proof.
  intros (h & ss & HL & HF & Hroom) Ht.
  pose proof (lay_room _ _ _ HL) as HR. pose proof (lay_num _ _ _ HL) as HN.
  unfold PAGE_SIZE_Z in HR. pose proof PAGE_SIZE_of_nat as HP.
  pose proof (Forall2_length _ _ _ HF) as Hlen.
  unfold insert_tuple, spec_insert. rewrite (lay_hdr _ _ _ HL). simpl.
  rewrite as_u16_small by done.
  destruct (Z.ltb_spec (free_space_offset h) (Z.of_nat (length t)));
    [|destruct (Z.ltb_spec (free_space_offset h - Z.of_nat (length t))
                 (12 + (hdr_num_slots h + 1) * 5))].
  1-2: rewrite (proj2 (Z.ltb_lt _ _)) by lia; exists p; split_and!; [done| |done];
       exists h, ss; done.
  rewrite (proj2 (Z.ltb_ge _ _)) by lia. simpl.
  set (f' := free_space_offset h - Z.of_nat (length t)) in *.
  destruct (splice_ok (data p) (Z.to_nat f') t) as [d Hd].
  { rewrite (lay_len _ _ _ HL). lia. }
  rewrite Hd. simpl. rewrite HN.
  destruct (write_slot_ok (mkPage (pid p) d (dirty p)) (Z.of_nat (length ss))
              (mkSlot f' (Z.of_nat (length t)) true)) as [p1 H1]; simpl.
  { rewrite (splice_length _ _ _ _ Hd), (lay_len _ _ _ HL).
    unfold slot_offset, HEADER_SIZE, SLOT_SIZE. lia. }
  rewrite H1. simpl.
  destruct (write_slot_data _ _ _ _ H1) as (Hd1 & Hp1 & _). simpl in *.
  assert (Hl1 : length (data p1) = PAGE_SIZE).
  { rewrite (splice_length _ _ _ _ Hd1), (splice_length _ _ _ _ Hd). eauto with page. }
  destruct (write_header_ok p1 (mkHeader (hdr_page_id h) (Z.of_nat (length ss) + 1) f'
              (checksum h))) as [p2 H2].
  { rewrite Hl1. unfold HEADER_SIZE. lia. }
  rewrite H2. simpl. rewrite Hlen. eexists. split; [done|].
  destruct (write_header_data _ _ _ H2) as (Hd2 & Hp2 & _).
  split; [|by simpl; rewrite Hp2, Hp1].
  rewrite <- HN in H2.
  pose proof (insert_layout _ _ _ _ _ _ _ f' HL eq_refl ltac:(lia) Ht Hd H1 H2) as HL2.
  eexists _, _. split; [by apply layout_mark_dirty, HL2|].
  split; [|rewrite length_app; simpl; lia]. simpl.
  apply (Forall2_cell_low2 d (data p1) _ _ _ _ _ _ f' _ Hd1 Hd2).
  { rewrite length_Slot_to_bytes. unfold slot_offset, HEADER_SIZE, SLOT_SIZE. lia. }
  { rewrite length_PageHeader_to_bytes. unfold HEADER_SIZE. lia. }
  { intros i s [[_ Hs]|[-> <-]]%lookup_snoc_Some; simpl; [|width].
    destruct (lay_in _ _ _ HL _ _ Hs), (slot_ranges _ _ _ _ _ HL Hs). split_and!; try done; lia. }
  apply Forall2_app.
  - apply (Forall2_cell_frame _ _ _ _ _ _ Hd); [|done]. intros i s Hs.
    destruct (lay_in _ _ _ HL _ _ Hs), (slot_ranges _ _ _ _ _ HL Hs).
    split_and!; try done. left. lia.
  - repeat constructor; simpl; [|done].
    rewrite Nat2Z.id. by apply (slice_splice_same _ _ _ _ Hd).
Qed.
End Refinement.

Section Access.
Implicit Types (p : Page) (h : PageHeader) (ss : list Slot).

(** The three cases of a slot access, as every accessor distinguishes them:
    past the directory, a tombstone, or a tuple. *)
Lemma rep_access p a sid :
  page_rep p a -> 0 <= sid ->
  exists h ss, layout p h ss /\ Forall2 (cell (data p)) ss (cells a) /\
    room a = free_space_offset h - (12 + 5 * Z.of_nat (length ss)) /\
    ((hdr_num_slots h <= sid /\ cells a !! Z.to_nat sid = None) \/
     (sid < hdr_num_slots h /\ exists s, ss !! Z.to_nat sid = Some s /\
        read_slot p sid = Some s /\
        ((active s = false /\ cells a !! Z.to_nat sid = Some None) \/
         (active s = true /\ exists b, cells a !! Z.to_nat sid = Some (Some b) /\
            slice (data p) (Z.to_nat (offset s)) (Z.to_nat (slot_len s)) = Some b)))).
Proof.
  intros (h & ss & HL & HF & Hroom) Hsid. exists h, ss. split_and!; [done..|].
  rewrite (lay_num _ _ _ HL). destruct (decide (Z.of_nat (length ss) <= sid)).
  - left. split; [done|]. apply lookup_ge_None. rewrite <- (Forall2_length _ _ _ HF). lia.
  - right. split; [lia|]. destruct (lookup_slots_lt ss sid) as [s Hs]; [lia..|].
    exists s. split; [done|]. split.
    { rewrite <- (lay_slot _ _ _ HL _ _ Hs). f_equal. lia. }
    destruct (Forall2_lookup_l _ _ _ _ _ HF Hs) as (x & Hx & Hc).
    unfold cell in Hc. destruct (active s).
    + right. split; [done|]. destruct Hc as [Hc [b ->]]. eauto.
    + left. by subst.
Qed.

Ltac access Hrep :=
  destruct (rep_access _ _ _ Hrep ltac:(eassumption))
    as (h & ss & HL & HF & Hroom & [[Hge Hnone]|(Hlt & s & Hs & Hread & [[Hact Hc]|(Hact & b & Hc & Hsl)])]);
  rewrite (lay_hdr _ _ _ HL); simpl;
  [ rewrite (proj2 (Z.leb_le _ _) Hge), ?Hnone
  | rewrite (proj2 (Z.leb_gt _ _) Hlt), Hread, ?Hc; simpl; rewrite Hact
  | rewrite (proj2 (Z.leb_gt _ _) Hlt), Hread, ?Hc; simpl; rewrite Hact ]; simpl.

Lemma get_refines p a sid :
  page_rep p a -> 0 <= sid -> get_tuple p sid = Some (spec_get a sid).
Proof.
  intros Hrep Hsid. unfold get_tuple, spec_get. access Hrep; [done..|].
  by rewrite Hsl.
Qed.

Lemma num_slots_refines p a :
  page_rep p a -> num_slots p = Some (Z.of_nat (length (cells a))).
Proof.
  intros (h & ss & HL & HF & _). unfold num_slots. rewrite (lay_hdr _ _ _ HL). simpl.
  by rewrite (lay_num _ _ _ HL), (Forall2_length _ _ _ HF).
Qed.

Lemma free_space_refines p a : page_rep p a -> free_space p = Some (room a).
Proof.
  intros (h & ss & HL & HF & Hroom). unfold free_space. rewrite (lay_hdr _ _ _ HL). simpl.
  pose proof (lay_room _ _ _ HL). rewrite (lay_num _ _ _ HL), Hroom. f_equal. lia.
Qed.

(** Replacing one slot entry by a tombstone keeps the layout. *)
Lemma delete_layout p h ss i s p1 :
  layout p h ss -> ss !! i = Some s ->
  write_slot p (Z.of_nat i) (mkSlot (offset s) (slot_len s) false) = Some p1 ->
  layout p1 h (<[i := mkSlot (offset s) (slot_len s) false]> ss).
Proof.
  intros HL Hi H1. pose proof (lookup_lt_Some _ _ _ Hi).
  assert (Hget : forall j sj, <[i := mkSlot (offset s) (slot_len s) false]> ss !! j = Some sj ->
    exists sj', ss !! j = Some sj' /\ offset sj = offset sj' /\ slot_len sj = slot_len sj').
  { intros j sj Hj. apply list_lookup_insert_Some in Hj as [(<- & <- & _)|[_ ?]]; eauto. }
  constructor.
  - destruct (write_slot_data _ _ _ _ H1) as [Hd _].
    rewrite (splice_length _ _ _ _ Hd). eauto with page.
  - rewrite (write_slot_read_header _ _ _ _ H1). eauto with page.
  - rewrite length_insert. apply (lay_num _ _ _ HL).
  - rewrite length_insert. apply (lay_room _ _ _ HL).
  - intros j sj [(<- & <- & _)|[Hne Hj]]%list_lookup_insert_Some.
    + apply (write_slot_read_same _ _ _ _ H1).
      destruct (slot_ranges _ _ _ _ _ HL Hi). by split.
    + rewrite (write_slot_read_other _ _ _ _ _ H1) by lia. by apply (lay_slot _ _ _ HL).
  - intros j sj (sj' & Hj & -> & ->)%Hget. by apply (lay_in _ _ _ HL j).
  - intros j k sj sk Hjk (sj' & Hj & -> & _)%Hget (sk' & Hk & -> & ->)%Hget.
    by apply (lay_order _ _ _ HL j k).
Qed.

Lemma delete_refines p a sid :
  page_rep p a -> 0 <= sid ->
  exists p', delete_tuple p sid = Some (p', (spec_delete a sid).2) /\
    page_rep p' (spec_delete a sid).1 /\ pid p' = pid p.
Proof.
  intros Hrep Hsid. unfold delete_tuple, spec_delete, spec_get. access Hrep; [eauto..|].
  pose proof (lookup_lt_Some _ _ _ Hs) as Hlen. pose proof PAGE_SIZE_of_nat.
  assert (Hfit : (slot_offset sid + SLOT_SIZE <= Z.to_nat (free_space_offset h))%nat).
  { pose proof (lay_room _ _ _ HL). unfold slot_offset, HEADER_SIZE, SLOT_SIZE. lia. }
  pose proof (lay_room _ _ _ HL) as HR. unfold PAGE_SIZE_Z in HR.
  destruct (write_slot_ok p sid (mkSlot (offset s) (slot_len s) false)) as [p1 H1].
  { rewrite (lay_len _ _ _ HL). lia. }
  rewrite H1. simpl. destruct (write_slot_data _ _ _ _ H1) as (Hd & Hp & _).
  eexists. split; [done|]. split; [|done].
  replace sid with (Z.of_nat (Z.to_nat sid)) in H1 by lia.
  eexists _, _. split; [by apply layout_mark_dirty, (delete_layout _ _ _ _ _ _ HL Hs)|].
  split; [|rewrite length_insert; exact Hroom]. simpl.
  apply Forall2_insert; [|done].
  apply (Forall2_cell_low _ _ _ _ _ _ _ HL Hd); [|done].
  rewrite length_Slot_to_bytes. lia.
Qed.

(** Overwriting a prefix of a live tuple. *)
Lemma update_layout p h ss i s new d :
  layout p h ss -> ss !! i = Some s ->
  Z.of_nat (length new) <= slot_len s ->
  splice (data p) (Z.to_nat (offset s)) new = Some d ->
  layout (mkPage (pid p) d true) h ss.
Proof.
  intros HL Hi Hlen Hd.
  pose proof (lay_room _ _ _ HL) as HR. unfold PAGE_SIZE_Z in HR.
  destruct (lay_in _ _ _ HL _ _ Hi) as [Hin _].
  constructor; simpl; try apply HL.
  - rewrite (splice_length _ _ _ _ Hd). eauto with page.
  - rewrite (read_header_frame p (mkPage (pid p) d true) _ _ Hd) by (unfold HEADER_SIZE; lia).
    eauto with page.
  - intros j sj Hj. pose proof (lookup_lt_Some _ _ _ Hj).
    rewrite (read_slot_frame p (mkPage (pid p) d true) _ _ _ Hd)
      by (left; unfold slot_offset, HEADER_SIZE, SLOT_SIZE; lia).
    by apply (lay_slot _ _ _ HL).
Qed.

Lemma update_refines p a sid new :
  page_rep p a -> 0 <= sid ->
  exists p', update_tuple p sid new = Some (p', (spec_update a sid new).2) /\
    page_rep p' (spec_update a sid new).1 /\ pid p' = pid p.
Proof.
  intros Hrep Hsid. unfold update_tuple, spec_update, spec_get. access Hrep; [eauto..|].
  pose proof (slice_length _ _ _ _ Hsl) as Hb.
  destruct (slot_ranges _ _ _ _ _ HL Hs) as [Ho Hl].
  pose proof PAGE_SIZE_of_nat. destruct (lay_in _ _ _ HL _ _ Hs) as [Hin1 Hin2].
  destruct (Z.ltb_spec (slot_len s) (Z.of_nat (length new))).
  { rewrite (proj2 (Nat.leb_gt _ _)) by width. eauto. }
  rewrite (proj2 (Nat.leb_le _ _)) by width.
  destruct (splice_ok (data p) (Z.to_nat (offset s)) new) as [d Hd].
  { rewrite (lay_len _ _ _ HL). unfold PAGE_SIZE_Z in *. width. }
  rewrite Hd. simpl. eexists. split; [done|]. split; [|done].
  exists h, ss. split; [by eapply update_layout|]. split; [|done]. simpl.
  apply Forall2_lookup. intros j. rewrite Forall2_lookup in HF. specialize (HF j).
  destruct (decide (j = Z.to_nat sid)) as [->|Hne].
  - rewrite list_lookup_insert_eq by (eapply lookup_lt_Some; eauto). rewrite Hs.
    constructor. unfold cell. rewrite Hact. split; [|done].
    apply (slice_splice_prefix _ _ _ _ _ _ Hd); [|done]. width.
  - rewrite list_lookup_insert_ne by done.
    destruct (ss !! j) as [sj|] eqn:E; inversion HF as [? ? Hcell|]; subst; constructor.
    destruct (slot_ranges _ _ _ _ _ HL E). apply (cell_frame _ _ _ _ _ _ Hd); try done.
    destruct (decide (j < Z.to_nat sid)%nat).
    + pose proof (lay_order _ _ _ HL j (Z.to_nat sid) _ _ ltac:(done) E Hs). width.
    + pose proof (lay_order _ _ _ HL (Z.to_nat sid) j _ _ ltac:(lia) Hs E). width.
Qed.
End Access.

Definition with_checksum (h : PageHeader) (c : Z) : PageHeader :=
  mkHeader (hdr_page_id h) (hdr_num_slots h) (free_space_offset h) c.

Section ChecksumFacts.
Context `{Crc32}.
Implicit Types (p : Page) (h : PageHeader) (ss : list Slot).

Lemma rep_write_checksum p a h c p' :
  page_rep p a -> read_header p = Some h -> in_u32 c ->
  write_header p (with_checksum h c) = Some p' -> page_rep p' a.
Proof.
  intros (h' & ss & HL & HF & Hroom) Hh Hc Hw.
  assert (h' = h) as -> by (pose proof (lay_hdr _ _ _ HL); congruence).
  destruct (read_header_ok _ _ Hh) as (?&?&?&?).
  destruct (write_header_data _ _ _ Hw) as [Hd _].
  exists (with_checksum h c), ss. split_and!; [|by eapply (Forall2_cell_low _ _ 0); eauto;
    rewrite length_PageHeader_to_bytes; pose proof (lay_room _ _ _ HL); unfold HEADER_SIZE; lia|done].
  constructor; simpl; try apply HL.
  - rewrite (splice_length _ _ _ _ Hd). eauto with page.
  - apply (write_header_read _ _ _ Hw). by repeat split_and.
  - intros i s Hs. rewrite (write_header_read_slot _ _ _ _ Hw). by apply (lay_slot _ _ _ HL).
Qed.

(** Zeroing the checksum field of a page gives the bytes of the page whose
    header has checksum 0. *)
Lemma zero_checksum_bytes d h c d1 :
  splice d 0 (PageHeader_to_bytes (with_checksum h c)) = Some d1 ->
  splice d1 8 [x00; x00; x00; x00] = splice d 0 (PageHeader_to_bytes (with_checksum h 0)).
Proof.
  intros H1. pose proof (splice_length _ _ _ _ H1) as Hl.
  apply splice_Some in H1 as H1'. rewrite length_PageHeader_to_bytes in H1'.
  unfold HEADER_SIZE in H1'. destruct H1' as [Hle _].
  destruct (splice_ok d1 8 [x00; x00; x00; x00]) as [d2 H2]; [simpl; lia|].
  destruct (splice_ok d 0 (PageHeader_to_bytes (with_checksum h 0))) as [d3 H3].
  { rewrite length_PageHeader_to_bytes. unfold HEADER_SIZE. lia. }
  rewrite H2, H3. f_equal. apply list_eq. intros i.
  rewrite (splice_lookup _ _ _ _ i H2), (splice_lookup _ _ _ _ i H1), (splice_lookup _ _ _ _ i H3).
  rewrite !length_PageHeader_to_bytes. simpl length. unfold HEADER_SIZE.
  destruct (decide (i < 12)%nat).
  - rewrite !(decide_True (P := (0 <= i < 0 + 12)%nat)) by lia.
    do 12 (destruct i as [|i]; [done|]). lia.
  - by rewrite !decide_False by lia.
Qed.

Lemma finalize_checksum_spec p a :
  page_rep p a ->
  exists p', finalize_checksum p = Some p' /\ page_rep p' a /\
    verify_checksum p' = Some true /\ pid p' = pid p /\ dirty p' = dirty p.
Proof.
  intros Hrep. pose proof Hrep as (h & ss & HL & _).
  pose proof (lay_len _ _ _ HL) as Hlen. pose proof PAGE_SIZE_of_nat as HP.
  pose proof (lay_hdr _ _ _ HL) as Hh. pose proof (read_header_ok _ _ Hh) as Hok.
  unfold finalize_checksum. rewrite Hh. simpl. fold (with_checksum h 0).
  destruct (write_header_ok p (with_checksum h 0)) as [p1 H1]; [unfold HEADER_SIZE; lia|].
  rewrite H1. simpl. fold (with_checksum h (crc32 (data p1))).
  destruct (write_header_data _ _ _ H1) as (Hd1 & Hp1 & Hdi1).
  destruct (write_header_ok p1 (with_checksum h (crc32 (data p1)))) as [p2 H2].
  { rewrite (splice_length _ _ _ _ Hd1). unfold HEADER_SIZE. lia. }
  rewrite H2. exists p2. destruct (write_header_data _ _ _ H2) as (Hd2 & Hp2 & Hdi2).
  pose proof (crc32_u32 (data p1)) as Hcrc. destruct Hok as (?&?&?&?).
  assert (Hrep1 : page_rep p1 a).
  { apply (rep_write_checksum p a h 0); [done..|width|done]. }
  assert (Hh1 : read_header p1 = Some (with_checksum h 0)).
  { apply (write_header_read _ _ _ H1). split_and!; simpl; try done; width. }
  split_and!; [done|exact (rep_write_checksum _ _ (with_checksum h 0) _ _ Hrep1 Hh1 Hcrc H2)| |congruence..].
  unfold verify_checksum. rewrite (write_header_read _ _ _ H2) by (by split_and!).
  simpl. rewrite (zero_checksum_bytes _ _ _ _ Hd2), (splice_idemp _ _ _ _ Hd1).
  simpl. by rewrite bool_decide_eq_true_2.
Qed.
End ChecksumFacts.

(** ** Sequences of operations *)
Inductive page_op :=
  | PInsert (tuple : bytes)
  | PGet (sid : Z)
  | PUpdate (sid : Z) (new_data : bytes)
  | PDelete (sid : Z)
  | PFreeSpace.

Inductive page_res :=
  | RSlot (r : option Z)
  | RTuple (r : option bytes)
  | RBool (r : bool)
  | RSize (r : Z).

Definition page_step (p : Page) (o : page_op) : option (Page * page_res) :=
  match o with
  | PInsert t => '(p, r) ← insert_tuple p t; Some (p, RSlot r)
  | PGet i => r ← get_tuple p i; Some (p, RTuple r)
  | PUpdate i b => '(p, r) ← update_tuple p i b; Some (p, RBool r)
  | PDelete i => '(p, r) ← delete_tuple p i; Some (p, RBool r)
  | PFreeSpace => r ← free_space p; Some (p, RSize r)
  end.

Definition spec_step (a : spec_page) (o : page_op) : spec_page * page_res :=
  match o with
  | PInsert t => let '(a, r) := spec_insert a t in (a, RSlot r)
  | PGet i => (a, RTuple (spec_get a i))
  | PUpdate i b => let '(a, r) := spec_update a i b in (a, RBool r)
  | PDelete i => let '(a, r) := spec_delete a i in (a, RBool r)
  | PFreeSpace => (a, RSize (room a))
  end.

Fixpoint page_run (p : Page) (ops : list page_op) : option (Page * list page_res) :=
  match ops with
  | [] => Some (p, [])
  | o :: ops => '(p, r) ← page_step p o; '(p, rs) ← page_run p ops; Some (p, r :: rs)
  end.

Fixpoint spec_run (a : spec_page) (ops : list page_op) : spec_page * list page_res :=
  match ops with
  | [] => (a, [])
  | o :: ops => let '(a, r) := spec_step a o in let '(a, rs) := spec_run a ops in (a, r :: rs)
  end.

(** Slot ids are [u16]s and tuples shorter than 65536 bytes. *)
Definition page_op_ok (o : page_op) : Prop :=
  match o with
  | PInsert t => in_u16 (Z.of_nat (length t))
  | PGet i | PUpdate i _ | PDelete i => in_u16 i
  | PFreeSpace => True
  end.

#[export] Instance page_op_ok_dec o : Decision (page_op_ok o).
Proof. destruct o; simpl; apply _. Defined.

Lemma page_step_refines p a o :
  page_rep p a -> page_op_ok o ->
  exists p', page_step p o = Some (p', (spec_step a o).2) /\
    page_rep p' (spec_step a o).1 /\ pid p' = pid p.
Proof.
  intros Hrep Hok. destruct o; simpl in *.
  - destruct (insert_refines p a tuple Hrep Hok) as (p' & -> & Hr & Hp).
    simpl. destruct (spec_insert a tuple). eauto.
  - rewrite (get_refines p a) by (done || width). eauto.
  - destruct (update_refines p a sid new_data Hrep) as (p' & -> & Hr & Hp); [width|].
    simpl. destruct (spec_update a sid new_data). eauto.
  - destruct (delete_refines p a sid Hrep) as (p' & -> & Hr & Hp); [width|].
    simpl. destruct (spec_delete a sid). eauto.
  - rewrite (free_space_refines p a Hrep). eauto.
Qed.

Lemma page_new_rep id : in_u32 id -> page_rep (Page_new id) spec_new.
Proof.
  intros. eexists _, _. split; [by apply layout_new|]. split; [constructor|done].
Qed.

Lemma Page_new_pid id : pid (Page_new id) = id.
Proof.
  unfold Page_new. destruct (write_header _ _) eqn:E; simpl; [|done].
  by apply write_header_data in E as (_ & -> & _).
Qed.

(** C15: a slotted page whose id is a [u32] behaves, under every sequence of
    insertions of tuples shorter than 65536 bytes, and of reads, in-place
    updates, deletions (of slots that are a [u16]) and free-space queries, as a
    list of optional tuples with a byte budget: no call panics and every result
    is the abstract one. An update by a shorter value keeps the tail of the old
    tuple. *)
Theorem page_run_refines id ops :
  in_u32 id -> Forall page_op_ok ops ->
  exists p', page_run (Page_new id) ops = Some (p', (spec_run spec_new ops).2) /\
    page_rep p' (spec_run spec_new ops).1.
Proof.
  intros Hid. generalize (page_new_rep id Hid). generalize (Page_new id) spec_new.
  induction ops as [|o ops IH]; intros p a Hrep Hok; simpl; [eauto|].
  inversion Hok; subst.
  destruct (page_step_refines p a o) as (p1 & -> & Hrep1 & _); [done..|].
  destruct (spec_step a o) as [a1 r1]. simpl in *.
  destruct (IH p1 a1) as (p2 & -> & Hrep2); [done..|].
  destruct (spec_run a1 ops). simpl in *. eauto.
Qed.

Lemma page_run_refines_witness :
  exists p', page_run (Page_new 7)
    [PInsert [x0a; x0b; x0c]; PInsert [x01]; PUpdate 0 [xff]; PGet 0; PDelete 1; PGet 1;
     PUpdate 0 [x01; x02; x03; x04]; PFreeSpace]
    = Some (p', [RSlot (Some 0); RSlot (Some 1); RBool true; RTuple (Some [xff; x0b; x0c]);
                 RBool true; RTuple None; RBool false; RSize 4070])
    /\ page_ok p'.
Proof.
  destruct (page_run_refines 7
    [PInsert [x0a; x0b; x0c]; PInsert [x01]; PUpdate 0 [xff]; PGet 0; PDelete 1; PGet 1;
     PUpdate 0 [x01; x02; x03; x04]; PFreeSpace]) as (p' & H1 & H2).
  - by vm_compute.
  - apply (bool_decide_unpack _). by vm_compute.
  - exists p'. split; [exact H1|]. by eexists.
Defined.

Lemma room_bound p a : page_rep p a -> room a <= PAGE_ROOM.
Proof.
  intros (h & ss & HL & _ & ->). pose proof (lay_room _ _ _ HL) as Hr. unfold PAGE_SIZE_Z in Hr. unfold PAGE_ROOM. lia.
Qed.

(** A tuple that the page has no room for: it is the length cut to 16 bits that
    is compared with the room, and the copy that panics. *)
Lemma insert_too_big p a t :
  page_rep p a -> room a < Z.of_nat (length t) + 5 ->
  insert_tuple p t =
    if room a <? Z.of_nat (length t) mod 65536 + 5 then Some (p, None) else None.
Proof.
  intros (h & ss & HL & HF & Hroom) Hbig.
  pose proof (lay_room _ _ _ HL) as HR. pose proof (lay_num _ _ _ HL) as HN.
  unfold PAGE_SIZE_Z in HR. pose proof PAGE_SIZE_of_nat as HP.
  unfold insert_tuple. rewrite (lay_hdr _ _ _ HL). simpl.
  change (as_u16 (Z.of_nat (length t))) with (Z.of_nat (length t) mod 65536).
  pose proof (Z.mod_pos_bound (Z.of_nat (length t)) 65536 eq_refl) as Hm.
  assert (Z.of_nat (length t) < 65536 -> Z.of_nat (length t) mod 65536 = Z.of_nat (length t))
    by (intros; apply Z.mod_small; lia).
  set (m := Z.of_nat (length t) mod 65536) in *.
  destruct (Z.ltb_spec (room a) (m + 5));
    (destruct (Z.ltb_spec (free_space_offset h) m);
     [try done; lia|destruct (Z.ltb_spec (free_space_offset h - m)
        (12 + (hdr_num_slots h + 1) * 5)); try done; try lia]).
  unfold splice. rewrite decide_False; [done|]. rewrite (lay_len _ _ _ HL). lia.
Qed.

(** C27: [tuple.len() as u16] truncates: a tuple of 65536 bytes or more whose
    length modulo 65536 fits the page passes both space checks and panics on
    the copy; one whose truncated length does not fit is refused. *)
Theorem insert_tuple_truncates p a t :
  page_rep p a -> 65536 <= Z.of_nat (length t) ->
  insert_tuple p t =
    if room a <? Z.of_nat (length t) mod 65536 + 5 then Some (p, None) else None.
Proof.
  intros Hrep Hlen. apply insert_too_big; [done|]. pose proof (room_bound _ _ Hrep). unfold PAGE_ROOM in *. lia.
Qed.

Lemma insert_tuple_truncates_witness :
  insert_tuple (Page_new 0) (replicate (Z.to_nat 65546) x01) = None.
Proof.
  rewrite (insert_tuple_truncates (Page_new 0) spec_new).
  - by vm_compute.
  - by apply page_new_rep.
  - rewrite length_replicate. by vm_compute.
Defined.

(** A page survives its checksum being stored: the checksummed page holds
    the same tuples and [verify_checksum] accepts it. *)
Lemma finalize_then_verify `{Crc32} p a :
  page_rep p a ->
  exists p', finalize_checksum p = Some p' /\ verify_checksum p' = Some true /\ page_rep p' a.
Proof.
  intros (p' & ? & ? & ? & ?)%finalize_checksum_spec. eauto.
Qed.

(** A digest to instantiate the library with: the sum of the bytes. *)
Definition sum_crc : Crc32.
Proof.
  refine {| crc32 b := as_u32 (foldr (fun x n => Z_of_byte x + n) 0 b) |}.
  intros b. apply Z.mod_pos_bound. reflexivity.
Defined.

Lemma finalize_then_verify_witness :
  exists p', @finalize_checksum sum_crc (Page_new 3) = Some p' /\
    @verify_checksum sum_crc p' = Some true.
Proof.
  destruct (@finalize_then_verify sum_crc (Page_new 3) spec_new) as (p' & ? & ? & _).
  - by apply page_new_rep.
  - eauto.
Defined.
