(* ===== verification/Disk.v ===== *)
(** * The disk manager: storage/disk_manager.rs

    [data.db] is its bytes.  Seeking past the end and writing fills the gap
    with zeros, and [read_exact] of a range that does not fit is
    [UnexpectedEof].  Failures of the operating system are not modelled. *)
From S2P Require Export Page.
Local Open Scope Z_scope.

Inductive io_error :=
  | UnexpectedEof
  | InvalidData
  | OutOfMemory.

#[export] Instance io_error_eq_decision : EqDecision io_error.
Proof. solve_decision. Defined.

(** ** Files *)
Definition file_write (f : bytes) (off : nat) (b : bytes) : bytes :=
  take off f ++ replicate (off - length f) x00 ++ b ++ drop (off + length b) f.

Lemma file_write_length f off b :
  length (file_write f off b) = Nat.max (length f) (off + length b).
Proof.
  unfold file_write. rewrite !length_app, length_take, length_drop, length_replicate. lia.
Qed.

Lemma file_write_lookup f off b i :
  (off <= i < off + length b)%nat -> file_write f off b !! i = b !! (i - off)%nat.
Proof.
  intros. unfold file_write. rewrite app_assoc, lookup_app_r;
    rewrite length_app, length_take, length_replicate; [|lia].
  rewrite lookup_app_l by lia. f_equal. lia.
Qed.

Lemma file_write_lookup_ne f off b i :
  (i < length f)%nat -> ~ (off <= i < off + length b)%nat ->
  file_write f off b !! i = f !! i.
Proof.
  intros. unfold file_write. destruct (decide (i < off)%nat).
  - rewrite lookup_app_l by (rewrite length_take; lia). by rewrite lookup_take_lt by done.
  - rewrite lookup_app_r by (rewrite length_take; lia).
    rewrite lookup_app_r by (rewrite length_take, length_replicate; lia).
    rewrite lookup_app_r by (rewrite length_take, length_replicate; lia).
    rewrite lookup_drop, length_take, length_replicate. f_equal. lia.
Qed.

Lemma slice_file_write_same f off b : slice (file_write f off b) off (length b) = Some b.
Proof.
  apply slice_Some. rewrite file_write_length. split; [lia|].
  apply list_eq. intros i. destruct (decide (i < length b)%nat).
  - rewrite lookup_take_lt, lookup_drop, file_write_lookup by lia. f_equal. lia.
  - rewrite lookup_take_ge by lia. apply lookup_ge_None. lia.
Qed.

(** What was there, written again. *)
Lemma file_write_undo f off b c : slice f off (length b) = Some c -> file_write (file_write f off b) off c = f.
Proof.
  intros Hc. pose proof (slice_length _ _ _ _ Hc) as Hl. pose proof Hc as [Hle _]%slice_Some.
  apply list_eq. intros i. destruct (decide (off <= i < off + length c)%nat) as [Hi|Hi].
  - rewrite file_write_lookup by done. rewrite (slice_lookup _ _ _ _ _ Hc) by lia. f_equal. lia.
  - destruct (decide (i < length f)%nat) as [Hlt|Hge].
    + rewrite !file_write_lookup_ne by (rewrite ?file_write_length; lia). done.
    + rewrite !lookup_ge_None_2 by (rewrite ?file_write_length; lia). done.
Qed.

Lemma slice_file_write_other f off b o n r :
  slice f o n = Some r -> (o + n <= off \/ off + length b <= o)%nat ->
  slice (file_write f off b) o n = Some r.
Proof.
  intros H Hd. pose proof (slice_length _ _ _ _ H) as Hr.
  apply slice_Some in H as H'. destruct H' as [Hle _].
  apply slice_Some. rewrite file_write_length. split; [lia|].
  apply list_eq. intros i. destruct (decide (i < n)%nat).
  - rewrite lookup_take_lt, lookup_drop, file_write_lookup_ne by lia.
    by rewrite (slice_lookup _ _ _ _ _ H) by lia.
  - rewrite lookup_take_ge by lia. apply lookup_ge_None. lia.
Qed.

(** ** The disk manager *)
Record DiskManager := mkDisk { file : bytes; disk_num_pages : Z }.

Definition DiskManager_new (f : bytes) : DiskManager :=
  mkDisk f (as_u32 (Z.of_nat (length f) / PAGE_SIZE_Z)).

Definition num_pages (d : DiskManager) : Z := disk_num_pages d.

(** [num_pages += 1] panics when there are as many pages as a [u32] counts. *)
Definition allocate_page (d : DiskManager) : option (DiskManager * Z) :=
  if disk_num_pages d + 1 <? 2 ^ 32 then Some (mkDisk (file d) (disk_num_pages d + 1), disk_num_pages d) else None.

Lemma allocate_page_some d :
  disk_num_pages d + 1 < 2 ^ 32 -> allocate_page d = Some (mkDisk (file d) (disk_num_pages d + 1), disk_num_pages d).
Proof. intros H. unfold allocate_page. by rewrite (proj2 (Z.ltb_lt _ _)). Qed.

Definition page_offset (id : Z) : nat := Z.to_nat id * PAGE_SIZE.

Section Disk.
Context `{Crc32}.

(** The file and the page, whose checksum field has been rewritten. *)
Definition write_page (d : DiskManager) (p : Page) : option (DiskManager * Page) :=
  p ← finalize_checksum p;
  Some (mkDisk (file_write (file d) (page_offset (pid p)) (data p)) (disk_num_pages d), p).

Definition read_page (d : DiskManager) (id : Z) : result io_error Page :=
  match slice (file d) (page_offset id) PAGE_SIZE with
  | None => Err UnexpectedEof
  | Some data =>
      let page := Page_from_bytes id data in
      ok ← or_panic (verify_checksum page);
      if (ok : bool) then Ok page else Err InvalidData
  end.

(** [id] reads back from disk as a page holding [a]. *)
Definition on_disk (d : DiskManager) (id : Z) (a : spec_page) : Prop :=
  exists p, read_page d id = Ok p /\ page_rep p a.

Lemma page_rep_bytes p q a : data q = data p -> page_rep p a -> page_rep q a.
Proof.
  intros Hd (h & ss & [] & HF & Hroom). destruct p, q. simpl in *. subst.
  exists h, ss. split_and!; [|done..]. by constructor.
Qed.

Lemma verify_bytes p q : data q = data p -> verify_checksum q = verify_checksum p.
Proof. intros Hd. unfold verify_checksum, read_header. by rewrite Hd. Qed.

Lemma page_rep_length p a : page_rep p a -> length (data p) = PAGE_SIZE.
Proof. intros (h & ss & HL & _). apply (lay_len _ _ _ HL). Qed.

Lemma read_page_pid d id p : read_page d id = Ok p -> pid p = id.
Proof.
  unfold read_page. destruct (slice _ _ _); [|done]. simpl.
  destruct (verify_checksum _) as [[]|]; simpl; naive_solver.
Qed.

Lemma write_page_spec d p a :
  page_rep p a ->
  exists d' p', write_page d p = Some (d', p') /\ page_rep p' a /\ pid p' = pid p /\
    disk_num_pages d' = disk_num_pages d /\ on_disk d' (pid p) a /\
    length (file d') = Nat.max (length (file d)) (page_offset (pid p) + PAGE_SIZE) /\
    (forall id q, read_page d id = Ok q -> Z.to_nat id <> Z.to_nat (pid p) ->
                  read_page d' id = Ok q).
Proof.
  intros Hrep. destruct (finalize_checksum_spec p a Hrep) as (p' & Hf & Hrep' & Hv & Hp & _).
  pose proof (page_rep_length _ _ Hrep') as Hl.
  unfold write_page. rewrite Hf. eexists _, p'. split; [done|]. simpl.
  split_and!; [done|done|done| |by rewrite file_write_length, Hl, Hp|].
  - exists (Page_from_bytes (pid p) (data p')).
    split; [|by apply (page_rep_bytes p')].
    unfold read_page. simpl. rewrite <- Hp, <- Hl, slice_file_write_same.
    by rewrite (verify_bytes p'), Hv by done.
  - intros id q. unfold read_page. simpl. rewrite Hp.
    destruct (slice (file d) (page_offset id) PAGE_SIZE) as [b|] eqn:E; [|done].
    intros Hok Hne. rewrite (slice_file_write_other _ _ _ _ _ b E); [done|].
    rewrite Hl. unfold page_offset. nia.
Qed.
End Disk.

(** A page written to disk is read back intact, page by page: the file
    returns the page written last under its id and leaves every other
    readable page as it was. *)
Lemma write_read_page `{Crc32} d p a :
  page_rep p a -> in_u32 (pid p) ->
  exists d' p', write_page d p = Some (d', p') /\
    on_disk d' (pid p) a /\
    (forall id q, in_u32 id -> id <> pid p -> read_page d id = Ok q -> read_page d' id = Ok q).
Proof.
  intros Hrep Hid.
  destruct (write_page_spec d p a Hrep) as (d' & p' & ? & _ & _ & _ & ? & _ & Hother).
  exists d', p'. split_and!; [done..|]. intros. apply Hother; [done|]. width.
Qed.

Lemma write_read_page_witness :
  exists d' p', @write_page sum_crc (DiskManager_new []) (Page_new 2) = Some (d', p') /\
    @on_disk sum_crc d' 2 spec_new.
Proof.
  destruct (@write_read_page sum_crc (DiskManager_new []) (Page_new 2) spec_new)
    as (d' & p' & ? & ? & _).
  - by apply page_new_rep.
  - by vm_compute.
  - eauto.
Defined.

(** Reading past the end of the file or a page whose stored checksum does not
    match its bytes is an error, never a page. *)
Lemma read_page_errors `{Crc32} d id :
  (Z.of_nat (length (file d)) < Z.of_nat (page_offset id) + 4096 ->
     read_page d id = Err UnexpectedEof) /\
  (forall b, slice (file d) (page_offset id) PAGE_SIZE = Some b ->
     verify_checksum (Page_from_bytes id b) = Some false ->
     read_page d id = Err InvalidData).
Proof.
  pose proof PAGE_SIZE_of_nat. unfold read_page. split.
  - intros. unfold slice. by rewrite decide_False by lia.
  - intros b -> Hv. simpl. by rewrite Hv.
Qed.
