(* ===== verification/Buffer.v ===== *)
(** * The buffer pool: buffer/frame.rs, buffer/lru_replacer.rs, buffer/buffer_pool.rs

    Frames, the LRU replacer and the pool over the disk manager.  The pool is
    shown to be transparent: whatever is cached, evicted or flushed, the pages
    read through it are those of a plain map from page ids to pages. *)
From S2P Require Export Disk.
Local Open Scope Z_scope.

(** ** Frames *)
(** [pin_count] is a [u32]. *)
Record Frame := mkFrame { fpage : option Page; pin_count : Z; is_dirty : bool }.

Definition Frame_new : Frame := mkFrame None 0 false.
Definition is_empty (f : Frame) : bool := match fpage f with None => true | Some _ => false end.
Definition frame_page_id (f : Frame) : option Z := pid <$> fpage f.

(** ** The LRU replacer *)
Record LruReplacer := mkLru { order : list nat; capacity : nat }.

Definition Lru_new (capacity : nat) : LruReplacer := mkLru [] capacity.

Definition lru_unpin (r : LruReplacer) (f : nat) : LruReplacer :=
  if decide (f ∈ order r) then r else mkLru (order r ++ [f]) (capacity r).

Definition lru_pin (r : LruReplacer) (f : nat) : LruReplacer :=
  mkLru (filter (fun id => id <> f) (order r)) (capacity r).

Definition lru_evict (r : LruReplacer) : LruReplacer * option nat :=
  match order r with
  | [] => (r, None)
  | f :: l => (mkLru l (capacity r), Some f)
  end.

Definition lru_record_access (r : LruReplacer) (f : nat) : LruReplacer :=
  mkLru (filter (fun id => id <> f) (order r) ++ [f]) (capacity r).

Definition lru_size (r : LruReplacer) : nat := length (order r).

(** ** The pool *)
Record BufferPool := mkPool {
  frames : list Frame;
  page_table : gmap Z nat;
  replacer : LruReplacer;
  disk : DiskManager;
  pool_size : nat;
  hits : Z;
  misses : Z;
}.

Definition set_frames (l : list Frame) (b : BufferPool) : BufferPool :=
  mkPool l (page_table b) (replacer b) (disk b) (pool_size b) (hits b) (misses b).
Definition set_table (t : gmap Z nat) (b : BufferPool) : BufferPool :=
  mkPool (frames b) t (replacer b) (disk b) (pool_size b) (hits b) (misses b).
Definition set_replacer (r : LruReplacer) (b : BufferPool) : BufferPool :=
  mkPool (frames b) (page_table b) r (disk b) (pool_size b) (hits b) (misses b).
Definition set_disk (d : DiskManager) (b : BufferPool) : BufferPool :=
  mkPool (frames b) (page_table b) (replacer b) d (pool_size b) (hits b) (misses b).
(** The counters feed the hit rate and nothing else. They wrap here, as in a
    release build; a debug build would panic at the fetch of number 2^64. *)
Definition add_hit (b : BufferPool) : BufferPool :=
  mkPool (frames b) (page_table b) (replacer b) (disk b) (pool_size b) (as_u64 (hits b + 1)) (misses b).
Definition add_miss (b : BufferPool) : BufferPool :=
  mkPool (frames b) (page_table b) (replacer b) (disk b) (pool_size b) (hits b) (as_u64 (misses b + 1)).

Definition BufferPool_new (n : nat) (f : bytes) : BufferPool :=
  mkPool (replicate n Frame_new) ∅ (Lru_new n) (DiskManager_new f) n 0 0.

(** The scan [for i in 0..pool_size]; the outer [None] is an index panic. *)
Fixpoint first_empty (l : list Frame) (i n : nat) : option (option nat) :=
  match n with
  | O => Some None
  | S n =>
      f ← l !! i;
      if is_empty f then Some (Some i) else first_empty l (S i) n
  end.

Section Pool.
Context `{Crc32}.

(** Writes the frame's page if there is one; the page comes back with its
    checksum stored. *)
Definition write_frame (d : DiskManager) (f : Frame) : option (DiskManager * option Page) :=
  match fpage f with
  | Some p => '(d, p) ← write_page d p; Some (d, Some p)
  | None => Some (d, None)
  end.

Definition find_free_frame : st BufferPool io_error nat := fun b =>
  match first_empty (frames b) 0 (pool_size b) with
  | None => (b, Panic)
  | Some (Some i) => (b, Ok i)
  | Some None =>
      match lru_evict (replacer b) with
      | (_, None) => (b, Err OutOfMemory)
      | (r, Some victim) =>
          let b := set_replacer r b in
          match frames b !! victim with
          | None => (b, Panic)
          | Some fr =>
              match (if is_dirty fr then write_frame (disk b) fr
                     else Some (disk b, fpage fr)) with
              | None => (b, Panic)
              | Some (d, pg) =>
                  let b := set_disk d b in
                  let b := match pg with
                           | Some p => set_table (delete (pid p) (page_table b)) b
                           | None => b
                           end in
                  (set_frames (<[victim := mkFrame None 0 false]> (frames b)) b, Ok victim)
              end
          end
      end
  end.

(** Stores a page in a frame and registers it: the common end of
    [new_page] and of a cache miss. *)
Definition install (f : nat) (p : Page) (dirty : bool) (b : BufferPool) : BufferPool :=
  let b := set_frames (<[f := mkFrame (Some p) 1 dirty]> (frames b)) b in
  let b := set_table (<[pid p := f]> (page_table b)) b in
  set_replacer (lru_pin (replacer b) f) b.

Definition new_page : st BufferPool io_error (Z * nat) := fun b =>
  match find_free_frame b with
  | (b, Ok f) =>
      match allocate_page (disk b) with
      | None => (b, Panic)
      | Some (d, id) => (install f (Page_new id) true (set_disk d b), Ok (id, f))
      end
  | (b, Err e) => (b, Err e)
  | (b, Panic) => (b, Panic)
  end.

(** [pin_count += 1] panics when the frame is pinned as often as a [u32]
    counts. *)
Definition fetch_page (id : Z) : st BufferPool io_error nat := fun b =>
  match page_table b !! id with
  | Some f =>
      match frames b !! f with
      | None => (b, Panic)
      | Some fr =>
          if pin_count fr + 1 <? 2 ^ 32 then
            let b := set_frames (<[f := mkFrame (fpage fr) (pin_count fr + 1) (is_dirty fr)]>
                                   (frames b)) b in
            let b := set_replacer (lru_pin (replacer b) f) b in
            let b := set_replacer (lru_record_access (replacer b) f) b in
            (add_hit b, Ok f)
          else (b, Panic)
      end
  | None =>
      match find_free_frame (add_miss b) with
      | (b, Ok f) =>
          match read_page (disk b) id with
          | Ok p => (install f p false b, Ok f)
          | Err e => (b, Err e)
          | Panic => (b, Panic)
          end
      | (b, Err e) => (b, Err e)
      | (b, Panic) => (b, Panic)
      end
  end.

(** [get_page] and [get_page_mut]: the outer [None] is an index panic. *)
Definition get_page (b : BufferPool) (f : nat) : option (option Page) :=
  fpage <$> frames b !! f.

Definition set_page (f : nat) (p : Page) (b : BufferPool) : BufferPool :=
  match frames b !! f with
  | Some fr => set_frames (<[f := mkFrame (Some p) (pin_count fr) (is_dirty fr)]> (frames b)) b
  | None => b
  end.

Definition unpin (f : nat) (dirty : bool) : st BufferPool io_error unit := fun b =>
  match frames b !! f with
  | None => (b, Panic)
  | Some fr =>
      if pin_count fr =? 0 then (b, Ok tt)
      else
        let fr := mkFrame (fpage fr) (pin_count fr - 1) (is_dirty fr || dirty) in
        let b := set_frames (<[f := fr]> (frames b)) b in
        (if pin_count fr =? 0 then set_replacer (lru_unpin (replacer b) f) b else b, Ok tt)
  end.

Definition flush_page (id : Z) : st BufferPool io_error unit := fun b =>
  match page_table b !! id with
  | None => (b, Ok tt)
  | Some f =>
      match frames b !! f with
      | None => (b, Panic)
      | Some fr =>
          if is_dirty fr then
            match write_frame (disk b) fr with
            | None => (b, Panic)
            | Some (d, pg) =>
                (set_frames (<[f := mkFrame pg (pin_count fr) false]> (frames b))
                   (set_disk d b), Ok tt)
            end
          else (b, Ok tt)
      end
  end.

(** [HashMap::keys] yields the ids in an unspecified order: [page_ids]. *)
Definition flush_all (page_ids : list Z) : st BufferPool io_error unit :=
  st_iter flush_page page_ids.
End Pool.

(** ** The pool invariant

    [σ] is the contents of the database file as the rest of the engine sees
    them: a page for each allocated id. *)
Section Invariant.
Context `{Crc32}.

Record pool_ok (b : BufferPool) (σ : gmap Z spec_page) : Prop := {
  pk_len : length (frames b) = pool_size b;
  pk_table id f : page_table b !! id = Some f <->
    exists fr p, frames b !! f = Some fr /\ fpage fr = Some p /\ pid p = id;
  pk_lru_nodup : NoDup (order (replacer b));
  pk_lru f : f ∈ order (replacer b) ->
    exists fr p, frames b !! f = Some fr /\ fpage fr = Some p;
  pk_cached f fr p : frames b !! f = Some fr -> fpage fr = Some p ->
    exists a, σ !! pid p = Some a /\ page_rep p a /\
      (is_dirty fr = false -> on_disk (disk b) (pid p) a);
  pk_pin f fr : frames b !! f = Some fr ->
    in_u32 (pin_count fr) /\ (fpage fr = None -> pin_count fr = 0);
  pk_disk id a : σ !! id = Some a -> page_table b !! id = None -> on_disk (disk b) id a;
  pk_dom id : is_Some (σ !! id) <-> 0 <= id < disk_num_pages (disk b);
  pk_num : in_u32 (disk_num_pages (disk b));
  pk_file : Z.of_nat (length (file (disk b))) < (disk_num_pages (disk b) + 1) * 4096;
}.

Lemma page_rep_inj p a a' : page_rep p a -> page_rep p a' -> a = a'.
Proof.
  intros (h & ss & HL & HF & Hr) (h' & ss' & HL' & HF' & Hr').
  assert (h' = h) as -> by (pose proof (lay_hdr _ _ _ HL); pose proof (lay_hdr _ _ _ HL'); congruence).
  assert (Hlen : length ss' = length ss).
  { pose proof (lay_num _ _ _ HL). pose proof (lay_num _ _ _ HL'). lia. }
  assert (ss' = ss) as ->.
  { apply list_eq. intros i. destruct (ss !! i) as [s|] eqn:E.
    - destruct (lookup_lt_is_Some_2 ss' i) as [s' E'];
        [rewrite Hlen; by eapply lookup_lt_Some|].
      rewrite E'. pose proof (lay_slot _ _ _ HL _ _ E). pose proof (lay_slot _ _ _ HL' _ _ E').
      congruence.
    - apply lookup_ge_None. rewrite Hlen. by apply lookup_ge_None. }
  destruct a as [l r], a' as [l' r']. simpl in *. f_equal; [|congruence].
  clear -HF HF'. revert l' HF'. induction HF as [|s x ss l Hc HF IH]; intros l' HF';
    inversion HF' as [|? x' ? l2 Hc' HF2]; subst; [done|].
  f_equal; [|by apply IH]. unfold cell in *.
  destruct (active s); [|congruence]. destruct Hc, Hc'. congruence.
Qed.

Lemma on_disk_inj d id a a' : on_disk d id a -> on_disk d id a' -> a = a'.
Proof. intros (p & Hp & Hr) (p' & Hp' & Hr'). assert (p' = p) as -> by congruence.
  by eapply page_rep_inj. Qed.

(** An id out of range is not in the file. *)
Lemma pool_unallocated b σ id :
  pool_ok b σ -> 0 <= id -> σ !! id = None -> read_page (disk b) id = Err UnexpectedEof.
Proof.
  intros Hok Hid HN. apply read_page_errors.
  assert (~ id < disk_num_pages (disk b)).
  { intros ?. assert (is_Some (σ !! id)) as [? ?] by (apply (pk_dom _ _ Hok); lia). congruence. }
  pose proof (pk_file _ _ Hok). pose proof PAGE_SIZE_of_nat.
  unfold page_offset. nia.
Qed.

Lemma first_empty_spec l i n :
  (i + n <= length l)%nat ->
  match first_empty l i n with
  | None => False
  | Some (Some j) => (i <= j < i + n)%nat /\ exists fr, l !! j = Some fr /\ fpage fr = None
  | Some None => forall j, (i <= j < i + n)%nat -> exists fr p, l !! j = Some fr /\ fpage fr = Some p
  end.
Proof.
  revert i. induction n as [|n IH]; intros i Hle; simpl; [intros; lia|].
  destruct (lookup_lt_is_Some_2 l i) as [fr Hfr]; [lia|]. rewrite Hfr. simpl.
  unfold is_empty. destruct (fpage fr) as [p|] eqn:Ep.
  - specialize (IH (S i) ltac:(lia)). destruct (first_empty l (S i) n) as [[j|]|]; [| |done].
    + destruct IH as [? ?]. split; [lia|done].
    + intros j Hj. destruct (decide (j = i)) as [->|]; [eauto|apply IH; lia].
  - split; [lia|]. eauto.
Qed.

(** Storing a page on disk keeps every other page of [σ] readable. *)
Lemma write_page_on_disk d p a id a' :
  page_rep p a -> 0 <= pid p -> 0 <= id -> id <> pid p ->
  on_disk d id a' ->
  exists d' p', write_page d p = Some (d', p') /\ on_disk d' id a'.
Proof.
  intros Hrep ??? (q & Hq & Hr).
  destruct (write_page_spec d p a Hrep) as (d' & p' & Hw & _ & _ & _ & _ & _ & Ho).
  exists d', p'. split; [done|]. exists q. split; [|done]. apply Ho; [done|lia].
Qed.
End Invariant.

(** ** Every operation keeps the invariant *)
Section Preservation.
Context `{Crc32}.

Lemma on_disk_file d d' id a : file d = file d' -> on_disk d id a -> on_disk d' id a.
Proof. intros Hf (p & Hp & Hr). exists p. split; [|done]. unfold read_page in *. by rewrite <- Hf. Qed.

Lemma cached_id b σ f fr p :
  pool_ok b σ -> frames b !! f = Some fr -> fpage fr = Some p ->
  0 <= pid p < disk_num_pages (disk b) /\ page_table b !! pid p = Some f.
Proof.
  intros Hok Hf Hp. destruct (pk_cached _ _ Hok _ _ _ Hf Hp) as (a & Ha & _).
  split; [apply (pk_dom _ _ Hok); eauto|]. apply (pk_table _ _ Hok). eauto.
Qed.

(** Two frames never hold the same page. *)
Lemma cached_unique b σ f g fr gr p q :
  pool_ok b σ -> frames b !! f = Some fr -> fpage fr = Some p ->
  frames b !! g = Some gr -> fpage gr = Some q -> pid p = pid q -> f = g.
Proof.
  intros Hok Hf Hp Hg Hq Hid.
  destruct (cached_id _ _ _ _ _ Hok Hf Hp) as [_ H1].
  destruct (cached_id _ _ _ _ _ Hok Hg Hq) as [_ H2]. congruence.
Qed.

(** The disk after the page of a frame has been written out. *)
Lemma write_cached b σ f fr p :
  pool_ok b σ -> frames b !! f = Some fr -> fpage fr = Some p ->
  exists d' p' a, write_page (disk b) p = Some (d', p') /\
    σ !! pid p = Some a /\ page_rep p' a /\ pid p' = pid p /\
    disk_num_pages d' = disk_num_pages (disk b) /\
    Z.of_nat (length (file d')) < (disk_num_pages (disk b) + 1) * 4096 /\
    on_disk d' (pid p) a /\
    (forall id a', 0 <= id -> id <> pid p -> on_disk (disk b) id a' -> on_disk d' id a').
Proof.
  intros Hok Hf Hp. destruct (pk_cached _ _ Hok _ _ _ Hf Hp) as (a & Ha & Hrep & _).
  destruct (cached_id _ _ _ _ _ Hok Hf Hp) as [Hid _].
  destruct (write_page_spec (disk b) p a Hrep) as (d' & p' & Hw & Hr & Hpid & Hn & Hd & Hl & Ho).
  exists d', p', a. split_and!; try done.
  - rewrite Hl. pose proof (pk_file _ _ Hok). pose proof PAGE_SIZE_of_nat.
    unfold page_offset. nia.
  - intros id a' ?? (q & Hq & Hr'). exists q. split; [|done]. apply Ho; [done|lia].
Qed.

(** Emptying a frame whose page is safely on disk. *)
Lemma evict_ok b σ f fr p d r :
  pool_ok b σ -> frames b !! f = Some fr -> fpage fr = Some p ->
  disk_num_pages d = disk_num_pages (disk b) ->
  Z.of_nat (length (file d)) < (disk_num_pages d + 1) * 4096 ->
  (forall a, σ !! pid p = Some a -> on_disk d (pid p) a) ->
  (forall id a, 0 <= id -> id <> pid p -> on_disk (disk b) id a -> on_disk d id a) ->
  NoDup (order r) -> f ∉ order r -> order r ⊆ order (replacer b) ->
  pool_ok (mkPool (<[f := Frame_new]> (frames b)) (delete (pid p) (page_table b)) r d
             (pool_size b) (hits b) (misses b)) σ.
Proof.
  intros Hok Hf Hp Hn Hfile Hd Ho Hnd Hfr Hsub.
  destruct (cached_id _ _ _ _ _ Hok Hf Hp) as [Hid Ht].
  pose proof (lookup_lt_Some _ _ _ Hf) as Hlt.
  constructor; simpl.
  - rewrite length_insert. apply (pk_len _ _ Hok).
  - intros id g. rewrite lookup_delete_Some, (pk_table _ _ Hok). split.
    + intros (Hne & gr & q & Hg & Hq & <-). exists gr, q. split_and!; try done.
      rewrite list_lookup_insert_ne; [done|]. intros ->. apply Hne. congruence.
    + intros (gr & q & [(-> & <- & _)|[Hne Hg]]%list_lookup_insert_Some & Hq & <-); [done|].
      split; [|by eauto]. intros Heq. apply Hne. by eapply cached_unique.
  - done.
  - intros g Hg. destruct (pk_lru _ _ Hok g) as (gr & q & Hgr & Hq); [by apply Hsub|].
    exists gr, q. split; [|done]. rewrite list_lookup_insert_ne; [done|]. by intros ->.
  - intros g gr q [(-> & <- & _)|[Hne Hg]]%list_lookup_insert_Some Hq; [done|].
    destruct (pk_cached _ _ Hok _ _ _ Hg Hq) as (a & Ha & Hr & Hcl).
    exists a. split_and!; [done..|]. intros Hdirty. apply Ho; [|intros Heq|by apply Hcl].
    + by eapply cached_id.
    + apply Hne. by eapply cached_unique.
  - intros g gr [(-> & <- & _)|[Hne Hg]]%list_lookup_insert_Some; [done|].
    by apply (pk_pin _ _ Hok g).
  - intros id a Ha. rewrite lookup_delete_None. intros [<-|HN]; [by apply Hd|].
    destruct (decide (id = pid p)) as [->|Hne]; [by apply Hd|].
    apply Ho; [apply (pk_dom _ _ Hok); eauto|done|by apply (pk_disk _ _ Hok)].
  - intros id. rewrite Hn. apply (pk_dom _ _ Hok).
  - rewrite Hn. apply (pk_num _ _ Hok).
  - done.
Qed.

Lemma find_free_frame_ok b σ :
  pool_ok b σ ->
  match find_free_frame b with
  | (b', Ok f) => pool_ok b' σ /\ (exists fr, frames b' !! f = Some fr /\ fpage fr = None) /\
      disk_num_pages (disk b') = disk_num_pages (disk b) /\ pool_size b' = pool_size b /\
      (forall id, page_table b !! id = None -> page_table b' !! id = None)
  | (b', Err e) => b' = b /\ e = OutOfMemory /\ order (replacer b) = [] /\
      (forall f, (f < pool_size b)%nat -> exists fr p, frames b !! f = Some fr /\ fpage fr = Some p)
  | (_, Panic) => False
  end.
Proof.
  intros Hok. unfold find_free_frame.
  pose proof (first_empty_spec (frames b) 0 (pool_size b)) as HE.
  rewrite (pk_len _ _ Hok) in HE. specialize (HE ltac:(lia)).
  destruct (first_empty _ _ _) as [[i|]|]; [| |done].
  { destruct HE as [_ (fr & ? & ?)]. split_and!; eauto. }
  unfold lru_evict. destruct (order (replacer b)) as [|v l] eqn:El.
  { split_and!; try done. intros f Hf. apply HE. lia. }
  pose proof (pk_lru_nodup _ _ Hok) as Hnd. rewrite El in Hnd.
  apply NoDup_cons in Hnd as [Hv Hnd].
  destruct (pk_lru _ _ Hok v) as (fr & p & Hf & Hp); [rewrite El; left|].
  simpl. rewrite Hf.
  assert (Hlt : is_Some (<[v := Frame_new]> (frames b) !! v)).
  { apply lookup_lt_is_Some_2. rewrite length_insert. by eapply lookup_lt_Some. }
  assert (Hsub : l ⊆ order (replacer b)) by (rewrite El; set_solver).
  assert (Hend : forall d q, pid q = pid p ->
    disk_num_pages d = disk_num_pages (disk b) ->
    pool_ok (mkPool (<[v := Frame_new]> (frames b)) (delete (pid p) (page_table b))
               (mkLru l (capacity (replacer b))) d (pool_size b) (hits b) (misses b)) σ ->
    pool_ok (mkPool (<[v := Frame_new]> (frames b)) (delete (pid q) (page_table b))
               (mkLru l (capacity (replacer b))) d (pool_size b) (hits b) (misses b)) σ /\
    (exists fr', <[v := Frame_new]> (frames b) !! v = Some fr' /\ fpage fr' = None) /\
    disk_num_pages d = disk_num_pages (disk b) /\ pool_size b = pool_size b /\
    (forall id, page_table b !! id = None -> delete (pid q) (page_table b) !! id = None)).
  { intros d q -> ??. split_and!; [done| |done|done|].
    - exists Frame_new. split; [|done]. apply list_lookup_insert_eq. by eapply lookup_lt_Some.
    - intros id ?. apply lookup_delete_None. by right. }
  destruct (is_dirty fr) eqn:Edirty.
  - unfold write_frame. rewrite Hp.
    destruct (write_cached _ _ _ _ _ Hok Hf Hp)
      as (d' & p' & a & -> & Ha & Hr & Hpid & Hn & Hfl & Hd & Ho).
    simpl. apply Hend; [done..|]. apply (evict_ok b σ v fr p); try done.
    + by rewrite Hn.
    + intros a' Ha'. congruence.
  - rewrite Hp. simpl. apply Hend; [done..|]. apply (evict_ok b σ v fr p); try done.
    + apply (pk_file _ _ Hok).
    + intros a Ha. destruct (pk_cached _ _ Hok _ _ _ Hf Hp) as (a' & Ha' & _ & Hcl).
      replace a with a' by congruence. by apply Hcl.
Qed.

Lemma install_table f p dirty b :
  page_table (install f p dirty b) = <[pid p := f]> (page_table b).
Proof. done. Qed.

Lemma elem_lru_pin r f g : g ∈ order (lru_pin r f) <-> g <> f /\ g ∈ order r.
Proof. simpl. by rewrite list_elem_of_filter. Qed.

(** Installing a page in an empty frame. *)
Lemma install_ok b σ σ' f fr p a dirty d :
  pool_ok b σ -> frames b !! f = Some fr -> fpage fr = None ->
  page_table b !! pid p = None -> page_rep p a ->
  (dirty = false -> on_disk d (pid p) a) ->
  σ' !! pid p = Some a -> (forall id, id <> pid p -> σ' !! id = σ !! id) ->
  file d = file (disk b) -> in_u32 (disk_num_pages d) ->
  disk_num_pages (disk b) <= disk_num_pages d ->
  (forall id, is_Some (σ' !! id) <-> 0 <= id < disk_num_pages d) ->
  pool_ok (install f p dirty (set_disk d b)) σ'.
Proof.
  intros Hok Hf Hemp Ht Hrep Hdd Hnew Hold Hfile Hu Hn Hdom.
  pose proof (lookup_lt_Some _ _ _ Hf) as Hlt.
  constructor; simpl.
  - rewrite length_insert. apply (pk_len _ _ Hok).
  - intros id g. destruct (decide (id = pid p)) as [->|Hid].
    + rewrite lookup_insert_eq. split.
      * intros [= <-]. exists (mkFrame (Some p) 1 dirty), p.
        rewrite list_lookup_insert_eq by done. done.
      * intros (gr & q & [(-> & _ & _)|[Hne Hg]]%list_lookup_insert_Some & Hq & Hpq); [done|].
        destruct (cached_id _ _ _ _ _ Hok Hg Hq) as [_ Hc]. congruence.
    + rewrite lookup_insert_ne, (pk_table _ _ Hok) by done. split.
      * intros (gr & q & Hg & Hq & <-). exists gr, q. split_and!; try done.
        rewrite list_lookup_insert_ne; [done|]. intros ->. congruence.
      * intros (gr & q & [(-> & <- & _)|[Hne Hg]]%list_lookup_insert_Some & Hq & <-);
          [|by eauto]. simpl in Hq. congruence.
  - apply NoDup_filter, (pk_lru_nodup _ _ Hok).
  - intros g. rewrite list_elem_of_filter. intros [Hne Hg].
    rewrite list_lookup_insert_ne by done. by apply (pk_lru _ _ Hok).
  - intros g gr q [(-> & <- & _)|[Hne Hg]]%list_lookup_insert_Some Hq; simpl in *.
    + injection Hq as <-. eauto.
    + destruct (pk_cached _ _ Hok _ _ _ Hg Hq) as (a' & Ha' & Hr & Hcl).
      destruct (cached_id _ _ _ _ _ Hok Hg Hq) as [_ Hc].
      exists a'. split_and!; [|done|].
      * rewrite Hold; [done|]. congruence.
      * intros Hdirty. by apply (on_disk_file (disk b)), Hcl.
  - intros g gr [(-> & <- & _)|[Hne Hg]]%list_lookup_insert_Some; [done|].
    by apply (pk_pin _ _ Hok g).
  - intros id a' Ha'. rewrite lookup_insert_None. intros [HN Hne].
    rewrite Hold in Ha' by done. by apply (on_disk_file (disk b)), (pk_disk _ _ Hok).
  - done.
  - done.
  - rewrite Hfile. pose proof (pk_file _ _ Hok). lia.
Qed.

(** A frame update that keeps the page cached under its id and cannot make
    it look cleaner than it is. *)
Lemma set_frame_ok b σ f fr fr' r :
  pool_ok b σ -> frames b !! f = Some fr -> fpage fr' = fpage fr ->
  (is_dirty fr' = false -> is_dirty fr = false) ->
  in_u32 (pin_count fr') /\ (fpage fr' = None -> pin_count fr' = 0) -> NoDup (order r) ->
  (forall g, g ∈ order r -> g ∈ order (replacer b) \/ (g = f /\ is_Some (fpage fr))) ->
  pool_ok (set_replacer r (set_frames (<[f := fr']> (frames b)) b)) σ.
Proof.
  intros Hok Hf Hp Hd Hpin Hnd Hr. pose proof (lookup_lt_Some _ _ _ Hf) as Hlt.
  assert (Hsame : forall g q, (exists gr, <[f := fr']> (frames b) !! g = Some gr /\ fpage gr = Some q)
                     <-> (exists gr, frames b !! g = Some gr /\ fpage gr = Some q)).
  { intros g q. destruct (decide (g = f)) as [->|Hne].
    - rewrite list_lookup_insert_eq, Hf by done. naive_solver congruence.
    - by rewrite list_lookup_insert_ne by done. }
  constructor; simpl.
  - rewrite length_insert. apply (pk_len _ _ Hok).
  - intros id g. rewrite (pk_table _ _ Hok). specialize (Hsame g). naive_solver.
  - done.
  - intros g Hg. specialize (Hsame g). destruct (Hr g Hg) as [Hg'|[-> [q Hq]]].
    + destruct (pk_lru _ _ Hok g Hg') as (gr & q & ? & ?). naive_solver.
    + naive_solver.
  - intros g gr q [(-> & <- & _)|[Hne Hg]]%list_lookup_insert_Some Hq.
    + rewrite Hp in Hq. destruct (pk_cached _ _ Hok _ _ _ Hf Hq) as (a & ? & ? & Hcl).
      exists a. split_and!; [done..|]. intros ?. by apply Hcl, Hd.
    + by apply (pk_cached _ _ Hok g gr q).
  - intros g gr [(-> & <- & _)|[Hne Hg]]%list_lookup_insert_Some; [done|].
    by apply (pk_pin _ _ Hok g).
  - apply (pk_disk _ _ Hok).
  - apply (pk_dom _ _ Hok).
  - apply (pk_num _ _ Hok).
  - apply (pk_file _ _ Hok).
Qed.

Lemma pool_add_miss b σ : pool_ok b σ -> pool_ok (add_miss b) σ.
Proof. intros []. by constructor. Qed.

Lemma pool_add_hit b σ : pool_ok b σ -> pool_ok (add_hit b) σ.
Proof. intros []. by constructor. Qed.

Lemma NoDup_lru_access (l : list nat) f :
  NoDup l -> NoDup (filter (fun id => id <> f) l ++ [f]).
Proof.
  intros Hl. apply NoDup_app. split_and!; [by apply NoDup_filter| |apply NoDup_singleton].
  intros g. rewrite list_elem_of_filter, list_elem_of_singleton. naive_solver.
Qed.

Lemma pool_frame b σ f :
  pool_ok b σ -> (f < pool_size b)%nat -> is_Some (frames b !! f).
Proof. intros Hok ?. apply lookup_lt_is_Some. by rewrite (pk_len _ _ Hok). Qed.

Lemma unpin_ok b σ f dirty :
  pool_ok b σ -> (f < pool_size b)%nat ->
  exists b', unpin f dirty b = (b', Ok tt) /\ pool_ok b' σ /\ pool_size b' = pool_size b.
Proof.
  intros Hok Hlt. unfold unpin. destruct (pool_frame _ _ _ Hok Hlt) as [fr Hf].
  rewrite Hf. destruct (Z.eqb_spec (pin_count fr) 0) as [|Hpin]; [eauto|].
  set (fr' := mkFrame (fpage fr) (pin_count fr - 1) (is_dirty fr || dirty)).
  destruct (pk_pin _ _ Hok _ _ Hf) as [Hpos Hnone].
  assert (Hp : fpage fr = None -> False) by auto.
  eexists. split; [done|]. split; [|by destruct (pin_count fr' =? 0)].
  assert (Hd : is_dirty fr' = false -> is_dirty fr = false).
  { simpl. by intros [? _]%orb_false_iff. }
  assert (Hgen : forall r, NoDup (order r) ->
    (forall g, g ∈ order r -> g ∈ order (replacer b) \/ g = f) ->
    pool_ok (set_replacer r (set_frames (<[f := fr']> (frames b)) b)) σ).
  { intros r Hnd Hr. apply (set_frame_ok b σ f fr); try done.
    { split; [simpl; width|]. by intros ?%Hp. }
    intros g Hg. destruct (Hr g Hg) as [?| ->]; [by left|right]. split; [done|].
    destruct (fpage fr); [by eexists|by exfalso]. }
  destruct (pin_count fr' =? 0); [|by apply (Hgen (replacer b)); [apply (pk_lru_nodup _ _ Hok)|auto]].
  apply (Hgen (lru_unpin (replacer b) f)); unfold lru_unpin.
  - case_decide; [apply (pk_lru_nodup _ _ Hok)|]. simpl. apply NoDup_app.
    split_and!; [apply (pk_lru_nodup _ _ Hok)| |apply NoDup_singleton]. set_solver.
  - intros g. case_decide; [by left|]. simpl. set_solver.
Qed.

(** A page that is pinned as often as a [u32] counts. *)
Definition pins_full b (id : Z) : Prop :=
  exists f fr, page_table b !! id = Some f /\ frames b !! f = Some fr /\ pin_count fr = 2 ^ 32 - 1.

Lemma fetch_page_ok b σ id :
  pool_ok b σ -> 0 <= id ->
  match fetch_page id b with
  | (b', Ok f) => pool_ok b' σ /\ pool_size b' = pool_size b /\
      exists fr p a, frames b' !! f = Some fr /\ 0 < pin_count fr /\ fpage fr = Some p /\
        pid p = id /\ σ !! id = Some a /\ page_rep p a
  | (b', Err e) => pool_ok b' σ /\ pool_size b' = pool_size b /\
      ((e = UnexpectedEof /\ σ !! id = None) \/
       (e = OutOfMemory /\ order (replacer b) = [] /\ page_table b !! id = None))
  | (b', Panic) => b' = b /\ pins_full b id
  end.
Proof.
  intros Hok Hid. unfold fetch_page. destruct (page_table b !! id) as [f|] eqn:Et.
  - pose proof Et as (fr & p & Hf & Hp & Hpid)%(pk_table _ _ Hok). rewrite Hf.
    destruct (pk_cached _ _ Hok _ _ _ Hf Hp) as (a & Ha & Hr & _).
    destruct (pk_pin _ _ Hok _ _ Hf) as [Hpos _].
    destruct (Z.ltb_spec (pin_count fr + 1) (2 ^ 32)) as [Hlt|Hge].
    2: { split; [done|]. exists f, fr. split_and!; [done..|width]. }
    set (fr' := mkFrame (fpage fr) (pin_count fr + 1) (is_dirty fr)).
    split; [|split; [done|]].
    + apply pool_add_hit.
      apply (set_frame_ok b σ f fr fr'
               (lru_record_access (lru_pin (replacer b) f) f)); try done.
      * simpl. split; [width|congruence].
      * apply NoDup_lru_access, NoDup_filter, (pk_lru_nodup _ _ Hok).
      * intros g. simpl. rewrite elem_of_app, !list_elem_of_filter, list_elem_of_singleton.
        intros [(_ & _ & ?)| ->]; [by left|]. right. split; [done|]. by eexists.
    + exists fr', p, a. simpl. rewrite list_lookup_insert_eq by (by eapply lookup_lt_Some).
      subst id. split_and!; try done. width.
  - pose proof (find_free_frame_ok (add_miss b) σ (pool_add_miss _ _ Hok)) as HF.
    destruct (find_free_frame (add_miss b)) as [b1 [f|e|]]; [| |done].
    + destruct HF as (Hok1 & (fr & Hf & Hemp) & Hn & Hsz & Ht).
      destruct (σ !! id) as [a|] eqn:Ea.
      * destruct (pk_disk _ _ Hok1 id a Ea (Ht _ Et)) as (p & Hread & Hrep).
        rewrite Hread. pose proof (read_page_pid _ _ _ Hread) as Hpid. subst id.
        split; [|split; [done|]].
        -- replace b1 with (set_disk (disk b1) b1) by (by destruct b1).
           apply (install_ok b1 σ σ f fr p a); try done.
           ++ by apply Ht.
           ++ intros _. by exists p.
           ++ apply (pk_num _ _ Hok1).
           ++ apply (pk_dom _ _ Hok1).
        -- eexists _, p, a. simpl. rewrite list_lookup_insert_eq by (by eapply lookup_lt_Some).
           by split_and!.
      * rewrite (pool_unallocated _ _ _ Hok1 Hid Ea). by split_and!; [..|left].
    + destruct HF as (-> & -> & Hl & _). split; [by apply pool_add_miss|].
      split; [done|]. by right.
Qed.

Lemma filter_only (l : list nat) f :
  (forall g, g ∈ l -> g = f) -> filter (fun g => g <> f) l = [].
Proof.
  intros Hl. destruct (filter _ l) as [|g l'] eqn:E; [done|].
  assert (Hg : g ∈ filter (fun g => g <> f) l) by (rewrite E; left).
  apply list_elem_of_filter in Hg as [Hne Hg]. by destruct (Hne (Hl _ Hg)).
Qed.

(** With no empty frame the victim is the head of the LRU order. *)
Lemma find_free_frame_victim b σ v l fr p :
  pool_ok b σ -> order (replacer b) = v :: l ->
  (forall g, (g < pool_size b)%nat -> exists gr q, frames b !! g = Some gr /\ fpage gr = Some q) ->
  frames b !! v = Some fr -> fpage fr = Some p ->
  exists b', find_free_frame b = (b', Ok v) /\ page_table b' !! pid p = None.
Proof.
  intros Hok Hord Hfull Hf Hp. unfold find_free_frame.
  pose proof (first_empty_spec (frames b) 0 (pool_size b)) as HE.
  rewrite (pk_len _ _ Hok) in HE. specialize (HE ltac:(lia)).
  destruct (first_empty _ _ _) as [[i|]|]; [| |done].
  { destruct HE as [Hi (gr & Hg & Hn)]. destruct (Hfull i ltac:(lia)) as (gr' & q & Hg' & Hq).
    congruence. }
  unfold lru_evict. rewrite Hord. simpl. rewrite Hf. destruct (is_dirty fr).
  - unfold write_frame. rewrite Hp.
    destruct (write_cached _ _ _ _ _ Hok Hf Hp) as (d' & p' & a & -> & _ & _ & Hpid & _).
    simpl. eexists. split; [done|]. simpl. by rewrite Hpid, lookup_delete_eq.
  - rewrite Hp. eexists. split; [done|]. simpl. apply lookup_delete_eq.
Qed.

Lemma new_page_ok b σ :
  pool_ok b σ -> disk_num_pages (disk b) + 1 < 2 ^ 32 ->
  match new_page b with
  | (b', Ok (id, f)) => σ !! id = None /\ in_u32 id /\ pool_ok b' (<[id := spec_new]> σ) /\
      pool_size b' = pool_size b /\
      disk_num_pages (disk b') = disk_num_pages (disk b) + 1 /\
      exists fr p, frames b' !! f = Some fr /\ 0 < pin_count fr /\ fpage fr = Some p /\
        pid p = id /\ page_rep p spec_new
  | (b', Err e) => b' = b /\ e = OutOfMemory /\ order (replacer b) = []
  | (_, Panic) => False
  end.
Proof.
  intros Hok Hmax. unfold new_page. pose proof (find_free_frame_ok b σ Hok) as HF.
  destruct (find_free_frame b) as [b1 [f|e|]]; [| |done]; [|by naive_solver].
  destruct HF as (Hok1 & (fr & Hf & Hemp) & Hn & Hsz & Ht). rewrite allocate_page_some by (by rewrite Hn). simpl.
  pose proof (pk_num _ _ Hok1) as Hu. rewrite Hn in Hu |- *.
  set (id := disk_num_pages (disk b)) in *.
  assert (Hfresh : σ !! id = None).
  { apply eq_None_not_Some. rewrite (pk_dom _ _ Hok). fold id. lia. }
  assert (Hrep : page_rep (Page_new id) spec_new) by (by apply page_new_rep).
  assert (Hpid : pid (Page_new id) = id) by apply Page_new_pid.
  split_and!; [done|done| |done| |].
  - apply (install_ok b1 σ _ f fr _ spec_new); simpl; rewrite ?Hpid; try done.
    + apply Ht. destruct (page_table b !! id) as [g|] eqn:Eg; [|done].
      apply (pk_table _ _ Hok) in Eg as (gr & q & Hg & Hq & Hqid).
      destruct (cached_id _ _ _ _ _ Hok Hg Hq) as [? _]. lia.
    + apply lookup_insert_eq.
    + intros id' Hne. by rewrite lookup_insert_ne by done.
    + width.
    + lia.
    + intros id'. destruct (decide (id' = id)) as [->|Hne].
      * rewrite lookup_insert_eq. split; [intros _; width|by eexists].
      * rewrite lookup_insert_ne by done. rewrite (pk_dom _ _ Hok). fold id. lia.
  - done.
  - eexists _, _. simpl. rewrite list_lookup_insert_eq by (by eapply lookup_lt_Some).
    by split_and!.
Qed.

(** Writing a dirty frame out and keeping it cached. *)
Lemma flush_page_ok b σ id :
  pool_ok b σ ->
  exists b', flush_page id b = (b', Ok tt) /\ pool_ok b' σ /\ pool_size b' = pool_size b /\
    (forall f, page_table b !! id = Some f -> exists fr, frames b' !! f = Some fr /\ is_dirty fr = false) /\
    (forall f fr, frames b !! f = Some fr -> is_dirty fr = false ->
       exists fr', frames b' !! f = Some fr' /\ is_dirty fr' = false) /\
    page_table b' = page_table b.
Proof.
  intros Hok. unfold flush_page. destruct (page_table b !! id) as [f|] eqn:Et;
    [|by exists b; split_and!; eauto].
  pose proof Et as (fr & p & Hf & Hp & Hpid)%(pk_table _ _ Hok). rewrite Hf.
  pose proof (lookup_lt_Some _ _ _ Hf) as Hlt.
  destruct (is_dirty fr) eqn:Edirty.
  2: { exists b. split_and!; eauto. intros ? [= <-]. eauto. }
  unfold write_frame. rewrite Hp.
  destruct (write_cached _ _ _ _ _ Hok Hf Hp)
    as (d' & p' & a & -> & Ha & Hr & Hpid' & Hn & Hfl & Hd & Ho).
  simpl. eexists. split; [done|]. simpl. split_and!; [|done| | |done].
  2: { intros ? [= <-]. rewrite list_lookup_insert_eq by done. eauto. }
  2: { intros g gr Hg Hgd. destruct (decide (g = f)) as [->|Hne].
       - rewrite list_lookup_insert_eq by done. eauto.
       - rewrite list_lookup_insert_ne by done. eauto. }
  destruct (cached_id _ _ _ _ _ Hok Hf Hp) as [Hidr _].
  constructor; simpl.
  - rewrite length_insert. apply (pk_len _ _ Hok).
  - intros i g. rewrite (pk_table _ _ Hok). destruct (decide (g = f)) as [->|Hne].
    + rewrite list_lookup_insert_eq, Hf by done. split.
      * intros (? & q & [= <-] & Hq & <-). eexists _, p'. split_and!; [done..|congruence].
      * intros (? & q & [= <-] & Hq & <-). simpl in Hq. exists fr, p. split_and!; [done..|congruence].
    + by rewrite list_lookup_insert_ne by done.
  - apply (pk_lru_nodup _ _ Hok).
  - intros g Hg. destruct (decide (g = f)) as [->|Hne].
    + rewrite list_lookup_insert_eq by done. eauto.
    + rewrite list_lookup_insert_ne by done. by apply (pk_lru _ _ Hok).
  - intros g gr q [(-> & <- & _)|[Hne Hg]]%list_lookup_insert_Some Hq; simpl in *.
    + injection Hq as <-. exists a. rewrite Hpid'. by split_and!.
    + destruct (pk_cached _ _ Hok _ _ _ Hg Hq) as (a' & ? & ? & Hcl).
      exists a'. split_and!; [done..|]. intros ?. apply Ho; [|intros Heq|by apply Hcl].
      * by eapply cached_id.
      * apply Hne. by eapply cached_unique.
  - intros g gr [(-> & <- & _)|[Hne Hg]]%list_lookup_insert_Some; [|by apply (pk_pin _ _ Hok g)].
    simpl. split; [by apply (pk_pin _ _ Hok g)|done].
  - intros i a' Hi Hti. apply Ho; [by apply (pk_dom _ _ Hok); eauto| |by apply (pk_disk _ _ Hok)].
    intros ->. congruence.
  - rewrite Hn. apply (pk_dom _ _ Hok).
  - rewrite Hn. apply (pk_num _ _ Hok).
  - rewrite Hn. done.
Qed.

(** Replacing a cached page by another version of it, marked dirty. *)
Lemma rewrite_frame_ok b σ f fr p p' a' n r :
  pool_ok b σ -> frames b !! f = Some fr -> fpage fr = Some p ->
  pid p' = pid p -> page_rep p' a' -> in_u32 n -> NoDup (order r) ->
  (forall g, g ∈ order r -> g ∈ order (replacer b) \/ g = f) ->
  pool_ok (set_replacer r (set_frames (<[f := mkFrame (Some p') n true]> (frames b)) b))
    (<[pid p := a']> σ).
Proof.
  intros Hok Hf Hp Hpid Hrep Hn Hnd Hr. pose proof (lookup_lt_Some _ _ _ Hf) as Hlt.
  destruct (cached_id _ _ _ _ _ Hok Hf Hp) as [Hidr Ht].
  constructor; simpl.
  - rewrite length_insert. apply (pk_len _ _ Hok).
  - intros i g. rewrite (pk_table _ _ Hok). destruct (decide (g = f)) as [->|Hne].
    + rewrite list_lookup_insert_eq, Hf by done. split.
      * intros (? & q & [= <-] & Hq & <-). eexists _, p'. split_and!; [done..|congruence].
      * intros (? & q & [= <-] & Hq & <-). simpl in Hq. exists fr, p. split_and!; [done..|congruence].
    + by rewrite list_lookup_insert_ne by done.
  - done.
  - intros g Hg. destruct (decide (g = f)) as [->|Hne].
    + rewrite list_lookup_insert_eq by done. eauto.
    + rewrite list_lookup_insert_ne by done. apply (pk_lru _ _ Hok).
      by destruct (Hr g Hg).
  - intros g gr q [(-> & <- & _)|[Hne Hg]]%list_lookup_insert_Some Hq; simpl in *.
    + injection Hq as <-. exists a'. rewrite Hpid, lookup_insert_eq. by split_and!.
    + destruct (pk_cached _ _ Hok _ _ _ Hg Hq) as (aq & ? & ? & ?).
      exists aq. split_and!; [|done..]. rewrite lookup_insert_ne; [done|].
      intros Heq. apply Hne. by eapply cached_unique.
  - intros g gr [(-> & <- & _)|[Hne Hg]]%list_lookup_insert_Some; [done|].
    by apply (pk_pin _ _ Hok g).
  - intros i aq Hi Hti. rewrite lookup_insert_ne in Hi by congruence.
    by apply (pk_disk _ _ Hok).
  - intros i. rewrite <- (pk_dom _ _ Hok). destruct (decide (i = pid p)) as [->|].
    + rewrite lookup_insert_eq, (pk_dom _ _ Hok). split; [done|by eexists].
    + by rewrite lookup_insert_ne.
  - apply (pk_num _ _ Hok).
  - apply (pk_file _ _ Hok).
Qed.

(** A pool stands for one file. *)
Lemma pool_ok_inj b σ σ' : pool_ok b σ -> pool_ok b σ' -> σ = σ'.
Proof.
  intros Hok Hok'. apply map_eq. intros id. destruct (σ !! id) as [a|] eqn:Ha.
  - assert (is_Some (σ' !! id)) as [a' Ha'] by (apply (pk_dom _ _ Hok'), (pk_dom _ _ Hok); eauto).
    rewrite Ha'. f_equal. destruct (page_table b !! id) as [f|] eqn:Et.
    + apply (pk_table _ _ Hok) in Et as (fr & p & Hf & Hp & <-).
      destruct (pk_cached _ _ Hok _ _ _ Hf Hp) as (x & Hx & Hr & _).
      destruct (pk_cached _ _ Hok' _ _ _ Hf Hp) as (x' & Hx' & Hr' & _).
      pose proof (page_rep_inj _ _ _ Hr Hr'). congruence.
    + by eapply on_disk_inj; [eapply (pk_disk _ _ Hok)|eapply (pk_disk _ _ Hok')].
  - symmetry. apply eq_None_not_Some. rewrite (pk_dom _ _ Hok'), <- (pk_dom _ _ Hok), Ha. by intros [].
Qed.

(** ** Pages stay readable

    What is read changes when a page is written; that something can be read
    does not. *)
Definition lasting (b b' : BufferPool) : Prop :=
  forall id, 0 <= id -> (exists a, on_disk (disk b) id a) -> exists a, on_disk (disk b') id a.

#[export] Instance lasting_preorder : PreOrder lasting.
Proof. split; [by intros b id|]. intros b1 b2 b3 H1 H2 id Hid Ha. by apply H2, H1. Qed.

Lemma lasting_disk b b' : disk b' = disk b -> lasting b b'.
Proof. intros Hd id _. by rewrite Hd. Qed.

Lemma find_free_frame_lasting b σ b' f : pool_ok b σ -> find_free_frame b = (b', Ok f) -> lasting b b'.
Proof.
  intros Hok. unfold find_free_frame. destruct (first_empty _ _ _) as [[i|]|]; [intros [= <- _]; reflexivity| |done].
  unfold lru_evict. destruct (order (replacer b)) as [|v l]; [done|]. cbn [frames set_replacer disk].
  destruct (frames b !! v) as [fr|] eqn:Hf; [|done]. unfold write_frame.
  assert (Hsame : forall d pg, (pg = fpage fr /\ d = disk b \/ exists p p', fpage fr = Some p /\ write_page (disk b) p = Some (d, p')) ->
    forall b2, disk b2 = d -> lasting b b2).
  { intros d pg [[_ ->]|(p & p' & Hp & Hw)] b2 Hb2; [by apply lasting_disk|].
    destruct (write_cached _ _ _ _ _ Hok Hf Hp) as (d' & q & a & Hw' & _ & _ & _ & _ & _ & Hd & Ho).
    rewrite Hw in Hw'. injection Hw' as <- <-. intros id Hid [a' Ha']. rewrite Hb2.
    destruct (decide (id = pid p)) as [->|Hne]; [eauto|]. exists a'. by apply Ho. }
  destruct (is_dirty fr).
  - destruct (fpage fr) as [p|] eqn:Hp; cbn.
    + destruct (write_page (disk b) p) as [[d p']|] eqn:Hw; [|done]. cbn. intros [= <- _].
      by eapply (Hsame d (Some p')); [right; eauto|].
    + intros [= <- _]. by apply lasting_disk.
  - destruct (fpage fr) as [p|]; intros [= <- _]; by apply lasting_disk.
Qed.

Lemma fetch_page_lasting b σ id b' f : pool_ok b σ -> fetch_page id b = (b', Ok f) -> lasting b b'.
Proof.
  intros Hok. unfold fetch_page. destruct (page_table b !! id) as [g|].
  - destruct (frames b !! g) as [fr|]; [|done]. destruct (_ <? _); [|done]. intros [= <- _]. by apply lasting_disk.
  - destruct (find_free_frame (add_miss b)) as [b1 [g|e|]] eqn:E; [|done..].
    apply (find_free_frame_lasting _ σ) in E; [|by apply pool_add_miss].
    destruct (read_page (disk b1) id); [|done..]. intros [= <- _]. exact E.
Qed.
End Preservation.

(** ** Sessions of the pool *)
Inductive pool_op :=
  | ONewPage
  | OFetch (id : Z)
  | OUnpin (f : nat) (dirty : bool)
  | OFlush (id : Z)
  | OFlushAll (page_ids : list Z)
  | OWrite (f : nat) (o : page_op).

Inductive pool_res :=
  | RPage (id : Z) (f : nat)
  | RFrame (f : nat)
  | RUnit
  | RWrote (id : Z) (r : page_res).

Section Sessions.
Context `{Crc32}.

(** [get_page_mut(f)], one page operation, [unpin(f, true)]: how the engine
    modifies a page. *)
Definition pool_write (f : nat) (o : page_op) : st BufferPool io_error pool_res := fun b =>
  match get_page b f with
  | Some (Some p) =>
      match page_step p o with
      | Some (p', r) =>
          match unpin f true (set_page f p' b) with
          | (b, Ok _) => (b, Ok (RWrote (pid p') r))
          | (b, Err e) => (b, Err e)
          | (b, Panic) => (b, Panic)
          end
      | None => (b, Panic)
      end
  | _ => (b, Panic)
  end.

Definition pool_step (o : pool_op) : st BufferPool io_error pool_res :=
  match o with
  | ONewPage => '(id, f) ← new_page; mret (RPage id f)
  | OFetch id => f ← fetch_page id; mret (RFrame f)
  | OUnpin f d => _ ← unpin f d; mret RUnit
  | OFlush id => _ ← flush_page id; mret RUnit
  | OFlushAll ids => _ ← flush_all ids; mret RUnit
  | OWrite f o => pool_write f o
  end.

(** What the caller owes: frames are indices of the pool, and a page is
    modified while it is pinned. *)
Definition pool_pre (b : BufferPool) (o : pool_op) : Prop :=
  match o with
  | ONewPage => disk_num_pages (disk b) + 1 < 2 ^ 32
  | OFetch id => in_u32 id
  | OUnpin f _ => (f < pool_size b)%nat
  | OFlush _ | OFlushAll _ => True
  | OWrite f o => page_op_ok o /\
      exists fr p, frames b !! f = Some fr /\ fpage fr = Some p /\ pin_count fr <> 0
  end.

(** What an operation does to the contents of the file. *)
Definition store_step (σ : gmap Z spec_page) (o : pool_op)
    (r : result io_error pool_res) : gmap Z spec_page :=
  match o, r with
  | ONewPage, Ok (RPage id _) => <[id := spec_new]> σ
  | OWrite _ po, Ok (RWrote id _) => alter (fun a => (spec_step a po).1) id σ
  | _, _ => σ
  end.

Inductive pool_reach (n : nat) : BufferPool -> gmap Z spec_page -> Prop :=
  | reach_open : pool_reach n (BufferPool_new n []) ∅
  | reach_step b σ o b' r :
      pool_reach n b σ -> pool_pre b o -> pool_step o b = (b', r) ->
      pool_reach n b' (store_step σ o r).

Lemma pool_new_ok n : pool_ok (BufferPool_new n []) ∅.
Proof.
  constructor; simpl; try done.
  - apply length_replicate.
  - intros id f. rewrite lookup_empty. split; [done|].
    intros (fr & p & [-> _]%lookup_replicate & ? & _). done.
  - apply NoDup_nil_2.
  - intros f Hf. by apply elem_of_nil in Hf.
  - intros f fr p [-> _]%lookup_replicate. done.
  - intros f fr [-> _]%lookup_replicate. done.
  - intros id. rewrite lookup_empty. split; [by intros [? ?]|]. intros [? Hlt]. by destruct (Z.lt_irrefl 0); eapply Z.le_lt_trans; [|exact Hlt].
Qed.

Lemma pool_write_ok b σ f o fr p :
  pool_ok b σ -> page_op_ok o ->
  frames b !! f = Some fr -> fpage fr = Some p -> pin_count fr <> 0 ->
  exists a b', σ !! pid p = Some a /\
    pool_write f o b = (b', Ok (RWrote (pid p) (spec_step a o).2)) /\
    pool_ok b' (<[pid p := (spec_step a o).1]> σ) /\ pool_size b' = pool_size b.
Proof.
  intros Hok Ho Hf Hp Hpin.
  destruct (pk_cached _ _ Hok _ _ _ Hf Hp) as (a & Ha & Hrep & _).
  destruct (page_step_refines p a o Hrep Ho) as (p' & Hstep & Hrep' & Hpid).
  exists a. unfold pool_write, get_page. rewrite Hf. simpl. rewrite Hp, Hstep.
  pose proof (lookup_lt_Some _ _ _ Hf) as Hlt. destruct (pk_pin _ _ Hok _ _ Hf) as [Hpos _].
  unfold set_page. rewrite Hf. unfold unpin. simpl.
  rewrite list_lookup_insert_eq by done. simpl.
  rewrite (proj2 (Z.eqb_neq _ _) Hpin), orb_true_r, Hpid, list_insert_insert_eq.
  eexists. split; [done|]. split; [done|].
  split; [|by destruct (pin_count fr - 1 =? 0)].
  destruct (pin_count fr - 1 =? 0).
  - apply (rewrite_frame_ok b σ f fr p p' _ _ (lru_unpin (replacer b) f)); try done; [width| |];
      unfold lru_unpin.
    + case_decide; [apply (pk_lru_nodup _ _ Hok)|]. simpl. apply NoDup_app.
      split_and!; [apply (pk_lru_nodup _ _ Hok)| |apply NoDup_singleton]. set_solver.
    + intros g. case_decide; [by left|]. simpl. set_solver.
  - apply (rewrite_frame_ok b σ f fr p p' _ _ (replacer b)); try done; [width| |by left].
    apply (pk_lru_nodup _ _ Hok).
Qed.

Lemma flush_all_ok b σ ids :
  pool_ok b σ ->
  exists b', flush_all ids b = (b', Ok tt) /\ pool_ok b' σ /\ pool_size b' = pool_size b /\
    page_table b' = page_table b /\
    (forall f fr, frames b !! f = Some fr -> is_dirty fr = false ->
       exists fr', frames b' !! f = Some fr' /\ is_dirty fr' = false) /\
    (forall id f, id ∈ ids -> page_table b !! id = Some f ->
       exists fr, frames b' !! f = Some fr /\ is_dirty fr = false).
Proof.
  revert b. induction ids as [|id ids IH]; intros b Hok.
  { exists b. split_and!; eauto. intros ? ? []%elem_of_nil. }
  unfold flush_all. simpl.
  destruct (flush_page_ok b σ id Hok) as (b1 & H1 & Hok1 & Hsz1 & Hcl1 & Hkeep1 & Ht1).
  destruct (IH b1 Hok1) as (b2 & H2 & Hok2 & Hsz2 & Ht2 & Hkeep2 & Hcl2).
  exists b2. rewrite (st_bind_ok _ _ _ _ _ H1). split; [done|]. split; [done|].
  split; [congruence|]. split; [congruence|]. split.
  - intros f fr Hf Hd. destruct (Hkeep1 _ _ Hf Hd) as (fr1 & ? & ?). eauto.
  - intros i f [->|Hi]%elem_of_cons Hf.
    + destruct (Hcl1 _ Hf) as (fr1 & ? & ?). eauto.
    + apply (Hcl2 i); [done|congruence].
Qed.

Lemma pool_step_ok b σ o :
  pool_ok b σ -> pool_pre b o ->
  exists b' r, pool_step o b = (b', r) /\ pool_ok b' (store_step σ o r) /\
    pool_size b' = pool_size b.
Proof.
  intros Hok Hpre. destruct o as [|id|f d|id|ids|f o]; simpl in *.
  - pose proof (new_page_ok b σ Hok Hpre) as HN. unfold mbind, st_bind.
    destruct (new_page b) as [b1 [[id f]|e|]]; [| |done]; simpl.
    + destruct HN as (_ & _ & ? & ? & _). by eexists _, _.
    + destruct HN as (-> & -> & _). by eexists _, _.
  - pose proof (fetch_page_ok b σ id Hok ltac:(width)) as HF. unfold mbind, st_bind.
    destruct (fetch_page id b) as [b1 [f|e|]]; simpl.
    + destruct HF as (? & ? & _); by eexists _, _.
    + destruct HF as (? & ? & _); by eexists _, _.
    + destruct HF as (-> & _); by eexists _, _.
  - destruct (unpin_ok b σ f d Hok Hpre) as (b' & Hu & ? & ?).
    rewrite (st_bind_ok _ _ _ _ _ Hu). by eexists _, _.
  - destruct (flush_page_ok b σ id Hok) as (b' & Hu & ? & ? & _).
    rewrite (st_bind_ok _ _ _ _ _ Hu). by eexists _, _.
  - destruct (flush_all_ok b σ ids Hok) as (b' & Hu & ? & ? & _).
    rewrite (st_bind_ok _ _ _ _ _ Hu). by eexists _, _.
  - destruct Hpre as (Ho & fr & p & Hf & Hp & Hpin).
    destruct (pool_write_ok b σ f o fr p) as (a & b' & Ha & -> & Hok' & Hsz); [done..|].
    eexists _, _. split_and!; [done..| |done]. simpl.
    replace (alter (fun a => (spec_step a o).1) (pid p) σ)
      with (<[pid p := (spec_step a o).1]> σ); [done|].
    apply map_eq. intros i. destruct (decide (i = pid p)) as [->|].
    + by rewrite lookup_insert_eq, lookup_alter_eq, Ha.
    + by rewrite lookup_insert_ne, lookup_alter_ne by done.
Qed.

Lemma pool_reach_ok n b σ : pool_reach n b σ -> pool_ok b σ /\ pool_size b = n.
Proof.
  induction 1 as [|b σ o b' r _ [IH Hsz] Hpre Hstep].
  - split; [apply pool_new_ok|done].
  - destruct (pool_step_ok b σ o IH Hpre) as (b2 & r2 & Hs & Hok & Hsz').
    rewrite Hstep in Hs. injection Hs as -> ->. by rewrite Hsz'.
Qed.
End Sessions.

(** ** The pool is transparent *)
Lemma reach_run `{Crc32} n b σ o :
  pool_reach n b σ -> pool_pre b o ->
  pool_reach n (pool_step o b).1 (store_step σ o (pool_step o b).2).
Proof. intros ??. eapply reach_step; [done..|]. by destruct (pool_step o b). Qed.

(** C10: whatever sequence of allocations, fetches, pins, unpins, writes,
    flushes and evictions came before, each allowed by [pool_pre] (frames of the
    pool, ids that are a [u32], a page being written while it is pinned, fewer
    than 2^32 - 1 pages allocated), a fetched frame holds exactly the current
    contents of the requested page and is pinned; a fetch fails only for an id
    never allocated or, when the page is not cached, for want of a frame to
    evict; it panics only when the page is in a frame that has been pinned 2^32
    - 1 times, so that the count overflows. *)
Theorem fetch_page_current `{Crc32} n b σ id :
  pool_reach n b σ -> in_u32 id ->
  match (fetch_page id b).2 with
  | Ok f => exists fr p a, frames (fetch_page id b).1 !! f = Some fr /\ 0 < pin_count fr /\
      fpage fr = Some p /\ pid p = id /\ σ !! id = Some a /\ page_rep p a
  | Err e => (e = UnexpectedEof /\ σ !! id = None) \/
             (e = OutOfMemory /\ order (replacer b) = [] /\ page_table b !! id = None)
  | Panic => pins_full b id
  end.
Proof.
  intros [Hok _]%pool_reach_ok Hid.
  pose proof (fetch_page_ok b σ id Hok ltac:(width)) as HF.
  destruct (fetch_page id b) as [b' [f|e|]]; simpl; naive_solver.
Qed.

(** C25: flushing every cached id, in whatever order the map yields them, makes
    every allocated page durable: reading data.db afterwards gives back the
    current contents of every page. *)
Theorem flush_all_durable `{Crc32} n b σ ids :
  pool_reach n b σ -> (forall id, is_Some (page_table b !! id) -> id ∈ ids) ->
  exists b', flush_all ids b = (b', Ok tt) /\
    forall id a, σ !! id = Some a -> on_disk (disk b') id a.
Proof.
  intros [Hok _]%pool_reach_ok Hids.
  destruct (flush_all_ok b σ ids Hok) as (b' & Hf & Hok' & _ & Ht & _ & Hclean).
  exists b'. split; [done|]. intros id a Ha.
  destruct (page_table b !! id) as [f|] eqn:Et; [|apply (pk_disk _ _ Hok'); [done|by rewrite Ht]].
  destruct (Hclean id f) as (fr & Hfr & Hd); [by apply Hids; eexists|done|].
  rewrite <- Ht in Et. apply (pk_table _ _ Hok') in Et as (fr' & p & Hf' & Hp & <-).
  rewrite Hfr in Hf'. injection Hf' as <-.
  destruct (pk_cached _ _ Hok' _ _ _ Hfr Hp) as (a' & Ha' & _ & Hon).
  rewrite Ha in Ha'. injection Ha' as <-. by apply Hon.
Qed.

(** A new page gets an id never used before and starts empty and pinned;
    every page allocated earlier keeps its contents. *)
Lemma new_page_fresh `{Crc32} n b σ b' id f :
  pool_reach n b σ -> disk_num_pages (disk b) + 1 < 2 ^ 32 ->
  new_page b = (b', Ok (id, f)) ->
  σ !! id = None /\ pool_ok b' (<[id := spec_new]> σ) /\
  exists fr p, frames b' !! f = Some fr /\ 0 < pin_count fr /\ fpage fr = Some p /\
    pid p = id /\ page_rep p spec_new.
Proof.
  intros [Hok _]%pool_reach_ok Hmax Hnew.
  pose proof (new_page_ok b σ Hok Hmax) as HN. rewrite Hnew in HN. naive_solver.
Qed.

(** C26: a cache hit puts the frame back among the eviction candidates although
    it has just been pinned, so the next allocation evicts the pinned page
    when no other frame can be evicted. (On the hit that makes the count of pins
    overflow, the fetch panics instead.) *)
Theorem pinned_page_evicted `{Crc32} n b σ id f :
  pool_reach n b σ -> disk_num_pages (disk b) + 1 < 2 ^ 32 ->
  page_table b !! id = Some f ->
  (forall g, (g < n)%nat -> exists gr p, frames b !! g = Some gr /\ fpage gr = Some p) ->
  (forall g, g ∈ order (replacer b) -> g = f) ->
  (pins_full b id /\ fetch_page id b = (b, Panic)) \/
  exists b1 fr b2 id', fetch_page id b = (b1, Ok f) /\
    frames b1 !! f = Some fr /\ 0 < pin_count fr /\
    new_page b1 = (b2, Ok (id', f)) /\ page_table b2 !! id = None.
Proof.
  intros [Hok Hn]%pool_reach_ok Hmax Ht Hfull Hlru.
  pose proof (fetch_page_ok b σ id Hok) as HF.
  pose proof Ht as (fr & p & Hf & Hp & Hpid)%(pk_table _ _ Hok).
  destruct (cached_id _ _ _ _ _ Hok Hf Hp) as [Hidr _].
  specialize (HF ltac:(lia)). unfold fetch_page in *. rewrite Ht, Hf in *.
  destruct (pin_count fr + 1 <? 2 ^ 32); [right|by left; split; [apply HF|]].
  set (b1 := add_hit _) in *. simpl in HF. destruct HF as (Hok1 & Hsz & fr1 & p1 & a & Hfr1 & Hpin & Hp1 & Hid1 & Ha & Hr).
  assert (Hord : order (replacer b1) = [f]).
  { simpl. by rewrite (filter_only (order (replacer b))) by done. }
  assert (Hfull1 : forall g, (g < pool_size b1)%nat ->
            exists gr q, frames b1 !! g = Some gr /\ fpage gr = Some q).
  { intros g Hg. simpl. destruct (decide (g = f)) as [->|Hne].
    - rewrite list_lookup_insert_eq by (by eapply lookup_lt_Some). eauto.
    - rewrite list_lookup_insert_ne by done. apply Hfull. simpl in Hg. lia. }
  destruct (find_free_frame_victim b1 σ f [] fr1 p1) as (b2 & Hfind & Hgone); [done..|].
  pose proof (new_page_ok b1 σ Hok1 Hmax) as HN. unfold new_page in *. rewrite Hfind in HN.
  destruct (allocate_page (disk b2)) as [[d2 id']|] eqn:Ea; [|done]. simpl in HN. destruct HN as (Hnew & _).
  eexists b1, fr1, _, _. rewrite Hfind, Ea. split_and!; [done..|].
  rewrite install_table, Page_new_pid, lookup_insert_ne; rewrite <- Hid1 at 1; [done|].
  intros Heq. rewrite Heq in Hnew. congruence.
Qed.

Lemma pinned_page_evicted_witness :
  let b := (@pool_step sum_crc (OUnpin 0 false)
              (@pool_step sum_crc ONewPage (BufferPool_new 1 [])).1).1 in
  exists b1 fr b2 id', @fetch_page sum_crc 0 b = (b1, Ok 0%nat) /\
    frames b1 !! 0%nat = Some fr /\ 0 < pin_count fr /\
    @new_page sum_crc b1 = (b2, Ok (id', 0%nat)) /\ page_table b2 !! 0 = None.
Proof.
  intros b.
  assert (exists σ, @pool_reach sum_crc 1 b σ) as [σ Hr].
  { eexists. eapply reach_run; [eapply reach_run; [apply reach_open|by vm_compute]|]. vm_compute. lia. }
  destruct (@pinned_page_evicted sum_crc 1 b σ 0 0 Hr) as [[(f & fr & Ht & Hf & Hpin) _]|Hev]; [..|exact Hev].
  - by vm_compute.
  - by vm_compute.
  - intros g Hg. assert (g = 0%nat) as -> by lia. by eexists _, _.
  - intros g. vm_compute. by intros [->|[]%elem_of_nil]%elem_of_cons.
  - assert (f = 0%nat) as -> by (vm_compute in Ht; congruence). vm_compute in Hf. by injection Hf as <-.
Defined.

(** A session used by the witnesses: one page, written and released. *)
Definition demo_pool : BufferPool :=
  (@pool_step sum_crc (OWrite 0 (PInsert [x2a]))
     (@pool_step sum_crc ONewPage (BufferPool_new 2 [])).1).1.

Definition demo_store : gmap Z spec_page := {[ 0 := mkSpec [Some [x2a]] 4078 ]}.

Lemma demo_reach : @pool_reach sum_crc 2 demo_pool demo_store.
Proof.
  replace demo_store with
    (store_step (store_step ∅ ONewPage (@pool_step sum_crc ONewPage (BufferPool_new 2 [])).2)
       (OWrite 0 (PInsert [x2a]))
       (@pool_step sum_crc (OWrite 0 (PInsert [x2a]))
          (@pool_step sum_crc ONewPage (BufferPool_new 2 [])).1).2) by (by vm_compute).
  apply reach_run; [apply reach_run; [apply reach_open|by vm_compute]|].
  split; [by vm_compute|]. eexists _, _. by split_and!.
Qed.

Lemma fetch_page_current_witness :
  exists fr p a, frames (@fetch_page sum_crc 0 demo_pool).1 !! 0%nat = Some fr /\
    0 < pin_count fr /\ fpage fr = Some p /\ pid p = 0 /\
    demo_store !! 0 = Some a /\ page_rep p a.
Proof.
  assert (Hr : in_u32 0) by (by vm_compute).
  assert (E : (@fetch_page sum_crc 0 demo_pool).2 = Ok 0%nat) by (by vm_compute).
  pose proof (@fetch_page_current sum_crc 2 demo_pool demo_store 0 demo_reach Hr) as HF.
  rewrite E in HF. exact HF.
Defined.

Lemma flush_all_durable_witness :
  exists b', @flush_all sum_crc [0] demo_pool = (b', Ok tt) /\
    @on_disk sum_crc (disk b') 0 (mkSpec [Some [x2a]] 4078).
Proof.
  destruct (@flush_all_durable sum_crc 2 demo_pool demo_store [0] demo_reach) as (b' & ? & Hd).
  - intros id. change (page_table demo_pool) with ({[0 := 0%nat]} : gmap Z nat).
    intros [f Hf]. destruct (decide (id = 0)) as [->|]; [left|].
    by rewrite lookup_singleton_ne in Hf.
  - exists b'. split; [done|]. by apply Hd.
Defined.

Lemma new_page_fresh_witness :
  exists b' id f, @new_page sum_crc demo_pool = (b', Ok (id, f)) /\ demo_store !! id = None.
Proof.
  assert (E : exists b', @new_page sum_crc demo_pool = (b', Ok (1, 1%nat))).
  { eexists. vm_compute. reflexivity. }
  destruct E as [b' E]. exists b', 1, 1%nat. split; [done|].
  refine (proj1 (@new_page_fresh sum_crc 2 demo_pool demo_store b' 1 1 demo_reach _ E)).
  by vm_compute.
Defined.
