(* ===== verification/LogRecord.v ===== *)
(** * Log records: recovery/log_record.rs

    A record is framed by its length in four bytes; the body is a type byte,
    the LSN and the fields of the variant.  The decoder slices the body with
    ranges it does not check: [None] is that panic. *)
From S2P Require Export Bytes.
Local Open Scope Z_scope.

Inductive LogRecord :=
  | LogBegin (lsn txn_id : Z)
  | LogInsert (lsn txn_id page slot : Z) (data : bytes)
  | LogDelete (lsn txn_id page slot : Z) (old_data : bytes)
  | LogUpdate (lsn txn_id page slot : Z) (old_data new_data : bytes)
  | LogCommit (lsn txn_id : Z)
  | LogAbort (lsn txn_id : Z)
  | LogCheckpoint (lsn : Z).

#[export] Instance LogRecord_eq_decision : EqDecision LogRecord.
Proof. solve_decision. Defined.

Definition lsn (r : LogRecord) : Z :=
  match r with
  | LogBegin l _ | LogInsert l _ _ _ _ | LogDelete l _ _ _ _ | LogUpdate l _ _ _ _ _
  | LogCommit l _ | LogAbort l _ | LogCheckpoint l => l
  end.

Definition txn_id (r : LogRecord) : option Z :=
  match r with
  | LogBegin _ t | LogInsert _ t _ _ _ | LogDelete _ t _ _ _ | LogUpdate _ t _ _ _ _
  | LogCommit _ t | LogAbort _ t => Some t
  | LogCheckpoint _ => None
  end.

(** ** Encoding *)
Definition TYPE_BEGIN : byte := x00.
Definition TYPE_INSERT : byte := x01.
Definition TYPE_DELETE : byte := x02.
Definition TYPE_UPDATE : byte := x03.
Definition TYPE_COMMIT : byte := x04.
Definition TYPE_ABORT : byte := x05.
Definition TYPE_CHECKPOINT : byte := x06.

(** [(d.len() as u32).to_le_bytes()] and the bytes. *)
Definition put_bytes (d : bytes) : bytes :=
  to_le 4 (as_u32 (Z.of_nat (length d))) ++ d.

Definition record_body (r : LogRecord) : bytes :=
  match r with
  | LogBegin l t => TYPE_BEGIN :: to_le 8 l ++ to_le 4 t
  | LogInsert l t p s d =>
      TYPE_INSERT :: to_le 8 l ++ to_le 4 t ++ to_le 4 p ++ to_le 2 s ++ put_bytes d
  | LogDelete l t p s d =>
      TYPE_DELETE :: to_le 8 l ++ to_le 4 t ++ to_le 4 p ++ to_le 2 s ++ put_bytes d
  | LogUpdate l t p s o n =>
      TYPE_UPDATE :: to_le 8 l ++ to_le 4 t ++ to_le 4 p ++ to_le 2 s ++
        put_bytes o ++ put_bytes n
  | LogCommit l t => TYPE_COMMIT :: to_le 8 l ++ to_le 4 t
  | LogAbort l t => TYPE_ABORT :: to_le 8 l ++ to_le 4 t
  | LogCheckpoint l => TYPE_CHECKPOINT :: to_le 8 l
  end.

Definition LogRecord_to_bytes (r : LogRecord) : bytes :=
  let buf := record_body r in to_le 4 (as_u32 (Z.of_nat (length buf))) ++ buf.

(** ** Decoding *)
Definition read_bytes : decoder bytes := fun l =>
  '(n, l) ← read_le 4 l;
  if Z.of_nat (length l) <? n then None else read_n (Z.to_nat n) l.

(** The fields a type byte announces; inner [None] for an unknown type. *)
Definition read_fields (ty : byte) : decoder (option LogRecord) := fun b =>
  if decide (ty = TYPE_BEGIN) then
    '(l, b) ← read_le 8 b; '(t, b) ← read_le 4 b; Some (Some (LogBegin l t), b)
  else if decide (ty = TYPE_INSERT) then
    '(l, b) ← read_le 8 b; '(t, b) ← read_le 4 b; '(p, b) ← read_le 4 b;
    '(s, b) ← read_le 2 b; '(d, b) ← read_bytes b;
    Some (Some (LogInsert l t p s d), b)
  else if decide (ty = TYPE_DELETE) then
    '(l, b) ← read_le 8 b; '(t, b) ← read_le 4 b; '(p, b) ← read_le 4 b;
    '(s, b) ← read_le 2 b; '(d, b) ← read_bytes b;
    Some (Some (LogDelete l t p s d), b)
  else if decide (ty = TYPE_UPDATE) then
    '(l, b) ← read_le 8 b; '(t, b) ← read_le 4 b; '(p, b) ← read_le 4 b;
    '(s, b) ← read_le 2 b; '(o, b) ← read_bytes b; '(n, b) ← read_bytes b;
    Some (Some (LogUpdate l t p s o n), b)
  else if decide (ty = TYPE_COMMIT) then
    '(l, b) ← read_le 8 b; '(t, b) ← read_le 4 b; Some (Some (LogCommit l t), b)
  else if decide (ty = TYPE_ABORT) then
    '(l, b) ← read_le 8 b; '(t, b) ← read_le 4 b; Some (Some (LogAbort l t), b)
  else if decide (ty = TYPE_CHECKPOINT) then
    '(l, b) ← read_le 8 b; Some (Some (LogCheckpoint l), b)
  else Some (None, b).

Definition LogRecord_from_bytes (buf : bytes) : option (option LogRecord) :=
  match buf with
  | [] => Some None
  | ty :: rest => '(r, _) ← read_fields ty rest; Some r
  end.

(** ** Records whose fields fit their types *)
Definition bytes_ok (d : bytes) : Prop := Z.of_nat (length d) < 2 ^ 32.

Definition fields_ok (r : LogRecord) : Prop :=
  match r with
  | LogBegin l t | LogCommit l t | LogAbort l t => in_u64 l /\ in_u32 t
  | LogInsert l t p s d | LogDelete l t p s d =>
      in_u64 l /\ in_u32 t /\ in_u32 p /\ in_u16 s /\ bytes_ok d
  | LogUpdate l t p s o n =>
      in_u64 l /\ in_u32 t /\ in_u32 p /\ in_u16 s /\ bytes_ok o /\ bytes_ok n
  | LogCheckpoint l => in_u64 l
  end.

(** The frame length, a [u32], is not truncated. *)
Definition record_ok (r : LogRecord) : Prop :=
  fields_ok r /\ bytes_ok (record_body r).

#[export] Instance bytes_ok_dec d : Decision (bytes_ok d).
Proof. unfold bytes_ok. apply _. Defined.
#[export] Instance record_ok_dec r : Decision (record_ok r).
Proof. unfold record_ok, fields_ok. destruct r; apply _. Defined.

Lemma read_bytes_put d rest : bytes_ok d -> read_bytes (put_bytes d ++ rest) = Some (d, rest).
Proof.
  unfold bytes_ok. intros. unfold read_bytes, put_bytes. rewrite <- app_assoc.
  rewrite as_u32_small by width. rewrite read_le_u32 by width. simpl.
  rewrite (proj2 (Z.ltb_ge _ _)) by (rewrite length_app; lia).
  rewrite Nat2Z.id. by apply read_n_app.
Qed.

(** The frame body decodes to the record, whatever follows in the buffer. *)
Lemma read_fields_body r rest :
  fields_ok r -> exists ty b, record_body r ++ rest = ty :: b /\
    read_fields ty b = Some (Some r, rest).
Proof.
  intros H; destruct r; simpl in H; do 2 eexists; (split; [cbn [record_body app]; reflexivity|]);
    unfold read_fields; cbv [TYPE_BEGIN TYPE_INSERT TYPE_DELETE TYPE_UPDATE TYPE_COMMIT
      TYPE_ABORT TYPE_CHECKPOINT];
    repeat (rewrite decide_False by done); rewrite decide_True by done;
    rewrite <- ?app_assoc;
    repeat (rewrite ?read_le_u64, ?read_le_u32, ?read_le_u16, ?read_bytes_put by tauto;
            cbn [mbind option_bind]);
    done.
Qed.

Lemma from_bytes_body r : fields_ok r -> LogRecord_from_bytes (record_body r) = Some (Some r).
Proof.
  intros (ty & b & Hb & Hr)%(read_fields_body r []).
  rewrite app_nil_r in Hb. rewrite Hb. simpl. by rewrite Hr.
Qed.

Lemma length_LogRecord_to_bytes r :
  length (LogRecord_to_bytes r) = (4 + length (record_body r))%nat.
Proof. unfold LogRecord_to_bytes. by rewrite length_app, length_to_le. Qed.

Lemma record_body_nonempty r : (0 < length (record_body r))%nat.
Proof. destruct r; simpl; lia. Qed.
