(* ===== verification/Wal.v ===== *)
(** * The write-ahead log: recovery/wal.rs

    The log file is its bytes, the managed pages a map, and every method the
    whole handler.  [log_synced] is how much of the file the last [sync_all]
    made durable; a crash keeps at least that much.  [u32] and [u64] counters
    panic on overflow (overflow checks of a debug build). *)
From S2P Require Export LogRecord Disk.
Local Open Scope Z_scope.

Record WalManager := mkWal {
  log_file : bytes;
  log_synced : nat;
  current_lsn : Z;
  next_txn_id : Z;
  active_txns : gset Z;
  wal_pages : gmap Z Page;
}.

Record RecoveryReport := mkReport {
  redone : nat;
  undone : nat;
  incomplete_txns : gset Z;
}.

(** Opening a log file that holds these bytes. *)
Definition WalManager_new (log : bytes) : WalManager :=
  mkWal log (length log) 0 1 ∅ ∅.

Definition wal (A : Type) : Type := st WalManager io_error A.

Definition set_wal_pages (m : gmap Z Page) (w : WalManager) : WalManager :=
  mkWal (log_file w) (log_synced w) (current_lsn w) (next_txn_id w) (active_txns w) m.

(** ** Appending *)
Definition with_lsn (l : Z) (r : LogRecord) : LogRecord :=
  match r with
  | LogBegin _ t => LogBegin l t
  | LogInsert _ t p s d => LogInsert l t p s d
  | LogDelete _ t p s d => LogDelete l t p s d
  | LogUpdate _ t p s o n => LogUpdate l t p s o n
  | LogCommit _ t => LogCommit l t
  | LogAbort _ t => LogAbort l t
  | LogCheckpoint _ => LogCheckpoint l
  end.

Definition append (r : LogRecord) : wal Z := fun w =>
  let l := current_lsn w in
  if decide (in_u64 (l + 1)) then
    (mkWal (log_file w ++ LogRecord_to_bytes (with_lsn l r)) (log_synced w) (l + 1)
       (next_txn_id w) (active_txns w) (wal_pages w), Ok l)
  else (w, Panic).

Definition flush : wal unit := fun w =>
  (mkWal (log_file w) (length (log_file w)) (current_lsn w) (next_txn_id w)
     (active_txns w) (wal_pages w), Ok tt).

(** ** Transactions *)
Definition begin_txn : wal Z := fun w =>
  let t := next_txn_id w in
  if decide (in_u32 (t + 1)) then
    (_ ← append (LogBegin 0 t); mret t)
      (mkWal (log_file w) (log_synced w) (current_lsn w) (t + 1)
         ({[t]} ∪ active_txns w) (wal_pages w))
  else (w, Panic).

(** [self.pages.entry(page_id).or_insert_with(|| Page::new(page_id))] *)
Definition entry_page (m : gmap Z Page) (id : Z) : Page := default (Page_new id) (m !! id).

Definition log_insert (t id : Z) (d : bytes) : wal Z := fun w =>
  match insert_tuple (entry_page (wal_pages w) id) d with
  | None => (w, Panic)
  | Some (p, r) =>
      (sid ← st_lift (ok_or OutOfMemory r);
       _ ← append (LogInsert 0 t id sid d); mret sid)
        (set_wal_pages (<[id := p]> (wal_pages w)) w)
  end.

Definition log_delete (t id sid : Z) : wal bool := fun w =>
  let old := match wal_pages w !! id with Some p => get_tuple p sid | None => Some None end in
  let del := match wal_pages w !! id with
             | Some p => '(p, b) ← delete_tuple p sid; Some (<[id := p]> (wal_pages w), b)
             | None => Some (wal_pages w, false)
             end in
  match old, del with
  | Some old, Some (m, deleted) =>
      (_ ← append (LogDelete 0 t id sid (default [] old)); mret deleted) (set_wal_pages m w)
  | _, _ => (w, Panic)
  end.

Definition log_update (t id sid : Z) (old new : bytes) : wal unit :=
  _ ← append (LogUpdate 0 t id sid old new); mret tt.

Definition end_txn (t : Z) : wal unit :=
  st_modify (fun w => mkWal (log_file w) (log_synced w) (current_lsn w) (next_txn_id w)
                        (active_txns w ∖ {[t]}) (wal_pages w)).

Definition commit (t : Z) : wal unit := _ ← append (LogCommit 0 t); _ ← flush; end_txn t.
Definition abort (t : Z) : wal unit := _ ← append (LogAbort 0 t); _ ← flush; end_txn t.

(** What the log tells about itself. *)
Definition WalManager_current_lsn (w : WalManager) : Z := current_lsn w.
Definition WalManager_active_txns (w : WalManager) : gset Z := active_txns w.

(** ** Reading the log back

    The loop stops at a frame that does not fit in the file; a frame whose
    type is unknown is skipped.  [None] is a panic of [from_bytes].  Every
    round consumes at least four bytes, so the file's length bounds them. *)
Fixpoint read_frames (fuel : nat) (l : bytes) : option (list LogRecord) :=
  match fuel with
  | O => Some []
  | S fuel =>
      match read_le 4 l with
      | None => Some []
      | Some (len, l) =>
          if Z.of_nat (length l) <? len then Some []
          else
            r ← LogRecord_from_bytes (take (Z.to_nat len) l);
            rs ← read_frames fuel (drop (Z.to_nat len) l);
            Some (match r with Some r => r :: rs | None => rs end)
      end
  end.

Definition read_log (l : bytes) : option (list LogRecord) := read_frames (S (length l)) l.

Definition read_all_records : wal (list LogRecord) := fun w =>
  (w, or_panic (read_log (log_file w))).

(** ** Recovery *)
Definition started_by (r : LogRecord) : option Z :=
  match r with LogBegin _ t => Some t | _ => None end.
Definition committed_by (r : LogRecord) : option Z :=
  match r with LogCommit _ t => Some t | _ => None end.
Definition aborted_by (r : LogRecord) : option Z :=
  match r with LogAbort _ t => Some t | _ => None end.

(** The [HashSet] a pass over the log collects. *)
Definition txns_of (f : LogRecord -> option Z) (rs : list LogRecord) : gset Z :=
  list_to_set (omap f rs).

Definition incomplete (rs : list LogRecord) : gset Z :=
  filter (fun t => t ∉ txns_of committed_by rs /\ t ∉ txns_of aborted_by rs)
    (txns_of started_by rs).

(** One record of the REDO pass, on the pages and the [redone] count. *)
Definition redo_record (committed : gset Z) (r : LogRecord) (s : gmap Z Page * nat)
    : option (gmap Z Page * nat) :=
  let '(m, n) := s in
  match r with
  | LogInsert _ t id _ d =>
      if decide (t ∈ committed) then
        '(p, _) ← insert_tuple (entry_page m id) d; Some (<[id := p]> m, S n)
      else Some s
  | LogDelete _ t id sid _ =>
      if decide (t ∈ committed) then
        match m !! id with
        | Some p => '(p, _) ← delete_tuple p sid; Some (<[id := p]> m, S n)
        | None => Some s
        end
      else Some s
  | LogUpdate _ t id sid _ new =>
      if decide (t ∈ committed) then
        match m !! id with
        | Some p => '(p, _) ← update_tuple p sid new; Some (<[id := p]> m, S n)
        | None => '(p, _) ← update_tuple (Page_new id) sid new; Some (<[id := p]> m, S n)
        end
      else Some s
  | _ => Some s
  end.

(** One record of the UNDO pass, on the pages, the [undone] count and the
    transactions reported. *)
Definition undo_record (inc : gset Z) (r : LogRecord) (s : gmap Z Page * nat * gset Z)
    : option (gmap Z Page * nat * gset Z) :=
  let '(m, n, seen) := s in
  match txn_id r with
  | None => Some s
  | Some t =>
      if decide (t ∈ inc) then
        '(m, n) ←
          match r with
          | LogInsert _ _ id sid _ =>
              match m !! id with
              | Some p => '(p, _) ← delete_tuple p sid; Some (<[id := p]> m, S n)
              | None => Some (m, n)
              end
          | LogDelete _ _ id _ old =>
              '(p, _) ← insert_tuple (entry_page m id) old; Some (<[id := p]> m, S n)
          | LogUpdate _ _ id sid old _ =>
              match m !! id with
              | Some p => '(p, _) ← update_tuple p sid old; Some (<[id := p]> m, S n)
              | None => Some (m, n)
              end
          | _ => Some (m, n)
          end;
        Some (m, n, {[t]} ∪ seen)
      else Some s
  end.

(** A pass over the records, in the order of the list. *)
Fixpoint pass {S} (f : LogRecord -> S -> option S) (rs : list LogRecord) (s : S) : option S :=
  match rs with
  | [] => Some s
  | r :: rs => s ← f r s; pass f rs s
  end.

(** Both passes on the records read back. *)
Definition recover_pages (rs : list LogRecord) (m : gmap Z Page)
    : option (gmap Z Page * RecoveryReport) :=
  '(m, redone) ← pass (redo_record (txns_of committed_by rs)) rs (m, 0%nat);
  '(m, undone, seen) ← pass (undo_record (incomplete rs)) (reverse rs) (m, 0%nat, ∅);
  Some (m, mkReport redone undone seen).

Definition recover : wal RecoveryReport :=
  rs ← read_all_records;
  if decide (rs = []) then mret (mkReport 0 0 ∅)
  else fun w =>
    match recover_pages rs (wal_pages w) with
    | Some (m, report) => (set_wal_pages m w, Ok report)
    | None => (w, Panic)
    end.

(** What a crash leaves: the first [n] bytes of the log. *)
Definition crash_log (w : WalManager) (n : nat) : WalManager :=
  WalManager_new (take n (log_file w)).

#[global] Arguments redo_record : simpl never.
#[global] Arguments undo_record : simpl never.
#[global] Arguments recover_pages : simpl never.

(** ** Logs that were written by [append] *)
Definition log_of (rs : list LogRecord) : bytes := rs ≫= LogRecord_to_bytes.

Section ReadBack.
Implicit Types (rs : list LogRecord) (l : bytes).

Lemma log_of_cons r rs : log_of (r :: rs) = LogRecord_to_bytes r ++ log_of rs.
Proof. done. Qed.

Lemma log_of_app rs1 rs2 : log_of (rs1 ++ rs2) = log_of rs1 ++ log_of rs2.
Proof. apply bind_app. Qed.

Lemma read_le_length n l z l' : read_le n l = Some (z, l') -> (length l = n + length l')%nat.
Proof.
  unfold read_le, read_n. intros H. case_decide; simplify_eq/=. rewrite length_drop. lia.
Qed.

Lemma read_frames_S fuel l :
  read_frames (S fuel) l =
    match read_le 4 l with
    | None => Some []
    | Some (len, l) =>
        if Z.of_nat (length l) <? len then Some []
        else
          r ← LogRecord_from_bytes (take (Z.to_nat len) l);
          rs ← read_frames fuel (drop (Z.to_nat len) l);
          Some (match r with Some r => r :: rs | None => rs end)
    end.
Proof. done. Qed.

(** Any fuel above the file's length gives the same records. *)
Lemma read_frames_fuel fuel l :
  (length l < fuel)%nat -> read_frames fuel l = read_log l.
Proof.
  unfold read_log. generalize (S (length l)) as k, (Nat.lt_succ_diag_r (length l)).
  intros k. revert fuel l. induction k as [|k IH]; intros [|fuel] l H1 H2; try lia.
  simpl. destruct (read_le 4 l) as [[len l']|] eqn:E; [|done].
  apply read_le_length in E. destruct (Z.ltb_spec (Z.of_nat (length l')) len); [done|].
  destruct (LogRecord_from_bytes _); [|done]. simpl.
  rewrite (IH fuel) by (rewrite length_drop; lia). done.
Qed.

(** The loop, as an equation: one frame and then the rest. *)
Lemma read_log_frame r l :
  record_ok r -> read_log (LogRecord_to_bytes r ++ l) = rs ← read_log l; Some (r :: rs).
Proof.
  intros [Hf Hb]. unfold bytes_ok in Hb. unfold read_log at 1.
  rewrite length_app, length_LogRecord_to_bytes, read_frames_S.
  unfold LogRecord_to_bytes. rewrite as_u32_small by width.
  rewrite <- app_assoc, read_le_u32 by width. rewrite length_app.
  rewrite (proj2 (Z.ltb_ge _ _)) by lia.
  rewrite Nat2Z.id, take_app_length, drop_app_length, from_bytes_body by done.
  cbn [mbind option_bind]. by rewrite read_frames_fuel by lia.
Qed.

(** What follows the last complete frame when the file is cut. *)
Definition torn_tail l : Prop := read_log l = Some [].

Lemma read_log_app rs l :
  Forall record_ok rs -> read_log (log_of rs ++ l) = (rs ++.) <$> read_log l.
Proof.
  induction 1 as [|r rs Hr _ IH]; [simpl; destruct (read_log l); reflexivity|].
  rewrite log_of_cons, <- app_assoc, read_log_frame, IH by done.
  by destruct (read_log l).
Qed.

Lemma read_log_of rs : Forall record_ok rs -> read_log (log_of rs) = Some rs.
Proof.
  intros H. rewrite <- (app_nil_r (log_of rs)), read_log_app by done.
  transitivity (Some (rs ++ [])); [done|by rewrite app_nil_r].
Qed.

(** The complete frames among the first [n] bytes. *)
Fixpoint frames_within (n : nat) (rs : list LogRecord) : nat :=
  match rs with
  | [] => 0
  | r :: rs =>
      let k := length (LogRecord_to_bytes r) in
      if decide (k <= n)%nat then S (frames_within (n - k) rs) else 0
  end.

Lemma torn_frame r n :
  record_ok r -> (n < length (LogRecord_to_bytes r))%nat ->
  torn_tail (take n (LogRecord_to_bytes r)).
Proof.
  intros [_ Hb] Hn. unfold bytes_ok in Hb. rewrite length_LogRecord_to_bytes in Hn.
  unfold torn_tail, read_log. cbn [read_frames].
  destruct (decide (n < 4)%nat).
  - unfold read_le, read_n. rewrite decide_False; [done|].
    rewrite length_take, length_LogRecord_to_bytes. lia.
  - unfold LogRecord_to_bytes. rewrite as_u32_small by width.
    rewrite take_app, length_to_le, take_ge by (rewrite length_to_le; lia).
    rewrite read_le_u32 by width. rewrite length_take.
    by rewrite (proj2 (Z.ltb_lt _ _)) by lia.
Qed.

Lemma read_log_cut rs n :
  Forall record_ok rs -> read_log (take n (log_of rs)) = Some (take (frames_within n rs) rs).
Proof.
  intros H. revert n. induction H as [|r rs Hr _ IH]; intros n; [by destruct n|].
  rewrite log_of_cons. cbn [frames_within]. case_decide.
  - rewrite take_app, take_ge by done. rewrite read_log_frame by done. rewrite IH. done.
  - rewrite take_app_le by lia. by apply torn_frame; [|lia].
Qed.

Lemma frames_within_app rs1 rs2 n :
  (length (log_of rs1) <= n)%nat ->
  frames_within n (rs1 ++ rs2) =
    (length rs1 + frames_within (n - length (log_of rs1)) rs2)%nat.
Proof.
  revert n. induction rs1 as [|r rs1 IH]; intros n Hn; [simpl; by rewrite Nat.sub_0_r|].
  rewrite log_of_cons, length_app in *. cbn [frames_within app]. rewrite decide_True by lia.
  rewrite IH by lia. cbn [length]. rewrite Nat.add_succ_l, Nat.sub_add_distr. done.
Qed.
End ReadBack.

(** ** The contract: a database of abstract pages

    What the operations mean, page by page; recovery has to rebuild it. *)
Abbreviation spec_db := (gmap Z spec_page).

Definition dpage (d : spec_db) (id : Z) : spec_page := default spec_new (d !! id).

Inductive wal_op :=
  | OBegin
  | OInsert (t id : Z) (tuple : bytes)
  | ODelete (t id sid : Z)
  | OUpdate (t id sid : Z) (old new : bytes)
  | OCommit (t : Z).

Definition spec_op (d : spec_db) (o : wal_op) : spec_db :=
  match o with
  | OInsert _ id x => <[id := (spec_insert (dpage d id) x).1]> d
  | ODelete _ id sid => <[id := (spec_delete (dpage d id) sid).1]> d
  | OUpdate _ id sid _ new => <[id := (spec_update (dpage d id) sid new).1]> d
  | OBegin | OCommit _ => d
  end.

(** A call; its result is dropped, and a failed insert changes nothing. *)
Definition wal_step (w : WalManager) (o : wal_op) : option WalManager :=
  let go {A} (r : WalManager * result io_error A) :=
    match r with (_, Panic) => None | (w, _) => Some w end in
  match o with
  | OBegin => go (begin_txn w)
  | OInsert t id x => go (log_insert t id x w)
  | ODelete t id sid => go (log_delete t id sid w)
  | OUpdate t id sid old new => go (log_update t id sid old new w)
  | OCommit t => go (commit t w)
  end.

Fixpoint wal_run (w : WalManager) (ops : list wal_op) : option WalManager :=
  match ops with
  | [] => Some w
  | o :: ops => w ← wal_step w o; wal_run w ops
  end.

Definition wal_op_ok (o : wal_op) : Prop :=
  match o with
  | OInsert t id x => in_u32 t /\ in_u32 id /\ in_u16 (Z.of_nat (length x))
  | ODelete t id sid => in_u32 t /\ in_u32 id /\ in_u16 sid
  | OUpdate t id sid old new => in_u32 t /\ in_u32 id /\ in_u16 sid /\
      in_u16 (Z.of_nat (length old)) /\ in_u16 (Z.of_nat (length new))
  | OBegin => True
  | OCommit t => in_u32 t
  end.

(** The transaction whose data an operation or a record carries. *)
Definition op_txn (o : wal_op) : option Z :=
  match o with
  | OInsert t _ _ | ODelete t _ _ | OUpdate t _ _ _ _ => Some t
  | OBegin | OCommit _ => None
  end.

Definition rec_txn (r : LogRecord) : option Z :=
  match r with
  | LogInsert _ t _ _ _ | LogDelete _ t _ _ _ | LogUpdate _ t _ _ _ _ => Some t
  | _ => None
  end.

(** What a record does to the abstract pages when it is replayed. *)
Definition spec_redo (d : spec_db) (r : LogRecord) : spec_db :=
  match r with
  | LogInsert _ _ id _ x => <[id := (spec_insert (dpage d id) x).1]> d
  | LogDelete _ _ id sid _ => <[id := (spec_delete (dpage d id) sid).1]> d
  | LogUpdate _ _ id sid _ new => <[id := (spec_update (dpage d id) sid new).1]> d
  | _ => d
  end.

(** The concrete pages represent the abstract ones; a page that no operation
    has created stands for the empty page. *)
Definition db_rep (m : gmap Z Page) (d : spec_db) : Prop :=
  forall id, in_u32 id -> page_rep (entry_page m id) (dpage d id).

Section Rep.
Implicit Types (m : gmap Z Page) (d : spec_db).

Lemma dpage_insert d id a i :
  dpage (<[id := a]> d) i = if decide (i = id) then a else dpage d i.
Proof.
  unfold dpage. case_decide as Hi; [subst; by rewrite lookup_insert_eq|].
  by rewrite lookup_insert_ne.
Qed.

Lemma entry_page_insert m id p i :
  entry_page (<[id := p]> m) i = if decide (i = id) then p else entry_page m i.
Proof.
  unfold entry_page. case_decide as Hi; [subst; by rewrite lookup_insert_eq|].
  by rewrite lookup_insert_ne.
Qed.

Lemma db_rep_empty : db_rep ∅ ∅.
Proof. intros id Hid. unfold entry_page, dpage. rewrite !lookup_empty. by apply page_new_rep. Qed.

Lemma db_rep_put m d id p a :
  db_rep m d -> page_rep p a -> db_rep (<[id := p]> m) (<[id := a]> d).
Proof.
  intros H Hp i Hi. rewrite entry_page_insert, dpage_insert. case_decide; [done|by apply H].
Qed.

(** Leaving the concrete map alone is right when the abstract page is. *)
Lemma db_rep_keep m d id a :
  db_rep m d -> a = dpage d id -> db_rep m (<[id := a]> d).
Proof. intros H -> i Hi. rewrite dpage_insert. case_decide; subst; by apply H. Qed.

Lemma entry_page_found m id p : m !! id = Some p -> entry_page m id = p.
Proof. unfold entry_page. by intros ->. Qed.

(** A page nobody created has no slot to delete or update. *)
Lemma rep_absent m d id :
  db_rep m d -> in_u32 id -> m !! id = None -> cells (dpage d id) = [].
Proof.
  intros H Hid Hm. specialize (H id Hid). unfold entry_page in H. rewrite Hm in H. simpl in H.
  pose proof (num_slots_refines _ _ H) as H1.
  rewrite (num_slots_refines _ _ (page_new_rep id Hid)) in H1. simpl in H1.
  apply nil_length_inv. congruence || (injection H1; lia).
Qed.

Lemma spec_get_nil a i : cells a = [] -> spec_get a i = None.
Proof. unfold spec_get. by intros ->. Qed.

Lemma spec_delete_absent a i : spec_get a i = None -> (spec_delete a i) = (a, false).
Proof. unfold spec_delete. by intros ->. Qed.

Lemma spec_update_absent a i x : spec_get a i = None -> (spec_update a i x) = (a, false).
Proof. unfold spec_update. by intros ->. Qed.

Lemma rep_insert m d id x :
  db_rep m d -> in_u32 id -> in_u16 (Z.of_nat (length x)) ->
  exists p, insert_tuple (entry_page m id) x = Some (p, (spec_insert (dpage d id) x).2) /\
    db_rep (<[id := p]> m) (<[id := (spec_insert (dpage d id) x).1]> d).
Proof.
  intros H Hid Hx. destruct (insert_refines _ _ x (H id Hid) Hx) as (p & Hp & Hr & _).
  exists p. split; [done|by apply db_rep_put].
Qed.

Lemma rep_delete m d id sid p :
  db_rep m d -> in_u32 id -> 0 <= sid -> m !! id = Some p ->
  exists p', delete_tuple p sid = Some (p', (spec_delete (dpage d id) sid).2) /\
    db_rep (<[id := p']> m) (<[id := (spec_delete (dpage d id) sid).1]> d).
Proof.
  intros H Hid Hs Hm. pose proof (H id Hid) as Hr. rewrite (entry_page_found _ _ _ Hm) in Hr.
  destruct (delete_refines _ _ sid Hr Hs) as (p' & Hp & Hr' & _).
  exists p'. split; [done|by apply db_rep_put].
Qed.

Lemma rep_update m d id sid x :
  db_rep m d -> in_u32 id -> 0 <= sid ->
  exists p', update_tuple (entry_page m id) sid x =
      Some (p', (spec_update (dpage d id) sid x).2) /\
    db_rep (<[id := p']> m) (<[id := (spec_update (dpage d id) sid x).1]> d).
Proof.
  intros H Hid Hs. destruct (update_refines _ _ sid x (H id Hid) Hs) as (p' & Hp & Hr & _).
  exists p'. split; [done|by apply db_rep_put].
Qed.
End Rep.

(** ** REDO implements replay *)
Definition rec_ok (r : LogRecord) : Prop :=
  record_ok r /\
  match r with
  | LogInsert _ _ _ _ x | LogDelete _ _ _ _ x => in_u16 (Z.of_nat (length x))
  | _ => True
  end.

Definition spec_replay (d : spec_db) (rs : list LogRecord) : spec_db := foldl spec_redo d rs.

Section Redo.
Implicit Types (m : gmap Z Page) (d : spec_db) (r : LogRecord) (C : gset Z).

Lemma redo_record_rep C r m n d :
  db_rep m d -> rec_ok r -> (forall t, rec_txn r = Some t -> t ∈ C) ->
  exists m' n', redo_record C r (m, n) = Some (m', n') /\ db_rep m' (spec_redo d r).
Proof.
  intros H [[Hf _] Hx] Ht.
  destruct r as [| |l t id sid x|l t id sid old x| | |]; unfold redo_record; cbn [spec_redo]; eauto.
  - rewrite decide_True by auto. destruct Hf as (_&_&?&_).
    edestruct (rep_insert m d) as (p & -> & ?); [done..|]. simpl; eauto.
  - rewrite decide_True by auto. destruct Hf as (_&_&?&?&_).
    destruct (m !! id) as [p|] eqn:E.
    + edestruct (rep_delete m d) as (p' & -> & ?); [done| done |width|done|]. simpl; eauto.
    + do 2 eexists. split; [done|]. apply db_rep_keep; [done|].
      by rewrite spec_delete_absent by eauto using spec_get_nil, rep_absent.
  - rewrite decide_True by auto. destruct Hf as (_&_&?&?&_).
    destruct (rep_update m d id sid x) as (p & Hp & ?); [done|done|width|].
    destruct (m !! id) as [q|] eqn:E.
    + rewrite (entry_page_found _ _ _ E) in Hp. rewrite Hp. simpl; eauto.
    + unfold entry_page in Hp. rewrite E in Hp. simpl in Hp. rewrite Hp. simpl; eauto.
Qed.

Lemma redo_record_skip C r m n :
  (forall t, rec_txn r = Some t -> t ∉ C) -> redo_record C r (m, n) = Some (m, n).
Proof. intros Ht. unfold redo_record. destruct r; simpl; try done; rewrite decide_False by eauto; done. Qed.

Lemma pass_app {S} (f : LogRecord -> S -> option S) rs1 rs2 s :
  pass f (rs1 ++ rs2) s = s ← pass f rs1 s; pass f rs2 s.
Proof. revert s. induction rs1 as [|r rs1 IH]; intros s; simpl; [done|]. by destruct (f r s); simpl. Qed.

Lemma redo_pass_rep C rs m n d :
  db_rep m d -> Forall rec_ok rs ->
  (forall r t, r ∈ rs -> rec_txn r = Some t -> t ∈ C) ->
  exists m' n', pass (redo_record C) rs (m, n) = Some (m', n') /\ db_rep m' (spec_replay d rs).
Proof.
  intros H Hok. revert m n d H. induction Hok as [|r rs Hr _ IH]; intros m n d H Ht; simpl.
  { eauto. }
  destruct (redo_record_rep C r m n d) as (m1 & n1 & -> & H1);
    [done|done|intros; eapply Ht; [left|done]|].
  simpl. apply IH; [done|]. intros r' t Hr'. apply Ht. by right.
Qed.

Lemma redo_pass_skip C rs m n :
  (forall r t, r ∈ rs -> rec_txn r = Some t -> t ∉ C) ->
  pass (redo_record C) rs (m, n) = Some (m, n).
Proof.
  intros Ht. induction rs as [|r rs IH]; simpl; [done|].
  rewrite redo_record_skip by (intros; eapply Ht; [left|done]). simpl.
  apply IH. intros r' t Hr'. apply Ht. by right.
Qed.
End Redo.

(** ** UNDO of a transaction that only inserts and updates

    [frozen a b T]: every cell of [a], a committed page, is in [b], the page
    the transaction sees, with the same size, and with the same bytes outside
    the slots [T] that the transaction has updated. *)
Definition same_size (x y : option bytes) : Prop :=
  match x, y with
  | Some x, Some y => length x = length y
  | None, None => True
  | _, _ => False
  end.

Definition touched (r : LogRecord) (id : Z) (i : nat) : Prop :=
  match r with LogUpdate _ _ id' sid _ _ => id' = id /\ Z.to_nat sid = i | _ => False end.

Definition frozen (a b : spec_page) (T : nat -> Prop) : Prop :=
  forall i x, cells a !! i = Some x ->
    exists y, cells b !! i = Some y /\ same_size x y /\ (~ T i -> x = y).

Definition frozen_db (d e : spec_db) (rs : list LogRecord) : Prop :=
  forall id, in_u32 id -> frozen (dpage d id) (dpage e id) (fun i => exists r, r ∈ rs /\ touched r id i).

(** An open transaction's record, on the pages [e] it was logged against. *)
Definition open_rec (e : spec_db) (r : LogRecord) : Prop :=
  match r with
  | LogBegin _ _ => True
  | LogInsert _ _ id sid x =>
      room (dpage e id) >= Z.of_nat (length x) + 5 /\
      sid = Z.of_nat (length (cells (dpage e id)))
  | LogUpdate _ _ id sid old _ => spec_get (dpage e id) sid = Some old
  | _ => False
  end.

Fixpoint open_recs (e : spec_db) (rs : list LogRecord) : Prop :=
  match rs with
  | [] => True
  | r :: rs => open_rec e r /\ open_recs (spec_redo e r) rs
  end.

Definition same_shape (a b : spec_page) : Prop :=
  length (cells a) = length (cells b) /\ room a = room b.

Section Undo.
Implicit Types (m : gmap Z Page) (d e x : spec_db) (r : LogRecord) (rs : list LogRecord).

Lemma spec_insert_grows a y : (length (cells a) <= length (cells (spec_insert a y).1))%nat.
Proof. unfold spec_insert. case_match; simpl; [lia|]. rewrite length_app. lia. Qed.

Lemma spec_update_shape a i y : same_shape (spec_update a i y).1 a.
Proof.
  unfold spec_update. repeat case_match; simpl; try done. split; [apply length_insert|done].
Qed.

Lemma spec_delete_shape a i : same_shape (spec_delete a i).1 a.
Proof. unfold spec_delete. case_match; [|done]. split; [apply length_insert|done]. Qed.

Lemma spec_redo_grows e r id :
  (length (cells (dpage e id)) <= length (cells (dpage (spec_redo e r) id)))%nat.
Proof.
  destruct r as [| |l t p s y|l t p s o y| | |]; simpl; try done; rewrite dpage_insert;
    case_decide; subst; try done.
  - apply spec_insert_grows.
  - by rewrite (proj1 (spec_delete_shape _ _)).
  - by rewrite (proj1 (spec_update_shape _ _ _)).
Qed.

Lemma spec_replay_snoc d rs r : spec_replay d (rs ++ [r]) = spec_redo (spec_replay d rs) r.
Proof. unfold spec_replay. by rewrite foldl_app. Qed.

Lemma spec_replay_app d rs1 rs2 : spec_replay d (rs1 ++ rs2) = spec_replay (spec_replay d rs1) rs2.
Proof. apply foldl_app. Qed.

Lemma spec_replay_grows d rs id :
  (length (cells (dpage d id)) <= length (cells (dpage (spec_replay d rs) id)))%nat.
Proof.
  induction rs as [|r rs IH] using rev_ind; [done|]. rewrite spec_replay_snoc.
  etrans; [apply IH|apply spec_redo_grows].
Qed.

Lemma open_recs_snoc e rs r :
  open_recs e (rs ++ [r]) <-> open_recs e rs /\ open_rec (spec_replay e rs) r.
Proof.
  revert e. induction rs as [|r' rs IH]; intros e; simpl; [tauto|]. rewrite IH.
  change (foldl spec_redo (spec_redo e r') rs) with (spec_replay (spec_redo e r') rs). tauto.
Qed.

Lemma open_recs_take e rs k : open_recs e rs -> open_recs e (take k rs).
Proof.
  revert e k. induction rs as [|r rs IH]; intros e [|k]; simpl; try done.
  intros [??]. auto.
Qed.

Lemma frozen_refl a T : frozen a a T.
Proof. intros i y Hy. exists y. split_and!; [done| |done]. by destruct y. Qed.

(** Bytes of an updated cell: the size stays, the other cells stay. *)
Lemma spec_update_lookup a i y old j :
  spec_get a i = Some old ->
  cells (spec_update a i y).1 !! j =
    if decide (Z.to_nat i = j)
    then Some (Some (if (length y <=? length old)%nat then y ++ drop (length y) old else old))
    else cells a !! j.
Proof.
  intros Hg. unfold spec_update. rewrite Hg. unfold spec_get in Hg.
  destruct (cells a !! Z.to_nat i) as [c|] eqn:E; simpl in Hg; [subst|done].
  destruct (Nat.leb_spec (length y) (length old)); simpl.
  - case_decide; subst; [|by rewrite list_lookup_insert_ne].
    rewrite list_lookup_insert_eq by (by eapply lookup_lt_Some). done.
  - by case_decide; subst.
Qed.

Lemma updated_size (y old : bytes) :
  length (if (length y <=? length old)%nat then y ++ drop (length y) old else old) = length old.
Proof.
  destruct (Nat.leb_spec (length y) (length old)); [|done].
  rewrite length_app, length_drop. lia.
Qed.

Lemma spec_insert_lookup a y j c :
  cells a !! j = Some c -> cells (spec_insert a y).1 !! j = Some c.
Proof.
  intros H. unfold spec_insert. case_match; simpl; [done|]. by apply lookup_app_l_Some.
Qed.

(** What the open transaction has done so far leaves the rest frozen. *)
Lemma frozen_step d e r rs :
  open_rec e r -> frozen_db d e rs -> frozen_db d (spec_redo e r) (rs ++ [r]).
Proof.
  intros Ho H id Hid i c Hc. destruct (H id Hid i c Hc) as (y & Hy & Hs & Heq).
  assert (Heq' : ~ (exists r', r' ∈ rs ++ [r] /\ touched r' id i) -> c = y).
  { intros Hno. apply Heq. intros (r' & ? & ?). apply Hno. exists r'.
    split; [apply elem_of_app; by left|done]. }
  destruct r as [| |l t p s x|l t p s o x| | |]; simpl in Ho; try done; simpl; eauto;
    rewrite dpage_insert; case_decide; subst; eauto.
  - exists y. split_and!; [by apply spec_insert_lookup|done..].
  - rewrite (spec_update_lookup _ _ _ _ _ Ho). case_decide as Hi; [|eauto].
    unfold spec_get in Ho. rewrite Hi, Hy in Ho. simpl in Ho. subst y.
    eexists. split_and!; [done| |].
    + destruct c as [c|]; [|done]. simpl in *. by rewrite updated_size.
    + intros HT. exfalso. apply HT. eexists.
      split; [apply elem_of_app; right; by apply list_elem_of_singleton|]. by split.
Qed.

(** What undoing an insert or an update means. *)
Definition spec_undo x r : spec_db :=
  match r with
  | LogInsert _ _ id sid _ => <[id := (spec_delete (dpage x id) sid).1]> x
  | LogUpdate _ _ id sid old _ => <[id := (spec_update (dpage x id) sid old).1]> x
  | _ => x
  end.

Lemma spec_undo_shape x r id : same_shape (dpage (spec_undo x r) id) (dpage x id).
Proof.
  destruct r; simpl; try done; rewrite dpage_insert; case_decide; subst; try done.
  - apply spec_delete_shape.
  - apply spec_update_shape.
Qed.

(** One step back: the record's own slot is exact again. *)
Lemma frozen_unstep x e r rs :
  open_rec e r -> frozen_db x (spec_redo e r) (rs ++ [r]) ->
  (forall id, (length (cells (dpage x id)) <= length (cells (dpage e id)))%nat) ->
  frozen_db (spec_undo x r) e rs.
Proof.
  intros Ho H Hlen id Hid i c Hc.
  assert (HT : forall P : Prop, (~ (exists r', r' ∈ rs ++ [r] /\ touched r' id i) -> P) ->
    ~ touched r id i -> ~ (exists r', r' ∈ rs /\ touched r' id i) -> P).
  { intros P HP Hr Hrs. apply HP. intros (r' & [Hin| ->%list_elem_of_singleton]%elem_of_app & Ht).
    - apply Hrs. eauto.
    - done. }
  assert (Hsame : ~ touched r id i -> cells (dpage x id) !! i = Some c ->
    cells (dpage (spec_redo e r) id) !! i = cells (dpage e id) !! i ->
    exists y, cells (dpage e id) !! i = Some y /\ same_size c y /\
      (~ (exists r', r' ∈ rs /\ touched r' id i) -> c = y)).
  { intros Hnt Hx Heq. destruct (H id Hid i c Hx) as (y & Hy & Hs & HF).
    exists y. split_and!; [by rewrite <- Heq|done|]. by apply HT. }
  destruct r as [|l t p s d| |l t p s o d| | |]; simpl in Ho; try done; simpl in Hc;
    [by auto|..]; rewrite dpage_insert in Hc; simpl in Hsame; rewrite dpage_insert in Hsame;
    (destruct (decide (id = p)) as [->|Hp]; [|apply Hsame; (done || naive_solver)]).
  - destruct Ho as [_ ->]. specialize (Hlen p).
    rewrite spec_delete_absent in Hc.
    + simpl in Hc. apply Hsame; [tauto|done|]. apply lookup_lt_Some in Hc.
      destruct (cells (dpage e p) !! i) eqn:E; [by apply spec_insert_lookup|].
      apply lookup_ge_None in E. lia.
    + unfold spec_get. rewrite lookup_ge_None_2; [done|lia].
  - rewrite (spec_update_lookup _ _ _ _ _ Ho) in Hsame.
    specialize (H p Hid i). simpl in H. rewrite dpage_insert, decide_True in H by done.
    rewrite (spec_update_lookup _ _ _ _ _ Ho) in H.
    destruct (decide (Z.to_nat s = i)) as [Hi|Hi].
    + destruct (cells (dpage x p) !! i) as [[cx|]|] eqn:Ex.
      * destruct (H _ eq_refl) as (y & [= <-] & Hs & _). simpl in Hs.
        rewrite updated_size in Hs.
        rewrite (spec_update_lookup _ _ _ cx) in Hc by (unfold spec_get; by rewrite Hi, Ex).
        rewrite decide_True in Hc by done. rewrite Hs, Nat.leb_refl in Hc.
        rewrite drop_ge, app_nil_r in Hc by lia. injection Hc as <-.
        exists (Some o). unfold spec_get in Ho. rewrite Hi in Ho.
        destruct (cells (dpage e p) !! i); simpl in Ho; by subst.
      * destruct (H _ eq_refl) as (y & [= <-] & Hs & _). done.
      * rewrite spec_update_absent in Hc by (unfold spec_get; by rewrite Hi, Ex).
        simpl in Hc. congruence.
    + apply Hsame; [tauto| |done].
      destruct (spec_get (dpage x p) s) eqn:Eg.
      * by rewrite (spec_update_lookup _ _ _ _ _ Eg), decide_False in Hc.
      * by rewrite spec_update_absent in Hc.
Qed.
End Undo.

(** ** Recovery of a log whose tail is one open transaction *)
Section Recover.
Implicit Types (m : gmap Z Page) (d x : spec_db) (r : LogRecord) (rs : list LogRecord).
Implicit Types (inc : gset Z).

Lemma undo_record_rep inc e r m n seen x :
  db_rep m x -> rec_ok r -> open_rec e r -> (forall t, rec_txn r = Some t -> t ∈ inc) ->
  exists m' n' seen', undo_record inc r (m, n, seen) = Some (m', n', seen') /\
    db_rep m' (spec_undo x r).
Proof.
  intros H [[Hf _] _] Ho Ht.
  destruct r as [l t|l t p s y| |l t p s o y| | |]; simpl in Ho; try done; unfold undo_record; simpl.
  - case_decide; simpl; eauto 10.
  - rewrite decide_True by auto. destruct Hf as (_&_&?&?&_).
    destruct (m !! p) as [q|] eqn:E.
    + edestruct (rep_delete m x) as (p' & -> & ?); [done|done| |done|]; [width|]. simpl; eauto 10.
    + do 3 eexists. split; [done|]. apply db_rep_keep; [done|].
      by rewrite spec_delete_absent by eauto using spec_get_nil, rep_absent.
  - rewrite decide_True by auto. destruct Hf as (_&_&?&?&_).
    destruct (m !! p) as [q|] eqn:E.
    + destruct (rep_update m x p s o) as (p' & Hp & ?); [done|done|width|].
      rewrite (entry_page_found _ _ _ E) in Hp. rewrite Hp. simpl; eauto 10.
    + do 3 eexists. split; [done|]. apply db_rep_keep; [done|].
      by rewrite spec_update_absent by eauto using spec_get_nil, rep_absent.
Qed.

Lemma undo_record_skip inc r m n seen :
  (forall t, rec_txn r = Some t -> t ∉ inc) ->
  exists seen', undo_record inc r (m, n, seen) = Some (m, n, seen').
Proof.
  intros Ht. unfold undo_record.
  destruct r; simpl in *; try rewrite decide_False by auto; try case_decide; simpl; eauto.
Qed.

Lemma undo_pass_skip inc rs m n seen :
  (forall r t, r ∈ rs -> rec_txn r = Some t -> t ∉ inc) ->
  exists seen', pass (undo_record inc) rs (m, n, seen) = Some (m, n, seen').
Proof.
  intros Ht. revert seen. induction rs as [|r rs IH]; intros seen; simpl; [eauto|].
  destruct (undo_record_skip inc r m n seen) as [seen' ->]; [intros; eapply Ht; [left|done]|].
  simpl. apply IH. intros r' t Hr'. apply Ht. by right.
Qed.

Lemma undo_pass_rep inc d rs m n seen x :
  db_rep m x -> Forall rec_ok rs -> open_recs d rs ->
  (forall r t, r ∈ rs -> rec_txn r = Some t -> t ∈ inc) ->
  frozen_db x (spec_replay d rs) rs -> (forall id, same_shape (dpage x id) (dpage d id)) ->
  exists m' n' seen' x', pass (undo_record inc) (reverse rs) (m, n, seen) = Some (m', n', seen') /\
    db_rep m' x' /\ frozen_db x' d [] /\ (forall id, same_shape (dpage x' id) (dpage d id)).
Proof.
  revert m n seen x. induction rs as [|r rs IH] using rev_ind; intros m n seen x H Hok Ho Ht HF Hsh.
  { simpl. eauto 10. }
  apply Forall_app in Hok as [Hok [Hr _]%Forall_cons].
  apply open_recs_snoc in Ho as [Ho Hor]. rewrite spec_replay_snoc in HF.
  rewrite reverse_snoc. simpl.
  destruct (undo_record_rep inc _ r m n seen x H Hr Hor) as (m1 & n1 & seen1 & -> & H1).
  { intros t. apply Ht, elem_of_app. right. by left. }
  simpl. apply (IH _ _ _ _ H1); [done..| | |].
  - intros r' t Hr'. apply Ht, elem_of_app. by left.
  - apply (frozen_unstep _ _ _ _ Hor HF). intros id. rewrite (proj1 (Hsh id)).
    apply spec_replay_grows.
  - intros id. destruct (spec_undo_shape x r id), (Hsh id). split; congruence.
Qed.

Lemma frozen_exact a b :
  frozen a b (fun _ => False) -> same_shape a b -> a = b.
Proof.
  destruct a as [ca ra], b as [cb rb]. intros H [Hl Hr]. simpl in *. subst. f_equal.
  apply list_eq. intros i. destruct (ca !! i) as [c|] eqn:E.
  - destruct (H i c E) as (y & Hy & _ & Heq). by rewrite Heq by tauto.
  - symmetry. apply lookup_ge_None_2. rewrite <- Hl. by apply lookup_ge_None_1.
Qed.

Lemma frozen_start d rs rs0 :
  open_recs d rs -> frozen_db d (spec_replay d rs) (rs0 ++ rs).
Proof.
  induction rs as [|r rs IH] using rev_ind; intros Ho.
  - intros id Hid. apply frozen_refl.
  - apply open_recs_snoc in Ho as [Ho Hr]. rewrite spec_replay_snoc, app_assoc.
    apply frozen_step; [done|by apply IH].
Qed.

Lemma recover_pages_rep rs1 rs2 t :
  let C := txns_of committed_by (rs1 ++ rs2) in
  Forall rec_ok (rs1 ++ rs2) ->
  (forall r u, r ∈ rs1 -> rec_txn r = Some u -> u ∈ C) ->
  (forall r u, r ∈ rs2 -> rec_txn r = Some u -> u = t) -> t ∉ C ->
  open_recs (spec_replay ∅ rs1) rs2 ->
  exists m rep, recover_pages (rs1 ++ rs2) ∅ = Some (m, rep) /\
    db_rep m (spec_replay ∅ rs1).
Proof.
  intros C [Hok1 Hok2]%Forall_app H1 H2 Ht Ho. unfold recover_pages. fold C. rewrite pass_app.
  destruct (redo_pass_rep C rs1 ∅ 0%nat ∅ db_rep_empty Hok1 H1) as (m & n & -> & Hm).
  cbn [mbind option_bind]. rewrite redo_pass_skip by (intros r u Hr Hu; by rewrite (H2 r u)).
  cbn [mbind option_bind]. rewrite reverse_app, pass_app.
  assert (Hskip : forall m n seen, exists seen',
    pass (undo_record (incomplete (rs1 ++ rs2))) (reverse rs1) (m, n, seen) = Some (m, n, seen')).
  { intros. apply undo_pass_skip. intros r u Hr Hu. rewrite elem_of_reverse in Hr.
    unfold incomplete. rewrite elem_of_filter. pose proof (H1 r u Hr Hu). tauto. }
  destruct (decide (t ∈ incomplete (rs1 ++ rs2))).
  - edestruct (undo_pass_rep (incomplete (rs1 ++ rs2)) (spec_replay ∅ rs1) rs2 m 0 ∅)
      as (m' & n' & seen' & x & -> & Hx & HF & Hs); [done|done|done| | |done|].
    + intros r u Hr Hu. by rewrite (H2 r u).
    + by apply (frozen_start _ _ []).
    + cbn [mbind option_bind]. destruct (Hskip m' n' seen') as [seen2 ->].
      simpl. do 2 eexists. split; [done|]. intros id Hid.
      rewrite <- (frozen_exact (dpage x id)); [by apply Hx| |by apply Hs].
      intros i c Hc. destruct (HF id Hid i c Hc) as (y & ? & ? & Hy).
      exists y. split_and!; [done..|]. intros _. apply Hy. intros (? & Hin & _).
      by apply elem_of_nil in Hin.
  - edestruct (undo_pass_skip (incomplete (rs1 ++ rs2)) (reverse rs2) m 0 ∅) as [seen ->].
    { intros r u Hr Hu. rewrite elem_of_reverse in Hr. by rewrite (H2 r u). }
    cbn [mbind option_bind]. destruct (Hskip m 0%nat seen) as [seen2 ->]. simpl. eauto.
Qed.
End Recover.

(** ** Sessions

    Abstract databases are compared page by page: a page that was never
    created and an empty one are the same. *)
Definition db_eq (d e : spec_db) : Prop := forall id, dpage d id = dpage e id.

#[export] Instance db_eq_equiv : Equivalence db_eq.
Proof.
  split; [done|intros d e H id; by rewrite H|intros d e f H1 H2 id; by rewrite H1].
Qed.

#[export] Instance dpage_proper : Proper (db_eq ==> eq ==> eq) dpage.
Proof. intros d e H id ? <-. apply H. Qed.

#[export] Instance db_put_proper id : Proper (eq ==> db_eq ==> db_eq) (insert id : _ -> spec_db -> spec_db).
Proof. intros a ? <- d e H i. rewrite !dpage_insert. by case_decide. Qed.

#[export] Instance spec_op_proper : Proper (db_eq ==> eq ==> db_eq) spec_op.
Proof. intros d e H o ? <-. destruct o; simpl; [done|by rewrite H..|done]. Qed.

#[export] Instance spec_redo_proper : Proper (db_eq ==> eq ==> db_eq) spec_redo.
Proof. intros d e H r ? <-. destruct r; simpl; solve [done | by rewrite H]. Qed.

Lemma db_eq_self d id : db_eq (<[id := dpage d id]> d) d.
Proof. intros i. rewrite dpage_insert. by case_decide; subst. Qed.

(** The record a call appends, on the pages it was called on. *)
Definition op_record (d : spec_db) (o : wal_op) (r : LogRecord) : Prop :=
  match o, r with
  | OBegin, LogBegin _ _ => True
  | OInsert t id x, LogInsert _ t' id' sid x' =>
      t' = t /\ id' = id /\ x' = x /\ room (dpage d id) >= Z.of_nat (length x) + 5 /\
      sid = Z.of_nat (length (cells (dpage d id)))
  | ODelete t id sid, LogDelete _ t' id' sid' _ => t' = t /\ id' = id /\ sid' = sid
  | OUpdate t id sid old new, LogUpdate _ t' id' sid' old' new' =>
      t' = t /\ id' = id /\ sid' = sid /\ old' = old /\ new' = new
  | OCommit t, LogCommit _ t' => t' = t
  | _, _ => False
  end.

(** The records of a sequence of calls; an insert into a full page has none. *)
Inductive trace : spec_db -> list wal_op -> list LogRecord -> Prop :=
  | trace_nil d : trace d [] []
  | trace_rec d o r ops rs :
      op_record d o r -> trace (spec_redo d r) ops rs -> trace d (o :: ops) (r :: rs)
  | trace_full d t id x ops rs :
      room (dpage d id) < Z.of_nat (length x) + 5 -> trace d ops rs ->
      trace d (OInsert t id x :: ops) rs.

(** An open transaction [t]: inserts, and updates whose logged old bytes are
    the ones the page holds. *)
Fixpoint open_ops (t : Z) (d : spec_db) (ops : list wal_op) : Prop :=
  match ops with
  | [] => True
  | o :: ops =>
      match o with
      | OBegin => True
      | OInsert t' _ _ => t' = t
      | OUpdate t' id sid old _ => t' = t /\ spec_get (dpage d id) sid = Some old
      | _ => False
      end /\ open_ops t (spec_op d o) ops
  end.

Section Trace.
Implicit Types (d : spec_db) (ops : list wal_op) (rs : list LogRecord).

Lemma op_record_spec d o r : op_record d o r -> spec_redo d r = spec_op d o.
Proof. destruct o, r; simpl; try done; intuition subst; reflexivity. Qed.

Lemma spec_insert_full a x : room a < Z.of_nat (length x) + 5 -> spec_insert a x = (a, None).
Proof. intros H. unfold spec_insert. by rewrite (proj2 (Z.ltb_lt _ _) H). Qed.

Lemma trace_spec d e ops rs :
  trace d ops rs -> db_eq d e -> db_eq (foldl spec_op e ops) (spec_replay d rs).
Proof.
  intros H. revert e. induction H as [d|d o r ops rs Hr _ IH|d t id x ops rs Hx _ IH];
    intros e He; simpl.
  - by symmetry.
  - apply IH. by rewrite (op_record_spec _ _ _ Hr), He.
  - apply IH. rewrite <- He, spec_insert_full by done. simpl. by rewrite db_eq_self.
Qed.

Lemma trace_txn d ops rs r u :
  trace d ops rs -> r ∈ rs -> rec_txn r = Some u -> exists o, o ∈ ops /\ op_txn o = Some u.
Proof.
  intros H. induction H as [d|d o r' ops rs Hr _ IH|d t id x ops rs _ _ IH]; intros Hin Hu.
  - by apply elem_of_nil in Hin.
  - apply elem_of_cons in Hin as [<-|Hin].
    + exists o. split; [left|]. destruct o, r; simpl in *; naive_solver.
    + destruct (IH Hin Hu) as (o' & ? & ?). exists o'. split; [by right|done].
  - destruct (IH Hin Hu) as (o' & ? & ?). exists o'. split; [by right|done].
Qed.

Lemma trace_commit d ops rs t :
  trace d ops rs -> t ∈ txns_of committed_by rs <-> OCommit t ∈ ops.
Proof.
  unfold txns_of. rewrite elem_of_list_to_set, list_elem_of_omap.
  intros H. induction H as [d|d o r ops rs Hr _ IH|d t' id x ops rs _ _ IH].
  - split; [intros (?&H&_)|intros H]; by apply elem_of_nil in H.
  - setoid_rewrite elem_of_cons. rewrite <- IH. split.
    + intros (r' & [->|Hin] & Hc); [left|right; eauto].
      destruct o, r; simpl in *; naive_solver.
    + intros [<-|(r' & ? & ?)]; [|eauto].
      destruct r; simpl in Hr; try done. subst. eexists. split; [by left|done].
  - rewrite elem_of_cons, IH. naive_solver.
Qed.

Lemma open_ops_proper t d e ops : db_eq d e -> open_ops t d ops -> open_ops t e ops.
Proof.
  revert d e. induction ops as [|o ops IH]; intros d e He; simpl; [done|].
  intros [Ho H]. split; [destruct o; by rewrite <- ?He|]. apply (IH _ _ (spec_op_proper _ _ He _ _ eq_refl) H).
Qed.

Lemma trace_open t d ops rs : trace d ops rs -> open_ops t d ops -> open_recs d rs.
Proof.
  intros H. induction H as [d|d o r ops rs Hr _ IH|d t' id x ops rs Hx _ IH]; simpl; [done| |].
  - intros [Ho H]. rewrite <- (op_record_spec _ _ _ Hr) in H. split; [|auto].
    destruct o, r; simpl in *; naive_solver.
  - intros [_ H]. apply IH. revert H. apply open_ops_proper.
    rewrite spec_insert_full by done. apply db_eq_self.
Qed.

Lemma open_ops_txn t d ops o u : open_ops t d ops -> o ∈ ops -> op_txn o = Some u -> u = t.
Proof.
  revert d. induction ops as [|o' ops IH]; intros d; simpl; [by intros _ ?%elem_of_nil|].
  intros [Ho H] [<-|Hin]%elem_of_cons; [|by eauto]. destruct o; naive_solver.
Qed.

Lemma open_ops_commit t d ops u : open_ops t d ops -> OCommit u ∉ ops.
Proof.
  revert d. induction ops as [|o ops IH]; intros d; simpl; [by intros _ ?%elem_of_nil|].
  intros [Ho H] [<-|Hin]%elem_of_cons; [done|]. by apply (IH _ H).
Qed.
End Trace.

(** [w] has logged [rs], and its pages have the slots and the room that the
    replay of [rs] has; an update is logged before the pages see it. *)
Record session (w : WalManager) (rs : list LogRecord) : Prop := {
  se_log : log_file w = log_of rs;
  se_ok : Forall rec_ok rs;
  se_pages : exists e, db_rep (wal_pages w) e /\
    forall id, same_shape (dpage e id) (dpage (spec_replay ∅ rs) id);
  se_lsn : in_u64 (current_lsn w);
  se_txn : in_u32 (next_txn_id w);
}.

Section Session.
Implicit Types (w : WalManager) (rs : list LogRecord).

Lemma session_new : session (WalManager_new []) [].
Proof.
  constructor; simpl; [done|constructor| |done|done].
  exists ∅. split; [apply db_rep_empty|done].
Qed.

Lemma append_session w rs r w' z m e :
  append r (set_wal_pages m w) = (w', Ok z) -> session w rs -> db_rep m e ->
  rec_ok (with_lsn (current_lsn w) r) ->
  (forall id, same_shape (dpage e id)
    (dpage (spec_redo (spec_replay ∅ rs) (with_lsn (current_lsn w) r)) id)) ->
  session w' (rs ++ [with_lsn (current_lsn w) r]).
Proof.
  unfold append. simpl. case_decide as Hl; [|done]. intros [= <- <-] Hs Hm Hr He.
  destruct Hs. constructor; simpl.
  - rewrite se_log0, log_of_app, log_of_cons. simpl. by rewrite app_nil_r.
  - apply Forall_app. auto.
  - exists e. split; [done|]. intros id. rewrite spec_replay_snoc. apply He.
  - done.
  - done.
Qed.

Lemma same_shape_trans a b c : same_shape a b -> same_shape b c -> same_shape a c.
Proof. intros [] []. split; congruence. Qed.

Lemma same_shape_sym a b : same_shape a b -> same_shape b a.
Proof. intros []. done. Qed.

Lemma spec_insert_shape a b x :
  same_shape a b -> same_shape (spec_insert a x).1 (spec_insert b x).1 /\
    (spec_insert a x).2 = (spec_insert b x).2.
Proof.
  intros [Hl Hr]. unfold spec_insert. rewrite Hr, Hl. destruct (_ <? _); simpl; [done|].
  split; [|done]. split; simpl; [|done]. rewrite !length_app. lia.
Qed.

(** Records of the sizes the callers use fit their frames. *)
Lemma rec_ok_intro r :
  fields_ok r ->
  match r with
  | LogInsert _ _ _ _ x | LogDelete _ _ _ _ x => in_u16 (Z.of_nat (length x))
  | LogUpdate _ _ _ _ o n => in_u16 (Z.of_nat (length o)) /\ in_u16 (Z.of_nat (length n))
  | _ => True
  end -> rec_ok r.
Proof.
  intros Hf Hx. split; [split; [done|]|by destruct r].
  unfold bytes_ok. destruct r; cbn [record_body]; unfold put_bytes;
    cbn [length]; rewrite ?length_app, ?length_to_le; width.
Qed.

Lemma spec_get_length p a sid b :
  page_rep p a -> 0 <= sid -> spec_get a sid = Some b -> in_u16 (Z.of_nat (length b)).
Proof.
  intros Hr Hs Hg. pose proof (get_refines _ _ _ Hr Hs) as H. rewrite Hg in H.
  unfold get_tuple in H. destruct (read_header p); simpl in H; [|done].
  case_match; [done|]. destruct (read_slot p sid) as [s|] eqn:E; simpl in H; [|done].
  case_match; [done|]. destruct (slice _ _ _) as [c|] eqn:Es; simpl in H; [|done].
  injection H as ->. apply slice_length in Es. destruct (read_slot_ok _ _ _ E). width.
Qed.

Lemma bytes_ok_u16 x : in_u16 (Z.of_nat (length x)) -> bytes_ok x.
Proof. unfold bytes_ok. intros. width. Qed.

(** Inserting: the record goes out exactly when the page had room. *)
Lemma step_insert w rs t id x w' :
  session w rs -> wal_op_ok (OInsert t id x) -> wal_step w (OInsert t id x) = Some w' ->
  (exists r, op_record (spec_replay ∅ rs) (OInsert t id x) r /\ session w' (rs ++ [r])) \/
  (room (dpage (spec_replay ∅ rs) id) < Z.of_nat (length x) + 5 /\ session w' rs).
Proof.
  intros Hs (Ht & Hid & Hx) H. destruct (se_pages _ _ Hs) as (e & He & Hsh).
  destruct (rep_insert _ _ _ _ He Hid Hx) as (p & Hp & Hrep).
  destruct (spec_insert_shape _ _ x (Hsh id)) as [Hshi Hres].
  assert (Hsh' : forall i, same_shape (dpage (<[id := (spec_insert (dpage e id) x).1]> e) i)
    (dpage (<[id := (spec_insert (dpage (spec_replay ∅ rs) id) x).1]> (spec_replay ∅ rs)) i)).
  { intros i. rewrite !dpage_insert. by case_decide. }
  simpl in H. unfold log_insert in H. rewrite Hp, Hres in H. revert H.
  set (d := spec_replay ∅ rs) in *. unfold spec_insert at 1.
  destruct (Z.ltb_spec (room (dpage d id)) (Z.of_nat (length x) + 5)) as [Hroom|Hroom].
  - simpl. intros [= <-]. right. split; [done|]. destruct Hs. constructor; try done.
    eexists. split; [exact Hrep|]. intros i. fold d.
    eapply same_shape_trans; [apply Hsh'|]. rewrite spec_insert_full by done.
    cbn [fst]. by rewrite (db_eq_self d id i).
  - simpl. set (sid := Z.of_nat (length (cells (dpage d id)))).
    unfold mbind, st_bind. simpl.
    destruct (append _ _) as [w1 [z| |]] eqn:Ea; try done; [|by unfold append in Ea; case_decide].
    simpl. intros [= <-]. left. exists (LogInsert (current_lsn w) t id sid x).
    split; [split_and!; (done || lia)|].
    apply (append_session _ _ _ _ _ _ _ Ea Hs Hrep); [|apply Hsh'].
    assert (Hsid : in_u16 sid).
    { pose proof (He id Hid) as (h & ss & HL & HF & _).
      pose proof (lay_num _ _ _ HL) as Hn. pose proof (read_header_ok _ _ (lay_hdr _ _ _ HL)) as (_&Hh&_).
      rewrite (Forall2_length _ _ _ HF), (proj1 (Hsh id)) in Hn. unfold sid. fold d in Hn. by rewrite <- Hn. }
    apply rec_ok_intro; [|done]. simpl. split_and!; try done; [apply (se_lsn _ _ Hs)|by apply bytes_ok_u16].
Qed.

Lemma append_cases r w :
  (append r w).2 = Panic \/ exists w', append r w = (w', Ok (current_lsn w)).
Proof. unfold append. case_decide; eauto. Qed.

(** Operations that leave the pages alone. *)
Lemma step_begin w rs w' :
  session w rs -> wal_step w OBegin = Some w' -> exists l t, session w' (rs ++ [LogBegin l t]).
Proof.
  intros Hs. simpl. unfold begin_txn. case_decide as Ht; [|done].
  unfold mbind, st_bind.
  destruct (append _ _) as [w1 [z| |]] eqn:Ea; try done; [|by unfold append in Ea; case_decide].
  simpl. intros [= <-]. exists (current_lsn w), (next_txn_id w).
  set (w2 := mkWal _ _ _ _ _ _) in Ea.
  assert (Hs2 : session w2 rs) by (destruct Hs; by constructor).
  destruct (se_pages _ _ Hs2) as (e & He & Hsh).
  refine (append_session w2 rs (LogBegin 0 (next_txn_id w)) w1 z _ e Ea Hs2 He _ Hsh).
  apply rec_ok_intro; [|done]. split; [apply (se_lsn _ _ Hs)|apply (se_txn _ _ Hs)].
Qed.

Lemma step_commit w rs t w' :
  session w rs -> in_u32 t -> wal_step w (OCommit t) = Some w' ->
  exists l, session w' (rs ++ [LogCommit l t]).
Proof.
  intros Hs Ht. simpl. unfold commit, mbind, st_bind.
  destruct (append _ _) as [w1 [z| |]] eqn:Ea; try done; [|by unfold append in Ea; case_decide].
  simpl. intros [= <-]. exists (current_lsn w).
  destruct (se_pages _ _ Hs) as (e & He & Hsh).
  assert (Hs1 : session w1 (rs ++ [LogCommit (current_lsn w) t])).
  { destruct w. refine (append_session _ rs (LogCommit 0 t) w1 z _ e Ea Hs He _ Hsh).
    apply rec_ok_intro; [|done]. split; [apply (se_lsn _ _ Hs)|done]. }
  destruct Hs1; by constructor.
Qed.

Lemma step_update w rs t id sid old new w' :
  session w rs -> wal_op_ok (OUpdate t id sid old new) ->
  wal_step w (OUpdate t id sid old new) = Some w' ->
  exists l, session w' (rs ++ [LogUpdate l t id sid old new]).
Proof.
  intros Hs (Ht & Hid & Hsid & Ho & Hn). simpl. unfold log_update, mbind, st_bind.
  destruct (append _ _) as [w1 [z| |]] eqn:Ea; try done; [|by unfold append in Ea; case_decide].
  simpl. intros [= <-]. exists (current_lsn w).
  destruct (se_pages _ _ Hs) as (e & He & Hsh). destruct w.
  refine (append_session _ rs (LogUpdate 0 t id sid old new) w1 z _ e Ea Hs He _ _).
  - apply rec_ok_intro; [|done]. simpl.
    split_and!; try done; [apply (se_lsn _ _ Hs)|by apply bytes_ok_u16..].
  - intros i. eapply same_shape_trans; [apply Hsh|]. simpl. rewrite dpage_insert.
    case_decide; subst; [|done]. apply same_shape_sym, spec_update_shape.
Qed.

(** What [log_delete] finds and does on a page that may not be there. *)
Lemma delete_lookup m e id sid :
  db_rep m e -> in_u32 id -> 0 <= sid ->
  exists old m' b,
    match m !! id with Some p => get_tuple p sid | None => Some None end = Some old /\
    match m !! id with
    | Some p => '(p, b) ← delete_tuple p sid; Some (<[id := p]> m, b)
    | None => Some (m, false)
    end = Some (m', b) /\
    in_u16 (Z.of_nat (length (default [] old))) /\
    db_rep m' (<[id := (spec_delete (dpage e id) sid).1]> e).
Proof.
  intros He Hid Hs. destruct (m !! id) as [p|] eqn:E.
  - pose proof (He id Hid) as Hr. rewrite (entry_page_found _ _ _ E) in Hr.
    destruct (rep_delete _ _ _ _ _ He Hid Hs E) as (p' & Hp & Hrep).
    rewrite (get_refines _ _ _ Hr Hs), Hp. cbn [mbind option_bind].
    do 3 eexists. split_and!; [done..| |done].
    destruct (spec_get _ _) eqn:Eg; [by eapply spec_get_length|simpl; width].
  - do 3 eexists. split_and!; [done|done|simpl; width|]. apply db_rep_keep; [done|].
    by rewrite spec_delete_absent by eauto using spec_get_nil, rep_absent.
Qed.

Lemma step_delete w rs t id sid w' :
  session w rs -> wal_op_ok (ODelete t id sid) -> wal_step w (ODelete t id sid) = Some w' ->
  exists l old, session w' (rs ++ [LogDelete l t id sid old]).
Proof.
  intros Hs (Ht & Hid & Hsid). destruct (se_pages _ _ Hs) as (e & He & Hsh).
  destruct (delete_lookup _ _ _ sid He Hid) as (old & m' & b & Hold & Hdel & Hlen & Hrep);
    [width|].
  simpl. unfold log_delete. rewrite Hold, Hdel. unfold mbind, st_bind.
  destruct (append _ _) as [w1 [z| |]] eqn:Ea; try done; [|by unfold append in Ea; case_decide].
  simpl. intros [= <-]. exists (current_lsn w), (default [] old).
  refine (append_session _ rs (LogDelete 0 t id sid (default [] old)) w1 z _ _ Ea Hs Hrep _ _).
  - apply rec_ok_intro; [|done]. simpl.
    split_and!; try done; [apply (se_lsn _ _ Hs)|by apply bytes_ok_u16..].
  - intros i. simpl. rewrite !dpage_insert. case_decide; subst; [|apply Hsh].
    eapply same_shape_trans; [apply spec_delete_shape|].
    eapply same_shape_trans; [apply Hsh|]. apply same_shape_sym, spec_delete_shape.
Qed.

Lemma session_step w rs o w' :
  session w rs -> wal_op_ok o -> wal_step w o = Some w' ->
  (exists r, op_record (spec_replay ∅ rs) o r /\ session w' (rs ++ [r])) \/
  (exists t id x, o = OInsert t id x /\
     room (dpage (spec_replay ∅ rs) id) < Z.of_nat (length x) + 5 /\ session w' rs).
Proof.
  intros Hs Hok H. destruct o as [|t id x|t id sid|t id sid old new|t].
  - destruct (step_begin _ _ _ Hs H) as (l & t & Hs'). left. by exists (LogBegin l t).
  - destruct (step_insert _ _ _ _ _ _ Hs Hok H) as [|[]]; [by left|right; eauto 10].
  - destruct (step_delete _ _ _ _ _ _ Hs Hok H) as (l & old & Hs'). left.
    by exists (LogDelete l t id sid old).
  - destruct (step_update _ _ _ _ _ _ _ _ Hs Hok H) as (l & Hs'). left.
    by exists (LogUpdate l t id sid old new).
  - destruct (step_commit _ _ _ _ Hs Hok H) as (l & Hs'). left. by exists (LogCommit l t).
Qed.

Lemma session_run w rs ops w' :
  session w rs -> Forall wal_op_ok ops -> wal_run w ops = Some w' ->
  exists rs', trace (spec_replay ∅ rs) ops rs' /\ session w' (rs ++ rs').
Proof.
  intros Hs Hok. revert w rs Hs. induction Hok as [|o ops Ho _ IH]; intros w rs Hs; simpl.
  - intros [= <-]. exists []. rewrite app_nil_r. split; [constructor|done].
  - destruct (wal_step w o) as [w1|] eqn:E; simpl; [|done]. intros H.
    destruct (session_step _ _ _ _ Hs Ho E) as [(r & Hr & Hs1)|(t & id & x & -> & Hx & Hs1)].
    + destruct (IH _ _ Hs1 H) as (rs' & Ht & Hs'). exists (r :: rs').
      rewrite spec_replay_snoc in Ht. rewrite <- app_assoc in Hs'.
      split; [by eapply trace_rec|done].
    + destruct (IH _ _ Hs1 H) as (rs' & Ht & Hs'). exists rs'. split; [by apply trace_full|done].
Qed.
End Session.

(** ** Claims *)
Lemma Forall_take_app {A} (P : A -> Prop) l1 l2 k : Forall P (l1 ++ l2) -> Forall P (l1 ++ take k l2).
Proof.
  rewrite !Forall_app. intros [? ?]. split; [done|by apply Forall_take].
Qed.

(** C3: crash recovery of one session on an empty log. Its calls, of ids, slots
    and lengths in range, all return; they are first [ops1], in which every
    transaction that inserts, deletes or updates commits, and then the inserts
    and updates [ops2] of one more transaction that has not committed, each
    update naming as old the tuple that is there ([open_ops]); the log is cut at
    any byte after the last record of [ops1]. [recover] then returns, and its
    pages hold what [ops1] means and nothing of [ops2]. (In a second session on
    the log this may fail: transaction ids are used again.) *)
Theorem crash_recovery ops1 ops2 t w1 w2 n :
  wal_run (WalManager_new []) ops1 = Some w1 -> wal_run w1 ops2 = Some w2 ->
  Forall wal_op_ok (ops1 ++ ops2) ->
  (forall o u, o ∈ ops1 -> op_txn o = Some u -> OCommit u ∈ ops1) ->
  OCommit t ∉ ops1 -> open_ops t (foldl spec_op ∅ ops1) ops2 ->
  (length (log_file w1) <= n)%nat ->
  exists w' rep, recover (crash_log w2 n) = (w', Ok rep) /\
    db_rep (wal_pages w') (foldl spec_op ∅ ops1).
Proof.
  intros H1 H2 [Hok1 Hok2]%Forall_app Hc Ht Ho Hn.
  destruct (session_run _ _ _ _ session_new Hok1 H1) as (rs1 & Ht1 & Hs1). simpl in *.
  destruct (session_run _ _ _ _ Hs1 Hok2 H2) as (rs2 & Ht2 & Hs2).
  pose proof (trace_spec _ ∅ _ _ Ht1 (reflexivity _)) as Heq.
  set (k := frames_within (n - length (log_of rs1)) rs2).
  assert (Hcommit : forall u, u ∈ txns_of committed_by (rs1 ++ take k rs2) -> OCommit u ∈ ops1).
  { intros u. unfold txns_of. rewrite omap_app, list_to_set_app, elem_of_union.
    intros [Hu|Hu]; [by apply (trace_commit _ _ _ u Ht1)|].
    exfalso. apply (open_ops_commit _ _ _ u Ho), (trace_commit _ _ _ u Ht2).
    unfold txns_of. rewrite elem_of_list_to_set, list_elem_of_omap in *.
    destruct Hu as (r & Hr & Hu). exists r. split; [|done]. by eapply elem_of_take in Hr as (?&?&?); apply list_elem_of_lookup_2 in H. }
  assert (Hok : Forall rec_ok (rs1 ++ take k rs2)) by apply Forall_take_app, (se_ok _ _ Hs2).
  destruct (recover_pages_rep rs1 (take k rs2) t) as (m & rep & Hm & Hrep).
  - done.
  - intros r u Hr Hu. destruct (trace_txn _ _ _ _ _ Ht1 Hr Hu) as (o & Hin & Hou).
    unfold txns_of. rewrite omap_app, list_to_set_app. apply elem_of_union_l.
    by apply (trace_commit _ _ _ u Ht1), (Hc o).
  - intros r u Hr Hu. apply elem_of_take in Hr as (i & Hi & _).
    destruct (trace_txn _ _ _ r u Ht2) as (o & Hin & Hou); [by eapply list_elem_of_lookup_2|done|].
    by eapply open_ops_txn.
  - auto.
  - apply open_recs_take, (trace_open t _ ops2); [done|]. by eapply open_ops_proper.
  - unfold crash_log, recover, read_all_records, mbind, st_bind. simpl.
    rewrite (se_log _ _ Hs2), read_log_cut by (eapply Forall_impl; [apply (se_ok _ _ Hs2)|by intros ? []]).
    rewrite (se_log _ _ Hs1) in Hn. rewrite frames_within_app by done. fold k.
    rewrite take_app_add. simpl.
    case_decide as Hnil; simpl.
    + apply app_eq_nil in Hnil as [-> _]. do 2 eexists. split; [done|].
      intros id Hid. rewrite Heq. by apply db_rep_empty.
    + rewrite Hm. do 2 eexists. split; [done|]. intros id Hid. rewrite Heq. by apply Hrep.
Qed.

(** Rows of a session with two committed transactions and an open one. *)
Definition demo_ops1 : list wal_op :=
  [OBegin; OInsert 1 0 [x41; x41]; OInsert 1 0 [x42]; OCommit 1;
   OBegin; ODelete 2 0 1; OUpdate 2 0 0 [x41; x41] [x43; x44]; OCommit 2].
Definition demo_ops2 : list wal_op :=
  [OBegin; OInsert 3 0 [x45]; OUpdate 3 0 0 [x43; x44] [x46; x47]].
Definition demo_w1 : WalManager := default (WalManager_new []) (wal_run (WalManager_new []) demo_ops1).
Definition demo_w2 : WalManager := default (WalManager_new []) (wal_run demo_w1 demo_ops2).

Lemma crash_recovery_witness :
  wal_run (WalManager_new []) demo_ops1 = Some demo_w1 /\
  exists w' rep, recover (crash_log demo_w2 250) = (w', Ok rep) /\
    db_rep (wal_pages w') (foldl spec_op ∅ demo_ops1).
Proof.
  split; [by vm_compute|]. apply (crash_recovery demo_ops1 demo_ops2 3 demo_w1).
  - by vm_compute.
  - by vm_compute.
  - unfold demo_ops1, demo_ops2. repeat constructor; simpl; width.
  - intros o u Ho. unfold demo_ops1 in *.
    repeat (apply elem_of_cons in Ho as [->|Ho]; [simpl; intros [= <-] || done; set_solver|]).
    by apply elem_of_nil in Ho.
  - unfold demo_ops1. set_solver.
  - vm_compute. repeat split.
  - apply Nat.leb_le. by vm_compute.
Defined.



(** ** Where recovery does not keep its promise

    Closed runs: the rows recovery leaves on page 0 of a log. *)
Definition log_after (log : bytes) (ops : list wal_op) : bytes :=
  match wal_run (WalManager_new log) ops with Some w => log_file w | None => [] end.

Definition recovered_rows (log : bytes) (slots : list Z) : option (list (option bytes)) :=
  match recover (WalManager_new log) with
  | (w, Ok _) => p ← wal_pages w !! 0; mapM (get_tuple p) slots
  | _ => None
  end.

(** An open DELETE was never applied by REDO, yet UNDO inserts the old row:
    the committed row comes back twice. *)
Lemma undo_delete_duplicates :
  recovered_rows (log_after []
    [OBegin; OInsert 1 0 [x41]; OCommit 1; OBegin; ODelete 2 0 0]) [0; 1] =
  Some [Some [x41]; Some [x41]].
Proof. by vm_compute. Qed.

(** UNDO of an open INSERT deletes by the slot it had in the session; REDO has
    given that slot to a later committed row, which is lost. *)
Lemma undo_insert_loses_committed_row :
  recovered_rows (log_after []
    [OBegin; OInsert 1 0 [x41]; OBegin; OInsert 2 0 [x42]; OCommit 2]) [0; 1] =
  Some [None; None].
Proof. by vm_compute. Qed.

(** Every manager numbers its transactions from 1: an uncommitted insert of a
    second session is redone when the first session committed that number. *)
Lemma uncommitted_row_of_reused_txn_survives :
  recovered_rows (log_after (log_after [] [OBegin; OInsert 1 0 [x41]; OCommit 1])
    [OBegin; OInsert 1 0 [x42]]) [0; 1] =
  Some [Some [x41]; Some [x42]].
Proof. by vm_compute. Qed.

(** New records go after a torn one, inside the frame it announced: the
    transaction that the second session committed is not found. *)
Lemma commit_after_torn_tail_lost :
  recovered_rows (log_after
      (take 75 (log_after [] [OBegin; OInsert 1 0 [x41]; OCommit 1; OBegin]))
      [OBegin; OInsert 1 0 [x42]; OCommit 1]) [0; 1] =
  Some [Some [x41]; None].
Proof. by vm_compute. Qed.
