(* ===== verification/Locks.v ===== *)
(** * Transactions and two-phase locking: concurrency/

    [transaction.rs] and [lock_manager.rs]: the per-row queues of lock
    requests, the waits-for graph and the search for a cycle in it.  The order
    in which a [HashSet] is iterated is not fixed by Rust: it is a parameter. *)
From S2P Require Export Prelude.
Local Open Scope Z_scope.

(** ** Transactions *)
Inductive TxnState := Active | Committed | Aborted.

Record LockRid := mkLockRid { rid_page : Z; rid_slot : Z }.

#[export] Instance TxnState_eq_decision : EqDecision TxnState.
Proof. solve_decision. Defined.
#[export] Instance LockRid_eq_decision : EqDecision LockRid.
Proof. solve_decision. Defined.
#[export] Instance LockRid_countable : Countable LockRid.
Proof.
  apply (inj_countable' (fun r => (rid_page r, rid_slot r)) (fun p => mkLockRid p.1 p.2)).
  by intros [].
Defined.

Inductive UndoOp {B : Type} := UndoInsert | UndoDelete (data : B).
Arguments UndoOp : clear implicits.

Record UndoEntry (B : Type) := mkUndo { undo_rid : LockRid; operation : UndoOp B }.
Arguments mkUndo {_} _ _.

Record Transaction (B : Type) := mkTxn {
  txn_number : Z;
  txn_state : TxnState;
  shared_locks : gset LockRid;
  exclusive_locks : gset LockRid;
  undo_log : list (UndoEntry B);
}.
Arguments mkTxn {_} _ _ _ _ _.
Arguments txn_number {_} _.
Arguments txn_state {_} _.
Arguments shared_locks {_} _.
Arguments exclusive_locks {_} _.
Arguments undo_log {_} _.

Section Transaction.
Context {B : Type}.
Implicit Types t : Transaction B.

Definition Transaction_new (id : Z) : Transaction B := mkTxn id Active ∅ ∅ [].

Definition is_active t : bool := bool_decide (txn_state t = Active).

Definition txn_commit t : Transaction B :=
  mkTxn (txn_number t) Committed (shared_locks t) (exclusive_locks t) (undo_log t).

Definition txn_abort t : Transaction B :=
  mkTxn (txn_number t) Aborted (shared_locks t) (exclusive_locks t) (undo_log t).

Definition txn_log_insert t (rid : LockRid) : Transaction B :=
  mkTxn (txn_number t) (txn_state t) (shared_locks t) (exclusive_locks t)
    (undo_log t ++ [mkUndo rid UndoInsert]).

Definition txn_log_delete t (rid : LockRid) (d : B) : Transaction B :=
  mkTxn (txn_number t) (txn_state t) (shared_locks t) (exclusive_locks t)
    (undo_log t ++ [mkUndo rid (UndoDelete d)]).
End Transaction.

(** ** Lock queues *)
Inductive LockMode := Shared | Exclusive.

#[export] Instance LockMode_eq_decision : EqDecision LockMode.
Proof. solve_decision. Defined.

Record LockRequest := mkReq { req_txn : Z; req_mode : LockMode; granted : bool }.

Abbreviation LockQueue := (list LockRequest).

Definition holds (t : Z) (r : LockRequest) : bool := bool_decide (req_txn r = t) && granted r.
Definition holds_x (t : Z) (r : LockRequest) : bool :=
  holds t r && bool_decide (req_mode r = Exclusive).

(** Requests that are granted in a mode. *)
Definition count_mode (m : LockMode) (q : LockQueue) : nat :=
  length (filter (fun r => granted r = true /\ req_mode r = m) q).

Definition granted_counts (q : LockQueue) : nat * nat :=
  (count_mode Shared q, count_mode Exclusive q).

Definition can_grant (q : LockQueue) (t : Z) (m : LockMode) : bool :=
  let '(_, exclusive) := granted_counts q in
  if existsb (holds_x t) q then true
  else
    match m with
    | Shared => bool_decide (exclusive = 0%nat)
    | Exclusive => negb (existsb (fun r => granted r && negb (bool_decide (req_txn r = t))) q)
    end.

(** ** The manager *)
Record LockManager := mkLocks {
  lock_table : gmap LockRid LockQueue;
  waits_for : gmap Z (gset Z);
}.

Inductive lock_error := DeadlockDetected (t : Z).

Definition LockManager_new : LockManager := mkLocks ∅ ∅.

(** The upgrade sets the mode of every request of the transaction. *)
Definition upgrade (t : Z) (q : LockQueue) : LockQueue :=
  (fun r => if decide (req_txn r = t) then mkReq (req_txn r) Exclusive (granted r) else r) <$> q.

Definition blockers (t : Z) (q : LockQueue) : gset Z :=
  list_to_set (req_txn <$> filter (fun r => granted r = true /\ req_txn r <> t) q).

Definition retain_held (t : Z) (q : LockQueue) : LockQueue :=
  filter (fun r => req_txn r <> t \/ granted r = true) q.

Definition remove_txn (t : Z) (q : LockQueue) : LockQueue := filter (fun r => req_txn r <> t) q.

(** One pass over the queue with the counts of granted requests. *)
Fixpoint grant_waiting (shared exclusive : nat) (q : LockQueue) : LockQueue :=
  match q with
  | [] => []
  | r :: q =>
      if granted r then r :: grant_waiting shared exclusive q
      else
        match req_mode r with
        | Shared =>
            if decide (exclusive = 0%nat)
            then mkReq (req_txn r) Shared true :: grant_waiting (S shared) exclusive q
            else r :: grant_waiting shared exclusive q
        | Exclusive =>
            if decide (shared = 0%nat /\ exclusive = 0%nat)
            then mkReq (req_txn r) Exclusive true :: grant_waiting shared (S exclusive) q
            else r :: grant_waiting shared exclusive q
        end
  end.

Definition try_grant_waiting (q : LockQueue) : LockQueue :=
  grant_waiting (count_mode Shared q) (count_mode Exclusive q) q.

(** The rows are independent, so the order of [lock_table.keys()] is not
    observable: every queue is filtered and granted. *)
Definition release_all (lm : LockManager) (t : Z) : LockManager :=
  mkLocks ((fun q => try_grant_waiting (remove_txn t q)) <$> lock_table lm)
    ((fun w => w ∖ {[t]}) <$> delete t (waits_for lm)).

Definition holds_lock (lm : LockManager) (t : Z) (rid : LockRid) (m : LockMode) : bool :=
  match lock_table lm !! rid with
  | Some q => existsb (fun r => holds t r &&
      (bool_decide (req_mode r = m) || bool_decide (req_mode r = Exclusive))) q
  | None => false
  end.

Definition lock_count (lm : LockManager) : nat :=
  map_fold (fun _ q n => (length (filter (fun r => granted r = true) q) + n)%nat) 0%nat
    (lock_table lm).

(** ** The search for a cycle

    [iter] lists a set in the order the program happens to iterate it.  The
    stack is a list whose head is its top; a node popped a second time ends
    the search with [true].  [None] is fuel that ran out. *)
Section Search.
Variable iter : gset Z -> list Z.

Definition successors (g : gmap Z (gset Z)) (n : Z) : list Z :=
  match g !! n with Some w => iter w | None => [] end.

Fixpoint search (g : gmap Z (gset Z)) (fuel : nat) (visited : gset Z) (stack : list Z)
    : option bool :=
  match fuel with
  | O => None
  | S fuel =>
      match stack with
      | [] => Some false
      | n :: stack =>
          if decide (n ∈ visited) then Some true
          else search g fuel ({[n]} ∪ visited) (reverse (successors g n) ++ stack)
      end
  end.

(** Every node the search can meet. *)
Definition graph_nodes (g : gmap Z (gset Z)) (start : Z) : gset Z :=
  {[start]} ∪ ⋃ (map_to_list g).*2.

Definition search_fuel (g : gmap Z (gset Z)) (start : Z) : nat :=
  S (S (size (graph_nodes g start))).

Definition has_cycle (g : gmap Z (gset Z)) (start : Z) : bool :=
  default false (search g (search_fuel g start) ∅ [start]).

Definition acquire (lm : LockManager) (t : Z) (rid : LockRid) (m : LockMode)
    : LockManager * result lock_error bool :=
  let q := default [] (lock_table lm !! rid) in
  let put q := mkLocks (<[rid := q]> (lock_table lm)) (waits_for lm) in
  let enqueue :=
    let ok := can_grant q t m in
    let q := q ++ [mkReq t m ok] in
    if ok then (put q, Ok true)
    else
      let waits := <[t := blockers t q]> (waits_for lm) in
      if has_cycle waits t
      then (mkLocks (<[rid := retain_held t q]> (lock_table lm)) (delete t waits),
            Err (DeadlockDetected t))
      else (mkLocks (<[rid := q]> (lock_table lm)) waits, Ok false) in
  if existsb (holds t) q then
    match m with
    | Exclusive =>
        if existsb (holds_x t) q then (put q, Ok true)
        else if can_grant q t Exclusive then (put (upgrade t q), Ok true)
        else enqueue
    | Shared => (put q, Ok true)
    end
  else enqueue.
End Search.

(** ** What the search decides

    A walk is its last node with the nodes before it, latest first. *)
Definition edge (g : gmap Z (gset Z)) (n w : Z) : Prop := exists s, g !! n = Some s /\ w ∈ s.

Inductive walk (g : gmap Z (gset Z)) (s : Z) : Z * list Z -> Prop :=
  | walk_start : walk g s (s, [])
  | walk_step n p w : walk g s (n, p) -> edge g n w -> walk g s (w, n :: p).

(** Two different walks from [s] to one node: a cycle, or a diamond. *)
Definition two_walks (g : gmap Z (gset Z)) (s : Z) : Prop :=
  exists n p q, p <> q /\ walk g s (n, p) /\ walk g s (n, q).

(** An iteration order: the elements of the set, each once. *)
Definition iter_order (iter : gset Z -> list Z) : Prop :=
  forall w, NoDup (iter w) /\ forall x, x ∈ iter w <-> x ∈ w.

Section SearchSpec.
Variable iter : gset Z -> list Z.
Hypothesis Hiter : iter_order iter.
Variables (g : gmap Z (gset Z)) (s : Z).
Implicit Types (vp sp : list (Z * list Z)).

Lemma elem_of_successors n w : w ∈ successors iter g n <-> edge g n w.
Proof.
  unfold successors, edge. destruct (g !! n) as [ws|].
  - rewrite (proj2 (Hiter ws)). naive_solver.
  - rewrite elem_of_nil. naive_solver.
Qed.

Lemma NoDup_successors n : NoDup (successors iter g n).
Proof. unfold successors. destruct (g !! n); [apply Hiter|constructor]. Qed.

(** The walks [vp] that were visited and [sp] on the stack. *)
Record search_inv (vp sp : list (Z * list Z)) : Prop := {
  si_walk x : x ∈ vp ++ sp -> walk g s x;
  si_fresh : NoDup vp.*1;
  si_nodup : NoDup (vp ++ sp);
  si_root : (s, []) ∈ vp ++ sp;
  si_parent w n p : (w, n :: p) ∈ vp ++ sp -> (n, p) ∈ vp;
  si_closed n p w : (n, p) ∈ vp -> edge g n w -> (w, n :: p) ∈ vp ++ sp;
}.

Definition pushed (n : Z) (p : list Z) : list (Z * list Z) :=
  (fun w => (w, n :: p)) <$> reverse (successors iter g n).

Lemma elem_of_pushed n p x : x ∈ pushed n p <-> exists w, edge g n w /\ x = (w, n :: p).
Proof.
  unfold pushed. rewrite list_elem_of_fmap. setoid_rewrite elem_of_reverse.
  setoid_rewrite elem_of_successors. naive_solver.
Qed.

Lemma search_inv_pop vp sp n p :
  search_inv vp ((n, p) :: sp) -> n ∉ vp.*1 -> search_inv ((n, p) :: vp) (pushed n p ++ sp).
Proof.
  intros [Hw Hf Hn Hr Hp Hc] Hnew.
  assert (Hel : forall x, x ∈ ((n, p) :: vp) ++ pushed n p ++ sp <->
    x ∈ vp ++ (n, p) :: sp \/ exists w, edge g n w /\ x = (w, n :: p)).
  { intros x. simpl. rewrite <- elem_of_pushed. rewrite !elem_of_cons, !elem_of_app, elem_of_cons. tauto. }
  apply NoDup_app in Hn as Hn'. destruct Hn' as (Hv & Hd & [Hx Hs]%NoDup_cons).
  assert (Hni : (n, p) ∉ vp). { intros Hin. apply (Hd _ Hin). left. }
  constructor.
  - intros x [Hin|(w & He & ->)]%Hel; [by apply Hw|]. apply walk_step; [|done].
    apply Hw. apply elem_of_app. right. left.
  - simpl. by apply NoDup_cons.
  - simpl.
    assert (Hperm : (n, p) :: vp ++ pushed n p ++ sp ≡ₚ pushed n p ++ vp ++ (n, p) :: sp).
    { rewrite (Permutation_app_swap_app vp). rewrite Permutation_middle.
      f_equiv. by rewrite Permutation_middle. }
    rewrite Hperm. apply NoDup_app. split_and!; [| |done].
    + unfold pushed. apply NoDup_fmap_2; [by intros ?? [= ->]|]. rewrite reverse_Permutation. apply NoDup_successors.
    + intros x (w & He & ->)%elem_of_pushed Hin. by apply Hni, (Hp w).
  - apply Hel. by left.
  - intros w n' p' [Hin|(w' & He & [= -> -> ->])]%Hel; [right; by apply (Hp w)|left].
  - intros n' p' w [[= -> ->]|Hin]%elem_of_cons He; apply Hel; [right; eauto|left; eauto].
Qed.

Lemma search_sound fuel vp sp :
  search_inv vp sp -> search iter g fuel (list_to_set vp.*1) sp.*1 = Some true -> two_walks g s.
Proof.
  revert vp sp. induction fuel as [|fuel IH]; intros vp [|[n p] sp] Hinv; simpl; try done.
  case_decide as Hin.
  - intros _. rewrite elem_of_list_to_set in Hin.
    apply list_elem_of_fmap in Hin as ([n' q] & Heq & Hq). simpl in Heq. subst n'.
    exists n, p, q. split_and!.
    + intros <-. destruct (proj1 (NoDup_app _ _) (si_nodup _ _ Hinv)) as (_ & Hd & _).
      apply (Hd _ Hq). left.
    + apply (si_walk _ _ Hinv), elem_of_app. right. left.
    + apply (si_walk _ _ Hinv), elem_of_app. by left.
  - intros H. apply (IH ((n, p) :: vp) (pushed n p ++ sp)).
    + apply search_inv_pop; [done|]. by rewrite elem_of_list_to_set in Hin.
    + rewrite <- H. simpl. f_equal. rewrite fmap_app. f_equal. unfold pushed.
      rewrite <- list_fmap_compose. apply list_fmap_id.
Qed.

Lemma search_inv_done vp x : search_inv vp [] -> walk g s x -> x ∈ vp.
Proof.
  intros Hinv. induction 1 as [|n p w _ IH He].
  - pose proof (si_root _ _ Hinv) as H. by rewrite app_nil_r in H.
  - pose proof (si_closed _ _ Hinv n p w IH He) as H. by rewrite app_nil_r in H.
Qed.

Lemma NoDup_fst_inj {A B} (l : list (A * B)) a b c :
  NoDup l.*1 -> (a, b) ∈ l -> (a, c) ∈ l -> b = c.
Proof.
  induction l as [|[a' b'] l IH]; simpl; [by intros _ ?%elem_of_nil|].
  intros [Hn Hl]%NoDup_cons [[= -> ->]|Hb]%elem_of_cons [[= H1]|Hc]%elem_of_cons.
  - done.
  - exfalso. apply Hn. apply list_elem_of_fmap. exists (a', c). done.
  - subst. exfalso. apply Hn. apply list_elem_of_fmap. exists (a', b). done.
  - by apply IH.
Qed.

Lemma search_complete fuel vp sp :
  search_inv vp sp -> search iter g fuel (list_to_set vp.*1) sp.*1 = Some false ->
  ~ two_walks g s.
Proof.
  revert vp sp. induction fuel as [|fuel IH]; intros vp [|[n p] sp] Hinv; simpl; try done.
  - intros _ (n & p & q & Hpq & Hp & Hq). apply Hpq.
    apply (NoDup_fst_inj vp n); [apply (si_fresh _ _ Hinv)|by apply search_inv_done..].
  - case_decide as Hin; [done|]. intros H. apply (IH ((n, p) :: vp) (pushed n p ++ sp)).
    + apply search_inv_pop; [done|]. by rewrite elem_of_list_to_set in Hin.
    + rewrite <- H. simpl. f_equal. rewrite fmap_app. f_equal. unfold pushed.
      rewrite <- list_fmap_compose. apply list_fmap_id.
Qed.

(** ** The search ends *)
Lemma edge_node n w : edge g n w -> w ∈ graph_nodes g s.
Proof.
  intros (ws & Hws & Hw). unfold graph_nodes. apply elem_of_union_r, elem_of_union_list.
  exists ws. split; [|done]. apply list_elem_of_fmap. exists (n, ws).
  split; [done|]. by apply elem_of_map_to_list.
Qed.

Lemma search_total fuel visited stack :
  (forall n, n ∈ stack -> n ∈ graph_nodes g s) ->
  (size (graph_nodes g s ∖ visited) < fuel)%nat ->
  is_Some (search iter g fuel visited stack).
Proof.
  revert visited stack. induction fuel as [|fuel IH]; intros visited stack Hst Hf; [lia|].
  destruct stack as [|n stack]; simpl; [eauto|]. case_decide as Hin; [eauto|].
  apply IH.
  - intros w [Hw|Hw]%elem_of_app; [|apply Hst; by right].
    rewrite elem_of_reverse in Hw. by eapply edge_node, elem_of_successors.
  - assert (Hn : n ∈ graph_nodes g s) by (apply Hst; left).
    enough (size (graph_nodes g s ∖ ({[n]} ∪ visited)) < size (graph_nodes g s ∖ visited))%nat by lia.
    apply subset_size. set_solver.
Qed.

Lemma search_inv_init : search_inv [] [(s, [])].
Proof.
  constructor; simpl.
  - intros x ->%list_elem_of_singleton. constructor.
  - constructor.
  - apply NoDup_singleton.
  - left.
  - intros w n p ?%list_elem_of_singleton. done.
  - by intros n p w ?%elem_of_nil.
Qed.

Lemma has_cycle_spec : has_cycle iter g s = true <-> two_walks g s.
Proof.
  unfold has_cycle.
  destruct (search_total (search_fuel g s) ∅ [s]) as [b Hb].
  { intros n ->%list_elem_of_singleton. unfold graph_nodes. set_solver. }
  { unfold search_fuel. assert (graph_nodes g s ∖ ∅ ⊆ graph_nodes g s) as H%subseteq_size by set_solver. lia. }
  rewrite Hb. simpl. destruct b; split; try done; intros H.
  - exact (search_sound _ _ _ search_inv_init Hb).
  - destruct (search_complete _ _ _ search_inv_init Hb H).
Qed.
End SearchSpec.

(** ** Queue invariants *)
Definition exclusive_ok (q : LockQueue) : Prop :=
  forall r1 r2, r1 ∈ q -> r2 ∈ q -> granted r1 = true -> granted r2 = true ->
    req_mode r1 = Exclusive -> req_txn r2 = req_txn r1.

Definition queue_live (q : LockQueue) : Prop :=
  q <> [] -> exists r, r ∈ q /\ granted r = true.

Definition queue_ok (q : LockQueue) : Prop := exclusive_ok q /\ queue_live q.

Section Queues.
Implicit Types (q pre : LockQueue) (r : LockRequest) (t : Z) (m : LockMode).

Lemma existsb_elem {A} (f : A -> bool) (l : list A) :
  existsb f l = true <-> exists x, x ∈ l /\ f x = true.
Proof. rewrite existsb_exists. by setoid_rewrite list_elem_of_In. Qed.

Lemma existsb_no {A} (f : A -> bool) (l : list A) :
  existsb f l = false <-> forall x, x ∈ l -> f x = false.
Proof.
  rewrite <- not_true_iff_false, existsb_elem. split.
  - intros H x Hx. apply not_true_iff_false. eauto.
  - intros H (x & Hx & Hf). specialize (H x Hx). congruence.
Qed.

Lemma holds_true t r : holds t r = true <-> req_txn r = t /\ granted r = true.
Proof. unfold holds. by rewrite andb_true_iff, bool_decide_eq_true. Qed.

Lemma holds_x_true t r :
  holds_x t r = true <-> req_txn r = t /\ granted r = true /\ req_mode r = Exclusive.
Proof. unfold holds_x. rewrite andb_true_iff, holds_true, bool_decide_eq_true. tauto. Qed.

Lemma count_mode_zero m q :
  count_mode m q = 0%nat <-> forall r, r ∈ q -> granted r = true -> req_mode r <> m.
Proof.
  unfold count_mode. split.
  - intros H r Hr Hg Hm. apply nil_length_inv in H.
    by apply (filter_nil_not_elem_of _ _ r H).
  - intros H. destruct (filter _ q) as [|r l] eqn:E; [done|]. exfalso.
    assert (Hr : r ∈ r :: l) by left. rewrite <- E in Hr.
    apply list_elem_of_filter in Hr as [[Hg Hm] Hr]. by apply (H r).
Qed.

Lemma count_mode_app m q1 q2 : count_mode m (q1 ++ q2) = (count_mode m q1 + count_mode m q2)%nat.
Proof. unfold count_mode. by rewrite filter_app, length_app. Qed.

Lemma count_mode_cons m r q :
  count_mode m (r :: q) =
    ((if decide (granted r = true /\ req_mode r = m) then 1 else 0) + count_mode m q)%nat.
Proof. unfold count_mode. rewrite filter_cons. by case_decide. Qed.

Lemma exclusive_ok_sub q q' :
  exclusive_ok q ->
  (forall r, r ∈ q' -> granted r = true -> exists r', r' ∈ q /\ granted r' = true /\
     req_txn r' = req_txn r /\ req_mode r' = req_mode r) ->
  exclusive_ok q'.
Proof.
  intros H Hsub r1 r2 H1 H2 G1 G2 M1.
  destruct (Hsub _ H1 G1) as (s1 & ? & ? & Ht1 & Hm1), (Hsub _ H2 G2) as (s2 & ? & ? & Ht2 & _).
  rewrite <- Ht1, <- Ht2. apply (H s1 s2); congruence.
Qed.

(** A request joins the granted ones when every granted one is its own
    transaction's, or when neither it nor any of them is exclusive. *)
Lemma exclusive_ok_add q1 q2 r :
  exclusive_ok (q1 ++ q2) ->
  (forall s, s ∈ q1 ++ q2 -> granted s = true ->
     req_txn s = req_txn r \/ (req_mode s <> Exclusive /\ req_mode r <> Exclusive)) ->
  exclusive_ok (q1 ++ r :: q2).
Proof.
  intros H Hr r1 r2 H1 H2 G1 G2 M1.
  assert (Hel : forall x, x ∈ q1 ++ r :: q2 -> x = r \/ x ∈ q1 ++ q2).
  { intros x. rewrite !elem_of_app, elem_of_cons. tauto. }
  destruct (Hel _ H1) as [->|I1], (Hel _ H2) as [->|I2]; [done| | |by apply H].
  - by destruct (Hr _ I2 G2) as [|[]].
  - by destruct (Hr _ I1 G1) as [|[]].
Qed.

Lemma exclusive_ok_drop q1 q2 r : exclusive_ok (q1 ++ r :: q2) -> exclusive_ok (q1 ++ q2).
Proof.
  intros H. apply (exclusive_ok_sub _ _ H). intros x Hx Hg. exists x. split_and!; try done.
  rewrite elem_of_app in *. rewrite elem_of_cons. tauto.
Qed.

Lemma count_swap m q1 q2 r :
  count_mode m (q1 ++ r :: q2) = (count_mode m [r] + count_mode m (q1 ++ q2))%nat.
Proof. rewrite !count_mode_app, (count_mode_cons m r q2), (count_mode_cons m r []).
  change (count_mode m []) with 0%nat. lia. Qed.

(** One pass, with the counts of the whole queue. *)
Lemma grant_waiting_exclusive pre q s x :
  exclusive_ok (pre ++ q) -> s = count_mode Shared (pre ++ q) ->
  x = count_mode Exclusive (pre ++ q) -> exclusive_ok (pre ++ grant_waiting s x q).
Proof.
  revert pre s x. induction q as [|r q IH]; intros pre s x H Hs Hx; [done|]. simpl.
  assert (Hnext : forall s' x' r', exclusive_ok (pre ++ r' :: q) ->
    s' = count_mode Shared (pre ++ r' :: q) -> x' = count_mode Exclusive (pre ++ r' :: q) ->
    exclusive_ok (pre ++ r' :: grant_waiting s' x' q)).
  { intros s' x' r' H1 H2 H3. rewrite cons_middle, app_assoc.
    apply IH; by rewrite <- app_assoc. }
  destruct (granted r) eqn:Eg; [by apply Hnext|].
  assert (Hw : forall m, count_mode m [r] = 0%nat).
  { intros m. rewrite count_mode_cons, decide_False; [done|]. rewrite Eg. by intros []. }
  rewrite count_swap, Hw in Hs, Hx.
  assert (Hg : forall m m', count_mode m [mkReq (req_txn r) m' true] =
    if decide (m' = m) then 1%nat else 0%nat).
  { intros m m'. rewrite count_mode_cons. simpl. repeat case_decide; naive_solver. }
  destruct (req_mode r) eqn:Em; case_decide as Hz;
    try (apply Hnext; [done|by rewrite count_swap, Hw..]);
    (apply Hnext;
      [|rewrite count_swap, Hg, ?decide_True, ?decide_False by done; lia..]).
  - apply exclusive_ok_add; [by eapply exclusive_ok_drop|]. intros r' Hr' G'. right.
    split; [|done]. rewrite Hx in Hz. by apply (proj1 (count_mode_zero _ _) Hz).
  - apply exclusive_ok_add; [by eapply exclusive_ok_drop|]. intros r' Hr' G'. exfalso.
    destruct Hz as [Hz1 Hz2]. rewrite Hs in Hz1. rewrite Hx in Hz2.
    destruct (req_mode r') eqn:Em';
      [by apply (proj1 (count_mode_zero _ _) Hz1 r')|by apply (proj1 (count_mode_zero _ _) Hz2 r')].
Qed.

(** Granting keeps every request in its place, and what was granted. *)
Lemma grant_waiting_keeps s x q :
  Forall2 (fun r r' => req_txn r' = req_txn r /\ req_mode r' = req_mode r /\
    (granted r = true -> granted r' = true)) q (grant_waiting s x q).
Proof.
  revert s x. induction q as [|r q IH]; intros s x; simpl; [constructor|].
  repeat case_match; constructor; try done; apply IH.
Qed.

Lemma grant_waiting_held s x q r :
  r ∈ q -> granted r = true ->
  exists r', r' ∈ grant_waiting s x q /\ granted r' = true /\
    req_txn r' = req_txn r /\ req_mode r' = req_mode r.
Proof.
  intros (i & Hi)%list_elem_of_lookup Hg.
  destruct (Forall2_lookup_l _ _ _ _ _ (grant_waiting_keeps s x q) Hi) as (r' & Hr' & ? & ? & ?).
  exists r'. split_and!; auto. by eapply list_elem_of_lookup_2.
Qed.

(** A queue that is not empty is not left with waiters only. *)
Lemma try_grant_live q : queue_live (try_grant_waiting q).
Proof.
  unfold try_grant_waiting. intros Hne.
  destruct (decide (Exists (fun r => granted r = true) q)) as [(r & Hr & Hg)%Exists_exists|Hno].
  - destruct (grant_waiting_held (count_mode Shared q) (count_mode Exclusive q) q r Hr Hg)
      as (r' & ? & ? & _). eauto.
  - assert (H0 : forall m, count_mode m q = 0%nat).
    { intros m. apply count_mode_zero. intros r Hr Hg. exfalso. apply Hno, Exists_exists. eauto. }
    rewrite !H0 in *. destruct q as [|r q]; [done|]. simpl in *.
    destruct (granted r) eqn:Eg; [exfalso; apply Hno; by left|].
    destruct (req_mode r); simpl; eexists; (split; [left|done]).
Qed.

Lemma try_grant_ok q : exclusive_ok q -> queue_ok (try_grant_waiting q).
Proof.
  intros H. split; [|apply try_grant_live]. by apply (grant_waiting_exclusive [] q).
Qed.

Lemma can_grant_add q t m :
  exclusive_ok q -> can_grant q t m = true -> exclusive_ok (q ++ [mkReq t m true]).
Proof.
  intros H Hc. apply exclusive_ok_add; rewrite app_nil_r; [done|]. simpl. intros s Hs Hg.
  unfold can_grant in Hc. simpl in Hc. destruct (existsb (holds_x t) q) eqn:Ex.
  - apply existsb_elem in Ex as (r & Hr & (Ht & Hgr & Hm)%holds_x_true). left.
    rewrite <- Ht. by apply (H r s).
  - destruct m.
    + right. apply bool_decide_eq_true in Hc. split; [|done].
      by apply (proj1 (count_mode_zero _ _) Hc).
    + left. apply negb_true_iff in Hc. pose proof (proj1 (existsb_no _ _) Hc s Hs) as H1.
      simpl in H1. rewrite Hg in H1. simpl in H1. by apply negb_false_iff, bool_decide_eq_true in H1.
Qed.

(** A refused request has a blocker. *)
Lemma can_grant_blocked q t m :
  existsb (holds_x t) q = false -> can_grant q t m = false ->
  exists r, r ∈ q /\ granted r = true /\ req_txn r <> t.
Proof.
  intros Hx Hc. unfold can_grant in Hc. simpl in Hc. rewrite Hx in Hc. destruct m.
  - apply bool_decide_eq_false in Hc. unfold count_mode in Hc.
    destruct (filter _ q) as [|r l] eqn:E; [done|].
    assert (Hr : r ∈ r :: l) by left. rewrite <- E in Hr.
    apply list_elem_of_filter in Hr as [[Hg Hm] Hr]. exists r. split_and!; try done.
    intros Ht. specialize (proj1 (existsb_no _ _) Hx r Hr).
    apply not_false_iff_true. by apply holds_x_true.
  - apply negb_false_iff, existsb_elem in Hc as (r & Hr & [Hg Hn]%andb_true_iff).
    apply negb_true_iff, bool_decide_eq_false in Hn. eauto.
Qed.

Lemma upgrade_ok q t :
  can_grant q t Exclusive = true -> exclusive_ok q -> exclusive_ok (upgrade t q).
Proof.
  intros Hc H. assert (Hall : forall r, r ∈ q -> granted r = true -> req_txn r = t).
  { intros r Hr Hg. unfold can_grant in Hc. simpl in Hc.
    destruct (existsb (holds_x t) q) eqn:Ex.
    - apply existsb_elem in Ex as (r' & Hr' & (Ht & Hgr & Hm)%holds_x_true).
      rewrite <- Ht. by apply (H r' r).
    - apply negb_true_iff in Hc. pose proof (proj1 (existsb_no _ _) Hc r Hr) as H1.
      simpl in H1. rewrite Hg in H1. simpl in H1. by apply negb_false_iff, bool_decide_eq_true in H1. }
  assert (Hup : forall r, r ∈ upgrade t q -> granted r = true -> req_txn r = t).
  { intros r (r' & -> & Hr')%list_elem_of_fmap. case_decide; simpl; auto. }
  intros r1 r2 H1 H2 G1 G2 _. by rewrite (Hup r1), (Hup r2).
Qed.
End Queues.

(** ** The lock table *)
Definition queue (lm : LockManager) (rid : LockRid) : LockQueue :=
  default [] (lock_table lm !! rid).

Definition locks_ok (lm : LockManager) : Prop := forall rid, queue_ok (queue lm rid).

Definition holds_in (q : LockQueue) (t : Z) (m : LockMode) : Prop :=
  exists r, r ∈ q /\ granted r = true /\ req_txn r = t /\ (req_mode r = m \/ req_mode r = Exclusive).

Section Table.
Implicit Types (lm : LockManager) (q : LockQueue) (t : Z) (m : LockMode).

Lemma holds_lock_in lm t rid m : holds_lock lm t rid m = true <-> holds_in (queue lm rid) t m.
Proof.
  unfold holds_lock, holds_in, queue. destruct (lock_table lm !! rid) as [q|]; simpl.
  - rewrite existsb_elem. setoid_rewrite andb_true_iff. setoid_rewrite holds_true.
    setoid_rewrite orb_true_iff. setoid_rewrite bool_decide_eq_true. naive_solver.
  - split; [done|]. intros (r & Hr & _). by apply elem_of_nil in Hr.
Qed.

Lemma holds_in_excl q t t' m : exclusive_ok q -> holds_in q t Exclusive -> holds_in q t' m -> t' = t.
Proof.
  intros H (r & Hr & Hg & <- & Hm) (r' & Hr' & Hg' & <- & _). apply (H r r'); naive_solver.
Qed.

(** Two queues with the same granted requests. *)
Lemma holds_in_ext q q' t m :
  (forall r, granted r = true -> r ∈ q <-> r ∈ q') -> holds_in q t m <-> holds_in q' t m.
Proof. intros H. unfold holds_in. split; intros (r & Hr & Hg & ?); exists r; (split; [by apply (H r Hg)|done]). Qed.

Lemma queue_ok_nil : queue_ok [].
Proof. split; [|by intros []]. intros r1 r2 H. by apply elem_of_nil in H. Qed.

Lemma queue_put rid q w lm rid' :
  queue (mkLocks (<[rid := q]> (lock_table lm)) w) rid' =
    if decide (rid' = rid) then q else queue lm rid'.
Proof.
  unfold queue. simpl. case_decide; subst; [by rewrite lookup_insert_eq|].
  by rewrite lookup_insert_ne.
Qed.

Lemma locks_ok_put rid q w lm :
  locks_ok lm -> queue_ok q -> locks_ok (mkLocks (<[rid := q]> (lock_table lm)) w).
Proof. intros H Hq rid'. rewrite queue_put. case_decide; [done|apply H]. Qed.

Lemma elem_of_retain_held t q r : r ∈ retain_held t q <-> r ∈ q /\ (req_txn r <> t \/ granted r = true).
Proof. unfold retain_held. rewrite list_elem_of_filter. tauto. Qed.

Lemma queue_release lm t rid :
  queue (release_all lm t) rid = try_grant_waiting (remove_txn t (queue lm rid)).
Proof.
  unfold queue, release_all. simpl. rewrite lookup_fmap. by destruct (lock_table lm !! rid).
Qed.

Lemma elem_of_remove_txn t q r : r ∈ remove_txn t q <-> r ∈ q /\ req_txn r <> t.
Proof. unfold remove_txn. rewrite list_elem_of_filter. tauto. Qed.

Lemma release_all_ok lm t : locks_ok lm -> locks_ok (release_all lm t).
Proof.
  intros H rid. rewrite queue_release. apply try_grant_ok.
  apply (exclusive_ok_sub _ _ (proj1 (H rid))). intros r Hr Hg. apply elem_of_remove_txn in Hr as [Hr _]. eauto 10.
Qed.

(** A waiting request joins, and possibly leaves again. *)
Lemma exclusive_ok_wait q t m : exclusive_ok q -> exclusive_ok (q ++ [mkReq t m false]).
Proof.
  intros H. apply (exclusive_ok_sub _ _ H).
  intros r Hr Hg. apply elem_of_app in Hr as [Hr|Hr]; [by exists r|].
  apply list_elem_of_singleton in Hr. by subst.
Qed.

Lemma wait_same_grants q t m r : granted r = true -> r ∈ q <-> r ∈ q ++ [mkReq t m false].
Proof.
  intros Hg. rewrite elem_of_app, list_elem_of_singleton. split; [tauto|]. intros [?| ->]; done.
Qed.

Lemma queue_ok_wait q t m :
  queue_ok q -> (exists r, r ∈ q /\ granted r = true) -> queue_ok (q ++ [mkReq t m false]).
Proof.
  intros [He _] (r & Hr & Hg). split; [by apply exclusive_ok_wait|].
  intros _. exists r. split; [apply elem_of_app; by left|done].
Qed.

Lemma queue_ok_retain q t :
  exclusive_ok q -> (exists r, r ∈ q /\ granted r = true) -> queue_ok (retain_held t q).
Proof.
  intros H (r & Hr & Hg). split.
  - apply (exclusive_ok_sub _ _ H). intros r' Hr' Hg'. apply elem_of_retain_held in Hr' as [Hr' _]. eauto 10.
  - intros _. exists r. rewrite elem_of_retain_held. auto.
Qed.
End Table.

(** What [acquire] answers, and what it leaves. *)
Section Acquire.
Variable iter : gset Z -> list Z.
Hypothesis Hiter : iter_order iter.
Implicit Types (lm : LockManager) (q : LockQueue) (t : Z) (m : LockMode).

Definition others_keep lm lm' t rid : Prop :=
  forall t' rid' m', t' <> t \/ rid' <> rid ->
    holds_lock lm' t' rid' m' = holds_lock lm t' rid' m'.

Lemma holds_lock_ext lm lm' t rid rid' m :
  (holds_in (queue lm rid) t m <-> holds_in (queue lm' rid') t m) ->
  holds_lock lm t rid m = holds_lock lm' t rid' m.
Proof. rewrite <- !holds_lock_in. destruct (holds_lock _ _ _ _), (holds_lock _ _ _ _); naive_solver. Qed.

Lemma others_keep_put lm t rid q w :
  (forall t' m', t' <> t -> holds_in q t' m' <-> holds_in (queue lm rid) t' m') ->
  others_keep lm (mkLocks (<[rid := q]> (lock_table lm)) w) t rid.
Proof.
  intros H t' rid' m' Hne. apply holds_lock_ext. rewrite queue_put.
  case_decide; subst; [|done]. apply H. naive_solver.
Qed.

Lemma put_same lm t rid w m :
  holds_lock (mkLocks (<[rid := queue lm rid]> (lock_table lm)) w) t rid m = holds_lock lm t rid m.
Proof. apply holds_lock_ext. by rewrite queue_put, decide_True. Qed.

(** The cases of [acquire]: the answer, the queue it leaves and the waits. *)
Inductive acquire_case lm t rid m : LockManager * result lock_error bool -> Prop :=
  | acq_held w :
      w = mkLocks (<[rid := queue lm rid]> (lock_table lm)) (waits_for lm) ->
      holds_in (queue lm rid) t m -> acquire_case lm t rid m (w, Ok true)
  | acq_upgrade w :
      w = mkLocks (<[rid := upgrade t (queue lm rid)]> (lock_table lm)) (waits_for lm) ->
      m = Exclusive -> existsb (holds t) (queue lm rid) = true ->
      can_grant (queue lm rid) t Exclusive = true -> acquire_case lm t rid m (w, Ok true)
  | acq_grant w :
      w = mkLocks (<[rid := queue lm rid ++ [mkReq t m true]]> (lock_table lm)) (waits_for lm) ->
      can_grant (queue lm rid) t m = true -> acquire_case lm t rid m (w, Ok true)
  | acq_wait w waits :
      w = mkLocks (<[rid := queue lm rid ++ [mkReq t m false]]> (lock_table lm)) waits ->
      waits = <[t := blockers t (queue lm rid ++ [mkReq t m false])]> (waits_for lm) ->
      ~ holds_in (queue lm rid) t m ->
      (exists r, r ∈ queue lm rid /\ granted r = true /\ req_txn r <> t) ->
      ~ two_walks waits t -> can_grant (queue lm rid) t m = false -> acquire_case lm t rid m (w, Ok false)
  | acq_deadlock w waits :
      w = mkLocks (<[rid := retain_held t (queue lm rid ++ [mkReq t m false])]> (lock_table lm))
            (delete t waits) ->
      waits = <[t := blockers t (queue lm rid ++ [mkReq t m false])]> (waits_for lm) ->
      ~ holds_in (queue lm rid) t m ->
      (exists r, r ∈ queue lm rid /\ granted r = true /\ req_txn r <> t) ->
      two_walks waits t -> can_grant (queue lm rid) t m = false -> acquire_case lm t rid m (w, Err (DeadlockDetected t)).

Lemma acquire_cases lm t rid m : acquire_case lm t rid m (acquire iter lm t rid m).
Proof.
  unfold acquire. fold (queue lm rid).
  set (q := queue lm rid).
  assert (Henq : (existsb (holds t) q = true -> m = Exclusive /\ existsb (holds_x t) q = false) ->
    existsb (holds_x t) q = false ->
    acquire_case lm t rid m
      (if can_grant q t m then
         (mkLocks (<[rid := q ++ [mkReq t m (can_grant q t m)]]> (lock_table lm)) (waits_for lm), Ok true)
       else if has_cycle iter (<[t := blockers t (q ++ [mkReq t m (can_grant q t m)])]> (waits_for lm)) t
       then (mkLocks (<[rid := retain_held t (q ++ [mkReq t m (can_grant q t m)])]> (lock_table lm))
               (delete t (<[t := blockers t (q ++ [mkReq t m (can_grant q t m)])]> (waits_for lm))),
             Err (DeadlockDetected t))
       else (mkLocks (<[rid := q ++ [mkReq t m (can_grant q t m)]]> (lock_table lm))
               (<[t := blockers t (q ++ [mkReq t m (can_grant q t m)])]> (waits_for lm)), Ok false))).
  { intros Hup Hx. destruct (can_grant q t m) eqn:Ec; [by eapply acq_grant|].
    assert (Hno : ~ holds_in q t m).
    { intros (r & Hr & Hg & Ht & Hm). destruct Hup as [-> _].
      - apply existsb_elem. exists r. by rewrite holds_true.
      - specialize (proj1 (existsb_no _ _) Hx r Hr). apply not_false_iff_true, holds_x_true. naive_solver. }
    pose proof (can_grant_blocked _ _ _ Hx Ec).
    destruct (has_cycle _ _ _) eqn:Eh.
    - apply (has_cycle_spec iter Hiter) in Eh. by eapply acq_deadlock.
    - eapply acq_wait; try done. intros H2. apply (has_cycle_spec iter Hiter) in H2. congruence. }
  destruct (existsb (holds t) q) eqn:Eh.
  - apply existsb_elem in Eh as Hr. destruct Hr as (r & Hr & [Ht Hg]%holds_true).
    destruct m.
    + apply acq_held; [done|]. exists r. destruct (req_mode r); auto.
    + destruct (existsb (holds_x t) q) eqn:Ex.
      * apply acq_held; [done|]. apply existsb_elem in Ex as (r' & Hr' & (?&?&?)%holds_x_true).
        exists r'. auto.
      * destruct (can_grant q t Exclusive) eqn:Ec.
        -- by apply acq_upgrade.
        -- apply Henq; done.
  - assert (Hx : existsb (holds_x t) q = false).
    { apply existsb_no. intros r Hr. apply not_true_iff_false. intros (?&?&_)%holds_x_true.
      apply not_true_iff_false in Eh. apply Eh, existsb_elem. exists r. by rewrite holds_true. }
    by apply Henq.
Qed.

Lemma acquire_ok lm t rid m : locks_ok lm -> locks_ok (acquire iter lm t rid m).1.
Proof.
  intros H. destruct (H rid) as [He Hl].
  destruct (acquire_cases lm t rid m) as [w ->|w -> -> Hh Hc|w -> Hc|w waits -> -> _ (r&Hr&Hg&_) _
    |w waits -> -> _ (r&Hr&Hg&_) _]; simpl; apply locks_ok_put; try done.
  - split; [by apply upgrade_ok|]. intros _.
    apply existsb_elem in Hh as (r & Hr & [Ht Hg]%holds_true).
    exists (mkReq t Exclusive true). split; [|done]. apply list_elem_of_fmap. exists r.
    split; [|done]. rewrite decide_True by done. by rewrite Ht, Hg.
  - split; [by apply can_grant_add|]. intros _. exists (mkReq t m true).
    split; [apply elem_of_app; right; left|done].
  - apply queue_ok_wait; [done|eauto].
  - apply queue_ok_retain; [by apply exclusive_ok_wait|].
    exists r. split; [apply elem_of_app; by left|done].
Qed.

(** States of a manager under any calls of any transactions. *)
Inductive lock_reach : LockManager -> Prop :=
  | lr_new : lock_reach LockManager_new
  | lr_acquire lm t rid m : lock_reach lm -> lock_reach (acquire iter lm t rid m).1
  | lr_release lm t : lock_reach lm -> lock_reach (release_all lm t).

Lemma lock_reach_ok lm : lock_reach lm -> locks_ok lm.
Proof.
  induction 1; [|by apply acquire_ok|by apply release_all_ok].
  intros rid. unfold queue, LockManager_new. simpl. rewrite lookup_empty. apply queue_ok_nil.
Qed.

Lemma holds_in_upgrade q t t' m :
  t' <> t -> holds_in (upgrade t q) t' m <-> holds_in q t' m.
Proof.
  intros Hne. unfold holds_in, upgrade. setoid_rewrite list_elem_of_fmap. split.
  - intros (r & (r' & -> & Hr') & Hg & Ht & Hm). case_decide; simpl in *; [congruence|].
    exists r'. auto.
  - intros (r & Hr & Hg & Ht & Hm). exists r. split; [|done]. exists r.
    rewrite decide_False by congruence. done.
Qed.

Lemma holds_in_snoc q t t' m m' g :
  t' <> t -> holds_in (q ++ [mkReq t m g]) t' m' <-> holds_in q t' m'.
Proof.
  intros Hne. unfold holds_in. split.
  - intros (r & [Hr|Hr]%elem_of_app & Hg & Ht & Hm); [by exists r|].
    apply list_elem_of_singleton in Hr. subst. done.
  - intros (r & Hr & Hg & Ht & Hm). exists r. split; [apply elem_of_app; by left|done].
Qed.

Lemma retain_same_grants q t m r :
  granted r = true -> r ∈ q <-> r ∈ retain_held t (q ++ [mkReq t m false]).
Proof.
  intros Hg. rewrite elem_of_retain_held, <- wait_same_grants by done. tauto.
Qed.
End Acquire.

(** C18: an exclusive lock excludes everybody else. Whatever sequence of
    [acquire] and [release_all] calls ran, if a transaction holds a row
    exclusively then no other holds it in any mode. *)
Theorem exclusive_lock_excludes iter lm t t' rid m :
  iter_order iter -> lock_reach iter lm -> holds_lock lm t rid Exclusive = true -> t' <> t ->
  holds_lock lm t' rid m = false.
Proof.
  intros Hi Hr Hx Hne. apply not_true_iff_false. intros H. apply Hne.
  eapply holds_in_excl; [apply (lock_reach_ok iter Hi lm Hr rid)|by apply holds_lock_in..].
Qed.

(** C28: the contract of [acquire]. [Ok true]: the lock is held. [Ok false]: it
    is not, the request waits, and the transaction does not wait for itself.
    [Err]: two different chains of waits lead from the transaction to one
    other, and it holds what it held.  In every case the other transactions'
    locks, and its own on other rows, are as before. *)
Theorem acquire_spec iter lm t rid m :
  iter_order iter -> lock_reach iter lm ->
  let '(lm', res) := acquire iter lm t rid m in
  others_keep lm lm' t rid /\
  match res with
  | Ok true => holds_lock lm' t rid m = true
  | Ok false => holds_lock lm' t rid m = false /\ mkReq t m false ∈ queue lm' rid /\
      (exists w, waits_for lm' !! t = Some w /\ w <> ∅) /\ ~ two_walks (waits_for lm') t
  | Err e => e = DeadlockDetected t /\ holds_lock lm' t rid m = false /\
      (forall m', holds_lock lm' t rid m' = holds_lock lm t rid m') /\ waits_for lm' !! t = None
  | Panic => False
  end.
Proof.
  intros Hi Hr.
  destruct (acquire_cases iter Hi lm t rid m)
    as [w -> Hh|w -> -> Hh Hc|w -> Hc|w waits -> -> Hno (r&Hr'&Hg&Ht) Hw|w waits -> -> Hno (r&Hr'&Hg&Ht) Hw];
    (split; [apply others_keep_put; intros t' m' Hne|]).
  - done.
  - apply holds_lock_in. by rewrite queue_put, decide_True.
  - by apply holds_in_upgrade.
  - apply holds_lock_in. rewrite queue_put, decide_True by done.
    apply existsb_elem in Hh as (r & Hin & [Ht Hg]%holds_true).
    exists (mkReq t Exclusive true). split_and!; auto. apply list_elem_of_fmap.
    exists r. rewrite decide_True by done. by rewrite Ht, Hg.
  - by apply holds_in_snoc.
  - apply holds_lock_in. rewrite queue_put, decide_True by done. exists (mkReq t m true).
    split_and!; auto. apply elem_of_app. right. left.
  - by apply holds_in_snoc.
  - rewrite queue_put, decide_True by done. split_and!.
    + apply not_true_iff_false. rewrite holds_lock_in, queue_put, decide_True by done.
      by rewrite <- (holds_in_ext _ _ _ _ (wait_same_grants _ t m)).
    + apply elem_of_app. right. left.
    + simpl. rewrite lookup_insert_eq. eexists. split; [done|].
      assert (Hb : req_txn r ∈ blockers t (queue lm rid ++ [mkReq t m false])); [|set_solver].
      unfold blockers. rewrite elem_of_list_to_set, list_elem_of_fmap. exists r. split; [done|].
      apply list_elem_of_filter. split; [done|]. apply elem_of_app. by left.
    + done.
  - by rewrite <- (holds_in_ext _ _ _ _ (retain_same_grants _ t m)).
  - assert (Hsame : forall m', holds_in (queue lm rid) t m' <->
      holds_in (retain_held t (queue lm rid ++ [mkReq t m false])) t m').
    { intros m'. apply holds_in_ext. apply retain_same_grants. }
    split_and!; [done| | |simpl; by rewrite lookup_delete_eq].
    + apply not_true_iff_false. by rewrite holds_lock_in, queue_put, decide_True, <- Hsame.
    + intros m'. symmetry. apply holds_lock_ext. by rewrite queue_put, decide_True.
Qed.

(** What another transaction holds is still held. *)
Lemma release_all_keeps lm t t' rid m :
  t' <> t -> holds_lock lm t' rid m = true -> holds_lock (release_all lm t) t' rid m = true.
Proof.
  intros Hne. rewrite !holds_lock_in, queue_release.
  intros (r & Hr & Hg & Ht & Hm).
  destruct (grant_waiting_held (count_mode Shared (remove_txn t (queue lm rid)))
    (count_mode Exclusive (remove_txn t (queue lm rid))) (remove_txn t (queue lm rid)) r)
    as (r' & Hr' & Hg' & Ht' & Hm');
    [by apply elem_of_remove_txn; split; [|congruence]|done|].
  exists r'. rewrite Ht', Hm'. done.
Qed.

(** C29: releasing. The transaction has no lock and no request left anywhere,
    nobody is recorded as waiting for it, and every lock another transaction
    held is still held. *)
Theorem release_all_spec lm t :
  (forall rid r, r ∈ queue (release_all lm t) rid -> req_txn r <> t) /\
  waits_for (release_all lm t) !! t = None /\
  (forall u w, waits_for (release_all lm t) !! u = Some w -> t ∉ w) /\
  (forall t' rid m, t' <> t -> holds_lock lm t' rid m = true ->
     holds_lock (release_all lm t) t' rid m = true).
Proof.
  split_and!.
  - intros rid r. rewrite queue_release. intros (i & Hi)%list_elem_of_lookup.
    destruct (Forall2_lookup_r _ _ _ _ _ (grant_waiting_keeps _ _ _) Hi) as (r' & Hr' & -> & _).
    apply list_elem_of_lookup_2, elem_of_remove_txn in Hr' as [_ ?]. done.
  - simpl. by rewrite lookup_fmap, lookup_delete_eq.
  - intros u w. simpl. rewrite lookup_fmap. intros H.
    apply fmap_Some in H as (w' & _ & ->). set_solver.
  - intros t' rid m. by apply release_all_keeps.
Qed.

(** A row is never left with waiters only. In every reachable state a
    queue that has a request has a granted one. *)
Lemma waiters_have_a_holder iter lm rid r :
  iter_order iter -> lock_reach iter lm -> r ∈ queue lm rid ->
  exists r', r' ∈ queue lm rid /\ granted r' = true.
Proof.
  intros Hi Hr Hin. apply (lock_reach_ok iter Hi lm Hr rid). intros Hnil.
  rewrite Hnil in Hin. by apply elem_of_nil in Hin.
Qed.

(** C30: what the search for a cycle finds. It ends within the fuel, and answers
    [true] exactly when two different walks from the start reach one node,
    whatever order the sets are iterated in; so it misses no cycle. *)
Theorem has_cycle_exact iter g s :
  iter_order iter ->
  is_Some (search iter g (search_fuel g s) ∅ [s]) /\
  (has_cycle iter g s = true <-> two_walks g s) /\
  (forall n p q, walk g s (n, p) -> walk g s (n, q) -> length p < length q ->
     has_cycle iter g s = true)%nat.
Proof.
  intros Hi. split_and!.
  - apply (search_total iter Hi g s).
    + intros n ->%list_elem_of_singleton. unfold graph_nodes. set_solver.
    + unfold search_fuel.
      assert (graph_nodes g s ∖ ∅ ⊆ graph_nodes g s) as H%subseteq_size by set_solver. lia.
  - by apply has_cycle_spec.
  - intros n p q Hp Hq Hl. apply has_cycle_spec; [done|]. exists n, p, q. split_and!; try done.
    intros ->. lia.
Qed.

(** ** Concrete runs *)
Lemma elements_order : iter_order elements.
Proof. intros w. split; [apply NoDup_elements|intros x; apply elem_of_elements]. Qed.

Inductive lock_op := LAcquire (t slot : Z) (m : LockMode) | LRelease (t : Z).

Definition lock_step (lm : LockManager) (o : lock_op) : LockManager * option (result lock_error bool) :=
  match o with
  | LAcquire t slot m => let '(lm, r) := acquire elements lm t (mkLockRid 0 slot) m in (lm, Some r)
  | LRelease t => (release_all lm t, None)
  end.

(** The last answer of a sequence of calls, and the state. *)
Definition lock_run (ops : list lock_op) : LockManager * option (result lock_error bool) :=
  foldl (fun s o => lock_step s.1 o) (LockManager_new, None) ops.

Lemma lock_run_reach ops : lock_reach elements (lock_run ops).1.
Proof.
  unfold lock_run. generalize (@None (result lock_error bool)) as res.
  generalize (lr_new elements). generalize LockManager_new.
  induction ops as [|o ops IH]; intros lm H res; simpl; [done|].
  destruct o as [t slot m|t]; simpl.
  - pose proof (lr_acquire _ lm t (mkLockRid 0 slot) m H) as H1.
    destruct (acquire _ _ _ _ _) as [lm' r]. by apply IH.
  - by apply IH, lr_release.
Qed.

Lemma exclusive_lock_excludes_witness :
  holds_lock (lock_run [LAcquire 1 0 Exclusive; LAcquire 2 0 Shared]).1 2 (mkLockRid 0 0) Shared = false.
Proof.
  apply (exclusive_lock_excludes elements _ 1 2);
    [apply elements_order|apply lock_run_reach|by vm_compute|done].
Defined.

Lemma acquire_spec_witness :
  let '(lm', res) := acquire elements (lock_run [LAcquire 1 0 Exclusive; LAcquire 2 1 Exclusive;
    LAcquire 1 1 Exclusive]).1 2 (mkLockRid 0 0) Exclusive in
  others_keep (lock_run [LAcquire 1 0 Exclusive; LAcquire 2 1 Exclusive;
    LAcquire 1 1 Exclusive]).1 lm' 2 (mkLockRid 0 0) /\ res = Err (DeadlockDetected 2).
Proof.
  pose proof (acquire_spec elements (lock_run [LAcquire 1 0 Exclusive; LAcquire 2 1 Exclusive;
    LAcquire 1 1 Exclusive]).1 2 (mkLockRid 0 0) Exclusive elements_order (lock_run_reach _)) as H.
  destruct (acquire _ _ _ _ _) as [lm' res] eqn:E. split; [apply H|].
  apply (f_equal snd) in E. vm_compute in E. by rewrite E.
Defined.

Lemma waiters_have_a_holder_witness :
  exists r', r' ∈ queue (lock_run [LAcquire 1 0 Exclusive; LAcquire 2 0 Shared; LRelease 1]).1
    (mkLockRid 0 0) /\ granted r' = true.
Proof.
  apply (waiters_have_a_holder elements _ _ (mkReq 2 Shared true));
    [apply elements_order|apply lock_run_reach|vm_compute; left].
Defined.

Lemma has_cycle_exact_witness :
  has_cycle elements {[1 := {[2]}; 2 := {[1]}]} 1 = true.
Proof.
  apply (proj2 (proj2 (has_cycle_exact elements {[1 := {[2]}; 2 := {[1]}]} 1 elements_order)) 1 [] [2; 1]);
    [constructor| |simpl; lia].
  repeat (eapply walk_step || apply walk_start);
    eexists; (split; [by vm_compute|]); set_solver.
Defined.

(** Two readers that a third holder waits behind make a diamond, not a cycle:
    transaction 4 waits for 2 and 3, both wait for 1, and nobody waits for 4;
    the request is refused as a deadlock. *)
Lemma diamond_reported_as_deadlock :
  let s := lock_run [LAcquire 1 0 Exclusive; LAcquire 2 1 Shared; LAcquire 3 1 Shared;
    LAcquire 2 0 Shared; LAcquire 3 0 Shared; LAcquire 4 1 Exclusive] in
  s.2 = Some (Err (DeadlockDetected 4)) /\
  forall u w, waits_for s.1 !! u = Some w -> u <> 1 /\ 4 ∉ w.
Proof.
  split; [by vm_compute|]. intros u w H. vm_compute in H.
  change (({[2 := {[1]}; 3 := {[1]}]} : gmap Z (gset Z)) !! u = Some w) in H.
  apply lookup_insert_Some in H as [[<- <-]|[_ H]]; [set_solver|].
  apply lookup_singleton_Some in H as [<- <-]. set_solver.
Qed.

(** An upgrade that had to wait is counted against its own shared lock: it is
    not granted when it becomes the only holder. *)
Lemma waiting_upgrade_never_granted :
  let s := lock_run [LAcquire 1 0 Shared; LAcquire 2 0 Shared; LAcquire 1 0 Exclusive; LRelease 2] in
  queue s.1 (mkLockRid 0 0) = [mkReq 1 Shared true; mkReq 1 Exclusive false].
Proof. by vm_compute. Qed.

(** Waits are recorded when a request is queued and not when a waiter is
    granted: 3 waits for 1 only; once 1 releases, 2 holds row 0 and 3 waits
    for 2 without an edge, so the cycle 2 - 3 is not found. *)
Lemma deadlock_after_grant_missed :
  let s := lock_run [LAcquire 1 0 Exclusive; LAcquire 3 1 Exclusive; LAcquire 2 0 Exclusive;
    LAcquire 3 0 Exclusive; LRelease 1; LAcquire 2 1 Exclusive] in
  s.2 = Some (Ok false) /\
  queue s.1 (mkLockRid 0 0) = [mkReq 2 Exclusive true; mkReq 3 Exclusive false] /\
  queue s.1 (mkLockRid 0 1) = [mkReq 3 Exclusive true; mkReq 2 Exclusive false].
Proof. split_and!; by vm_compute. Qed.
