(* ===== verification/LockWait.v ===== *)
(** * Waiting for a lock

    A request that waits is granted in the end.  The manager grants only when a
    transaction releases, so the promise is about releases: when the first
    waiter of a row holds nothing there, and the transactions that hold the row
    release one after the other, it holds the row. *)
From S2P Require Export Locks.
Local Open Scope Z_scope.

(** A shared request only waits for an exclusive holder. *)
Definition shared_wait_ok (q : LockQueue) : Prop :=
  forall r, r ∈ q -> granted r = false -> req_mode r = Shared ->
    exists h, h ∈ q /\ granted h = true /\ req_mode h = Exclusive.

(** The transactions that hold something in the queue. *)
Definition holders (q : LockQueue) : gset Z := list_to_set (req_txn <$> filter (fun r => granted r = true) q).

(** [t] waits for [m], everybody before it holds, and it holds nothing. *)
Definition first_waiter (t : Z) (m : LockMode) (q : LockQueue) : Prop :=
  t ∉ holders q /\ exists pre post, q = pre ++ mkReq t m false :: post /\ Forall (fun r => granted r = true) pre.

Section Waiting.
Implicit Types (q pre post : LockQueue) (r : LockRequest) (t : Z) (m : LockMode).

Lemma elem_of_holders t q : t ∈ holders q <-> exists r, r ∈ q /\ granted r = true /\ req_txn r = t.
Proof.
  unfold holders. rewrite elem_of_list_to_set, list_elem_of_fmap. setoid_rewrite list_elem_of_filter. naive_solver.
Qed.

Lemma count_mode_some m q : count_mode m q <> 0%nat <-> exists r, r ∈ q /\ granted r = true /\ req_mode r = m.
Proof.
  split.
  - intros Hc. unfold count_mode in Hc. destruct (filter _ q) as [|r l] eqn:E; [done|].
    assert (Hr : r ∈ r :: l) by left. rewrite <- E in Hr. apply list_elem_of_filter in Hr as [[? ?] ?]. eauto.
  - intros (r & Hr & Hg & Hm) Hz. by apply (proj1 (count_mode_zero _ _) Hz r).
Qed.

(** ** Shared requests wait for exclusive holders *)
Lemma grant_waiting_shared s x q r :
  r ∈ grant_waiting s x q -> granted r = false -> req_mode r = Shared ->
  x <> 0%nat \/ exists h, h ∈ grant_waiting s x q /\ granted h = true /\ req_mode h = Exclusive.
Proof.
  revert s x. induction q as [|a q IH]; intros s x; cbn [grant_waiting]; [by intros ?%elem_of_nil|].
  assert (Hnext : forall s' x' b, (x' = x \/ (granted b = true /\ req_mode b = Exclusive)) -> r ∈ grant_waiting s' x' q ->
    granted r = false -> req_mode r = Shared ->
    x <> 0%nat \/ exists h, h ∈ b :: grant_waiting s' x' q /\ granted h = true /\ req_mode h = Exclusive).
  { intros s' x' b Hb Hin Hg Hm. setoid_rewrite elem_of_cons. destruct Hb as [->|Hb]; [|right; eauto].
    destruct (IH _ _ Hin Hg Hm) as [?|(h & ? & ?)]; [by left|right; eauto]. }
  destruct (granted a) eqn:Ea; [|destruct (req_mode a) eqn:Em; case_decide as Hz];
    intros [->|Hin]%elem_of_cons Hg Hm; try (eapply Hnext; eauto; done); try done; [congruence|by left|congruence].
Qed.

Lemma try_grant_shared q : shared_wait_ok (try_grant_waiting q).
Proof.
  intros r Hr Hg Hm. destruct (grant_waiting_shared _ _ _ _ Hr Hg Hm) as [Hx|]; [|done].
  apply count_mode_some in Hx as (h & Hh & Hhg & Hhm).
  destruct (grant_waiting_held (count_mode Shared q) (count_mode Exclusive q) q h Hh Hhg) as (h' & ? & ? & _ & ?).
  exists h'. split_and!; [done..|congruence].
Qed.

Lemma shared_wait_snoc q r :
  shared_wait_ok q -> (granted r = false -> req_mode r = Shared -> count_mode Exclusive q <> 0%nat) ->
  shared_wait_ok (q ++ [r]).
Proof.
  intros Hq Hr a [Ha| ->%list_elem_of_singleton]%elem_of_app Hg Hm; setoid_rewrite elem_of_app.
  - destruct (Hq a Ha Hg Hm) as (h & ? & ?). eauto.
  - apply count_mode_some in Hr as (h & ? & ?); eauto.
Qed.

Lemma shared_wait_same q q' :
  (forall r, r ∈ q' -> granted r = false -> req_mode r = Shared -> r ∈ q) ->
  (forall h, h ∈ q -> granted h = true -> req_mode h = Exclusive -> exists h', h' ∈ q' /\ granted h' = true /\ req_mode h' = Exclusive) ->
  shared_wait_ok q -> shared_wait_ok q'.
Proof. intros Hw Hh Hq r Hr Hg Hm. destruct (Hq r (Hw r Hr Hg Hm) Hg Hm) as (h & ? & ? & ?). by eapply Hh. Qed.

Lemma can_grant_shared q t m : can_grant q t m = false -> m = Shared -> count_mode Exclusive q <> 0%nat.
Proof. intros Hc -> Hz. unfold can_grant in Hc. cbn in Hc. rewrite Hz in Hc. by destruct (existsb _ q). Qed.

Lemma lock_reach_shared iter lm rid : iter_order iter -> lock_reach iter lm -> shared_wait_ok (queue lm rid).
Proof.
  intros Hi Hr. revert rid. induction Hr as [|lm t rid0 m Hr IH|lm t _ IH]; intros rid.
  - intros r. unfold queue. cbn. rewrite lookup_empty. by intros ?%elem_of_nil.
  - assert (Hput : forall q w, shared_wait_ok q -> shared_wait_ok (queue (mkLocks (<[rid0 := q]> (lock_table lm)) w) rid)).
    { intros q w Hq. rewrite queue_put. case_decide; [done|apply IH]. }
    specialize (IH rid0).
    destruct (acquire_cases iter Hi lm t rid0 m) as [w ->|w -> -> _ _|w -> _|w waits -> _ _ _ _ Hc|w waits -> _ _ _ _ Hc];
      cbn [fst]; apply Hput; [done| | | |].
    + revert IH. apply shared_wait_same; unfold upgrade; setoid_rewrite list_elem_of_fmap.
      * intros r (r' & -> & Hr') Hg Hm. by case_decide.
      * intros h Hh Hg Hm. eexists. split; [by exists h|]. by case_decide.
    + by apply shared_wait_snoc.
    + apply shared_wait_snoc; [done|]. cbn. eauto using can_grant_shared.
    + revert IH. apply shared_wait_same; setoid_rewrite elem_of_retain_held; setoid_rewrite elem_of_app.
      * intros r [[?| ->%list_elem_of_singleton] [?|?]] ? ?; try done; congruence.
      * intros h ? ? ?. exists h. auto.
  - rewrite queue_release. apply try_grant_shared.
Qed.

(** ** What a release does to a queue *)
Lemma grant_waiting_none s x q :
  (forall r, r ∈ q -> granted r = false -> x <> 0%nat \/ req_mode r = Exclusive /\ s <> 0%nat) -> grant_waiting s x q = q.
Proof.
  induction q as [|r q IH]; intros Hq; [done|]. cbn [grant_waiting]. rewrite IH by (intros; apply Hq; [by right|done]).
  destruct (granted r) eqn:Eg; [done|]. specialize (Hq r ltac:(left) Eg).
  destruct (req_mode r) eqn:Em; rewrite decide_False; try done; naive_solver.
Qed.

(** While somebody holds the row no request is granted: a shared one waits for
    an exclusive holder, who is the only one, and an exclusive one for all. *)
Lemma try_grant_held q : shared_wait_ok q -> holders q <> ∅ -> try_grant_waiting q = q.
Proof.
  intros Hq Hh. apply grant_waiting_none. intros r Hr Hg.
  destruct (req_mode r) eqn:Em.
  - left. apply count_mode_some. by apply (Hq r).
  - apply set_choose_L in Hh as (u & (h & Hin & Hhg & _)%elem_of_holders).
    destruct (req_mode h) eqn:Ehm; [right; split; [done|]|left]; apply count_mode_some; eauto.
Qed.

Lemma try_grant_first t m q : first_waiter t m q -> holders q = ∅ -> holds_in (try_grant_waiting q) t m.
Proof.
  intros (_ & pre & post & -> & Hpre) Hh.
  assert (Hno : forall r, r ∈ pre ++ mkReq t m false :: post -> granted r <> true).
  { intros r Hr Hg. assert (req_txn r ∈ holders (pre ++ mkReq t m false :: post)) as Hin by (apply elem_of_holders; eauto).
    rewrite Hh in Hin. set_solver. }
  assert (Hz : forall m', count_mode m' (pre ++ mkReq t m false :: post) = 0%nat).
  { intros m'. apply count_mode_zero. intros r Hr Hg. by destruct (Hno r Hr). }
  unfold try_grant_waiting. rewrite !Hz. destruct pre as [|r pre].
  - cbn. exists (mkReq t m true). destruct m; cbn; split_and!; auto; left.
  - destruct (Hno r); [left|]. by apply Forall_cons in Hpre as [? _].
Qed.

Lemma holders_remove u q : holders (remove_txn u q) = holders q ∖ {[u]}.
Proof.
  apply set_eq. intros t. rewrite elem_of_difference, elem_of_singleton, !elem_of_holders.
  setoid_rewrite elem_of_remove_txn. naive_solver.
Qed.

Lemma first_waiter_remove t m u q : u <> t -> first_waiter t m q -> first_waiter t m (remove_txn u q).
Proof.
  intros Hu (Ht & pre & post & -> & Hpre). split; [rewrite holders_remove; set_solver|].
  exists (remove_txn u pre), (remove_txn u post). split.
  - unfold remove_txn. rewrite filter_app, filter_cons, decide_True by (cbn; congruence). done.
  - rewrite Forall_forall in *. intros r [Hr _]%elem_of_remove_txn. by apply Hpre.
Qed.

(** Removing a holder keeps the shared requests waiting for a holder: the
    exclusive holder is alone. *)
Lemma shared_wait_remove u q :
  exclusive_ok q -> shared_wait_ok q -> holders (remove_txn u q) <> ∅ -> shared_wait_ok (remove_txn u q).
Proof.
  intros Hx Hq Hh r [Hr _]%elem_of_remove_txn Hg Hm. destruct (Hq r Hr Hg Hm) as (h & Hin & Hhg & Hhm).
  exists h. split; [|done]. apply elem_of_remove_txn. split; [done|]. intros Hu.
  apply set_choose_L in Hh as (v & (h' & [Hin' Hne]%elem_of_remove_txn & Hg' & _)%elem_of_holders).
  apply Hne. rewrite <- Hu. by apply (Hx h h').
Qed.

Lemma release_first_waiter t m u q :
  exclusive_ok q -> shared_wait_ok q -> first_waiter t m q -> u <> t ->
  let q' := try_grant_waiting (remove_txn u q) in
  holds_in q' t m \/ first_waiter t m q' /\ holders q' = holders q ∖ {[u]}.
Proof.
  intros Hx Hq Hw Hu q'. subst q'. apply (first_waiter_remove t m u q Hu) in Hw.
  destruct (decide (holders (remove_txn u q) = ∅)) as [He|He]; [left; by apply try_grant_first|right].
  rewrite (try_grant_held (remove_txn u q)) by (done || by apply shared_wait_remove).
  split; [done|apply holders_remove].
Qed.

Lemma release_keeps_holding iter lm t m rid ts :
  t ∉ ts -> lock_reach iter lm -> holds_lock lm t rid m = true -> holds_lock (foldl release_all lm ts) t rid m = true.
Proof.
  revert lm. induction ts as [|u ts IH]; intros lm Ht Hr Hh; [done|]. apply not_elem_of_cons in Ht as [Hu Ht].
  apply IH; [done|by constructor|]. by apply release_all_keeps; [congruence|].
Qed.
End Waiting.

(** C19: a request that waits is granted in the end. In every state the manager
    can reach, when a transaction that holds nothing on a row has the first
    waiting request there, and the transactions that hold the row release, one
    after the other in any order and with any others in between, the
    transaction holds the row in the mode it asked for. *)
Theorem first_waiter_granted iter lm t m rid ts :
  iter_order iter -> lock_reach iter lm -> first_waiter t m (queue lm rid) ->
  holders (queue lm rid) ⊆ list_to_set ts -> t ∉ ts ->
  holds_lock (foldl release_all lm ts) t rid m = true.
Proof.
  intros Hi. revert lm. induction ts as [|u ts IH]; intros lm Hr Hw Hh Ht.
  - destruct (lock_reach_ok iter Hi lm Hr rid) as [_ Hl]. destruct Hw as (_ & pre & post & Eq & _).
    destruct Hl as (h & Hin & Hg); [rewrite Eq; by destruct pre|].
    assert (req_txn h ∈ holders (queue lm rid)) as Hin' by (apply elem_of_holders; eauto).
    by apply Hh, elem_of_list_to_set, elem_of_nil in Hin'.
  - apply not_elem_of_cons in Ht as [Hu Ht]. cbn [foldl].
    assert (Hr' : lock_reach iter (release_all lm u)) by (by constructor).
    destruct (release_first_waiter t m u (queue lm rid)) as [Hd|[Hw' Hh']];
      [apply (lock_reach_ok iter Hi lm Hr rid)|by apply (lock_reach_shared iter)|done|congruence| |];
      rewrite <- queue_release in *.
    + apply (release_keeps_holding iter); [done..|]. by apply holds_lock_in.
    + apply IH; [done..| |done]. rewrite Hh'. set_solver.
Qed.

(** Two readers hold the row, and a writer and another reader wait; the writer
    gets the row when the readers are gone. *)
Lemma first_waiter_granted_witness :
  let lm := (lock_run [LAcquire 1 0 Exclusive; LAcquire 2 0 Shared; LAcquire 3 0 Exclusive; LAcquire 4 0 Shared; LRelease 1]).1 in
  holds_lock lm 3 (mkLockRid 0 0) Exclusive = false /\
  holds_lock (foldl release_all lm [4; 2]) 3 (mkLockRid 0 0) Exclusive = true.
Proof.
  intros lm. split; [by vm_compute|].
  apply (first_waiter_granted elements);
    [apply elements_order|apply lock_run_reach| | |apply (bool_decide_unpack _); by vm_compute].
  - split; [apply (bool_decide_unpack _); by vm_compute|]. exists [mkReq 2 Shared true], [mkReq 4 Shared true].
    split; [by vm_compute|]. by repeat constructor.
  - apply (bool_decide_unpack _); by vm_compute.
Defined.
