(* ===== verification/Node.v ===== *)
(** * B-tree nodes: index/node.rs

    Internal nodes route, leaves hold row ids and are chained.  The byte
    format is one page: writes are made with a cursor from the start of a
    zeroed page, reads with a cursor too; [None] is a panic of a slice or an
    index out of range. *)
From S2P Require Export Page.
Local Open Scope Z_scope.

Definition ORDER : nat := 4.

Record InternalNode := mkInternal { ikeys : list Z; children : list Z }.

Record LeafNode := mkLeaf { lkeys : list Z; rids : list Rid; next_leaf : option Z }.

Inductive BTreeNode :=
  | Internal (n : InternalNode)
  | Leaf (n : LeafNode).

#[export] Instance InternalNode_eq_decision : EqDecision InternalNode.
Proof. solve_decision. Defined.
#[export] Instance LeafNode_eq_decision : EqDecision LeafNode.
Proof. solve_decision. Defined.
#[export] Instance BTreeNode_eq_decision : EqDecision BTreeNode.
Proof. solve_decision. Defined.

Definition InternalNode_new : InternalNode := mkInternal [] [].
Definition LeafNode_new : LeafNode := mkLeaf [] [] None.

Definition internal_is_full (n : InternalNode) : bool := (2 * ORDER <=? length (ikeys n))%nat.
Definition leaf_is_full (n : LeafNode) : bool := (2 * ORDER <=? length (lkeys n))%nat.

(** [slice::partition_point]: the length of the prefix that satisfies [f]; the
    library promises that only for a slice that [f] splits in two. *)
Fixpoint partition_point {A} (f : A -> bool) (l : list A) : nat :=
  match l with
  | x :: l => if f x then S (partition_point f l) else 0%nat
  | [] => 0%nat
  end.

(** [Iterator::position] *)
Fixpoint position {A} (f : A -> bool) (l : list A) : option nat :=
  match l with
  | [] => None
  | x :: l => if f x then Some 0%nat else S <$> position f l
  end.

Definition find_child_index (n : InternalNode) (key : Z) : nat :=
  partition_point (fun k => k <=? key) (ikeys n).

Definition find_key_index (n : LeafNode) (key : Z) : option nat :=
  position (fun k => k =? key) (lkeys n).

(** ** Bytes *)
Definition U32_MAX : Z := 2 ^ 32 - 1.

Definition leaf_entry (k : Z) (r : Rid) : bytes :=
  to_le 8 k ++ to_le 4 (page_id r) ++ to_le 2 (slot_id r).

(** The loop over [0..keys.len()]: [rids[i]] must exist. *)
Fixpoint leaf_entries (ks : list Z) (rs : list Rid) : option bytes :=
  match ks, rs with
  | [], _ => Some []
  | k :: ks, r :: rs => b ← leaf_entries ks rs; Some (leaf_entry k r ++ b)
  | _ :: _, [] => None
  end.

Definition node_content (n : BTreeNode) : option bytes :=
  match n with
  | Internal n =>
      Some (x00 :: to_le 4 (as_u32 (Z.of_nat (length (ikeys n)))) ++
        (children n ≫= to_le 4) ++ (ikeys n ≫= to_le 8))
  | Leaf n =>
      b ← leaf_entries (lkeys n) (rids n);
      Some (x01 :: to_le 4 (as_u32 (Z.of_nat (length (lkeys n)))) ++
        to_le 4 (default U32_MAX (next_leaf n)) ++ b)
  end.

Definition node_to_bytes (n : BTreeNode) : option bytes :=
  c ← node_content n; splice (replicate PAGE_SIZE x00) 0 c.

Fixpoint read_many {A} (d : decoder A) (n : nat) : decoder (list A) := fun l =>
  match n with
  | O => Some ([], l)
  | S n => '(x, l) ← d l; '(xs, l) ← read_many d n l; Some (x :: xs, l)
  end.

Definition read_i64 : decoder Z := fun l => '(z, l) ← read_le 8 l; Some (as_i64 z, l).

Definition read_entry : decoder (Z * Rid) := fun l =>
  '(k, l) ← read_i64 l; '(p, l) ← read_le 4 l; '(s, l) ← read_le 2 l;
  Some ((k, mkRid p s), l).

Definition node_from_bytes (data : bytes) : option BTreeNode :=
  match data with
  | [] => None
  | ty :: l =>
      '(n, l) ← read_le 4 l;
      if decide (ty = x00) then
        '(cs, l) ← read_many (read_le 4) (S (Z.to_nat n)) l;
        '(ks, _) ← read_many read_i64 (Z.to_nat n) l;
        Some (Internal (mkInternal ks cs))
      else
        '(next, l) ← read_le 4 l;
        '(es, _) ← read_many read_entry (Z.to_nat n) l;
        Some (Leaf (mkLeaf es.*1 es.*2 (if decide (next = U32_MAX) then None else Some next)))
  end.

(** ** The format round-trips *)
Definition rid_ok (r : Rid) : Prop := in_u32 (page_id r) /\ in_u16 (slot_id r).

(** Nodes whose fields have their types and their shape, and fit a page. *)
Definition node_ok (n : BTreeNode) : Prop :=
  match n with
  | Internal n => Forall in_i64 (ikeys n) /\ Forall in_u32 (children n) /\
      length (children n) = S (length (ikeys n)) /\ (length (ikeys n) <= 340)%nat
  | Leaf n => Forall in_i64 (lkeys n) /\ Forall rid_ok (rids n) /\
      length (rids n) = length (lkeys n) /\ (length (lkeys n) <= 291)%nat /\
      (forall i, next_leaf n = Some i -> in_u32 i /\ i <> U32_MAX)
  end.

Lemma read_i64_app z rest : in_i64 z -> read_i64 (to_le 8 z ++ rest) = Some (z, rest).
Proof.
  intros H. unfold read_i64, read_le. rewrite read_n_app by apply length_to_le.
  cbn [mbind option_bind]. rewrite of_to_le. change (256 ^ Z.of_nat 8) with (2 ^ 64).
  by rewrite as_i64_small.
Qed.

Lemma read_entry_app k r rest :
  in_i64 k -> rid_ok r -> read_entry (leaf_entry k r ++ rest) = Some ((k, r), rest).
Proof.
  intros Hk [Hp Hs]. unfold read_entry, leaf_entry. rewrite <- !app_assoc, read_i64_app by done.
  cbn [mbind option_bind]. rewrite read_le_u32 by done. cbn [mbind option_bind].
  rewrite read_le_u16 by done. by destruct r.
Qed.

(** Reading back what a loop of writes wrote. *)
Lemma read_many_app {A} (d : decoder A) (e : A -> bytes) (P : A -> Prop) xs rest :
  (forall x rest, P x -> d (e x ++ rest) = Some (x, rest)) -> Forall P xs ->
  read_many d (length xs) ((xs ≫= e) ++ rest) = Some (xs, rest).
Proof.
  intros Hd H. induction H as [|x xs Hx _ IH]; [done|]. cbn [length read_many].
  rewrite bind_cons, <- app_assoc, Hd by done. cbn [mbind option_bind]. by rewrite IH.
Qed.

Lemma leaf_entries_bind ks rs :
  length rs = length ks ->
  leaf_entries ks rs = Some (zip ks rs ≫= fun e => leaf_entry e.1 e.2).
Proof.
  revert rs. induction ks as [|k ks IH]; intros [|r rs] H; simplify_eq/=; [done|].
  by rewrite IH.
Qed.

Lemma length_bind_const {A} (f : A -> bytes) n (l : list A) :
  (forall x, length (f x) = n) -> length (l ≫= f) = (length l * n)%nat.
Proof. intros H. induction l as [|x l IH]; [done|].
  rewrite bind_cons, length_app, H, IH. simpl. lia.
Qed.

Lemma length_leaf_entry e : length (leaf_entry e.1 e.2) = 14%nat.
Proof. unfold leaf_entry. by rewrite !length_app, !length_to_le. Qed.

(** The writes of a node that fits leave it at the start of the page. *)
Lemma node_bytes_content c :
  (length c <= PAGE_SIZE)%nat ->
  splice (replicate PAGE_SIZE x00) 0 c = Some (c ++ drop (length c) (replicate PAGE_SIZE x00)).
Proof.
  intros H. apply splice_Some. rewrite length_replicate. split; [lia|]. by rewrite take_0.
Qed.

(** C35: a node that fits its page is stored and read back unchanged: the
    internal and the leaf format, negative keys and the missing sibling
    pointer included. *)
Theorem node_roundtrip n :
  node_ok n -> exists b, node_to_bytes n = Some b /\ length b = PAGE_SIZE /\
    node_from_bytes b = Some n.
Proof.
  pose proof PAGE_SIZE_of_nat as HP.
  intros Hok. unfold node_to_bytes. destruct n as [[ks cs]|[ks rs next]]; simpl in Hok.
  - destruct Hok as (Hk & Hc & Hl & Hn). unfold node_content. simpl ikeys. simpl children.
    cbn [mbind option_bind]. set (c := x00 :: _).
    assert (Hlen : length c = (5 + length cs * 4 + length ks * 8)%nat).
    { unfold c. cbn [length]. rewrite !length_app, length_to_le,
        !(length_bind_const _ 4), !(length_bind_const _ 8) by (intros; apply length_to_le). lia. }
    rewrite (node_bytes_content c) by lia.
    eexists. split; [done|]. split; [rewrite length_app, length_drop, length_replicate; lia|].
    unfold c, node_from_bytes. cbn [app].
    rewrite <- !app_assoc, as_u32_small, read_le_u32 by width. cbn [mbind option_bind].
    rewrite decide_True, Nat2Z.id, <- Hl by done.
    rewrite (read_many_app _ (to_le 4) in_u32); [|intros; by apply read_le_u32|done].
    cbn [mbind option_bind].
    by rewrite (read_many_app _ (to_le 8) in_i64) by (done || (intros; by apply read_i64_app)).
  - destruct Hok as (Hk & Hr & Hl & Hn & Hnext). unfold node_content. simpl lkeys. simpl rids.
    rewrite leaf_entries_bind by done. cbn [mbind option_bind]. set (c := x01 :: _).
    assert (Hz : length (zip ks rs) = length ks) by (rewrite length_zip; lia).
    assert (Hlen : length c = (9 + length ks * 14)%nat).
    { unfold c. cbn [length]. rewrite !length_app, !length_to_le.
      unfold mbind at 1. rewrite (length_bind_const _ 14) by apply length_leaf_entry. lia. }
    rewrite (node_bytes_content c) by lia.
    eexists. split; [done|]. split; [rewrite length_app, length_drop, length_replicate; lia|].
    unfold c, node_from_bytes. cbn [app].
    rewrite <- !app_assoc, as_u32_small, read_le_u32 by width. cbn [mbind option_bind].
    rewrite decide_False by done. simpl next_leaf.
    rewrite read_le_u32 by (destruct next as [i|]; [by apply Hnext|done]).
    cbn [mbind option_bind]. rewrite Nat2Z.id, <- Hz.
    rewrite (read_many_app _ (fun e => leaf_entry e.1 e.2) (fun e => in_i64 e.1 /\ rid_ok e.2)).
    + cbn [mbind option_bind]. rewrite fst_zip, snd_zip by lia. do 3 f_equal.
      destruct next as [i|]; simpl; [rewrite decide_False by (by apply Hnext)|]; done.
    + intros [k r] rest []. by apply read_entry_app.
    + apply Forall_forall. intros [k r] Hin. simpl in Hr. rewrite Forall_forall in Hk. rewrite Forall_forall in Hr.
      apply elem_of_zip_l in Hin as H1. apply elem_of_zip_r in Hin as H2. simpl. auto.
Qed.

Lemma node_roundtrip_witness :
  exists b, node_to_bytes (Leaf (mkLeaf [-5; 7] [mkRid 1 2; mkRid 3 4] (Some 9))) = Some b /\
    length b = PAGE_SIZE /\
    node_from_bytes b = Some (Leaf (mkLeaf [-5; 7] [mkRid 1 2; mkRid 3 4] (Some 9))).
Proof.
  apply node_roundtrip. simpl. unfold rid_ok, U32_MAX. split_and!; try lia.
  - repeat constructor; width.
  - repeat constructor; simpl; width.
  - intros i [= <-]. width.
Defined.
