(* ===== verification/BTree.v ===== *)
(** * The B-tree index: index/btree.rs

    Nodes live in a map from page ids; [None] is a panic (an index out of
    range, an [unwrap] of [None], the page ids running out) or fuel that ran
    out.  Recursion and loops follow page ids, so they take fuel: one more
    than the number of nodes, which is above every path and every chain of a
    well-formed tree. *)
From stdpp Require Import sorting.
From S2P Require Export Node.
Local Open Scope Z_scope.

Record BTree := mkTree { nodes : gmap Z BTreeNode; next_page_id : Z; root_id : Z }.

Record SplitResult := mkSplit { promoted_key : Z; new_page_id : Z }.

Definition tree_fuel (t : BTree) : nat := S (size (nodes t)).

Definition set_node (t : BTree) (id : Z) (n : BTreeNode) : BTree :=
  mkTree (<[id := n]> (nodes t)) (next_page_id t) (root_id t).

(** [None]: the [u32] counter overflows. *)
Definition alloc_page (t : BTree) (n : BTreeNode) : option (BTree * Z) :=
  let id := next_page_id t in
  if decide (in_u32 (id + 1))
  then Some (mkTree (<[id := n]> (nodes t)) (id + 1) (root_id t), id)
  else None.

Definition BTree_new : BTree :=
  match alloc_page (mkTree ∅ 0 0) (Leaf LeafNode_new) with
  | Some (t, id) => mkTree (nodes t) (next_page_id t) id
  | None => mkTree ∅ 0 0
  end.

(** Outer [None]: fuel or an index out of range. *)
Fixpoint find_leaf_from (fuel : nat) (t : BTree) (id key : Z) : option Z :=
  match fuel with
  | O => None
  | S fuel =>
      match nodes t !! id with
      | Some (Internal n) =>
          id ← children n !! find_child_index n key; find_leaf_from fuel t id key
      | _ => Some id
      end
  end.

Definition find_leaf (t : BTree) (id key : Z) : option Z := find_leaf_from (tree_fuel t) t id key.

Definition search (t : BTree) (key : Z) : option (option Rid) :=
  leaf_id ← find_leaf t (root_id t) key;
  match nodes t !! leaf_id with
  | Some (Leaf leaf) =>
      match find_key_index leaf key with
      | Some idx => r ← rids leaf !! idx; Some (Some r)
      | None => Some None
      end
  | _ => Some None
  end.

(** [Vec::insert] and [Vec::remove] panic past the end. *)
Definition vec_insert {A} (l : list A) (i : nat) (x : A) : option (list A) :=
  if decide (i <= length l)%nat then Some (take i l ++ x :: drop i l) else None.

Definition vec_remove {A} (l : list A) (i : nat) : option (list A) :=
  if decide (i < length l)%nat then Some (take i l ++ drop (S i) l) else None.

(** [Vec::split_off]: the part kept and the part returned. *)
Definition split_off {A} (l : list A) (i : nat) : option (list A * list A) :=
  if decide (i <= length l)%nat then Some (take i l, drop i l) else None.

Definition split_leaf (t : BTree) (left_id : Z) (left : LeafNode) : option (BTree * SplitResult) :=
  let mid := (length (lkeys left) / 2)%nat in
  '(lk, rk) ← split_off (lkeys left) mid;
  '(lr, rr) ← split_off (rids left) mid;
  '(t, right_id) ← alloc_page t (Leaf (mkLeaf rk rr (next_leaf left)));
  promoted ← match nodes t !! right_id with Some (Leaf l) => head (lkeys l) | _ => None end;
  Some (set_node t left_id (Leaf (mkLeaf lk lr (Some right_id))), mkSplit promoted right_id).

Definition split_internal (t : BTree) (left_id : Z) (left : InternalNode)
    : option (BTree * SplitResult) :=
  let mid := (length (ikeys left) / 2)%nat in
  promoted ← ikeys left !! mid;
  '(lk, rk) ← split_off (ikeys left) (mid + 1);
  '(lc, rc) ← split_off (children left) (mid + 1);
  '(t, right_id) ← alloc_page t (Internal (mkInternal rk rc));
  Some (set_node t left_id (Internal (mkInternal (removelast lk) lc)),
        mkSplit promoted right_id).

(** Inner [None]: the node did not split, or the page id is unknown. *)
Fixpoint insert_recursive (fuel : nat) (t : BTree) (id key : Z) (rid : Rid)
    : option (BTree * option SplitResult) :=
  match fuel with
  | O => None
  | S fuel =>
      match nodes t !! id with
      | None => Some (t, None)
      | Some (Leaf leaf) =>
          let pos := partition_point (fun k => k <? key) (lkeys leaf) in
          ks ← vec_insert (lkeys leaf) pos key;
          rs ← vec_insert (rids leaf) pos rid;
          let leaf := mkLeaf ks rs (next_leaf leaf) in
          if leaf_is_full leaf then
            '(t, s) ← split_leaf t id leaf; Some (t, Some s)
          else Some (set_node t id (Leaf leaf), None)
      | Some (Internal node) =>
          let idx := find_child_index node key in
          child ← children node !! idx;
          '(t, r) ← insert_recursive fuel t child key rid;
          match r with
          | Some split =>
              ks ← vec_insert (ikeys node) idx (promoted_key split);
              cs ← vec_insert (children node) (idx + 1) (new_page_id split);
              let node := mkInternal ks cs in
              if internal_is_full node then
                '(t, s) ← split_internal t id node; Some (t, Some s)
              else Some (set_node t id (Internal node), None)
          | None => Some (set_node t id (Internal node), None)
          end
      end
  end.

Definition insert_key (t : BTree) (key : Z) (rid : Rid) : option BTree :=
  '(t, r) ← insert_recursive (tree_fuel t) t (root_id t) key rid;
  match r with
  | None => Some t
  | Some split =>
      '(t, new_root_id) ← alloc_page t
        (Internal (mkInternal [promoted_key split] [root_id t; new_page_id split]));
      Some (mkTree (nodes t) (next_page_id t) new_root_id)
  end.

Definition delete_key (t : BTree) (key : Z) : option (BTree * bool) :=
  leaf_id ← find_leaf t (root_id t) key;
  match nodes t !! leaf_id with
  | Some (Leaf leaf) =>
      match find_key_index leaf key with
      | Some idx =>
          ks ← vec_remove (lkeys leaf) idx;
          rs ← vec_remove (rids leaf) idx;
          Some (set_node t leaf_id (Leaf (mkLeaf ks rs (next_leaf leaf))), true)
      | None => Some (t, false)
      end
  | _ => Some (t, false)
  end.

(** The pairs of one leaf from index [i]: the rows to push, and whether a key
    above [stop] ended the scan. *)
Fixpoint scan_leaf (start stop : Z) (ks : list Z) (rs : list Rid) (i : nat)
    : option (list Rid * bool) :=
  match ks with
  | [] => Some ([], false)
  | k :: ks =>
      if stop <? k then Some ([], true)
      else if start <=? k then
        r ← rs !! i; '(out, done) ← scan_leaf start stop ks rs (S i); Some (r :: out, done)
      else scan_leaf start stop ks rs (S i)
  end.

Fixpoint scan_from (fuel : nat) (t : BTree) (id start stop : Z) : option (list Rid) :=
  match fuel with
  | O => None
  | S fuel =>
      match nodes t !! id with
      | Some (Leaf leaf) =>
          '(out, done) ← scan_leaf start stop (lkeys leaf) (rids leaf) 0;
          if (done : bool) then Some out
          else
            match next_leaf leaf with
            | Some next => rest ← scan_from fuel t next start stop; Some (out ++ rest)
            | None => Some out
            end
      | _ => Some []
      end
  end.

Definition range_scan (t : BTree) (start stop : Z) : option (list Rid) :=
  leaf_id ← find_leaf t (root_id t) start; scan_from (tree_fuel t) t leaf_id start stop.

(** ** The contract: a list of entries sorted by key *)
Abbreviation entries := (list (Z * Rid)).

Fixpoint es_insert (k : Z) (r : Rid) (es : entries) : entries :=
  match es with
  | [] => [(k, r)]
  | e :: es => if e.1 <? k then e :: es_insert k r es else (k, r) :: e :: es
  end.

Fixpoint es_lookup (k : Z) (es : entries) : option Rid :=
  match es with
  | [] => None
  | e :: es => if e.1 =? k then Some e.2 else es_lookup k es
  end.

Fixpoint es_delete (k : Z) (es : entries) : entries :=
  match es with
  | [] => []
  | e :: es => if e.1 =? k then es else e :: es_delete k es
  end.

Fixpoint es_range (start stop : Z) (es : entries) : list Rid :=
  match es with
  | [] => []
  | e :: es =>
      if (start <=? e.1) && (e.1 <=? stop) then e.2 :: es_range start stop es
      else es_range start stop es
  end.

Definition keys_lt (es : entries) (k : Z) : Prop := forall e, e ∈ es -> e.1 < k.
Definition keys_gt (es : entries) (k : Z) : Prop := forall e, e ∈ es -> k < e.1.
Definition es_sorted (es : entries) : Prop := StronglySorted Z.lt es.*1.

Section Entries.
Implicit Types (es E : entries).

Lemma keys_lt_cons e es k : keys_lt (e :: es) k <-> e.1 < k /\ keys_lt es k.
Proof. unfold keys_lt. setoid_rewrite elem_of_cons. naive_solver. Qed.
Lemma keys_gt_cons e es k : keys_gt (e :: es) k <-> k < e.1 /\ keys_gt es k.
Proof. unfold keys_gt. setoid_rewrite elem_of_cons. naive_solver. Qed.

Lemma es_insert_app_l k r E1 es : keys_lt E1 k -> es_insert k r (E1 ++ es) = E1 ++ es_insert k r es.
Proof.
  induction E1 as [|e E1 IH]; simpl; [done|]. intros [H1 H2]%keys_lt_cons.
  rewrite (proj2 (Z.ltb_lt _ _) H1). by rewrite IH.
Qed.

Lemma es_insert_app_r k r es E2 : keys_gt E2 k -> es_insert k r (es ++ E2) = es_insert k r es ++ E2.
Proof.
  intros H. induction es as [|e es IH]; simpl.
  - destruct E2 as [|e E2]; [done|]. apply keys_gt_cons in H as [H _]. simpl.
    by rewrite (proj2 (Z.ltb_ge _ _)) by lia.
  - case_match; [by rewrite IH|done].
Qed.

Lemma es_lookup_app k E1 es E2 :
  keys_lt E1 k -> keys_gt E2 k -> es_lookup k (E1 ++ es ++ E2) = es_lookup k es.
Proof.
  intros H1 H2. induction E1 as [|e E1 IH]; simpl.
  - clear H1. induction es as [|e es IH]; simpl; [|by rewrite IH].
    induction E2 as [|e E2 IH]; simpl; [done|]. apply keys_gt_cons in H2 as [He H2].
    rewrite (proj2 (Z.eqb_neq _ _)) by lia. auto.
  - apply keys_lt_cons in H1 as [He H1]. rewrite (proj2 (Z.eqb_neq _ _)) by lia. auto.
Qed.

Lemma es_delete_app k E1 es E2 :
  keys_lt E1 k -> es_lookup k es <> None ->
  es_delete k (E1 ++ es ++ E2) = E1 ++ es_delete k es ++ E2.
Proof.
  intros H1 H2. induction E1 as [|e E1 IH]; simpl.
  - clear H1. induction es as [|e es IH]; simpl in *; [done|].
    destruct (e.1 =? k); [done|]. simpl. by rewrite IH.
  - apply keys_lt_cons in H1 as [He H1]. rewrite (proj2 (Z.eqb_neq _ _)) by lia. by rewrite IH.
Qed.

Lemma es_delete_absent k es : es_lookup k es = None -> es_delete k es = es.
Proof.
  induction es as [|e es IH]; simpl; [done|]. destruct (e.1 =? k); [done|]. intros. by rewrite IH.
Qed.

Lemma es_range_app start stop es1 es2 :
  es_range start stop (es1 ++ es2) = es_range start stop es1 ++ es_range start stop es2.
Proof. induction es1 as [|e es1 IH]; simpl; [done|]. rewrite IH. by case_match. Qed.

Lemma es_range_below start stop es : keys_lt es start -> es_range start stop es = [].
Proof.
  induction es as [|e es IH]; simpl; [done|]. intros [H1 H2]%keys_lt_cons.
  rewrite (proj2 (Z.leb_gt _ _) H1). simpl. auto.
Qed.

Lemma es_range_above start stop es : keys_gt es stop -> es_range start stop es = [].
Proof.
  induction es as [|e es IH]; simpl; [done|]. intros [H1 H2]%keys_gt_cons.
  rewrite (proj2 (Z.leb_gt e.1 stop)) by done. rewrite andb_false_r. auto.
Qed.

Lemma elem_of_es_insert k r es e : e ∈ es_insert k r es <-> e = (k, r) \/ e ∈ es.
Proof.
  induction es as [|e' es IH]; simpl.
  - rewrite list_elem_of_singleton, elem_of_nil. tauto.
  - case_match; rewrite !elem_of_cons; [rewrite IH|]; tauto.
Qed.

Lemma es_sorted_cons e es : es_sorted (e :: es) <-> keys_gt es e.1 /\ es_sorted es.
Proof.
  unfold es_sorted, keys_gt. simpl. split.
  - intros H. inversion H as [|? ? Hs Hf]; subst. split; [|done].
    intros e' He'. rewrite Forall_forall in Hf. apply Hf, list_elem_of_fmap. by exists e'.
  - intros [H1 H2]. constructor; [done|]. apply Forall_forall.
    intros x (e' & -> & He')%list_elem_of_fmap. auto.
Qed.

Lemma es_sorted_app E1 E2 :
  es_sorted (E1 ++ E2) <-> es_sorted E1 /\ es_sorted E2 /\
    (forall e1 e2, e1 ∈ E1 -> e2 ∈ E2 -> e1.1 < e2.1).
Proof.
  induction E1 as [|e E1 IH]; simpl.
  - split; [intros; split_and!; [constructor|done|]|tauto]. intros e1 e2 H1. by apply elem_of_nil in H1.
  - rewrite !es_sorted_cons, IH. unfold keys_gt. setoid_rewrite elem_of_app.
    setoid_rewrite elem_of_cons. naive_solver.
Qed.

Lemma es_lookup_None k es : es_lookup k es = None <-> forall e, e ∈ es -> e.1 <> k.
Proof.
  induction es as [|e es IH]; simpl.
  - split; [|done]. intros _ e He. by apply elem_of_nil in He.
  - setoid_rewrite elem_of_cons. destruct (Z.eqb_spec e.1 k); [naive_solver|].
    rewrite IH. naive_solver.
Qed.

Lemma es_sorted_insert k r es :
  es_sorted es -> es_lookup k es = None -> es_sorted (es_insert k r es).
Proof.
  induction es as [|e es IH]; simpl; intros Hs Hk.
  - apply es_sorted_cons. split; [intros ? H; by apply elem_of_nil in H|done].
  - destruct (Z.eqb_spec e.1 k); [done|]. apply es_sorted_cons in Hs as [Hg Hs].
    destruct (Z.ltb_spec e.1 k); apply es_sorted_cons.
    + split; [|auto]. intros e' [->|He']%elem_of_es_insert; [done|auto].
    + split; [|by apply es_sorted_cons]. intros e' [->|He']%elem_of_cons; simpl; [lia|].
      specialize (Hg e' He'). simpl in *. lia.
Qed.

Lemma es_delete_sub k es e : e ∈ es_delete k es -> e ∈ es.
Proof.
  induction es as [|e' es IH]; simpl; [done|]. rewrite elem_of_cons.
  case_match; [tauto|]. rewrite elem_of_cons. tauto.
Qed.

Lemma es_sorted_delete k es : es_sorted es -> es_sorted (es_delete k es).
Proof.
  induction es as [|e es IH]; simpl; [done|]. intros [Hg Hs]%es_sorted_cons.
  case_match; [done|]. apply es_sorted_cons. split; [|auto].
  intros e' He'. apply Hg. by eapply es_delete_sub.
Qed.

(** ** What the vector operations do on the two columns *)
Lemma vec_insert_columns k r es :
  let pos := partition_point (fun x => x <? k) es.*1 in
  vec_insert es.*1 pos k = Some (es_insert k r es).*1 /\
  vec_insert es.*2 pos r = Some (es_insert k r es).*2.
Proof.
  simpl. unfold vec_insert.
  assert (Hpos : (partition_point (fun x => (x <? k)%Z) es.*1 <= length es)%nat).
  { clear r. induction es as [|e es IH]; csimpl; [lia|]. case_match; lia. }
  rewrite !length_fmap, !decide_True by done. clear Hpos.
  induction es as [|[k' r'] es IH]; csimpl; [done|].
  destruct (k' <? k); csimpl; [|done]. destruct IH as [[= <-] [= <-]]. done.
Qed.

Lemma length_es_insert k r es : length (es_insert k r es) = S (length es).
Proof. induction es as [|e es IH]; simpl; [done|]. case_match; simpl; lia. Qed.

Lemma vec_remove_S {A} (x : A) l i : vec_remove (x :: l) (S i) = cons x <$> vec_remove l i.
Proof. unfold vec_remove. simpl. repeat case_decide; (done || lia). Qed.

Lemma vec_remove_0 {A} (x : A) l : vec_remove (x :: l) 0 = Some l.
Proof. unfold vec_remove. case_decide; [by rewrite skipn_cons, drop_0|simpl in *; lia]. Qed.

Lemma position_columns k es :
  match position (fun x => x =? k) es.*1 with
  | Some i => exists r, es_lookup k es = Some r /\ es.*2 !! i = Some r /\
      vec_remove es.*1 i = Some (es_delete k es).*1 /\
      vec_remove es.*2 i = Some (es_delete k es).*2
  | None => es_lookup k es = None
  end.
Proof.
  induction es as [|[k' r'] es IH]; csimpl; [done|].
  destruct (k' =? k); csimpl.
  - exists r'. by rewrite !vec_remove_0.
  - destruct (position _ _) as [i|]; csimpl; [|done].
    destruct IH as (r & ? & ? & H1 & H2). exists r. split_and!; try done.
    + by rewrite vec_remove_S, H1.
    + by rewrite vec_remove_S, H2.
Qed.

(** One leaf of the scan: the rows in range, and whether the scan is over. *)
Lemma scan_leaf_columns start stop pre es :
  es_sorted es ->
  exists b, scan_leaf start stop es.*1 (pre ++ es).*2 (length pre) =
      Some (es_range start stop es, b) /\
    (b = true -> exists e, e ∈ es /\ stop < e.1).
Proof.
  revert pre. induction es as [|[k r] es IH]; intros pre Hs; csimpl.
  { exists false. done. }
  apply es_sorted_cons in Hs as [Hg Hs]. simpl in Hg.
  destruct (IH (pre ++ [(k, r)]) Hs) as (b & Hb & Hd).
  rewrite <- app_assoc, length_app, Nat.add_1_r in Hb. csimpl in Hb.
  assert (Hd' : b = true -> exists e, e ∈ (k, r) :: es /\ stop < e.1).
  { intros Hbt. destruct (Hd Hbt) as (e & ? & ?). exists e. split; [by right|done]. }
  destruct (Z.ltb_spec stop k) as [Hlt|Hge].
  - exists true. rewrite (proj2 (Z.leb_gt k stop)) by done. rewrite andb_false_r.
    rewrite es_range_above; [|intros e He; specialize (Hg e He); lia].
    split; [done|]. intros _. exists (k, r). split; [left|done].
  - rewrite (proj2 (Z.leb_le k stop)) by done. rewrite andb_true_r.
    destruct (start <=? k).
    + exists b. split; [|done]. rewrite fmap_app in *. csimpl in *.
      rewrite lookup_app_r by (by rewrite length_fmap). rewrite length_fmap, Nat.sub_diag. csimpl.
      by rewrite Hb.
    + exists b. by rewrite Hb.
Qed.
End Entries.

(** ** Well-formed trees

    A segment is a subtree: its root, the bounds of its keys, its entries in
    order, its leaves from left to right and all its page ids. *)
Record seg := mkSeg {
  s_id : Z; s_lo : option Z; s_hi : option Z;
  s_es : entries; s_leaves : list Z; s_ids : list Z;
}.

Definition above_lo (lo : option Z) (k : Z) : Prop :=
  match lo with Some l => l <= k | None => True end.
Definition below_hi (k : Z) (hi : option Z) : Prop :=
  match hi with Some h => k < h | None => True end.
Definition bound_lt (lo hi : option Z) : Prop :=
  match lo, hi with Some l, Some h => l < h | _, _ => True end.
Definition in_range (s : seg) (k : Z) : Prop := above_lo (s_lo s) k /\ below_hi k (s_hi s).

(** Children between their separators: [ks] cuts [lo, hi) into the ranges of
    [ss]. *)
Fixpoint fence (lo : option Z) (ks : list Z) (hi : option Z) (ss : list seg) {struct ss} : Prop :=
  match ss with
  | [] => False
  | s :: ss =>
      s_lo s = lo /\ bound_lt lo (s_hi s) /\
      match ks, ss with
      | [], [] => s_hi s = hi
      | k :: ks, _ :: _ => s_hi s = Some k /\ fence (Some k) ks hi ss
      | _, _ => False
      end
  end.

Abbreviation heap := (gmap Z BTreeNode).

(** An internal node has a key and room for one more. *)
Definition width_ok (ks : list Z) : bool :=
  bool_decide (0 < length ks < 2 * ORDER)%nat.

Lemma width_spec ks : width_ok ks = true <-> (0 < length ks < 2 * ORDER)%nat.
Proof. apply bool_decide_eq_true. Qed.

(** A subtree of height [h] stored in the nodes. *)
Fixpoint rep (h : nat) (N : heap) (s : seg) : Prop :=
  match h with
  | O =>
      exists next, N !! s_id s = Some (Leaf (mkLeaf (s_es s).*1 (s_es s).*2 next)) /\
        es_sorted (s_es s) /\ (forall e, e ∈ s_es s -> in_range s e.1) /\
        (length (s_es s) < 2 * ORDER)%nat /\ s_leaves s = [s_id s] /\ s_ids s = [s_id s]
  | S h =>
      exists ks ss, N !! s_id s = Some (Internal (mkInternal ks (s_id <$> ss))) /\
        fence (s_lo s) ks (s_hi s) ss /\ Forall (rep h N) ss /\ width_ok ks = true /\
        s_es s = concat (s_es <$> ss) /\ s_leaves s = concat (s_leaves <$> ss) /\
        s_ids s = s_id s :: concat (s_ids <$> ss)
  end.

(** The sibling pointers run through the leaves and end at [next]. *)
Definition first_or (ls : list Z) (next : option Z) : option Z :=
  match ls with [] => next | l :: _ => Some l end.

Fixpoint chain (N : heap) (ls : list Z) (next : option Z) : Prop :=
  match ls with
  | [] => True
  | l :: ls =>
      (exists leaf, N !! l = Some (Leaf leaf) /\ next_leaf leaf = first_or ls next) /\
      chain N ls next
  end.

Section Fence.
Implicit Types (ks : list Z) (ss : list seg) (lo hi : option Z).

Lemma fence_length lo ks hi ss : fence lo ks hi ss -> length ss = S (length ks).
Proof.
  revert lo ks. induction ss as [|s ss IH]; intros lo ks; simpl; [done|].
  destruct ks as [|k ks], ss as [|s' ss]; try tauto.
  intros (_ & _ & _ & H). simpl. f_equal. by apply (IH _ _ H).
Qed.

Lemma fence_cons2 lo k ks hi s s' ss :
  fence lo (k :: ks) hi (s :: s' :: ss) <->
    s_lo s = lo /\ bound_lt lo (s_hi s) /\ s_hi s = Some k /\ fence (Some k) ks hi (s' :: ss).
Proof. done. Qed.

Lemma fence_app lo ks1 k ks2 hi ss1 ss2 :
  length ss1 = S (length ks1) ->
  fence lo (ks1 ++ k :: ks2) hi (ss1 ++ ss2) <->
    fence lo ks1 (Some k) ss1 /\ fence (Some k) ks2 hi ss2.
Proof.
  revert lo ks1. induction ss1 as [|s ss1 IH]; intros lo ks1 Hl; [simpl in Hl; lia|].
  destruct ks1 as [|k1 ks1], ss1 as [|s' ss1]; simpl in Hl; try lia; cbn [app].
  - destruct ss2; simpl; [tauto|]. tauto.
  - specialize (IH (Some k1) ks1 ltac:(simpl; lia)). cbn [app] in IH.
    rewrite !fence_cons2, IH. tauto.
Qed.

Lemma bound_lt_trans lo k hi : bound_lt lo (Some k) -> bound_lt (Some k) hi -> bound_lt lo hi.
Proof. destruct lo, hi; simpl; try done; lia. Qed.

Lemma fence_lt lo ks hi ss : fence lo ks hi ss -> bound_lt lo hi.
Proof.
  revert lo ks. induction ss as [|s ss IH]; intros lo ks; simpl; [done|].
  destruct ks as [|k ks], ss as [|s' ss]; try tauto; intros (_ & Hlt & H).
  - by rewrite <- H.
  - destruct H as [Hk H]. rewrite Hk in Hlt. eapply bound_lt_trans; [done|]. by apply (IH _ _ H).
Qed.

Lemma range_weaken lo k x : bound_lt lo (Some k) -> k <= x -> above_lo lo x.
Proof. destruct lo; simpl; [lia|done]. Qed.

Lemma range_weaken_hi k hi x : bound_lt (Some k) hi -> x < k -> below_hi x hi.
Proof. destruct hi; simpl; [lia|done]. Qed.

Definition seg_keys_ok (s : seg) : Prop :=
  es_sorted (s_es s) /\ forall e, e ∈ s_es s -> in_range s e.1.

Lemma fence_keys lo ks hi ss :
  fence lo ks hi ss -> Forall seg_keys_ok ss ->
  es_sorted (concat (s_es <$> ss)) /\
  forall e, e ∈ concat (s_es <$> ss) -> above_lo lo e.1 /\ below_hi e.1 hi.
Proof.
  revert lo ks. induction ss as [|s ss IH]; intros lo ks; [done|].
  cbn [fence]. intros (Hlo & Hlt & H) [[Hs Hr] Hss]%Forall_cons.
  destruct ks as [|k ks], ss as [|s' ss]; try tauto; rewrite fmap_cons; cbn [concat].
  - rewrite app_nil_r. split; [done|]. intros e He. specialize (Hr e He). unfold in_range in Hr.
    by rewrite Hlo, H in Hr.
  - destruct H as [Hk H]. destruct (IH _ _ H Hss) as [Hs2 Hr2].
    rewrite Hk in Hlt. pose proof (fence_lt _ _ _ _ H) as Hlt2. unfold in_range in Hr.
    rewrite Hlo, Hk in Hr. split.
    + apply es_sorted_app. split_and!; [done..|]. intros e1 e2 H1%Hr H2%Hr2. simpl in *. lia.
    + intros e [He|He]%elem_of_app.
      * destruct (Hr e He). split; [done|]. by eapply range_weaken_hi.
      * destruct (Hr2 e He). split; [|done]. by eapply range_weaken.
Qed.

(** Routing: the child that [partition_point] picks, what stands left and
    right of it, and that it can be replaced by what covers its range. *)
Lemma fence_route lo ks hi ss k :
  fence lo ks hi ss -> Forall seg_keys_ok ss -> above_lo lo k -> below_hi k hi ->
  exists ks1 ks2 ss1 s ss2, ks = ks1 ++ ks2 /\ ss = ss1 ++ s :: ss2 /\
    partition_point (fun x => x <=? k) ks = length ks1 /\ length ss1 = length ks1 /\
    in_range s k /\
    keys_lt (concat (s_es <$> ss1)) k /\ keys_gt (concat (s_es <$> ss2)) k /\
    (forall rk out, fence (s_lo s) rk (s_hi s) out ->
       fence lo (ks1 ++ rk ++ ks2) hi (ss1 ++ out ++ ss2)).
Proof.
  revert lo ks. induction ss as [|s ss IH]; intros lo ks; [done|].
  cbn [fence]. intros (Hlo & Hlt & H) [Hs Hss]%Forall_cons Hal Hbe.
  assert (Hnil : keys_lt [] k). { intros e He. by apply elem_of_nil in He. }
  destruct ks as [|k0 ks], ss as [|s' ss]; try tauto.
  - exists [], [], [], s, []. split_and!; try done.
    + split; by rewrite ?Hlo, ?H.
    + intros e He. by apply elem_of_nil in He.
    + intros rk out. rewrite Hlo, H, !app_nil_r. done.
  - destruct H as [Hk H]. cbn [partition_point]. destruct (Z.leb_spec k0 k) as [Hle|Hgt].
    + destruct (IH (Some k0) ks H Hss Hle Hbe)
        as (ks1 & ks2 & ss1 & s1 & ss2 & -> & Heq & Hp & Hl & Hin & H1 & H2 & Hrep).
      exists (k0 :: ks1), ks2, (s :: ss1), s1, ss2. rewrite Heq.
      split_and!; try done; [simpl; by rewrite Hp|simpl; lia| |].
      * csimpl. intros e [He|He]%elem_of_app; [|by apply H1].
        destruct Hs as [_ Hr]. destruct (Hr e He) as [_ Hb]. rewrite Hk in Hb. simpl in Hb. lia.
      * intros rk out Ho. specialize (Hrep rk out Ho). simpl app.
        change (s :: ss1 ++ out ++ ss2) with ([s] ++ (ss1 ++ out ++ ss2)).
        change (k0 :: ks1 ++ rk ++ ks2) with ([] ++ k0 :: (ks1 ++ rk ++ ks2)).
        apply fence_app; [done|]. split; [|done]. simpl. rewrite Hk. by rewrite Hk in Hlt.
    + exists [], (k0 :: ks), [], s, (s' :: ss). split_and!; try done.
      * split; by rewrite ?Hlo, ?Hk.
      * intros e He. destruct (fence_keys _ _ _ _ H Hss) as [_ Hr].
        destruct (Hr e He) as [Ha _]. simpl in Ha. lia.
      * intros rk out Ho. rewrite Hlo, Hk in Ho. simpl app.
        apply fence_app; [by apply (fence_length _ _ _ _ Ho)|done].
Qed.
End Fence.

Definition node_entries (N : heap) (l : Z) : entries :=
  match N !! l with Some (Leaf leaf) => zip (lkeys leaf) (rids leaf) | _ => [] end.

Section Rep.
Implicit Types (N : heap) (s : seg) (ss : list seg).

Lemma zip_columns (es : entries) : zip es.*1 es.*2 = es.
Proof. induction es as [|[] es IH]; csimpl; [done|by rewrite IH]. Qed.

Lemma rep_keys h N s : rep h N s -> seg_keys_ok s.
Proof.
  revert s. induction h as [|h IH]; intros s; simpl.
  - intros (next & _ & Hs & Hr & _). done.
  - intros (ks & ss & _ & Hf & Hss & _ & He & _ & _).
    destruct (fence_keys _ _ _ _ Hf) as [Hs Hr]; [by eapply Forall_impl|].
    unfold seg_keys_ok, in_range. by rewrite He.
Qed.

Lemma elem_of_concat_fmap {A B} (f : A -> list B) (l : list A) x :
  x ∈ concat (f <$> l) <-> exists y, y ∈ l /\ x ∈ f y.
Proof.
  induction l as [|y l IH]; csimpl.
  - setoid_rewrite elem_of_nil. naive_solver.
  - setoid_rewrite elem_of_app. rewrite IH. setoid_rewrite elem_of_cons. naive_solver.
Qed.

Lemma rep_frame h N N' s :
  (forall i, i ∈ s_ids s -> N' !! i = N !! i) -> rep h N s -> rep h N' s.
Proof.
  revert s. induction h as [|h IH]; intros s Hi; simpl.
  - intros (next & Hn & ? & ? & ? & ? & Hids). exists next. split_and!; try done.
    rewrite Hi; [done|]. rewrite Hids. left.
  - intros (ks & ss & Hn & Hf & Hss & Hk & He & Hl & Hids). exists ks, ss.
    split_and!; try done.
    + rewrite Hi; [done|]. rewrite Hids. left.
    + apply Forall_forall. intros s' Hs'. rewrite Forall_forall in Hss.
      apply IH; [|by apply Hss]. intros i Hin. apply Hi. rewrite Hids. right.
      apply elem_of_concat_fmap. eauto.
Qed.

Lemma rep_root_id h N s : rep h N s -> s_id s ∈ s_ids s.
Proof.
  destruct h; simpl.
  - intros (? & _ & _ & _ & _ & _ & ->). left.
  - intros (? & ? & _ & _ & _ & _ & _ & _ & ->). left.
Qed.

Lemma rep_ids_dom h N s i : rep h N s -> i ∈ s_ids s -> i ∈ dom N.
Proof.
  revert s. induction h as [|h IH]; intros s; simpl.
  - intros (next & Hn & _ & _ & _ & _ & ->) ->%list_elem_of_singleton. by eapply elem_of_dom_2.
  - intros (ks & ss & Hn & _ & Hss & _ & _ & _ & ->) [->|Hi]%elem_of_cons.
    + by eapply elem_of_dom_2.
    + apply elem_of_concat_fmap in Hi as (s' & Hs' & Hi). rewrite Forall_forall in Hss. eauto.
Qed.

(** The node at a leaf holds the leaf's share of the entries. *)
Lemma rep_leaves h N s :
  rep h N s -> s_es s = concat (node_entries N <$> s_leaves s) /\
    (forall l, l ∈ s_leaves s -> l ∈ s_ids s) /\ s_leaves s <> [] /\
    (length (s_leaves s) <= length (s_ids s))%nat /\ (h < length (s_ids s))%nat.
Proof.
  revert s. induction h as [|h IH]; intros s; simpl.
  - intros (next & Hn & _ & _ & _ & -> & ->). csimpl. unfold node_entries. rewrite Hn.
    simpl. rewrite zip_columns, app_nil_r. split_and!; (done || lia).
  - intros (ks & ss & Hn & Hf & Hss & _ & -> & -> & ->).
    assert (Hall : forall s', s' ∈ ss -> rep h N s') by (by apply Forall_forall).
    destruct ss as [|s1 ss]; [done|]. clear Hf Hn Hss. split_and!.
    + revert Hall. generalize (s1 :: ss). intros l Hall. induction l as [|s' l IHl]; [done|].
      csimpl. rewrite fmap_app, concat_app. f_equal.
      * apply IH, Hall. left.
      * apply IHl. intros s2 Hs2. apply Hall. by right.
    + intros l (s' & Hs' & Hl)%elem_of_concat_fmap. right. apply elem_of_concat_fmap.
      exists s'. split; [done|]. by apply (IH s' (Hall s' Hs')).
    + csimpl. intros [Hnil _]%app_eq_nil. revert Hnil. apply (IH s1). apply Hall. left.
    + revert Hall. generalize (s1 :: ss). intros l Hall. induction l as [|s' l IHl]; [simpl; lia|].
      csimpl. rewrite !length_app. destruct (IH s') as (_ & _ & _ & ? & _); [apply Hall; left|].
      csimpl in IHl. assert (Hl : forall s2, s2 ∈ l -> rep h N s2) by (intros; apply Hall; by right).
      specialize (IHl Hl). lia.
    + csimpl. rewrite length_app. destruct (IH s1) as (_ & _ & _ & _ & ?); [apply Hall; left|]. lia.
Qed.

Lemma rep_leaf_columns h N s l leaf :
  rep h N s -> l ∈ s_leaves s -> N !! l = Some (Leaf leaf) -> length (lkeys leaf) = length (rids leaf).
Proof.
  revert s. induction h as [|h IH]; intros s; simpl.
  - intros (next & Hn & _ & _ & _ & -> & _) ->%list_elem_of_singleton. rewrite Hn.
    intros [= <-]. simpl. by rewrite !length_fmap.
  - intros (ks & ss & _ & _ & Hss & _ & _ & -> & _) (s' & Hs' & Hl)%elem_of_concat_fmap.
    rewrite Forall_forall in Hss. by apply (IH s'); [apply Hss|].
Qed.

(** ** Sibling chains *)
Lemma first_or_app l1 l2 next : first_or (l1 ++ l2) next = first_or l1 (first_or l2 next).
Proof. by destruct l1. Qed.

Lemma chain_app N l1 l2 next :
  chain N (l1 ++ l2) next <-> chain N l1 (first_or l2 next) /\ chain N l2 next.
Proof.
  induction l1 as [|l l1 IH]; simpl; [tauto|]. rewrite IH, first_or_app. tauto.
Qed.

Lemma chain_frame N N' ls next :
  (forall l, l ∈ ls -> N' !! l = N !! l) -> chain N ls next -> chain N' ls next.
Proof.
  induction ls as [|l ls IH]; simpl; [done|]. intros Hf [(leaf & Hl & Hn) Hc]. split.
  - exists leaf. split; [|done]. rewrite Hf; [done|left].
  - apply IH; [|done]. intros l' Hl'. apply Hf. by right.
Qed.

End Rep.

(** ** Descending to a leaf *)
Section Descend.
Implicit Types (N : heap) (s : seg) (ss : list seg).

Lemma reps_entries h N ss :
  Forall (rep h N) ss ->
  concat (s_es <$> ss) = concat (node_entries N <$> concat (s_leaves <$> ss)).
Proof.
  induction 1 as [|s ss Hs _ IH]; [done|]. csimpl. rewrite fmap_app, concat_app, IH.
  f_equal. by apply (rep_leaves h).
Qed.

Lemma reps_frame h N N' ss :
  (forall i, i ∈ concat (s_ids <$> ss) -> N' !! i = N !! i) ->
  Forall (rep h N) ss -> Forall (rep h N') ss.
Proof.
  intros Hi. rewrite !Forall_forall. intros H s Hs. apply (rep_frame h N); [|by apply H].
  intros i Hin. apply Hi, elem_of_concat_fmap. eauto.
Qed.

Lemma child_lookup (ss1 ss2 : list seg) s n :
  length ss1 = n -> (s_id <$> ss1 ++ s :: ss2) !! n = Some (s_id s).
Proof.
  intros <-. rewrite list_lookup_fmap, lookup_app_r, Nat.sub_diag by lia. done.
Qed.

Lemma concat_fmap_mid {A B} (f : A -> list B) l1 x l2 :
  concat (f <$> l1 ++ x :: l2) = concat (f <$> l1) ++ f x ++ concat (f <$> l2).
Proof. by rewrite fmap_app, concat_app. Qed.

(** Page ids of the children of a node, apart from each other and from it. *)
Lemma ids_disjoint id (A B C : list Z) :
  NoDup (id :: A ++ B ++ C) ->
  NoDup B /\ (forall i, i ∈ B -> i <> id /\ i ∉ A /\ i ∉ C).
Proof.
  intros [Hid (HA & HAd & (HB & HBd & HC)%NoDup_app)%NoDup_app]%NoDup_cons.
  split; [done|]. intros i Hi. rewrite !elem_of_app in Hid. split_and!.
  - intros ->. tauto.
  - intros Ha. apply (HAd i Ha), elem_of_app. by left.
  - by apply HBd.
Qed.

Definition set_entries s (es : entries) : seg :=
  mkSeg (s_id s) (s_lo s) (s_hi s) es (s_leaves s) (s_ids s).

(** The leaf for [k] splits the entries; the leaf can be given any part of
    its own entries. *)
Record at_leaf (h : nat) N s (k l : Z) (E1 es E2 : entries) (L1 L2 : list Z) (next : option Z) : Prop := {
  al_es : s_es s = E1 ++ es ++ E2;
  al_lt : keys_lt E1 k;
  al_gt : keys_gt E2 k;
  al_leaves : s_leaves s = L1 ++ l :: L2;
  al_node : N !! l = Some (Leaf (mkLeaf es.*1 es.*2 next));
  al_right : E2 = concat (node_entries N <$> L2);
  al_sorted : es_sorted es;
  al_in : l ∈ s_ids s;
  al_update es' :
    es_sorted es' -> (forall e, e ∈ es' -> e ∈ es) -> (length es' <= length es)%nat ->
    rep h (<[l := Leaf (mkLeaf es'.*1 es'.*2 next)]> N) (set_entries s (E1 ++ es' ++ E2));
}.

Lemma find_leaf_rep h t s fuel k :
  rep h (nodes t) s -> in_range s k -> NoDup (s_ids s) -> (h < fuel)%nat ->
  exists l E1 es E2 L1 L2 next, find_leaf_from fuel t (s_id s) k = Some l /\
    at_leaf h (nodes t) s k l E1 es E2 L1 L2 next.
Proof.
  revert s fuel. induction h as [|h IH]; intros s [|fuel] Hrep Hk Hnd Hf; try lia; simpl in Hrep.
  - destruct Hrep as (next & Hn & Hs & Hr & Hlen & Hl & Hids). cbn [find_leaf_from]. rewrite Hn.
    exists (s_id s), [], (s_es s), [], [], [], next. split; [done|].
    constructor; try done; [by rewrite app_nil_r|intros ? H; by apply elem_of_nil in H..|
      rewrite Hids; left|].
    intros es' Hs' Hsub Hlen'. simpl. rewrite app_nil_r. exists next.
    rewrite lookup_insert_eq. split_and!; try done; [|lia]. intros e He. by apply Hr, Hsub.
  - destruct Hrep as (ks & ss & Hn & Hfe & Hss & Hlen & He & Hl & Hids).
    cbn [find_leaf_from]. rewrite Hn. unfold find_child_index. cbn [ikeys children].
    destruct Hk as [Hka Hkb].
    destruct (fence_route _ _ _ _ k Hfe) as
      (ks1 & ks2 & ss1 & s1 & ss2 & -> & -> & Hp & Hlss & Hin1 & Hlt & Hgt & Hrepl);
      [eapply Forall_impl; [done|apply rep_keys]|done..|].
    rewrite Hp, child_lookup by done. cbn [mbind option_bind].
    apply Forall_app in Hss as [Hss1 [Hs1 Hss2]%Forall_cons].
    rewrite concat_fmap_mid in He. rewrite concat_fmap_mid in Hl. rewrite concat_fmap_mid in Hids.
    rewrite Hids in Hnd. destruct (ids_disjoint _ _ _ _ Hnd) as [Hnd1 Hdis].
    destruct (IH s1 fuel Hs1 Hin1 Hnd1 ltac:(lia)) as (l & E1 & es & E2 & L1 & L2 & next & Hfind & Hal).
    exists l, (concat (s_es <$> ss1) ++ E1), es, (E2 ++ concat (s_es <$> ss2)),
      (concat (s_leaves <$> ss1) ++ L1), (L2 ++ concat (s_leaves <$> ss2)), next.
    split; [done|]. destruct Hal as [Hes Hltk Hgtk Hls Hnode Hright Hsort Hinl Hupd].
    constructor; try done.
    + rewrite He, Hes, <- !app_assoc. done.
    + intros e [?|?]%elem_of_app; auto.
    + intros e [?|?]%elem_of_app; auto.
    + rewrite Hl, Hls, <- !app_assoc. done.
    + rewrite fmap_app, concat_app, <- Hright. by rewrite (reps_entries h (nodes t)).
    + rewrite Hids. right. rewrite !elem_of_app. auto.
    + intros es' H1 H2 H3. destruct (Hdis l Hinl) as (Hne & HnA & HnC).
      exists (ks1 ++ ks2), (ss1 ++ set_entries s1 (E1 ++ es' ++ E2) :: ss2). split_and!.
      * cbn [s_id set_entries]. rewrite lookup_insert_ne, Hn by done. by rewrite !fmap_app.
      * apply (Hrepl [] [set_entries s1 (E1 ++ es' ++ E2)]). simpl.
        split_and!; try done. pose proof Hfe as Hfe'.
        assert (Hkk : above_lo (s_lo s1) k /\ below_hi k (s_hi s1)) by done.
        destruct (s_lo s1), (s_hi s1); simpl in *; (done || lia).
      * apply Forall_app. split; [|constructor; [by apply Hupd|]];
          (eapply reps_frame; [|eassumption]); intros i Hi; apply lookup_insert_ne; by intros ->.
      * done.
      * rewrite concat_fmap_mid. simpl. by rewrite <- !app_assoc.
      * by rewrite concat_fmap_mid.
      * by rewrite concat_fmap_mid.
Qed.
End Descend.

(** ** Insertion

    [inserted]: the subtree [s] has become the subtrees [out], one or, after a
    split, two; [res] is what the parent is told. *)
Definition res_keys (res : option SplitResult) : list Z :=
  match res with Some sp => [promoted_key sp] | None => [] end.
Definition res_pages (res : option SplitResult) : list Z :=
  match res with Some sp => [new_page_id sp] | None => [] end.

Record covers (h : nat) (t t' : BTree) (s : seg) (es : entries) (ids : list Z) (n : nat)
    (res : option SplitResult) (next : option Z) (out : list seg) : Prop := {
  cv_fence : fence (s_lo s) (res_keys res) (s_hi s) out;
  cv_ids : s_id <$> out = s_id s :: res_pages res;
  cv_rep : Forall (rep h (nodes t')) out;
  cv_es : concat (s_es <$> out) = es;
  cv_chain : chain (nodes t') (concat (s_leaves <$> out)) next;
  cv_nodup : NoDup (concat (s_ids <$> out));
  cv_sub i : i ∈ concat (s_ids <$> out) ->
    i ∈ ids \/ next_page_id t <= i < next_page_id t';
  cv_frame i : i ∉ ids -> i < next_page_id t -> nodes t' !! i = nodes t !! i;
  cv_root : root_id t' = root_id t;
  cv_next : next_page_id t <= next_page_id t' <= next_page_id t + Z.of_nat n;
}.

Section Insert.
Implicit Types (N : heap) (s : seg) (ss : list seg) (t : BTree).

Lemma alloc_page_ok t n :
  0 <= next_page_id t -> next_page_id t + 1 < 2 ^ 32 ->
  alloc_page t n = Some (mkTree (<[next_page_id t := n]> (nodes t)) (next_page_id t + 1) (root_id t),
    next_page_id t).
Proof. intros. unfold alloc_page. rewrite decide_True; [done|width]. Qed.

Lemma split_off_ok {A} (l : list A) i :
  (i <= length l)%nat -> split_off l i = Some (take i l, drop i l).
Proof. intros. unfold split_off. by rewrite decide_True. Qed.

(** A full leaf in two halves. *)
Lemma split_leaf_rep t s es next :
  es_sorted es -> (forall e, e ∈ es -> in_range s e.1) -> length es = (2 * ORDER)%nat ->
  s_id s < next_page_id t -> 0 <= next_page_id t -> next_page_id t + 1 < 2 ^ 32 ->
  exists t' sp out, split_leaf t (s_id s) (mkLeaf es.*1 es.*2 next) = Some (t', sp) /\
    covers 0 t t' s es [s_id s] 1 (Some sp) next out /\
    first_or (concat (s_leaves <$> out)) None = Some (s_id s).
Proof.
  intros Hs Hr Hlen Hid H0 Hn. change (2 * ORDER)%nat with 8%nat in Hlen.
  destruct (take 4 es) as [|e0 A] eqn:EA; [apply (f_equal length) in EA; by rewrite length_take, Hlen in EA|].
  destruct (drop 4 es) as [|[k' r'] B] eqn:EB; [apply (f_equal length) in EB; by rewrite length_drop, Hlen in EB|].
  assert (Hes : es = (e0 :: A) ++ (k', r') :: B) by (by rewrite <- EA, <- EB, take_drop).
  assert (HlA : length (e0 :: A) = 4%nat) by (by rewrite <- EA, length_take, Hlen).
  assert (HlB : length ((k', r') :: B) = 4%nat) by (by rewrite <- EB, length_drop, Hlen).
  unfold split_leaf. cbn [lkeys rids next_leaf]. rewrite length_fmap, Hlen.
  change (8 / 2)%nat with 4%nat.
  rewrite !split_off_ok by (rewrite length_fmap, Hlen; lia).
  cbn [mbind option_bind]. rewrite <- !fmap_take, <- !fmap_drop, EA, EB, alloc_page_ok by done.
  cbn [mbind option_bind nodes]. rewrite lookup_insert_eq. cbn [lkeys]. csimpl.
  set (R := next_page_id t).
  assert (HsA := Hs). rewrite Hes in HsA. apply es_sorted_app in HsA as (HsA & HsB & Hcross).
  assert (HB : forall e, e ∈ (k', r') :: B -> k' <= e.1).
  { apply es_sorted_cons in HsB as [HsB _]. intros e [->|He]%elem_of_cons; [done|].
    specialize (HsB e He). simpl in HsB. lia. }
  assert (Hk' : in_range s k') by (apply (Hr (k', r')); rewrite Hes; apply elem_of_app; right; left).
  eexists _, _, [mkSeg (s_id s) (s_lo s) (Some k') (e0 :: A) [s_id s] [s_id s];
    mkSeg R (Some k') (s_hi s) ((k', r') :: B) [R] [R]].
  split; [reflexivity|]. split; [|done]. constructor; cbn [nodes next_page_id root_id set_node]; csimpl.
  - split_and!; try done.
    + assert (He0 : e0 ∈ es) by (rewrite Hes; left). destruct (Hr e0 He0) as [Ha _].
      assert (e0.1 < k') by (apply (Hcross e0 (k', r')); left).
      destruct (s_lo s); simpl in *; [lia|done].
    + apply Hk'.
  - done.
  - constructor; [|constructor; [|constructor]].
    + exists (Some R). cbn [s_id s_es s_leaves s_ids]. rewrite lookup_insert_eq.
      split_and!; try done; [|unfold ORDER; lia].
      intros e He. split; simpl; [|by apply (Hcross e (k', r')); [|left]].
      apply Hr. rewrite Hes. apply elem_of_app. by left.
    + exists next. cbn [s_id s_es s_leaves s_ids]. rewrite lookup_insert_ne, lookup_insert_eq by (unfold R; lia).
      split_and!; try done; [|unfold ORDER; lia].
      intros e He. split; simpl; [by apply HB|].
      apply Hr. rewrite Hes. apply elem_of_app. by right.
  - rewrite Hes. simpl. by rewrite app_nil_r.
  - split_and!; try done.
    + rewrite lookup_insert_eq. by eexists.
    + rewrite lookup_insert_ne, lookup_insert_eq by (unfold R; lia). by eexists.
  - apply NoDup_cons. split; [|apply NoDup_singleton]. intros H%list_elem_of_singleton. unfold R in *. lia.
  - intros i. rewrite !elem_of_cons, elem_of_nil. unfold R. intros [->|[->|[]]]; [by left; left|right; lia].
  - intros i Hi Hlt. rewrite list_elem_of_singleton in Hi.
    rewrite !lookup_insert_ne by (unfold R; lia || congruence). done.
  - done.
  - lia.
Qed.

(** The node [s] over the children [ss] in [t], the children in place. *)
Record ready (h : nat) t s ks ss (next : option Z) : Prop := {
  rd_fence : fence (s_lo s) ks (s_hi s) ss;
  rd_rep : Forall (rep h (nodes t)) ss;
  rd_chain : chain (nodes t) (concat (s_leaves <$> ss)) next;
  rd_nodup : NoDup (s_id s :: concat (s_ids <$> ss));
  rd_below i : i ∈ s_id s :: concat (s_ids <$> ss) -> i < next_page_id t;
}.

Lemma chain_in N ls next l : chain N ls next -> l ∈ ls -> exists leaf, N !! l = Some (Leaf leaf).
Proof.
  induction ls as [|l' ls IH]; simpl; [by intros _ ?%elem_of_nil|].
  intros [(leaf & ? & _) Hc] [->|Hin]%elem_of_cons; eauto.
Qed.

Lemma leaves_in_ids h N ss l :
  Forall (rep h N) ss -> l ∈ concat (s_leaves <$> ss) -> l ∈ concat (s_ids <$> ss).
Proof.
  intros Hss (s & Hs & Hl)%elem_of_concat_fmap. apply elem_of_concat_fmap. exists s.
  split; [done|]. rewrite Forall_forall in Hss. by apply (rep_leaves h N s (Hss s Hs)).
Qed.

(** Writing an internal node that has room. *)
Lemma write_internal h t s ks ss next :
  ready h t s ks ss next -> width_ok ks = true ->
  covers (S h) t (set_node t (s_id s) (Internal (mkInternal ks (s_id <$> ss)))) s
    (concat (s_es <$> ss)) (s_id s :: concat (s_ids <$> ss)) 0 None next
    [mkSeg (s_id s) (s_lo s) (s_hi s) (concat (s_es <$> ss)) (concat (s_leaves <$> ss))
       (s_id s :: concat (s_ids <$> ss))].
Proof.
  intros [Hf Hr Hc Hnd Hb] Hlen.
  assert (Hfr : forall i, i ∈ concat (s_ids <$> ss) ->
    nodes (set_node t (s_id s) (Internal (mkInternal ks (s_id <$> ss)))) !! i = nodes t !! i).
  { intros i Hi. simpl. apply lookup_insert_ne. intros <-. by apply NoDup_cons in Hnd as [? _]. }
  constructor; cbn [s_id s_es s_leaves s_ids fmap list_fmap concat res_keys res_pages];
    rewrite ?app_nil_r; csimpl; rewrite ?app_nil_r.
  - split_and!; [done|by apply fence_lt in Hf|done].
  - done.
  - constructor; [|constructor]. exists ks, ss. cbn [s_id s_lo s_hi s_es s_leaves s_ids].
    split_and!; try done; [by rewrite lookup_insert_eq|]. by apply (reps_frame h (nodes t)).
  - done.
  - apply (chain_frame (nodes t)); [|done]. intros l Hl. apply Hfr. by eapply leaves_in_ids.
  - done.
  - auto.
  - intros i Hi _. apply lookup_insert_ne. intros <-. apply Hi. left.
  - done.
  - lia.
Qed.

Lemma concat_fmap_app {A B} (f : A -> list B) l1 l2 :
  concat (f <$> l1 ++ l2) = concat (f <$> l1) ++ concat (f <$> l2).
Proof. by rewrite fmap_app, concat_app. Qed.

Lemma removelast_snoc {A} (l : list A) x : removelast (l ++ [x]) = l.
Proof. by rewrite removelast_app, app_nil_r. Qed.

(** A full internal node: four keys to the left, the fifth up, three right. *)
Lemma split_internal_eq t id ka k kb ca cb :
  length ka = 4%nat -> length kb = 3%nat -> length ca = 5%nat ->
  0 <= next_page_id t -> next_page_id t + 1 < 2 ^ 32 ->
  split_internal t id (mkInternal (ka ++ k :: kb) (ca ++ cb)) =
  Some (mkTree (<[id := Internal (mkInternal ka ca)]>
                 (<[next_page_id t := Internal (mkInternal kb cb)]> (nodes t))) (next_page_id t + 1) (root_id t),
        mkSplit k (next_page_id t)).
Proof.
  intros Ha Hb Hc H0 Hn. unfold split_internal. cbn [ikeys children].
  assert (Hlen : length (ka ++ k :: kb) = 8%nat) by (rewrite length_app; cbn [length]; lia). rewrite Hlen.
  change (8 / 2)%nat with 4%nat. change (4 + 1)%nat with 5%nat.
  rewrite !split_off_ok by (rewrite ?length_app; cbn [length]; lia).
  rewrite lookup_app_r, Ha, Nat.sub_diag by lia. cbn [lookup list_lookup mbind option_bind].
  replace (take 5 (ka ++ k :: kb)) with (ka ++ [k]) by (rewrite take_app, take_ge, Ha by lia; done).
  replace (drop 5 (ka ++ k :: kb)) with kb by (rewrite drop_app, drop_ge, Ha by lia; done).
  rewrite <- Hc, take_app_length, drop_app_length, removelast_snoc, alloc_page_ok by done. done.
Qed.

(** A node over subtrees. *)
Definition parent (id : Z) (lo hi : option Z) (ss : list seg) : seg :=
  mkSeg id lo hi (concat (s_es <$> ss)) (concat (s_leaves <$> ss)) (id :: concat (s_ids <$> ss)).

Lemma parent_rep h N N' id lo hi ks ss :
  N' !! id = Some (Internal (mkInternal ks (s_id <$> ss))) -> fence lo ks hi ss -> Forall (rep h N) ss ->
  width_ok ks = true -> (forall i, i ∈ concat (s_ids <$> ss) -> N' !! i = N !! i) -> rep (S h) N' (parent id lo hi ss).
Proof. intros Hi Hf Hr Hw Hs. exists ks, ss. split_and!; try done. by apply (reps_frame h N). Qed.

Lemma NoDup_halves {A} (x y : A) l1 l2 :
  NoDup (x :: l1 ++ l2) -> y ∉ x :: l1 ++ l2 -> NoDup ((x :: l1) ++ y :: l2).
Proof.
  intros Hn Hy. rewrite <- Permutation_middle. apply NoDup_cons. split; [exact Hy|exact Hn].
Qed.

(** A full internal node in two halves. *)
Lemma split_internal_rep h t s ks ss next :
  ready h t s ks ss next -> length ks = (2 * ORDER)%nat ->
  0 <= next_page_id t -> next_page_id t + 1 < 2 ^ 32 ->
  exists t' sp out, split_internal t (s_id s) (mkInternal ks (s_id <$> ss)) = Some (t', sp) /\
    covers (S h) t t' s (concat (s_es <$> ss)) (s_id s :: concat (s_ids <$> ss)) 1 (Some sp) next out /\
    concat (s_leaves <$> out) = concat (s_leaves <$> ss).
Proof.
  intros [Hf Hr Hc Hnd Hb] Hlen H0 Hn. change (2 * ORDER)%nat with 8%nat in Hlen.
  pose proof (fence_length _ _ _ _ Hf) as Hls. rewrite Hlen in Hls.
  destruct (drop 4 ks) as [|k' kb] eqn:EB; [apply (f_equal length) in EB; by rewrite length_drop, Hlen in EB|].
  assert (Hks : ks = take 4 ks ++ k' :: kb) by (by rewrite <- EB, take_drop).
  assert (Hka : length (take 4 ks) = 4%nat) by (by rewrite length_take, Hlen).
  assert (Hkb : length kb = 3%nat) by (rewrite Hks, length_app in Hlen; simpl in Hlen; lia).
  assert (Hsa : length (take 5 ss) = 5%nat) by (by rewrite length_take, Hls).
  revert Hf Hr Hc Hnd Hb. rewrite <- (take_drop 5 ss), Hks. clear EB Hks Hlen Hls. revert Hka Hsa.
  generalize (take 4 ks) as ka, (take 5 ss) as sa, (drop 5 ss) as sb. intros ka sa sb Hka Hsa.
  rewrite !concat_fmap_app, fmap_app. intros [Hfa Hfb]%fence_app [Hra Hrb]%Forall_app [Hca Hcb]%chain_app Hnd Hb; [|lia].
  rewrite split_internal_eq by (rewrite ?length_fmap; done). set (R := next_page_id t) in *.
  assert (HR : R ∉ s_id s :: concat (s_ids <$> sa) ++ concat (s_ids <$> sb)) by (intros Hi%Hb; lia).
  set (N' := <[s_id s := Internal (mkInternal ka (s_id <$> sa))]> (<[R := Internal (mkInternal kb (s_id <$> sb))]> (nodes t))).
  assert (Hfr : forall i, i ∈ concat (s_ids <$> sa) ++ concat (s_ids <$> sb) -> N' !! i = nodes t !! i).
  { intros i Hi. apply NoDup_cons in Hnd as [Hid _]. unfold N'. rewrite !lookup_insert_ne; [done|set_solver..]. }
  setoid_rewrite elem_of_app in Hfr. assert (Hw : forall l, (3 <= length l <= 4)%nat -> width_ok l = true) by (intros l Hl; apply width_spec; unfold ORDER; lia).
  eexists _, _, [parent (s_id s) (s_lo s) (Some k') sa; parent R (Some k') (s_hi s) sb].
  split; [reflexivity|]. split; [|csimpl; by rewrite app_nil_r].
  constructor; cbn [nodes next_page_id root_id set_node]; csimpl; rewrite ?app_nil_r; fold N'.
  - split_and!; try done; [by apply fence_lt in Hfa|by apply fence_lt in Hfb].
  - done.
  - constructor; [|constructor; [|constructor]]; (eapply parent_rep; [|eassumption|eassumption|apply Hw; lia|auto]); unfold N'.
    + by rewrite lookup_insert_eq.
    + rewrite lookup_insert_ne, lookup_insert_eq; [done|set_solver].
  - done.
  - apply chain_app. split; (eapply chain_frame; [|eassumption]); intros l Hl; apply Hfr; [left|right]; by eapply leaves_in_ids.
  - by apply NoDup_halves.
  - intros i. rewrite !elem_of_cons, !elem_of_app, elem_of_cons. unfold R.
    intros [->|[?|[->|?]]]; [tauto|tauto|right; lia|tauto].
  - intros i Hi Hlt. unfold N'. rewrite !lookup_insert_ne; [done|unfold R; lia|]. intros <-. apply Hi. left.
  - done.
  - unfold R. lia.
Qed.

(** What the node does with the answer of its child. *)
Definition finish t (id : Z) (n : InternalNode) : option (BTree * option SplitResult) :=
  if internal_is_full n then '(t, s) ← split_internal t id n; Some (t, Some s)
  else Some (set_node t id (Internal n), None).

Lemma finish_rep h t s ks ss next :
  ready h t s ks ss next -> (0 < length ks <= 2 * ORDER)%nat ->
  0 <= next_page_id t -> next_page_id t + 1 < 2 ^ 32 ->
  exists t' res out, finish t (s_id s) (mkInternal ks (s_id <$> ss)) = Some (t', res) /\
    covers (S h) t t' s (concat (s_es <$> ss)) (s_id s :: concat (s_ids <$> ss)) 1 res next out /\
    concat (s_leaves <$> out) = concat (s_leaves <$> ss).
Proof.
  intros Hrd Hlen H0 Hn. unfold finish, internal_is_full. cbn [ikeys].
  destruct (Nat.leb_spec (2 * ORDER) (length ks)) as [Hfull|Hroom].
  - destruct (split_internal_rep h t s ks ss next) as (t' & sp & out & -> & Hcv & Hl);
      [done|lia|done..|]. cbn [mbind option_bind]. eauto 10.
  - eexists _, _, [mkSeg _ _ _ _ (concat (s_leaves <$> ss)) _].
    split; [done|]. split; [|csimpl; by rewrite app_nil_r].
    destruct (write_internal h t s ks ss next Hrd); [apply width_spec; lia|]. constructor; try done. lia.
Qed.

Lemma vec_insert_mid {A} (l1 l2 : list A) x n :
  length l1 = n -> vec_insert (l1 ++ l2) n x = Some (l1 ++ x :: l2).
Proof.
  intros <-. unfold vec_insert. rewrite decide_True by (rewrite length_app; lia).
  by rewrite take_app_length, drop_app_length.
Qed.

(** The branch of [insert_recursive] after the call on the child. *)
Lemma after_child t id ks1 ks2 ss1 s1 ss2 res (out : list seg) :
  length ss1 = length ks1 -> s_id <$> out = s_id s1 :: res_pages res ->
  (length (ks1 ++ ks2) < 2 * ORDER)%nat ->
  match res with
  | Some split =>
      ks ← vec_insert (ks1 ++ ks2) (length ks1) (promoted_key split);
      cs ← vec_insert (s_id <$> ss1 ++ s1 :: ss2) (length ks1 + 1) (new_page_id split);
      let node := mkInternal ks cs in
      if internal_is_full node then
        '(t, s) ← split_internal t id node; Some (t, Some s)
      else Some (set_node t id (Internal node), None)
  | None => Some (set_node t id (Internal (mkInternal (ks1 ++ ks2) (s_id <$> ss1 ++ s1 :: ss2))), None)
  end = finish t id (mkInternal (ks1 ++ res_keys res ++ ks2) (s_id <$> ss1 ++ out ++ ss2)).
Proof.
  intros Hl Ho Hk. destruct res as [sp|]; cbn [res_keys res_pages] in *.
  - rewrite vec_insert_mid by done. cbn [mbind option_bind].
    replace (s_id <$> ss1 ++ s1 :: ss2) with ((s_id <$> ss1 ++ [s1]) ++ (s_id <$> ss2))
      by (by rewrite <- fmap_app, <- app_assoc).
    rewrite vec_insert_mid by (rewrite length_fmap, length_app; simpl; lia).
    rewrite !fmap_app, Ho. cbn [mbind option_bind]. by rewrite <- app_assoc.
  - unfold finish, internal_is_full. cbn [ikeys app].
    rewrite (proj2 (Nat.leb_gt _ _)) by done. do 5 f_equal. rewrite !fmap_app, Ho. done.
Qed.

Lemma first_or_eq (l1 l2 : list Z) next :
  first_or l1 None = first_or l2 None -> l2 <> [] -> first_or l1 next = first_or l2 next.
Proof. destruct l1, l2; simpl; congruence. Qed.

Lemma elem_of_ids_mid {A} (x : A) id (P Q R : list A) :
  x ∈ id :: P ++ Q ++ R <-> x = id \/ x ∈ P \/ x ∈ Q \/ x ∈ R.
Proof. by rewrite elem_of_cons, !elem_of_app. Qed.

(** The children after the recursive call are in place again. *)
Lemma ready_child h t t1 s ks1 ks2 ss1 s1 ss2 es n res next out :
  ready h t s (ks1 ++ ks2) (ss1 ++ s1 :: ss2) next ->
  (forall rk out, fence (s_lo s1) rk (s_hi s1) out ->
     fence (s_lo s) (ks1 ++ rk ++ ks2) (s_hi s) (ss1 ++ out ++ ss2)) ->
  covers h t t1 s1 es (s_ids s1) n res (first_or (concat (s_leaves <$> ss2)) next) out ->
  first_or (concat (s_leaves <$> out)) None = first_or (s_leaves s1) None ->
  ready h t1 s (ks1 ++ res_keys res ++ ks2) (ss1 ++ out ++ ss2) next /\
  nodes t1 !! s_id s = nodes t !! s_id s.
Proof.
  intros [Hf Hr Hc Hnd Hb] Hrepl Hcv Hfirst.
  rewrite concat_fmap_mid in Hc, Hnd.
  apply Forall_app in Hr as [Hr1 [Hrs Hr2]%Forall_cons].
  assert (Hb' : forall i, i ∈ s_id s :: concat (s_ids <$> ss1) ++ s_ids s1 ++ concat (s_ids <$> ss2) ->
    i < next_page_id t) by (intros i; rewrite <- concat_fmap_mid; apply Hb).
  clear Hb. setoid_rewrite elem_of_ids_mid in Hb'.
  destruct (ids_disjoint _ _ _ _ Hnd) as [_ Hdis].
  assert (Hfr : forall i, i = s_id s \/ i ∈ concat (s_ids <$> ss1) \/ i ∈ concat (s_ids <$> ss2) ->
    nodes t1 !! i = nodes t !! i).
  { intros i Hi. apply (cv_frame _ _ _ _ _ _ _ _ _ _ Hcv); [|apply Hb'; tauto].
    intros Hin. destruct (Hdis i Hin) as (? & ? & ?). tauto. }
  pose proof (cv_next _ _ _ _ _ _ _ _ _ _ Hcv) as Hnp.
  pose proof (cv_sub _ _ _ _ _ _ _ _ _ _ Hcv) as Hsub.
  split; [|by apply Hfr; left]. constructor.
  - by apply Hrepl, (cv_fence _ _ _ _ _ _ _ _ _ _ Hcv).
  - apply Forall_app. split; [eapply reps_frame; [|eassumption]; auto|].
    apply Forall_app. split; [apply Hcv|eapply reps_frame; [|eassumption]; auto].
  - rewrite !concat_fmap_app. apply chain_app in Hc as [Hc1 [Hcs Hc2]%chain_app].
    apply chain_app. split; [|apply chain_app; split; [apply Hcv|]].
    + rewrite !first_or_app in *. rewrite (first_or_eq _ _ _ Hfirst).
      * eapply chain_frame; [|eassumption]. intros l Hl. apply Hfr. right; left.
        by eapply leaves_in_ids.
      * by apply (rep_leaves h (nodes t) s1).
    + eapply chain_frame; [|eassumption]. intros l Hl. apply Hfr. right; right.
      by eapply leaves_in_ids.
  - rewrite !concat_fmap_app.
    apply NoDup_cons in Hnd as [Hid (HA & HAd & (HB & HBd & HC)%NoDup_app)%NoDup_app].
    rewrite !elem_of_app in Hid. apply NoDup_cons. split.
    + rewrite !elem_of_app. intros [?|[[?|Hge]%Hsub|?]]; try tauto.
      assert (s_id s < next_page_id t) by (apply Hb'; tauto). lia.
    + apply NoDup_app. split_and!; [done| |].
      * intros i Hi. rewrite elem_of_app. specialize (HAd i Hi). rewrite elem_of_app in HAd.
        intros [[?|Hge]%Hsub|?]; try tauto.
        assert (i < next_page_id t) by (apply Hb'; tauto). lia.
      * apply NoDup_app. split_and!; [apply Hcv| |done].
        intros i [Hi|Hge]%Hsub Hi2; [by apply (HBd i)|].
        assert (i < next_page_id t) by (apply Hb'; tauto). lia.
  - intros i. rewrite !concat_fmap_app, elem_of_ids_mid.
    intros [?|[?|[[?|?]%Hsub|?]]]; try lia;
      (assert (i < next_page_id t) by (apply Hb'; tauto); lia).
Qed.

Lemma leaf_insert h t s k r next fuel :
  h = 0%nat -> rep h (nodes t) s -> in_range s k -> es_lookup k (s_es s) = None ->
  (forall i, i ∈ s_ids s -> i < next_page_id t) -> chain (nodes t) (s_leaves s) next ->
  0 <= next_page_id t -> next_page_id t + 1 < 2 ^ 32 ->
  exists t' res out, insert_recursive (S fuel) t (s_id s) k r = Some (t', res) /\
    covers h t t' s (es_insert k r (s_es s)) (s_ids s) 1 res next out /\
    first_or (concat (s_leaves <$> out)) None = first_or (s_leaves s) None.
Proof.
  intros -> (nx & Hn & Hs & Hr & Hlen & Hl & Hids) Hk Hno Hb Hc H0 Hnp.
  rewrite Hl, Hids in *. cbn [chain first_or] in Hc. destruct Hc as [(leaf & Hleaf & Hnx) _].
  rewrite Hn in Hleaf. injection Hleaf as <-. cbn [next_leaf] in Hnx. subst nx.
  cbn [insert_recursive]. rewrite Hn. cbn [lkeys rids next_leaf].
  destruct (vec_insert_columns k r (s_es s)) as [-> ->]. cbn [mbind option_bind].
  pose proof (es_sorted_insert k r _ Hs Hno) as Hs'.
  assert (Hr' : forall e, e ∈ es_insert k r (s_es s) -> in_range s e.1).
  { intros e [->|He]%elem_of_es_insert; auto. }
  pose proof (length_es_insert k r (s_es s)) as Hlen'.
  unfold leaf_is_full. cbn [lkeys]. rewrite length_fmap.
  destruct (Nat.leb_spec (2 * ORDER) (length (es_insert k r (s_es s)))).
  - destruct (split_leaf_rep t s (es_insert k r (s_es s)) next)
      as (t' & sp & out & -> & Hcv & Hf); [done|done|lia|apply Hb; left|done|done|].
    cbn [mbind option_bind]. exists t', (Some sp), out. by split_and!.
  - eexists _, None, [mkSeg _ (s_lo s) (s_hi s) (es_insert k r (s_es s)) [s_id s] [s_id s]].
    split; [done|]. split; [|done]. constructor; cbn [nodes next_page_id root_id set_node]; csimpl.
    + split_and!; try done. destruct Hk. destruct (s_lo s), (s_hi s); simpl in *; (done || lia).
    + done.
    + constructor; [|constructor]. exists next. cbn [s_id s_es s_leaves s_ids].
      rewrite lookup_insert_eq. by split_and!.
    + by rewrite app_nil_r.
    + split; [|done]. eexists. rewrite lookup_insert_eq. done.
    + apply NoDup_singleton.
    + intros i Hi. by left.
    + intros i Hi _. apply lookup_insert_ne. intros <-. apply Hi. left.
    + done.
    + lia.
Qed.

Lemma insert_recursive_rep h t s k r next fuel :
  rep h (nodes t) s -> in_range s k -> es_lookup k (s_es s) = None -> NoDup (s_ids s) ->
  (forall i, i ∈ s_ids s -> i < next_page_id t) -> chain (nodes t) (s_leaves s) next ->
  (h < fuel)%nat -> 0 <= next_page_id t -> next_page_id t + Z.of_nat h + 1 < 2 ^ 32 ->
  exists t' res out, insert_recursive fuel t (s_id s) k r = Some (t', res) /\
    covers h t t' s (es_insert k r (s_es s)) (s_ids s) (S h) res next out /\
    first_or (concat (s_leaves <$> out)) None = first_or (s_leaves s) None.
Proof.
  revert s next fuel. induction h as [|h IH];
    intros s next [|fuel] Hrep Hk Hno Hnd Hb Hc Hf H0 Hnp; try lia.
  { apply leaf_insert; (done || lia). }
  destruct Hrep as (ks & ss & Hn & Hfe & Hss & Hlen & He & Hl & Hids). destruct Hk as [Hka Hkb].
  destruct (fence_route _ _ _ _ k Hfe) as
    (ks1 & ks2 & ss1 & s1 & ss2 & -> & -> & Hp & Hlss & Hin1 & Hlt & Hgt & Hrepl);
    [eapply Forall_impl; [done|apply rep_keys]|done..|].
  assert (Hrd : ready h t s (ks1 ++ ks2) (ss1 ++ s1 :: ss2) next).
  { constructor; [done|done|by rewrite <- Hl|by rewrite <- Hids|]. intros i. rewrite <- Hids. apply Hb. }
  rewrite He in *. rewrite Hl in *. rewrite Hids in *. clear He Hl Hids.
  rewrite concat_fmap_mid in Hno. rewrite concat_fmap_mid in Hnd. rewrite concat_fmap_mid in Hc.
  rewrite es_lookup_app in Hno by done. rewrite concat_fmap_mid.
  rewrite es_insert_app_l, es_insert_app_r by done.
  apply Forall_app in Hss as [Hss1 [Hs1 Hss2]%Forall_cons].
  apply chain_app in Hc as [_ [Hc1 _]%chain_app].
  destruct (ids_disjoint _ _ _ _ Hnd) as [Hnd1 _].
  destruct (IH s1 (first_or (concat (s_leaves <$> ss2)) next) fuel Hs1 Hin1 Hno Hnd1) as (t1 & res & out & Hrec & Hcv & Hfirst);
    [|exact Hc1|lia|lia|lia|].
  { intros i Hi. apply Hb. rewrite concat_fmap_mid, elem_of_ids_mid. tauto. }
  apply width_spec in Hlen. cbn [insert_recursive]. rewrite Hn.
  unfold find_child_index. cbn [ikeys children].
  rewrite Hp, child_lookup by done. cbn [mbind option_bind]. rewrite Hrec. cbn [mbind option_bind].
  pose proof (after_child t1 (s_id s) ks1 ks2 ss1 s1 ss2 res out Hlss
    (cv_ids _ _ _ _ _ _ _ _ _ _ Hcv) (proj2 Hlen)) as Hac.
  cbv zeta in Hac |- *. rewrite Hac.
  destruct (ready_child _ _ _ _ _ _ _ _ _ _ _ _ _ _ Hrd Hrepl Hcv Hfirst) as [Hrd1 _].
  pose proof (cv_next _ _ _ _ _ _ _ _ _ _ Hcv) as Hnp1.
  destruct (finish_rep h t1 s _ _ next Hrd1) as (t2 & res2 & out2 & -> & Hcv2 & Hl2);
    [rewrite length_app in Hlen; rewrite !length_app; destruct res; cbn [res_keys length]; lia|lia|lia|].
  exists t2, res2, out2. split; [done|].
  pose proof (cv_next _ _ _ _ _ _ _ _ _ _ Hcv2) as Hnp2.
  pose proof (cv_sub _ _ _ _ _ _ _ _ _ _ Hcv) as Hsub1.
  assert (Hids2 : forall i, i ∈ s_id s :: concat (s_ids <$> ss1 ++ out ++ ss2) ->
    i ∈ s_id s :: concat (s_ids <$> ss1 ++ s1 :: ss2) \/ next_page_id t <= i < next_page_id t1).
  { intros i. rewrite !concat_fmap_app, !elem_of_cons, !elem_of_app. csimpl. rewrite elem_of_app.
    intros [?|[?|[[?|?]%Hsub1|?]]]; tauto. }
  split.
  - destruct Hcv2 as [f1 f2 f3 f4 f5 f6 f7 f8 f9 f10]. constructor; try done.
    + rewrite f4, !concat_fmap_app, (cv_es _ _ _ _ _ _ _ _ _ _ Hcv). done.
    + intros i [Hi|Hi]%f7; [|right; lia]. apply Hids2 in Hi as [Hi|Hi]; [by left|right; lia].
    + intros i Hi Hlti. rewrite f8; [|intros Hi2; apply Hids2 in Hi2 as [?|?]; [done|lia]|lia].
      apply (cv_frame _ _ _ _ _ _ _ _ _ _ Hcv); [|done].
      intros Hi2. apply Hi. rewrite concat_fmap_mid, elem_of_ids_mid. tauto.
    + rewrite f9. apply Hcv.
    + lia.
  - rewrite Hl2, concat_fmap_mid, !concat_fmap_app, !first_or_app.
    destruct (concat (s_leaves <$> ss1)); [|done]. simpl.
    assert (Hne : s_leaves s1 <> []) by (by apply (rep_leaves h (nodes t) s1)).
    rewrite (first_or_eq _ _ (first_or (concat (s_leaves <$> ss2)) None) Hfirst Hne). done.
Qed.
End Insert.

(** ** The whole tree *)
Record tree_rep (h : nat) (t : BTree) (s : seg) (es : entries) : Prop := {
  tr_rep : rep h (nodes t) s;
  tr_root : s_id s = root_id t;
  tr_lo : s_lo s = None;
  tr_hi : s_hi s = None;
  tr_es : s_es s = es;
  tr_nodup : NoDup (s_ids s);
  tr_ids i : i ∈ s_ids s -> 0 <= i < next_page_id t;
  tr_chain : chain (nodes t) (s_leaves s) None;
}.

Definition tree_ok (t : BTree) (es : entries) : Prop := exists h s, tree_rep h t s es.

Section Tree.
Implicit Types (t : BTree) (es : entries).

Lemma tree_fuel_height h t s es :
  tree_rep h t s es -> (h < tree_fuel t)%nat /\ (length (s_leaves s) < tree_fuel t)%nat.
Proof.
  intros [Hr _ _ _ _ Hnd _ _]. destruct (rep_leaves _ _ _ Hr) as (_ & _ & _ & Hl & Hh).
  assert (Hsub : list_to_set (s_ids s) ⊆ dom (nodes t)).
  { intros i Hi. apply elem_of_list_to_set in Hi. by eapply rep_ids_dom. }
  apply subseteq_size in Hsub. rewrite size_list_to_set, size_dom in Hsub by done.
  unfold tree_fuel. lia.
Qed.

Lemma NoDup_range_length (l : list Z) n :
  NoDup l -> (forall i, i ∈ l -> 0 <= i < n) -> Z.of_nat (length l) <= Z.max 0 n.
Proof.
  intros Hnd Hr. assert (Hsub : l ⊆+ seqZ 0 n).
  { apply NoDup_submseteq; [done|]. intros i Hi. apply elem_of_seqZ. specialize (Hr i Hi). lia. }
  apply submseteq_length in Hsub. rewrite length_seqZ in Hsub. lia.
Qed.

Lemma tree_height_pages h t s es :
  tree_rep h t s es -> 0 <= next_page_id t /\ Z.of_nat h < next_page_id t.
Proof.
  intros [Hr _ _ _ _ Hnd Hids _]. destruct (rep_leaves _ _ _ Hr) as (_ & _ & _ & _ & Hh).
  pose proof (NoDup_range_length _ _ Hnd Hids). lia.
Qed.

(** Every internal node has two children, so the height is logarithmic. *)
Lemma rep_size h N s : rep h N s -> (2 ^ h <= length (s_ids s))%nat.
Proof.
  revert s. induction h as [|h IH]; intros s.
  - intros (? & _ & _ & _ & _ & _ & ->). done.
  - intros (ks & ss & _ & Hf & Hss & Hw%width_spec & _ & _ & ->).
    apply fence_length in Hf. destruct ss as [|s1 [|s2 ss]]; simpl in Hf; [lia..|].
    apply Forall_cons in Hss as [H1 [H2 _]%Forall_cons].
    apply IH in H1, H2. csimpl. rewrite !length_app. lia.
Qed.

(** The pages one insert takes at the most: a split on each of 31 levels and
    a new root. *)
Definition INSERT_PAGES : Z := 33.

Lemma tree_height_log h t s es :
  tree_rep h t s es -> next_page_id t < 2 ^ 31 - 1 -> Z.of_nat h <= 30.
Proof.
  intros [Hr _ _ _ _ Hnd Hids _] Hp. pose proof (NoDup_range_length _ _ Hnd Hids) as Hl.
  apply rep_size in Hr. destruct (decide (31 <= h)%nat) as [Hh|]; [|lia].
  apply (Nat.pow_le_mono_r 2) in Hh; [|lia].
  assert (2 ^ 31 <= Z.of_nat (2 ^ h)); [|lia].
  change (2 ^ 31) with (Z.of_nat 2 ^ Z.of_nat 31). rewrite <- Nat2Z.inj_pow. lia.
Qed.

Lemma tree_sorted t es : tree_ok t es -> es_sorted es.
Proof. intros (h & s & [Hr _ _ _ <- _ _ _]). by apply (rep_keys h (nodes t)). Qed.

Lemma tree_range h t s es k : tree_rep h t s es -> in_range s k.
Proof. intros [_ _ Hlo Hhi _ _ _ _]. split; by rewrite ?Hlo, ?Hhi. Qed.

Lemma BTree_new_ok : tree_ok BTree_new [].
Proof.
  exists 0%nat, (mkSeg 0 None None [] [0] [0]). constructor; simpl; try done.
  - exists None. split_and!; try done; [apply SSorted_nil|unfold ORDER; lia].
  - apply NoDup_singleton.
  - intros i ->%list_elem_of_singleton. lia.
  - split; [|done]. by eexists.
Qed.

Lemma find_leaf_ok t es k :
  tree_ok t es -> exists h s l E1 le E2 L1 L2 next,
    find_leaf t (root_id t) k = Some l /\ tree_rep h t s es /\
    at_leaf h (nodes t) s k l E1 le E2 L1 L2 next.
Proof.
  intros (h & s & Ht). destruct (tree_fuel_height _ _ _ _ Ht) as [Hf _].
  destruct (find_leaf_rep h t s (tree_fuel t) k) as (l & E1 & le & E2 & L1 & L2 & next & Hl & Hal);
    [apply Ht|by eapply tree_range|apply Ht|done|].
  exists h, s, l, E1, le, E2, L1, L2, next. unfold find_leaf. rewrite <- (tr_root _ _ _ _ Ht). done.
Qed.

Lemma search_ok t es k : tree_ok t es -> search t k = Some (es_lookup k es).
Proof.
  intros H. destruct (find_leaf_ok t es k H) as (h & s & l & E1 & le & E2 & L1 & L2 & next & Hl & Ht & Hal).
  unfold search. rewrite Hl. cbn [mbind option_bind]. rewrite (al_node _ _ _ _ _ _ _ _ _ _ _ Hal).
  unfold find_key_index. cbn [lkeys rids].
  rewrite <- (tr_es _ _ _ _ Ht), (al_es _ _ _ _ _ _ _ _ _ _ _ Hal).
  rewrite es_lookup_app by apply Hal. pose proof (position_columns k le) as Hp.
  destruct (position _ _) as [i|]; [|by rewrite Hp].
  destruct Hp as (r & -> & -> & _). done.
Qed.

(** Rewriting a leaf's columns leaves its sibling pointer. *)
Lemma chain_set_leaf (N : heap) l ks rs next ls end_ :
  (exists ks0 rs0, N !! l = Some (Leaf (mkLeaf ks0 rs0 next))) -> chain N ls end_ ->
  chain (<[l := Leaf (mkLeaf ks rs next)]> N) ls end_.
Proof.
  intros (ks0 & rs0 & Hl). induction ls as [|l' ls IH]; simpl; [done|].
  intros [(leaf & Hl' & Hn) Hc]. split; [|auto]. destruct (decide (l' = l)) as [->|Hne].
  - rewrite lookup_insert_eq. eexists. split; [done|]. rewrite Hl in Hl'. by injection Hl' as <-.
  - rewrite lookup_insert_ne by done. eauto.
Qed.

Lemma es_delete_length k es : (length (es_delete k es) <= length es)%nat.
Proof. induction es as [|e es IH]; simpl; [lia|]. case_match; simpl; lia. Qed.

Lemma delete_ok t es k :
  tree_ok t es -> exists t', delete_key t k = Some (t', bool_decide (is_Some (es_lookup k es))) /\
    tree_ok t' (es_delete k es) /\ next_page_id t' = next_page_id t.
Proof.
  intros H. destruct (find_leaf_ok t es k H) as (h & s & l & E1 & le & E2 & L1 & L2 & next & Hl & Ht & Hal).
  unfold delete_key. rewrite Hl. cbn [mbind option_bind].
  rewrite (al_node _ _ _ _ _ _ _ _ _ _ _ Hal). unfold find_key_index. cbn [lkeys rids next_leaf].
  pose proof (tr_es _ _ _ _ Ht) as Hes. rewrite (al_es _ _ _ _ _ _ _ _ _ _ _ Hal) in Hes.
  assert (Hlk : es_lookup k es = es_lookup k le) by (rewrite <- Hes; apply es_lookup_app; apply Hal).
  pose proof (position_columns k le) as Hp. destruct (position _ _) as [i|].
  - destruct Hp as (r & Hr & _ & -> & ->). cbn [mbind option_bind].
    eexists. rewrite Hlk, Hr, bool_decide_eq_true_2 by done. split; [done|]. split; [|done].
    rewrite <- Hes, es_delete_app by (apply Hal || congruence).
    exists h, (set_entries s (E1 ++ es_delete k le ++ E2)).
    destruct Ht as [t1 t2 t3 t4 t5 t6 t7 t8]. constructor; try done.
    + apply Hal; [apply es_sorted_delete, Hal|apply es_delete_sub|apply es_delete_length].
    + apply chain_set_leaf; [|done]. do 2 eexists. apply Hal.
  - rewrite Hlk, Hp, bool_decide_eq_false_2 by (by intros []). eexists. split; [done|].
    split; [|done]. rewrite es_delete_absent by congruence. done.
Qed.

(** The scan from a leaf along the siblings. *)
Lemma scan_from_ok t start stop ls fuel :
  (length ls < fuel)%nat -> chain (nodes t) ls None -> ls <> [] ->
  es_sorted (concat (node_entries (nodes t) <$> ls)) ->
  (forall l leaf, l ∈ ls -> nodes t !! l = Some (Leaf leaf) -> length (lkeys leaf) = length (rids leaf)) ->
  scan_from fuel t (default 0 (first_or ls None)) start stop =
    Some (es_range start stop (concat (node_entries (nodes t) <$> ls))).
Proof.
  revert fuel. induction ls as [|l ls IH]; intros [|fuel] Hf Hc Hne Hs Hlen; try done; [simpl in Hf; lia|].
  destruct Hc as [(leaf & Hl & Hn) Hc]. rewrite fmap_cons in Hs |- *. cbn [concat] in Hs |- *.
  assert (Hle : node_entries (nodes t) l = zip (lkeys leaf) (rids leaf))
    by (unfold node_entries; by rewrite Hl).
  rewrite Hle in Hs |- *.
  specialize (Hlen l leaf ltac:(left) Hl) as Hll.
  apply es_sorted_app in Hs as (Hs1 & Hs2 & Hcross). rewrite es_range_app.
  change (default 0 (first_or (l :: ls) None)) with l. cbn [scan_from]. rewrite Hl.
  destruct (scan_leaf_columns start stop [] (zip (lkeys leaf) (rids leaf)) Hs1) as (b & Hb & Hd).
  cbn [app length] in Hb. rewrite fst_zip, snd_zip in Hb by lia. rewrite Hb. cbn [mbind option_bind].
  destruct b.
  - destruct (Hd eq_refl) as (e & He & Hlt). rewrite (es_range_above _ _ (concat _)), app_nil_r; [done|].
    intros e' He'. specialize (Hcross e e' He He'). lia.
  - rewrite Hn. destruct ls as [|l' ls]; [by rewrite app_nil_r|]. cbn [first_or].
    specialize (IH fuel ltac:(simpl in *; lia) Hc ltac:(done) Hs2). change (default 0 (first_or (l' :: ls) None)) with l' in IH.
    rewrite IH; [done|]. intros l2 leaf2 Hin. apply Hlen. by right.
Qed.

Lemma range_scan_ok t es start stop :
  tree_ok t es -> range_scan t start stop = Some (es_range start stop es).
Proof.
  intros H. pose proof (tree_sorted _ _ H) as Hsort.
  destruct (find_leaf_ok t es start H) as (h & s & l & E1 & le & E2 & L1 & L2 & next & Hl & Ht & Hal).
  unfold range_scan. rewrite Hl. cbn [mbind option_bind].
  pose proof (tr_es _ _ _ _ Ht) as Hes. rewrite (al_es _ _ _ _ _ _ _ _ _ _ _ Hal) in Hes.
  pose proof (tr_chain _ _ _ _ Ht) as Hc. rewrite (al_leaves _ _ _ _ _ _ _ _ _ _ _ Hal) in Hc.
  apply chain_app in Hc as [_ Hc].
  assert (Hent : concat (node_entries (nodes t) <$> l :: L2) = le ++ E2).
  { csimpl. rewrite <- (al_right _ _ _ _ _ _ _ _ _ _ _ Hal). f_equal. unfold node_entries.
    rewrite (al_node _ _ _ _ _ _ _ _ _ _ _ Hal). simpl. apply zip_columns. }
  rewrite <- Hes in Hsort. apply es_sorted_app in Hsort as (_ & Hsort & _).
  pose proof (scan_from_ok t start stop (l :: L2) (tree_fuel t)) as Hscan.
  change (default 0 (first_or (l :: L2) None)) with l in Hscan.
  rewrite Hscan; [..|by rewrite Hent| ]; try done.
  - rewrite Hent, <- Hes, (es_range_app _ _ E1), (es_range_below _ _ E1); [done|apply Hal].
  - destruct (tree_fuel_height _ _ _ _ Ht) as [_ Hf].
    rewrite (al_leaves _ _ _ _ _ _ _ _ _ _ _ Hal), length_app in Hf. lia.
  - intros l2 leaf2 Hin Hl2. apply (rep_leaf_columns h (nodes t) s l2); [apply Ht| |done].
    rewrite (al_leaves _ _ _ _ _ _ _ _ _ _ _ Hal). apply elem_of_app. by right.
Qed.

(** A new root over the two halves of the old one. *)
Lemma new_root_ok h t sp s1 s2 es :
  fence None [promoted_key sp] None [s1; s2] -> s_id s1 = root_id t -> s_id s2 = new_page_id sp ->
  Forall (rep h (nodes t)) [s1; s2] -> concat (s_es <$> [s1; s2]) = es ->
  chain (nodes t) (concat (s_leaves <$> [s1; s2])) None -> NoDup (concat (s_ids <$> [s1; s2])) ->
  (forall i, i ∈ concat (s_ids <$> [s1; s2]) -> 0 <= i < next_page_id t) ->
  0 <= next_page_id t -> next_page_id t + 1 < 2 ^ 32 ->
  exists t', ('(t, new_root_id) ← alloc_page t
      (Internal (mkInternal [promoted_key sp] [root_id t; new_page_id sp]));
      Some (mkTree (nodes t) (next_page_id t) new_root_id)) = Some t' /\ tree_ok t' es /\
    next_page_id t' = next_page_id t + 1.
Proof.
  intros Hf H1 H2 Hr Hes Hc Hnd Hids H0 Hn. rewrite alloc_page_ok by done.
  cbn [mbind option_bind nodes next_page_id]. eexists. split; [done|]. split; [|done].
  set (R := next_page_id t) in *. set (ids := concat (s_ids <$> [s1; s2])) in *.
  assert (Hfr : forall i, i ∈ ids ->
    <[R:=Internal (mkInternal [promoted_key sp] [root_id t; new_page_id sp])]> (nodes t) !! i = nodes t !! i).
  { intros i Hi. apply lookup_insert_ne. specialize (Hids i Hi). lia. }
  exists (S h), (mkSeg R None None es (concat (s_leaves <$> [s1; s2])) (R :: ids)).
  constructor; try done; cbn [s_id s_lo s_hi s_es s_leaves s_ids nodes next_page_id root_id].
  - exists [promoted_key sp], [s1; s2]. cbn [s_id s_lo s_hi s_es s_leaves s_ids].
    rewrite lookup_insert_eq. split_and!; try done.
    + by csimpl; rewrite H1, H2.
    + by apply (reps_frame h (nodes t)).
  - apply NoDup_cons. split; [|done]. intros Hi%Hids. lia.
  - intros i [->|Hi]%elem_of_cons; [lia|]. specialize (Hids i Hi). lia.
  - apply (chain_frame (nodes t)); [|done]. intros l Hl. apply Hfr. by eapply leaves_in_ids.
Qed.

Lemma insert_ok t es k r :
  tree_ok t es -> es_lookup k es = None -> next_page_id t < 2 ^ 31 - 1 ->
  exists t', insert_key t k r = Some t' /\ tree_ok t' (es_insert k r es) /\
    next_page_id t <= next_page_id t' <= next_page_id t + INSERT_PAGES.
Proof.
  intros (h & s & Ht) Hno Hpg. destruct (tree_height_pages _ _ _ _ Ht) as [H0 Hh].
  pose proof (tree_height_log _ _ _ _ Ht Hpg) as Hlog.
  destruct (tree_fuel_height _ _ _ _ Ht) as [Hfuel _].
  pose proof (tree_range _ _ _ _ k Ht) as Hk.
  destruct Ht as [Hr Hroot Hlo Hhi Hes Hnd Hids Hc].
  destruct (insert_recursive_rep h t s k r None (tree_fuel t))
    as (t' & res & out & Hrec & Hcv & _); [done|done|by rewrite Hes|done| |done|done|done|lia|].
  { intros i Hi. by apply Hids. }
  unfold insert_key. rewrite <- Hroot, Hrec. cbn [mbind option_bind].
  destruct Hcv as [f1 f2 f3 f4 f5 f6 f7 f8 f9 f10]. rewrite Hlo, Hhi in f1. rewrite Hes in f4.
  assert (Hids' : forall i, i ∈ concat (s_ids <$> out) -> 0 <= i < next_page_id t').
  { intros i [Hi|Hi]%f7; [|lia]. specialize (Hids i Hi). lia. }
  destruct res as [sp|]; cbn [res_keys res_pages] in *.
  - destruct out as [|s1 [|s2 [|? ?]]]; try done. csimpl in f2. injection f2 as g1 g2.
    destruct (new_root_ok h t' sp s1 s2 (es_insert k r es)) as (t2 & Ht2 & Hok2 & Hn2);
      try done; [congruence|lia|lia|].
    exists t2. rewrite Hn2. unfold INSERT_PAGES. split_and!; (done || lia).
  - destruct out as [|s1 [|? ?]]; try done. csimpl in f2. injection f2 as g1.
    eexists. split; [done|]. split; [|unfold INSERT_PAGES; lia].
    exists h, s1. apply Forall_cons in f3 as [f3 _].
    csimpl in f4. csimpl in f5. csimpl in f6. csimpl in Hids'. rewrite app_nil_r in *.
    simpl in f1. destruct f1 as (? & _ & ?). constructor; try done; congruence.
Qed.
End Tree.

(** ** Sequences of calls *)
Inductive tree_op :=
  | TInsert (k : Z) (r : Rid)
  | TDelete (k : Z)
  | TSearch (k : Z)
  | TRange (start stop : Z).

Inductive tree_res :=
  | TDone
  | TDeleted (found : bool)
  | TFound (r : option Rid)
  | TRows (rs : list Rid).

Definition tree_step (t : BTree) (o : tree_op) : option (BTree * tree_res) :=
  match o with
  | TInsert k r => t ← insert_key t k r; Some (t, TDone)
  | TDelete k => '(t, b) ← delete_key t k; Some (t, TDeleted b)
  | TSearch k => r ← search t k; Some (t, TFound r)
  | TRange a b => rs ← range_scan t a b; Some (t, TRows rs)
  end.

Definition entries_step (es : entries) (o : tree_op) : entries * tree_res :=
  match o with
  | TInsert k r => (es_insert k r es, TDone)
  | TDelete k => (es_delete k es, TDeleted (bool_decide (is_Some (es_lookup k es))))
  | TSearch k => (es, TFound (es_lookup k es))
  | TRange a b => (es, TRows (es_range a b es))
  end.

Fixpoint tree_run (t : BTree) (ops : list tree_op) : option (BTree * list tree_res) :=
  match ops with
  | [] => Some (t, [])
  | o :: ops => '(t, r) ← tree_step t o; '(t, rs) ← tree_run t ops; Some (t, r :: rs)
  end.

Fixpoint entries_run (es : entries) (ops : list tree_op) : entries * list tree_res :=
  match ops with
  | [] => (es, [])
  | o :: ops =>
      let '(es, r) := entries_step es o in
      let '(es, rs) := entries_run es ops in (es, r :: rs)
  end.

(** No key is inserted while the index has it. *)
Fixpoint fresh_inserts (es : entries) (ops : list tree_op) : Prop :=
  match ops with
  | [] => True
  | o :: ops =>
      match o with TInsert k _ => es_lookup k es = None | _ => True end /\
      fresh_inserts (entries_step es o).1 ops
  end.

Definition op_pages (o : tree_op) : Z := match o with TInsert _ _ => INSERT_PAGES | _ => 0 end.
Definition ops_pages (ops : list tree_op) : Z := foldr (fun o n => op_pages o + n) 0 ops.

Lemma ops_pages_nonneg ops : 0 <= ops_pages ops.
Proof. induction ops as [|[] ops IH]; simpl in *; unfold INSERT_PAGES; lia. Qed.

Lemma tree_step_ok t es o :
  tree_ok t es -> match o with TInsert k _ => es_lookup k es = None | _ => True end ->
  next_page_id t + op_pages o < 2 ^ 31 ->
  exists t', tree_step t o = Some (t', (entries_step es o).2) /\ tree_ok t' (entries_step es o).1 /\
    next_page_id t' <= next_page_id t + op_pages o.
Proof.
  intros H Hk Hp. destruct o as [k r|k|k|a b]; cbn [op_pages tree_step entries_step fst snd] in *.
  - destruct (insert_ok t es k r H Hk) as (t' & -> & H' & Hn); [unfold INSERT_PAGES in Hp; lia|].
    exists t'. split_and!; [done..|lia].
  - destruct (delete_ok t es k H) as (t' & -> & H' & Hn). cbn [mbind option_bind].
    exists t'. split_and!; (done || lia).
  - rewrite (search_ok t es k H). exists t. split_and!; (done || lia).
  - rewrite (range_scan_ok t es a b H). exists t. split_and!; (done || lia).
Qed.

Lemma tree_run_ok t es ops :
  tree_ok t es -> fresh_inserts es ops -> next_page_id t + ops_pages ops < 2 ^ 31 ->
  exists t', tree_run t ops = Some (t', (entries_run es ops).2) /\ tree_ok t' (entries_run es ops).1.
Proof.
  revert t es. induction ops as [|o ops IH]; intros t es H Hfr Hp; [simpl; eauto|].
  destruct Hfr as [Hk Hfr]. cbn [ops_pages foldr] in Hp. fold (ops_pages ops) in Hp.
  pose proof (ops_pages_nonneg ops).
  destruct (tree_step_ok t es o H Hk ltac:(lia)) as (t1 & Hs & H1 & Hn).
  destruct (IH t1 _ H1 Hfr ltac:(lia)) as (t' & Hr & H').
  exists t'. cbn [tree_run entries_run]. rewrite Hs. destruct (entries_step es o) as [es1 r1].
  simpl in *. rewrite Hr. by destruct (entries_run es1 ops) as [es2 rs].
Qed.

(** C11: the index is a sorted map. From a new tree, any sequence of inserts of
    keys that are not in it, deletes, searches and range scans returns, with
    the answers a list of entries sorted by key gives, and keeps the tree well
    formed; the page ids last for sixty-five million inserts. *)
Theorem btree_refines ops :
  fresh_inserts [] ops -> ops_pages ops < 2 ^ 31 - 1 ->
  exists t', tree_run BTree_new ops = Some (t', (entries_run [] ops).2) /\
    tree_ok t' (entries_run [] ops).1.
Proof.
  intros Hf Hp. apply tree_run_ok; [apply BTree_new_ok|done|].
  change (next_page_id BTree_new) with 1. lia.
Qed.

Definition demo_tree_ops : list tree_op :=
  ((fun k => TInsert k (mkRid (Z.abs k) 1)) <$> [5; -3; 8; 1; 9; 2; 7; 4; 6; 0; 3; 11; 10]) ++
  [TDelete 4; TSearch 8; TSearch 4; TRange 2 6].

Lemma btree_refines_witness :
  exists t', tree_run BTree_new demo_tree_ops = Some (t', (entries_run [] demo_tree_ops).2) /\
    tree_ok t' (entries_run [] demo_tree_ops).1.
Proof. apply (btree_refines demo_tree_ops); [vm_compute; repeat split|reflexivity]. Defined.

(** Equal keys straddle a split: a separator equal to the key sends the scan
    to the right half only, and four of nine rows are found no more. *)
Lemma range_scan_misses_duplicates :
  (t ← foldl (fun t r => t ← t; insert_key t 5 (mkRid r 0)) (Some BTree_new) (seqZ 0 9);
   rs ← range_scan t 5 5; Some (length rs)) = Some 5%nat.
Proof. by vm_compute. Qed.
