(* ===== verification/Text.v ===== *)
(** * Rust strings and floats

    A [String] is its UTF-8 bytes; [chars] decodes them to Unicode scalar
    values and [push] encodes one.  An [f64] is its 64 bits; comparisons and
    conversions go through the IEEE 754 values of the Standard Library. *)
From Stdlib Require Export Floats.SpecFloat.
From S2P Require Export Bytes.
Local Open Scope Z_scope.

Abbreviation rstring := bytes.

(** ** UTF-8 *)
Definition is_scalar (c : Z) : Prop := 0 <= c < 0xD800 \/ 0xE000 <= c < 0x110000.

#[export] Instance is_scalar_dec c : Decision (is_scalar c).
Proof. unfold is_scalar. apply _. Defined.

(** [char::encode_utf8] *)
Definition encode_char (c : Z) : bytes :=
  if c <? 0x80 then [byte_of_Z c]
  else if c <? 0x800 then
    [byte_of_Z (0xC0 + c / 64); byte_of_Z (0x80 + c mod 64)]
  else if c <? 0x10000 then
    [byte_of_Z (0xE0 + c / 4096); byte_of_Z (0x80 + c / 64 mod 64); byte_of_Z (0x80 + c mod 64)]
  else
    [byte_of_Z (0xF0 + c / 262144); byte_of_Z (0x80 + c / 4096 mod 64);
     byte_of_Z (0x80 + c / 64 mod 64); byte_of_Z (0x80 + c mod 64)].

(** The payload of a continuation byte. *)
Definition continuation (b : byte) : option Z :=
  let z := Z_of_byte b in if (0x80 <=? z) && (z <? 0xC0) then Some (z - 0x80) else None.

(** The characters of a byte string; [None] when it is not UTF-8: a stray or
    missing continuation, an overlong form, a surrogate, a value too large. *)
Fixpoint decode_utf8 (l : bytes) : option (list Z) :=
  match l with
  | [] => Some []
  | b :: l =>
      let z := Z_of_byte b in
      if z <? 0x80 then cs ← decode_utf8 l; Some (z :: cs)
      else if z <? 0xC0 then None
      else if z <? 0xE0 then
        match l with
        | b1 :: l =>
            x1 ← continuation b1;
            let c := (z - 0xC0) * 64 + x1 in
            if c <? 0x80 then None else cs ← decode_utf8 l; Some (c :: cs)
        | _ => None
        end
      else if z <? 0xF0 then
        match l with
        | b1 :: b2 :: l =>
            x1 ← continuation b1; x2 ← continuation b2;
            let c := (z - 0xE0) * 4096 + x1 * 64 + x2 in
            if (c <? 0x800) || ((0xD800 <=? c) && (c <? 0xE000)) then None
            else cs ← decode_utf8 l; Some (c :: cs)
        | _ => None
        end
      else if z <? 0xF8 then
        match l with
        | b1 :: b2 :: b3 :: l =>
            x1 ← continuation b1; x2 ← continuation b2; x3 ← continuation b3;
            let c := (z - 0xF0) * 262144 + x1 * 4096 + x2 * 64 + x3 in
            if (c <? 0x10000) || (0x110000 <=? c) then None
            else cs ← decode_utf8 l; Some (c :: cs)
        | _ => None
        end
      else None
  end.

Definition encode_utf8 (cs : list Z) : bytes := cs ≫= encode_char.

(** What every [String] satisfies. *)
Definition utf8 (s : rstring) : Prop := is_Some (decode_utf8 s).

#[export] Instance utf8_dec s : Decision (utf8 s).
Proof. unfold utf8. apply _. Defined.

(** [String::from_utf8] *)
Definition from_utf8 (b : bytes) : option rstring :=
  match decode_utf8 b with Some _ => Some b | None => None end.

Definition chars (s : rstring) : list Z := default [] (decode_utf8 s).

Lemma from_utf8_valid s : utf8 s -> from_utf8 s = Some s.
Proof. intros [cs H]. unfold from_utf8. by rewrite H. Qed.

Lemma from_utf8_Some b s : from_utf8 b = Some s -> s = b /\ utf8 s.
Proof. unfold from_utf8, utf8. destruct (decode_utf8 b) eqn:E; [|done]. intros [= <-]. eauto. Qed.

Lemma continuation_of x : 0 <= x < 64 -> continuation (byte_of_Z (0x80 + x)) = Some x.
Proof.
  intros. unfold continuation. rewrite Z_of_byte_of_Z, Z.mod_small by lia.
  rewrite (proj2 (Z.leb_le _ _)), (proj2 (Z.ltb_lt _ _)) by lia. simpl. f_equal. lia.
Qed.

Ltac utf8_bounds :=
  repeat match goal with
  | |- context [?x <? ?y] =>
      first [rewrite (proj2 (Z.ltb_lt x y)) by lia | rewrite (proj2 (Z.ltb_ge x y)) by lia]
  | |- context [?x <=? ?y] =>
      first [rewrite (proj2 (Z.leb_le x y)) by lia | rewrite (proj2 (Z.leb_gt x y)) by lia]
  end.

Lemma decode_encode_char c l :
  is_scalar c -> decode_utf8 (encode_char c ++ l) = cs ← decode_utf8 l; Some (c :: cs).
Proof.
  unfold is_scalar. intros Hc. unfold encode_char.
  pose proof (Z.div_mod c 64 ltac:(done)) as H1. pose proof (Z.mod_pos_bound c 64 eq_refl).
  pose proof (Z.div_mod (c / 64) 64 ltac:(done)) as H2. pose proof (Z.mod_pos_bound (c / 64) 64 eq_refl).
  rewrite Z.div_div in H2 by done. change (64 * 64) with 4096 in H2.
  pose proof (Z.div_mod (c / 4096) 64 ltac:(done)) as H3. pose proof (Z.mod_pos_bound (c / 4096) 64 eq_refl).
  rewrite Z.div_div in H3 by done. change (4096 * 64) with 262144 in H3.
  destruct (Z.ltb_spec c 0x80); [|destruct (Z.ltb_spec c 0x800); [|destruct (Z.ltb_spec c 0x10000)]];
    cbn [app decode_utf8]; rewrite ?continuation_of, ?Z_of_byte_of_Z by lia;
    rewrite Z.mod_small by lia; utf8_bounds; cbn [mbind option_bind].
  - done.
  - replace ((192 + c / 64 - 192) * 64 + c mod 64) with c by lia. by utf8_bounds.
  - replace ((224 + c / 4096 - 224) * 4096 + (c / 64) mod 64 * 64 + c mod 64) with c by lia.
    destruct Hc; utf8_bounds; done.
  - replace ((240 + c / 262144 - 240) * 262144 + (c / 4096) mod 64 * 4096 + (c / 64) mod 64 * 64 + c mod 64)
      with c by lia. utf8_bounds. done.
Qed.

Lemma decode_encode_utf8 cs : Forall is_scalar cs -> decode_utf8 (encode_utf8 cs) = Some cs.
Proof.
  induction 1 as [|c cs Hc _ IH]; [done|]. unfold encode_utf8 in *.
  by rewrite bind_cons, decode_encode_char, IH.
Qed.

(** encoding then decoding gives the characters back: a string that was
    built by pushing characters is valid UTF-8, one to four bytes each, and
    [chars] returns exactly what was pushed. *)
Theorem utf8_roundtrip cs :
  Forall is_scalar cs -> utf8 (encode_utf8 cs) /\ chars (encode_utf8 cs) = cs /\
    from_utf8 (encode_utf8 cs) = Some (encode_utf8 cs).
Proof.
  intros H%decode_encode_utf8. unfold utf8, chars, from_utf8. rewrite H. by split_and!.
Qed.

Lemma utf8_roundtrip_witness :
  utf8 (encode_utf8 [0x41; 0xE9; 0x20AC; 0x1F600]) /\
  chars (encode_utf8 [0x41; 0xE9; 0x20AC; 0x1F600]) = [0x41; 0xE9; 0x20AC; 0x1F600] /\
  from_utf8 (encode_utf8 [0x41; 0xE9; 0x20AC; 0x1F600]) = Some (encode_utf8 [0x41; 0xE9; 0x20AC; 0x1F600]).
Proof. apply utf8_roundtrip. unfold is_scalar. repeat constructor; lia. Defined.

(** [str] comparison is on the bytes, from the left. *)
Fixpoint compare_bytes (a b : bytes) : comparison :=
  match a, b with
  | [], [] => Eq
  | [], _ :: _ => Lt
  | _ :: _, [] => Gt
  | x :: a, y :: b =>
      match Z_of_byte x ?= Z_of_byte y with Eq => compare_bytes a b | c => c end
  end.

(** ** [f64] *)
Definition prec : Z := 53.
Definition emax : Z := 1024.

(** The value of 64 bits: sign, eleven bits of exponent, fifty-two of
    fraction. *)
Definition f64_value (bits : Z) : spec_float :=
  let sign := Z.testbit bits 63 in
  let e := Z.land (Z.shiftr bits 52) 2047 in
  let m := Z.land bits (2 ^ 52 - 1) in
  if e =? 2047 then if m =? 0 then S754_infinity sign else S754_nan
  else if e =? 0 then
    match m with Zpos p => S754_finite sign p (-1074) | _ => S754_zero sign end
  else match m + 2 ^ 52 with Zpos p => S754_finite sign p (e - 1075) | _ => S754_nan end.

(** The bits of a value in canonical form; the quiet NaN. *)
Definition f64_bits (f : spec_float) : Z :=
  match f with
  | S754_zero s => if s then 2 ^ 63 else 0
  | S754_infinity s => (if s then 2 ^ 63 else 0) + 2047 * 2 ^ 52
  | S754_nan => 2047 * 2 ^ 52 + 2 ^ 51
  | S754_finite s m e =>
      (if s then 2 ^ 63 else 0) +
      (if Zpos m <? 2 ^ 52 then Zpos m else (e + 1075) * 2 ^ 52 + (Zpos m - 2 ^ 52))
  end.

(** [f64::partial_cmp]: no order with NaN, the two zeros equal. *)
Definition f64_partial_cmp (a b : Z) : option comparison := SFcompare (f64_value a) (f64_value b).

(** [n as f64]: the nearest value, ties to even. *)
Definition f64_of_int (n : Z) : Z := f64_bits (binary_normalize prec emax n 0 false).

(** The nearest value of a decimal [m / 10^k], with a sign. *)
Definition f64_of_decimal (neg : bool) (m : Z) (k : nat) : Z :=
  f64_bits
    match m with
    | Zpos p => SFdiv prec emax (S754_finite neg p 0) (S754_finite false (Z.to_pos (10 ^ Z.of_nat k)) 0)
    | _ => S754_zero neg
    end.
