(* ===== verification/Sort.v ===== *)
(** * Stable sorting: [slice::sort_by]

    The list a stable sort leaves, for a comparison that totally orders the
    elements, with its specification; the order of [f64] without NaN. *)
From stdpp Require Export sorting.
From S2P Require Export Text.
Local Open Scope Z_scope.

(** [slice::sort_by] is stable: for a comparison that is a total order on the
    elements this is the list it leaves. *)
Fixpoint insert_by {A} (cmp : A -> A -> comparison) (x : A) (l : list A) : list A :=
  match l with
  | [] => [x]
  | y :: l' => match cmp x y with Gt => y :: insert_by cmp x l' | _ => x :: l end
  end.

Definition sort_by {A} (cmp : A -> A -> comparison) (l : list A) : list A :=
  foldr (insert_by cmp) [] l.

(** ** Specification *)
(** A comparison that totally orders the elements of [P], ties allowed. *)
Record total_on {A} (P : A -> Prop) (cmp : A -> A -> comparison) : Prop := {
  to_sym x y : P x -> P y -> cmp y x = CompOpp (cmp x y);
  to_trans x y z : P x -> P y -> P z -> cmp x y <> Gt -> cmp y z <> Gt -> cmp x z <> Gt;
}.

Section Sorting.
Context {A : Type} (P : A -> Prop) (cmp : A -> A -> comparison).
Hypothesis Hcmp : total_on P cmp.
Implicit Types (l : list A) (x y : A).

Definition le_by x y : Prop := cmp x y <> Gt.

Lemma insert_by_perm x l : insert_by cmp x l ≡ₚ x :: l.
Proof.
  induction l as [|y l IH]; simpl; [done|]. destruct (cmp x y); [done..|].
  rewrite IH. apply perm_swap.
Qed.

Lemma sort_by_perm l : sort_by cmp l ≡ₚ l.
Proof. induction l as [|x l IH]; simpl; [done|]. by rewrite insert_by_perm, IH. Qed.

Lemma sort_by_Forall (Q : A -> Prop) l : Forall Q l -> Forall Q (sort_by cmp l).
Proof. intros H. by rewrite sort_by_perm. Qed.

Lemma insert_by_sorted x l :
  P x -> Forall P l -> StronglySorted le_by l -> StronglySorted le_by (insert_by cmp x l).
Proof.
  intros Hx HP Hs. induction Hs as [|y l Hs IH Hy]; simpl; [repeat constructor|].
  apply Forall_cons in HP as [Py Pl]. destruct (cmp x y) eqn:E.
  1,2: (constructor; [by constructor|]; constructor; [unfold le_by; congruence|]);
    (rewrite Forall_forall in Hy, Pl |- *; intros z Hz;
     apply (to_trans _ _ Hcmp x y z); [done|done|by apply Pl|congruence|by apply Hy]).
  constructor; [by apply IH|]. rewrite insert_by_perm. constructor; [|done].
  unfold le_by. rewrite (to_sym _ _ Hcmp x y) by done. by rewrite E.
Qed.

Lemma sort_by_sorted l : Forall P l -> StronglySorted le_by (sort_by cmp l).
Proof.
  induction 1 as [|x l Hx Hl IH]; simpl; [constructor|].
  apply insert_by_sorted; [done|by apply sort_by_Forall|done].
Qed.

(** Stability: among the elements equivalent to one, the order is kept. *)
Lemma insert_by_stable z x l :
  P z -> P x -> Forall P l ->
  filter (fun y => cmp z y = Eq) (insert_by cmp x l) = filter (fun y => cmp z y = Eq) (x :: l).
Proof.
  intros Hz Hx HP. induction HP as [|y l Hy Hl IH]; [done|]. simpl insert_by.
  destruct (cmp x y) eqn:E; [done..|]. rewrite filter_cons, IH, !filter_cons.
  destruct (decide (cmp z y = Eq)) as [Ey|]; destruct (decide (cmp z x = Eq)) as [Ex|]; try done.
  destruct (to_trans _ _ Hcmp x z y); try done; [|congruence].
  rewrite (to_sym _ _ Hcmp z x) by done. by rewrite Ex.
Qed.

Lemma sort_by_stable z l :
  P z -> Forall P l -> filter (fun y => cmp z y = Eq) (sort_by cmp l) = filter (fun y => cmp z y = Eq) l.
Proof.
  intros Hz. induction 1 as [|x l Hx Hl IH]; [done|]. cbn [sort_by foldr].
  rewrite insert_by_stable by (done || by apply sort_by_Forall).
  rewrite !filter_cons. fold (sort_by cmp l). rewrite IH. done.
Qed.

(** A sorted list stays as it is. *)
Lemma sort_by_fixed l : StronglySorted le_by l -> sort_by cmp l = l.
Proof.
  induction 1 as [|x l Hs IH Hx]; [done|]. cbn [sort_by foldr]. fold (sort_by cmp l). rewrite IH.
  destruct l as [|y l]; [done|]. apply Forall_cons in Hx as [Hxy _]. simpl.
  unfold le_by in Hxy. by destruct (cmp x y).
Qed.

Lemma sorted_take n l : StronglySorted le_by l -> StronglySorted le_by (take n l).
Proof.
  intros Hs. revert n. induction Hs as [|x l Hs IH Hx]; intros [|n]; simpl; try constructor; [done|].
  by apply Forall_take.
Qed.
End Sorting.

(** ** Keys *)
(** Comparisons read off sort keys, compared from the left. *)
Fixpoint lex (a b : list Z) : comparison :=
  match a, b with
  | [], [] => Eq
  | [], _ :: _ => Lt
  | _ :: _, [] => Gt
  | x :: a, y :: b => match x ?= y with Eq => lex a b | c => c end
  end.

Definition float_key (f : spec_float) : list Z :=
  match f with
  | S754_zero _ => [0]
  | S754_infinity s => [if s then -2 else 2]
  | S754_finite s m e => if s then [-1; - e; - Zpos m] else [1; e; Zpos m]
  | S754_nan => []
  end.

Lemma lex_sym a b : lex b a = CompOpp (lex a b).
Proof.
  revert b. induction a as [|x a IH]; intros [|y b]; simpl; try done.
  rewrite (Z.compare_antisym x y). destruct (x ?= y); simpl; auto.
Qed.

Lemma lex_trans a b c : lex a b <> Gt -> lex b c <> Gt -> lex a c <> Gt.
Proof.
  revert b c. induction a as [|x a IH]; intros [|y b] [|z c]; simpl; try done.
  destruct (Z.compare_spec x y); destruct (Z.compare_spec y z); destruct (Z.compare_spec x z);
    try done; try lia. apply IH.
Qed.

Lemma float_lex f g :
  f <> S754_nan -> g <> S754_nan -> SFcompare f g = Some (lex (float_key f) (float_key g)).
Proof.
  destruct f as [s|s| |s m e], g as [s'|s'| |s' m' e']; intros; try done;
    destruct s; try destruct s'; try done; simpl.
  - rewrite Z.compare_opp. simpl. rewrite (Z.compare_antisym e' e).
    destruct (Z.compare_spec e' e); simpl; try done.
    by destruct (m ?= m')%positive eqn:E; unfold Pos.compare in E; rewrite E.
  - destruct (e ?= e'); try done.
    by destruct (m ?= m')%positive eqn:E; unfold Pos.compare in E; rewrite E.
Qed.


(** [f64::partial_cmp] without NaN. *)
Definition float_cmp (f g : spec_float) : comparison := default Eq (SFcompare f g).

Lemma float_cmp_total : total_on (fun f => f <> S754_nan) float_cmp.
Proof.
  constructor; unfold float_cmp.
  - intros f g Hf Hg. rewrite !float_lex by done. apply lex_sym.
  - intros f g h Hf Hg Hh. rewrite !float_lex by done. apply lex_trans.
Qed.
