(* ===== verification/Distance.v ===== *)
(** * Distances between vectors: index/hnsw/distance.rs

    The arithmetic is that of IEEE 754 binary64, on values: a NaN has no
    payload here, and nothing in the source looks at one.  The loops are left
    folds over the two slices, in the order and with the operands of the
    source, rounding at every step. *)
From S2P Require Export Text.
Local Open Scope Z_scope.

Abbreviation f64 := spec_float.

(** ** [f64] operations *)
Definition fadd : f64 -> f64 -> f64 := SFadd prec emax.
Definition fsub : f64 -> f64 -> f64 := SFsub prec emax.
Definition fmul : f64 -> f64 -> f64 := SFmul prec emax.
Definition fdiv : f64 -> f64 -> f64 := SFdiv prec emax.
Definition fsqrt : f64 -> f64 := SFsqrt prec emax.
Definition f64_zero : f64 := S754_zero false.
Definition f64_one : f64 := SFone prec emax.

Definition is_nan (x : f64) : bool := match x with S754_nan => true | _ => false end.

Definition is_finite (x : f64) : bool :=
  match x with S754_zero _ | S754_finite _ _ _ => true | _ => false end.

(** ** The metrics *)
Inductive DistanceMetric := Euclidean | Cosine | DotProduct.

Definition metric_default : DistanceMetric := Cosine.

Definition square_step (sum : f64) (p : f64 * f64) : f64 :=
  let diff := fsub p.1 p.2 in fadd sum (fmul diff diff).

Definition dot_step (dot : f64) (p : f64 * f64) : f64 := fadd dot (fmul p.1 p.2).

(** The loop of the cosine: [dot], [mag_a] and [mag_b]. *)
Definition cosine_step (acc : f64 * f64 * f64) (p : f64 * f64) : f64 * f64 * f64 :=
  let '(dot, mag_a, mag_b) := acc in
  (fadd dot (fmul p.1 p.2), fadd mag_a (fmul p.1 p.1), fadd mag_b (fmul p.2 p.2)).

(** [assert_eq!] of the lengths panics. *)
Definition compute_squared {E} (a b : list f64) : result E f64 :=
  if decide (length a = length b) then Ok (fold_left square_step (zip a b) f64_zero)
  else Panic.

Definition compute {E} (metric : DistanceMetric) (a b : list f64) : result E f64 :=
  if decide (length a = length b) then
    match metric with
    | Euclidean => sum ← compute_squared a b; Ok (fsqrt sum)
    | Cosine =>
        let '(dot, mag_a, mag_b) :=
          fold_left cosine_step (zip a b) (f64_zero, f64_zero, f64_zero) in
        let mag_a := fsqrt mag_a in
        let mag_b := fsqrt mag_b in
        if SFeqb mag_a f64_zero || SFeqb mag_b f64_zero then Ok f64_one
        else Ok (fsub f64_one (fdiv dot (fmul mag_a mag_b)))
    | DotProduct => Ok (SFopp (fold_left dot_step (zip a b) f64_zero))
    end
  else Panic.

(** ** Commutation *)
Lemma fmul_comm x y : fmul x y = fmul y x.
Proof.
  destruct x as [s| s| |s m e], y as [s'| s'| |s' m' e']; cbn; rewrite 1?xorb_comm; try done.
  by rewrite Pos.mul_comm, Z.add_comm.
Qed.

Lemma binary_round_opp s m e :
  binary_round prec emax (negb s) m e = SFopp (binary_round prec emax s m e).
Proof.
  unfold binary_round. destruct (shl_align _ _ _) as [mz ez]. unfold binary_round_aux.
  destruct (shr_fexp _ _ (Zpos mz) ez loc_Exact) as [r e1].
  destruct (shr_fexp _ _ _ e1 loc_Exact) as [r' e2].
  destruct (shr_m r'); [done| |done]. by destruct (_ <=? _).
Qed.

(** [x - y] and [y - x] are opposite, except that a difference of zero is
    always positive: their squares are the same. *)
Lemma fsub_square_comm x y : fmul (fsub x y) (fsub x y) = fmul (fsub y x) (fsub y x).
Proof.
  assert (Hopp : forall z, fmul (SFopp z) (SFopp z) = fmul z z) by (intros [[]|[]| |[] m e]; done).
  assert (fsub y x = SFopp (fsub x y) \/ fsub y x = fsub x y) as [->| ->]; [|by rewrite Hopp|done].
  destruct x as [s| s| |s m e], y as [s'| s'| |s' m' e'];
    try (destruct s, s'; cbn; by auto); try (destruct s; cbn; by auto); try (cbn; by auto).
  unfold fsub, SFsub. rewrite (Z.min_comm e' e). cbv zeta.
  set (u := cond_Zopp s _). set (v := cond_Zopp s' _).
  replace (v - u) with (- (u - v)) by lia.
  destruct (u - v) as [|p|p]; cbn [Z.opp binary_normalize]; [by right|left..].
  - apply (binary_round_opp false).
  - rewrite <-(binary_round_opp true). done.
Qed.

(** Two folds whose steps agree on each pair agree. *)
Lemma fold_left_swap {S} (f g : S -> f64 * f64 -> S) a b s :
  (forall s x y, f s (x, y) = g s (y, x)) -> fold_left f (zip a b) s = fold_left g (zip b a) s.
Proof.
  intros H. revert b s. induction a as [|x a IH]; intros [|y b] s; try done. cbn. by rewrite H, IH.
Qed.

Lemma cosine_fold a b : forall d x y,
  fold_left cosine_step (zip a b) (d, x, y) =
  let '(d', y', x') := fold_left cosine_step (zip b a) (d, y, x) in (d', x', y').
Proof.
  revert b. induction a as [|u a IH]; intros [|v b] d x y; try done.
  cbn. rewrite IH. by rewrite (fmul_comm u v).
Qed.

(** The distance from [a] to [b] is the distance from [b] to [a], bit for bit
    but for the payload of a NaN, in every metric; both orders panic when the
    dimensions differ. *)
Lemma compute_comm {E} metric a b : compute (E := E) metric a b = compute metric b a.
Proof.
  unfold compute, compute_squared.
  destruct (decide (length a = length b)) as [Hl|], (decide (length b = length a)); try done.
  destruct metric; cbn [mbind result_bind].
  - do 2 f_equal. apply fold_left_swap. intros. unfold square_step; cbn. by rewrite fsub_square_comm.
  - rewrite cosine_fold. destruct (fold_left _ _ _) as [[d y] x].
    rewrite orb_comm, (fmul_comm (fsqrt x)). done.
  - do 2 f_equal. apply fold_left_swap. intros. unfold dot_step; cbn. by rewrite fmul_comm.
Qed.

Lemma compute_dims {E} metric a b r : compute (E := E) metric a b = Ok r -> length a = length b.
Proof. unfold compute. by case_decide. Qed.

Lemma compute_panics {E} metric a b :
  compute (E := E) metric a b = Panic <-> length a <> length b.
Proof.
  unfold compute, compute_squared. destruct (decide (length a = length b)); [|done].
  split; [|done]. destruct metric; [done| |done]. destruct (fold_left _ _ _) as [[d y] x].
  by destruct (_ || _).
Qed.

(** ** Euclidean distances have no NaN *)
Definition has_sign (s : bool) (x : f64) : Prop :=
  match x with
  | S754_zero s' | S754_infinity s' | S754_finite s' _ _ => s' = s
  | S754_nan => False
  end.

(** What a distance should be: a number that is not negative, or infinity. *)
Definition nonneg : f64 -> Prop := has_sign false.

Lemma has_sign_no_nan s x : has_sign s x -> is_nan x = false.
Proof. by destruct x. Qed.

Section Rounding.

Lemma shr_1_nonneg r : 0 <= shr_m r -> 0 <= shr_m (shr_1 r).
Proof. by destruct r as [[|[]|] ? ?]. Qed.

Lemma iter_pos_nonneg n r : 0 <= shr_m r -> 0 <= shr_m (SpecFloat.iter_pos shr_1 n r).
Proof. revert r. induction n; intros r Hr; cbn; eauto using shr_1_nonneg. Qed.

Lemma shr_fexp_nonneg m e l : 0 <= m -> 0 <= shr_m (shr_fexp prec emax m e l).1.
Proof.
  intros Hm. assert (0 <= shr_m (shr_record_of_loc m l)) by (by destruct l as [|[]]).
  unfold shr_fexp, shr. destruct (_ - _); [done| |done]. by apply iter_pos_nonneg.
Qed.

Lemma round_nonneg m l : 0 <= m -> 0 <= round_nearest_even m l.
Proof. destruct l as [|[]]; cbn; try (destruct (Z.even m)); lia. Qed.

Lemma binary_round_aux_sign s m e l : 0 <= m -> has_sign s (binary_round_aux prec emax s m e l).
Proof.
  intros Hm. unfold binary_round_aux.
  destruct (shr_fexp _ _ m e l) as [r e1] eqn:E1.
  pose proof (shr_fexp_nonneg m e l Hm) as H1. rewrite E1 in H1.
  set (m' := round_nearest_even _ _).
  pose proof (shr_fexp_nonneg m' e1 loc_Exact (round_nonneg _ _ H1)) as H2.
  destruct (shr_fexp _ _ m' e1 loc_Exact) as [r' e2]. cbn in H2.
  destruct (shr_m r'); [done| |lia]. by destruct (_ <=? _).
Qed.

Lemma binary_round_sign s m e : has_sign s (binary_round prec emax s m e).
Proof. unfold binary_round. destruct (shl_align _ _ _). by apply binary_round_aux_sign. Qed.

End Rounding.

Lemma fmul_square x : is_nan x = false -> nonneg (fmul x x).
Proof.
  destruct x as [[]|[]| |s m e]; try done. intros _. unfold fmul, SFmul.
  replace (xorb s s) with false by (by destruct s). by apply binary_round_aux_sign.
Qed.

Lemma fadd_nonneg x y : nonneg x -> nonneg y -> nonneg (fadd x y).
Proof.
  destruct x as [s| s| |s m e], y as [s'| s'| |s' m' e']; cbn; try done; intros -> ->; try done.
  apply binary_round_sign.
Qed.

Lemma fsqrt_nonneg x : nonneg x -> nonneg (fsqrt x).
Proof.
  destruct x as [s| s| |s m e]; cbn; try done; intros ->; [done|].
  unfold fsqrt, SFsqrt, SFsqrt_core_binary.
  set (m' := match _ with Z0 => _ | Zpos _ => _ | Zneg _ => _ end).
  destruct (Z.sqrtrem m') as [q r] eqn:E. apply binary_round_aux_sign.
  rewrite (surjective_pairing (Z.sqrtrem m')), Z.sqrtrem_sqrt in E. injection E as <- _.
  apply Z.sqrt_nonneg.
Qed.

Lemma fsub_finite x y : is_finite x -> is_finite y -> is_nan (fsub x y) = false.
Proof.
  destruct x as [s|s| |s m e], y as [s'|s'| |s' m' e']; try done; intros _ _;
    try (by destruct s, s').
  unfold fsub, SFsub. set (d := Z.sub _ _). destruct d as [|p|p]; [done| |];
    exact (has_sign_no_nan _ _ (binary_round_sign _ _ _)).
Qed.

(** The Euclidean distance of finite vectors of one dimension is a distance. *)
Lemma euclidean_nonneg {E} a b :
  length a = length b -> Forall is_finite a -> Forall is_finite b ->
  exists d, compute (E := E) Euclidean a b = Ok d /\ nonneg d.
Proof.
  intros Hl Ha Hb. unfold compute, compute_squared. rewrite !decide_True by done.
  eexists; split; [reflexivity|]. apply fsqrt_nonneg. clear Hl.
  assert (nonneg f64_zero) as Hs by done. revert b Hb Hs. generalize f64_zero.
  induction Ha as [|x a Hx _ IH]; intros s [|y b] Hb Hs; try done.
  inversion_clear Hb. cbn. apply IH; [done|].
  apply fadd_nonneg; [done|]. by apply fmul_square, fsub_finite.
Qed.

(** A finite vector is at distance zero from itself. *)
Lemma euclidean_self {E} a :
  Forall is_finite a -> compute (E := E) Euclidean a a = Ok f64_zero.
Proof.
  intros Ha. unfold compute, compute_squared. rewrite !decide_True by done. cbn [mbind result_bind].
  assert (fold_left square_step (zip a a) f64_zero = f64_zero) as ->; [|done].
  induction Ha as [|x a Hx _ IH]; [done|]. cbn [zip fold_left].
  assert (fsub x x = f64_zero) as Hz.
  { destruct x as [[]|[]| |s m e]; try done. unfold fsub, SFsub. by rewrite Z.sub_diag. }
  unfold square_step at 2. cbn [fst snd]. rewrite Hz. exact IH.
Qed.

Example euclidean_3_4_5 :
  compute (E := unit) Euclidean [f64_value 0; f64_value 0] [f64_value (f64_of_int 3); f64_value (f64_of_int 4)]
  = Ok (f64_value (f64_of_int 5)).
Proof. vm_compute. reflexivity. Qed.
