(* ===== verification/Hnsw.v ===== *)
(** * The HNSW graph: index/hnsw/mod.rs

    A node has a list of neighbours on each of its layers; search walks one
    layer at a time.  Ids are [u32]s; a node is found by the first id that
    matches, as [iter().find] does.  [Panic] is a sort that meets a NaN, a
    dimension mismatch, an index out of range or an allocation that is too
    large; the only [Err] is fuel that ran out. *)
From S2P Require Export Sort Distance.
Local Open Scope nat_scope.

Inductive fault := OutOfFuel.
Abbreviation run A := (result fault A).

(** The random numbers of the [rand] crate and the logarithm of the
    platform. *)
Class Randomness := {
  StdRng : Type;
  seed_from_u64 : Z -> StdRng;
  gen_f64 : StdRng -> f64 * StdRng;
  ln : f64 -> f64;
}.

(** [n as f64] *)
Definition f64_of_usize (n : nat) : f64 := f64_value (f64_of_int (Z.of_nat n)).

(** [x.floor() as usize]: the cast saturates and sends NaN to zero. *)
Definition usize_max : Z := 2 ^ 64 - 1.

Definition floor_usize (x : f64) : Z :=
  match x with
  | S754_finite false mant e => Z.min usize_max (Z.shiftl (Z.pos mant) e)
  | S754_infinity false => usize_max
  | _ => 0%Z
  end.

(** ** Data *)
Record HnswConfig := mkConfig {
  m : nat; m_max : nat; ef_construction : nat; ef_search : nat; ml : f64 }.

Record Vector := mkVector { vector_dims : nat; data : list f64 }.

Record HnswNode := mkNode { node_id : Z; vector : Vector; layers : list (list Z) }.

Record HnswStats := mkStats {
  num_nodes : nat; stats_max_layer : nat; avg_neighbors_layer0 : f64; stats_entry_point : option Z }.

Definition Vector_new (d : list f64) : Vector := mkVector (length d) d.

(** [PartialEq] on vectors is IEEE equality of the components. *)
Definition Vector_eq (v w : Vector) : bool :=
  bool_decide (vector_dims v = vector_dims w) && bool_decide (length (data v) = length (data w)) &&
  forallb (fun p => SFeqb p.1 p.2) (zip (data v) (data w)).

(** [candidates.iter().take(m).map(|(id, _)| *id)] *)
Definition select_neighbors (candidates : list (Z * f64)) (limit : nat) : list Z :=
  (take limit candidates).*1.

(** [sort_by(|a, b| a.1.partial_cmp(&b.1).unwrap())]: a sort of two or more
    elements compares each of them, so a NaN panics. *)
Definition dist_cmp (a b : Z * f64) : comparison := float_cmp a.2 b.2.

Definition sort_candidates (l : list (Z * f64)) : run (list (Z * f64)) :=
  if decide (2 <= length l) then
    if existsb (fun p => is_nan p.2) l then Panic else Ok (sort_by dist_cmp l)
  else Ok l.

(** [results.last().map(|(_, d)| *d).unwrap_or(f64::INFINITY)] *)
Definition worst (results : list (Z * f64)) : f64 :=
  match last results with Some (_, d) => d | None => S754_infinity false end.

(** [Vec::truncate] *)
Definition truncate {A} (n : nat) (l : list A) : list A := if n <? length l then take n l else l.

(** [(0..=level).map(|_| Vec::new()).collect()]: a [Vec] is 24 bytes and an
    allocation holds at most [isize::MAX] of them. *)
Definition new_layers (level : Z) : run (list (list Z)) :=
  if decide (24 * (level + 1) < 2 ^ 63)%Z then Ok (replicate (Z.to_nat (level + 1)) []) else Panic.

(** [(level + 1..=top).rev()] *)
Definition layers_above (level : Z) (top : nat) : list nat :=
  if decide (Z.of_nat top <= level)%Z then []
  else rev (seq (S (Z.to_nat level)) (top - Z.to_nat level)).

Section Graph.
Context `{Randomness}.

Definition HnswConfig_new (limit efc efs : nat) : run HnswConfig :=
  if decide (2 * Z.of_nat limit <= usize_max)%Z then
    Ok (mkConfig limit (2 * limit) efc efs (fdiv f64_one (ln (f64_of_usize limit))))
  else Panic.

Definition HnswConfig_default : run HnswConfig := HnswConfig_new 16 200 50.
Definition HnswConfig_for_small_dataset : run HnswConfig := HnswConfig_new 8 100 20.

Record HnswGraph := mkGraph {
  config : HnswConfig; nodes : list HnswNode; entry_point : option Z; max_layer : nat;
  dims : nat; rng : option StdRng }.

Definition HnswGraph_new (d : nat) (c : HnswConfig) : HnswGraph := mkGraph c [] None 0 d None.

Definition HnswGraph_new_with_seed (d : nat) (c : HnswConfig) (seed : Z) : HnswGraph :=
  mkGraph c [] None 0 d (Some (seed_from_u64 seed)).

Definition graph_len (g : HnswGraph) : nat := length (nodes g).
Definition graph_is_empty (g : HnswGraph) : bool := match nodes g with [] => true | _ => false end.

Definition stats (g : HnswGraph) : HnswStats :=
  let n := length (nodes g) in
  let total := sum_list_with (fun x => from_option length 0 (head (layers x))) (nodes g) in
  mkStats n (max_layer g)
    (if decide (n = 0) then f64_zero else fdiv (f64_of_usize total) (f64_of_usize n))
    (entry_point g).

(** [self.nodes.iter().find(|n| n.id == id)] *)
Definition get_node (g : HnswGraph) (i : Z) : option HnswNode :=
  snd <$> list_find (fun n => node_id n = i) (nodes g).

(** What is done through [get_node_mut]. *)
Definition update_node (f : HnswNode -> HnswNode) (i : Z) (g : HnswGraph) : HnswGraph :=
  match list_find (fun n => node_id n = i) (nodes g) with
  | Some (k, _) =>
      mkGraph (config g) (alter f k (nodes g)) (entry_point g) (max_layer g) (dims g) (rng g)
  | None => g
  end.

(** A change of the neighbours of a node on a layer the node has. *)
Definition alter_links (f : list Z -> list Z) (i : Z) (layer : nat) : HnswGraph -> HnswGraph :=
  update_node (fun n => mkNode (node_id n) (vector n) (alter f layer (layers n))) i.

(** The level of a new node: a draw from the seeded generator, or the one the
    thread's generator makes. *)
Definition random_level (g : HnswGraph) (thread_draw : f64) : Z * option StdRng :=
  let '(r, rng') :=
    match rng g with
    | Some seeded => let '(r, s) := gen_f64 seeded in (r, Some s)
    | None => (thread_draw, None)
    end in
  (floor_usize (fmul (SFopp (ln r)) (ml (config g))), rng').

(** ** Search *)
(** [visited], [candidates] and [results]. *)
Definition beam : Type := gset Z * list (Z * f64) * list (Z * f64).

Section SearchLayer.
Variables (g : HnswGraph) (query : Vector) (ef layer : nat) (metric : DistanceMetric).

Fixpoint seed_beam (entry_points : list Z) (b : beam) : run beam :=
  match entry_points with
  | [] => Ok b
  | ep_id :: rest =>
      let '(visited, candidates, results) := b in
      if decide (ep_id ∈ visited) then seed_beam rest b
      else match get_node g ep_id with
        | Some node =>
            dist ← compute metric (data query) (data (vector node));
            seed_beam rest
              ({[ep_id]} ∪ visited, candidates ++ [(ep_id, dist)], results ++ [(ep_id, dist)])
        | None => seed_beam rest b
        end
  end.

(** The loop over the neighbours of the current node. *)
Fixpoint expand (neighbors : list Z) (b : beam) : run beam :=
  match neighbors with
  | [] => Ok b
  | neighbor_id :: rest =>
      let '(visited, candidates, results) := b in
      if decide (neighbor_id ∈ visited) then expand rest b
      else
        let visited := {[neighbor_id]} ∪ visited in
        match get_node g neighbor_id with
        | Some node =>
            dist ← compute metric (data query) (data (vector node));
            if (length results <? ef) || SFltb dist (worst results) then
              results ← sort_candidates (results ++ [(neighbor_id, dist)]);
              let results := truncate ef results in
              candidates ← sort_candidates (candidates ++ [(neighbor_id, dist)]);
              expand rest (visited, candidates, results)
            else expand rest (visited, candidates, results)
        | None => expand rest (visited, candidates, results)
        end
  end.

Fixpoint search_loop (fuel : nat) (b : beam) : run (list (Z * f64)) :=
  match fuel with
  | 0 => Err OutOfFuel
  | S fuel =>
      let '(visited, candidates, results) := b in
      match candidates with
      | [] => Ok results
      | (current_id, current_dist) :: candidates =>
          if SFltb (worst results) current_dist && (ef <=? length results) then Ok results
          else match get_node g current_id with
            | Some node =>
                match layers node !! layer with
                | Some neighbors =>
                    b ← expand neighbors (visited, candidates, results); search_loop fuel b
                | None => search_loop fuel (visited, candidates, results)
                end
            | None => search_loop fuel (visited, candidates, results)
            end
      end
  end.

Definition search_layer (entry_points : list Z) : run (list (Z * f64)) :=
  '(visited, candidates, results) ← seed_beam entry_points (∅, [], []);
  candidates ← sort_candidates candidates;
  results ← sort_candidates results;
  search_loop (S (length (nodes g))) (visited, candidates, truncate ef results).
End SearchLayer.

(** [if !results.is_empty() { ep_id = results[0].0; }] *)
Definition next_entry (ep_id : Z) (results : list (Z * f64)) : Z :=
  match results with (i, _) :: _ => i | [] => ep_id end.

(** The greedy descent through the upper layers. *)
Fixpoint descend (g : HnswGraph) (query : Vector) (metric : DistanceMetric)
    (ls : list nat) (ep_id : Z) : run Z :=
  match ls with
  | [] => Ok ep_id
  | layer :: ls =>
      results ← search_layer g query 1 layer metric [ep_id];
      descend g query metric ls (next_entry ep_id results)
  end.

Definition search (g : HnswGraph) (query : Vector) (k : nat) (metric : DistanceMetric)
    : run (list (Z * f64)) :=
  match nodes g with
  | [] => Ok []
  | _ =>
      ep_id ← or_panic (entry_point g);
      ep_id ← descend g query metric (rev (seq 1 (max_layer g))) ep_id;
      results ← search_layer g query (ef_search (config g) `max` k) 0 metric [ep_id];
      Ok (truncate k results)
  end.

(** ** Insertion *)
(** [new_node.layers[layer] = neighbors]: the node that is found first is
    written, and indexing a layer it does not have panics. *)
Definition set_links (i : Z) (layer : nat) (neighbors : list Z) (g : HnswGraph) : run HnswGraph :=
  match get_node g i with
  | Some n =>
      if decide (layer < length (layers n)) then Ok (alter_links (fun _ => neighbors) i layer g)
      else Panic
  | None => Ok g
  end.

(** The link back to the new node, unless it is there. *)
Definition link_back (i : Z) (layer : nat) (g : HnswGraph) (neighbor_id : Z) : HnswGraph :=
  alter_links (fun l => if decide (i ∈ l) then l else l ++ [i]) neighbor_id layer g.

Definition drop_link (i : Z) (layer : nat) (g : HnswGraph) (dropped_id : Z) : HnswGraph :=
  alter_links (filter (fun j => j <> i)) dropped_id layer g.

(** The neighbours that exist, with their distances. *)
Fixpoint measure_all (g : HnswGraph) (metric : DistanceMetric) (v : Vector) (ids : list Z)
    : run (list (Z * f64)) :=
  match ids with
  | [] => Ok []
  | i :: ids =>
      match get_node g i with
      | Some n =>
          d ← compute metric (data v) (data (vector n));
          ds ← measure_all g metric v ids; Ok ((i, d) :: ds)
      | None => measure_all g metric v ids
      end
  end.

Definition prune (metric : DistanceMetric) (layer m_limit : nat) (g : HnswGraph) (i : Z)
    : run HnswGraph :=
  match n ← get_node g i; l ← layers n !! layer; Some (n, l) with
  | Some (n, old) =>
      if m_limit <? length old then
        dists ← measure_all g metric (vector n) old;
        dists ← sort_candidates dists;
        let pruned := select_neighbors dists m_limit in
        let dropped := filter (fun j => j ∉ pruned) old in
        Ok (foldl (drop_link i layer) (alter_links (fun _ => pruned) i layer g) dropped)
      else Ok g
  | None => Ok g
  end.

Fixpoint prune_all (metric : DistanceMetric) (layer m_limit : nat) (ids : list Z) (g : HnswGraph)
    : run HnswGraph :=
  match ids with
  | [] => Ok g
  | i :: ids => g ← prune metric layer m_limit g i; prune_all metric layer m_limit ids g
  end.

Definition m_limit (c : HnswConfig) (layer : nat) : nat := if decide (layer = 0) then m_max c else m c.

(** One layer of the insertion: the graph and the next entry point. *)
Definition connect_layer (i : Z) (query : Vector) (metric : DistanceMetric) (layer : nat)
    (g : HnswGraph) (ep_id : Z) : run (HnswGraph * Z) :=
  candidates ← search_layer g query (ef_construction (config g)) layer metric [ep_id];
  let limit := m_limit (config g) layer in
  let neighbors := select_neighbors candidates limit in
  g ← set_links i layer neighbors g;
  let g := foldl (link_back i layer) g neighbors in
  g ← prune_all metric layer limit neighbors g;
  Ok (g, next_entry ep_id candidates).

Fixpoint connect (i : Z) (query : Vector) (metric : DistanceMetric) (ls : list nat)
    (g : HnswGraph) (ep_id : Z) : run HnswGraph :=
  match ls with
  | [] => Ok g
  | layer :: ls =>
      '(g, ep_id) ← connect_layer i query metric layer g ep_id;
      connect i query metric ls g ep_id
  end.

Definition push_node (n : HnswNode) (g : HnswGraph) : HnswGraph :=
  mkGraph (config g) (nodes g ++ [n]) (entry_point g) (max_layer g) (dims g) (rng g).

Definition with_entry (e : option Z) (top : nat) (g : HnswGraph) : HnswGraph :=
  mkGraph (config g) (nodes g) e top (dims g) (rng g).

Definition with_rng (r : option StdRng) (g : HnswGraph) : HnswGraph :=
  mkGraph (config g) (nodes g) (entry_point g) (max_layer g) (dims g) r.

Definition insert (g : HnswGraph) (i : Z) (v : Vector) (metric : DistanceMetric)
    (thread_draw : f64) : run HnswGraph :=
  let '(node_level, rng') := random_level g thread_draw in
  let g := with_rng rng' g in
  match nodes g with
  | [] =>
      ls ← new_layers node_level;
      Ok (with_entry (Some i) (Z.to_nat node_level) (push_node (mkNode i v ls) g))
  | _ =>
      ep_id ← or_panic (entry_point g);
      ep_id ← descend g v metric (layers_above node_level (max_layer g)) ep_id;
      ls ← new_layers node_level;
      let top := max_layer g in
      let g := push_node (mkNode i v ls) g in
      let top_connect :=
        if decide (node_level < Z.of_nat top)%Z then Z.to_nat node_level else top in
      g ← connect i v metric (rev (seq 0 (S top_connect))) g ep_id;
      if decide (Z.of_nat top < node_level)%Z
      then Ok (with_entry (Some i) (Z.to_nat node_level) g) else Ok g
  end.
End Graph.
