(* ===== verification/HnswSearch.v ===== *)
(** * Searching the HNSW graph

    What [search_layer] returns: nodes it can reach from its entry points, the
    nearest of all the nodes it looked at, in order, and none of their
    neighbours would improve on them.  It ends within its fuel and does not
    panic when every distance it can meet is a number. *)
From S2P Require Export Hnsw.
Local Open Scope nat_scope.

(** ** Looking nodes up *)
Fixpoint find_id (i : Z) (ns : list HnswNode) : option HnswNode :=
  match ns with
  | [] => None
  | n :: ns => if decide (node_id n = i) then Some n else find_id i ns
  end.

Lemma list_find_id i ns : snd <$> list_find (fun n => node_id n = i) ns = find_id i ns.
Proof.
  induction ns as [|n ns IH]; [done|]. cbn [list_find find_id]. case_decide; [done|].
  rewrite <- IH. by destruct (list_find _ ns) as [[]|].
Qed.

(** ** Order of candidates *)
Definition dist_le (a b : Z * f64) : Prop := dist_cmp a b <> Gt.
Definition is_number (p : Z * f64) : Prop := p.2 <> S754_nan.

Lemma dist_cmp_total : total_on is_number dist_cmp.
Proof.
  constructor; unfold dist_cmp, is_number.
  - intros x y Hx Hy. by apply (to_sym _ _ float_cmp_total).
  - intros x y z Hx Hy Hz. by apply (to_trans _ _ float_cmp_total).
Qed.

Lemma float_cmp_refl x : float_cmp x x = Eq.
Proof.
  assert (x = S754_nan \/ x <> S754_nan) as [->|Hx]; [destruct x; auto|done|].
  pose proof (to_sym _ _ float_cmp_total x x Hx Hx) as H. by destruct (float_cmp x x).
Qed.

Lemma ltb_number x y : x <> S754_nan -> y <> S754_nan -> SFltb x y = true <-> float_cmp x y = Lt.
Proof.
  intros Hx Hy. unfold SFltb, float_cmp. rewrite float_lex by done. cbn. by destruct (lex _ _).
Qed.

Lemma ltb_number_false x y :
  x <> S754_nan -> y <> S754_nan -> SFltb x y = false <-> float_cmp y x <> Gt.
Proof.
  intros Hx Hy. rewrite (to_sym _ _ float_cmp_total x y) by done.
  rewrite <- not_true_iff_false, ltb_number by done. by destruct (float_cmp x y).
Qed.

Lemma float_le_trans x y z :
  x <> S754_nan -> y <> S754_nan -> z <> S754_nan ->
  float_cmp x y <> Gt -> float_cmp y z <> Gt -> float_cmp x z <> Gt.
Proof. intros. by apply (to_trans _ _ float_cmp_total x y z). Qed.

Lemma sort_candidates_ok l :
  Forall is_number l ->
  exists l', sort_candidates l = Ok l' /\ l' ≡ₚ l /\ StronglySorted dist_le l'.
Proof.
  intros Hl. unfold sort_candidates.
  assert (existsb (fun p => is_nan p.2) l = false) as ->.
  { apply not_true_iff_false. rewrite existsb_exists. intros (p & Hp & Hn).
    rewrite Forall_forall in Hl. apply list_elem_of_In in Hp. apply Hl in Hp.
    unfold is_number in Hp. by destruct (p.2). }
  case_decide as Hlen.
  - eexists; split_and!; [done|apply sort_by_perm|]. exact (sort_by_sorted _ _ dist_cmp_total l Hl).
  - exists l. split_and!; [done..|]. destruct l as [|x [|]]; cbn in Hlen; [constructor| |lia].
    repeat constructor.
Qed.

Lemma truncate_take {A} n (l : list A) : truncate n l = take n l.
Proof.
  unfold truncate. destruct (n <? length l) eqn:E; [done|]. apply Nat.ltb_ge in E. by rewrite take_ge.
Qed.

Lemma StronglySorted_prefix {A} (R : relation A) n l : StronglySorted R l -> StronglySorted R (take n l).
Proof. intros H. rewrite <- (take_drop n l) in H. by apply StronglySorted_app_1_l in H. Qed.

Lemma sorted_drop_le {A} (R : relation A) n (l : list A) x y :
  StronglySorted R l -> x ∈ take n l -> y ∈ drop n l -> R x y.
Proof. intros H. rewrite <- (take_drop n l) in H. intros. by eapply StronglySorted_app_1_elem_of. Qed.

(** The last result is the worst. *)
Lemma worst_last R :
  StronglySorted dist_le R -> Forall is_number R ->
  worst R <> S754_nan /\ Forall (fun p => float_cmp p.2 (worst R) <> Gt) R /\
  (R <> [] -> exists i, (i, worst R) ∈ R).
Proof.
  intros Hs Hn. unfold worst. destruct (last R) as [[i d]|] eqn:E.
  - apply last_Some in E as [R' ->]. apply Forall_app in Hn as [Hn' Hd].
    apply Forall_cons in Hd as [Hd _]. split_and!; [exact Hd| |intros _; exists i; set_solver].
    apply Forall_app. split; [|apply Forall_singleton; cbn; by rewrite float_cmp_refl].
    apply Forall_forall. intros p Hp. apply (StronglySorted_app_1_elem_of _ _ _ p (i, d) Hs Hp).
    set_solver.
  - apply last_None in E as ->. by split_and!.
Qed.

Section SearchLayerSpec.
Context `{Randomness}.
Variables (g : HnswGraph) (query : Vector) (ef layer : nat) (metric : DistanceMetric).

Lemma get_node_find i : get_node g i = find_id i (nodes g).
Proof. apply list_find_id. Qed.

Lemma get_node_elem i n : get_node g i = Some n -> i ∈ node_id <$> nodes g.
Proof.
  rewrite get_node_find. induction (nodes g) as [|x ns IH]; [done|]. cbn [find_id].
  rewrite fmap_cons. case_decide; set_solver.
Qed.

(** Every distance a search can ask for is a number. *)
Definition measurable : Prop := forall i n, get_node g i = Some n ->
  exists d, compute (E := fault) metric (data query) (data (vector n)) = Ok d /\ d <> S754_nan.

(** The distance of a node from the query. *)
Definition dist_to (i : Z) : f64 :=
  match get_node g i with
  | Some n =>
      match compute (E := fault) metric (data query) (data (vector n)) with
      | Ok d => d
      | _ => S754_nan
      end
  | None => S754_nan
  end.

(** The neighbours of a node on a layer. *)
Definition links (i : Z) (l : nat) : list Z := default [] (n ← get_node g i; layers n !! l).

(** The nodes a walk along the links of the layer can come to. *)
Inductive reach (eps : list Z) : Z -> Prop :=
  | reach_entry e : e ∈ eps -> reach eps e
  | reach_link i j : reach eps i -> j ∈ links i layer -> reach eps j.

Hypothesis Hm : measurable.

Lemma measured i n :
  get_node g i = Some n ->
  compute (E := fault) metric (data query) (data (vector n)) = Ok (dist_to i) /\ dist_to i <> S754_nan.
Proof.
  intros E. destruct (Hm i n E) as (d & Hd & Hnan). unfold dist_to. by rewrite E, Hd.
Qed.

Variable eps : list Z.

Record entry_ok (V : gset Z) (p : Z * f64) : Prop := {
  eo_seen : p.1 ∈ V;
  eo_node : is_Some (get_node g p.1);
  eo_dist : p.2 = dist_to p.1;
  eo_reach : reach eps p.1;
}.

Lemma entry_number V p : entry_ok V p -> is_number p.
Proof. intros [_ [n Hn] Hd _]. unfold is_number. rewrite Hd. by eapply measured. Qed.

Lemma entries_number V l : Forall (entry_ok V) l -> Forall is_number l.
Proof. intros Hl. eapply Forall_impl; [exact Hl|]. apply entry_number. Qed.

(** Nodes are no nearer than any result when the results are full. *)
Definition no_better (R : list (Z * f64)) (i : Z) : Prop :=
  length R = ef /\ Forall (fun p => float_cmp p.2 (dist_to i) <> Gt) R.

(** The loop's invariant; [X] holds of the node being expanded. *)
Record beam_ok (X : Z -> Prop) (V : gset Z) (C R : list (Z * f64)) : Prop := {
  bo_C : Forall (entry_ok V) C;
  bo_R : Forall (entry_ok V) R;
  bo_nodupC : NoDup C.*1;
  bo_nodupR : NoDup R.*1;
  bo_sortedC : StronglySorted dist_le C;
  bo_sortedR : StronglySorted dist_le R;
  bo_len : length R <= ef;
  bo_best i : i ∈ V -> is_Some (get_node g i) -> i ∈ R.*1 \/ no_better R i;
  bo_closed i : i ∈ R.*1 -> i ∈ C.*1 \/ X i \/ forall j, j ∈ links i layer -> j ∈ V;
}.

(** What is left to do: candidates, and nodes not seen. *)
Definition unseen (V : gset Z) : nat := length (filter (fun i => i ∉ V) (node_id <$> nodes g)).
Definition work (V : gset Z) (C : list (Z * f64)) : nat := length C + unseen V.

Lemma unseen_mono V V' : V ⊆ V' -> unseen V' <= unseen V.
Proof.
  intros HV. unfold unseen. induction (node_id <$> nodes g) as [|i l IH]; [done|].
  rewrite !filter_cons. do 2 case_decide; cbn [length]; try lia. set_solver.
Qed.

Lemma unseen_insert V i n : get_node g i = Some n -> i ∉ V -> S (unseen ({[i]} ∪ V)) <= unseen V.
Proof.
  intros Hn Hi. apply get_node_elem in Hn. apply list_elem_of_split in Hn as (l1 & l2 & E).
  unfold unseen. rewrite E. rewrite !filter_app, !length_app, !filter_cons.
  rewrite (decide_True _ _ Hi), (decide_False (P := i ∉ {[i]} ∪ V)) by set_solver. cbn [length].
  assert (forall l, length (filter (fun j => j ∉ {[i]} ∪ V) l) <= length (filter (fun j => j ∉ V) l)) as Hle.
  { induction l as [|j l IH]; [done|]. rewrite !filter_cons. do 2 case_decide; cbn [length]; try lia. set_solver. }
  pose proof (Hle l1). pose proof (Hle l2). lia.
Qed.

Lemma entry_ok_mono V V' p : V ⊆ V' -> entry_ok V p -> entry_ok V' p.
Proof. intros HV []. constructor; eauto. Qed.

Lemma truncated_best V R j :
  Forall (entry_ok V) R -> StronglySorted dist_le R ->
  j ∈ R.*1 -> j ∈ (take ef R).*1 \/ no_better (take ef R) j.
Proof.
  intros HR HsR (p & -> & Hp)%list_elem_of_fmap. rewrite <- (take_drop ef R) in Hp.
  apply elem_of_app in Hp as [Hp|Hp]; [left; by apply list_elem_of_fmap_2|right]. split.
  - rewrite length_take. assert (length (drop ef R) <> 0); [|rewrite length_drop in *; lia].
    by destruct (drop ef R); [apply not_elem_of_nil in Hp|].
  - apply Forall_forall. intros q Hq. pose proof (sorted_drop_le _ _ _ _ _ HsR Hq Hp) as Hle.
    rewrite Forall_forall in HR.
    rewrite <- (eo_dist _ _ (HR p ltac:(rewrite <- (take_drop ef R); set_solver))). done.
Qed.

Lemma node_dist_number i : is_Some (get_node g i) -> dist_to i <> S754_nan.
Proof. intros [n Hn]. by apply (measured i n). Qed.

(** A node nearer than the worst of full results is nearer than a node that
    was no better than any of them. *)
Lemma nearer_than_full V R i j :
  Forall (entry_ok V) R -> StronglySorted dist_le R ->
  is_Some (get_node g i) -> is_Some (get_node g j) ->
  (length R <? ef) || SFltb (dist_to i) (worst R) = true -> no_better R j ->
  R = [] \/ float_cmp (dist_to i) (dist_to j) <> Gt.
Proof.
  intros HR Hs Hi%node_dist_number Hj%node_dist_number Hclose [Hfull Hle].
  rewrite (proj2 (Nat.ltb_ge _ _)) in Hclose by lia. cbn in Hclose.
  destruct (worst_last R) as (Hw & _ & Hex); [done|by eapply entries_number|].
  rewrite ltb_number in Hclose by done.
  destruct R as [|r0 R0]; [by left|right]. destruct Hex as [w Hw']; [done|].
  rewrite Forall_forall in Hle. pose proof (Hle _ Hw') as Hwj. cbn in Hwj.
  apply (float_le_trans _ (worst (r0 :: R0))); try done. by rewrite Hclose.
Qed.

(** *** One neighbour *)
Section Visit.
Variables (X : Z -> Prop) (V : gset Z) (C R : list (Z * f64)) (i : Z).
Hypotheses (Hb : beam_ok X V C R) (Hi : i ∉ V).

Let V' : gset Z := {[i]} ∪ V.

Lemma entries_mono l : Forall (entry_ok V) l -> Forall (entry_ok V') l.
Proof.
  intros Hl. eapply Forall_impl; [exact Hl|]. intros p. apply entry_ok_mono. set_solver.
Qed.

Lemma not_entry l : Forall (entry_ok V) l -> i ∉ l.*1.
Proof.
  intros Hl (p & -> & Hp)%list_elem_of_fmap. rewrite Forall_forall in Hl.
  by apply Hi, (eo_seen _ _ (Hl p Hp)).
Qed.

(** What is seen but not kept. *)
Lemma visit_discard : (is_Some (get_node g i) -> no_better R i) -> beam_ok X V' C R.
Proof.
  intros Hd. destruct Hb as [HC HR ? ? ? ? ? Hbest Hcl]. constructor; try done.
  - by apply entries_mono.
  - by apply entries_mono.
  - intros j [->%elem_of_singleton|Hj]%elem_of_union Hn; [by right; apply Hd|by apply Hbest].
  - intros j Hj. destruct (Hcl j Hj) as [?|[?|Hl]]; [by left|by right; left|].
    right; right. intros j' Hj'. apply elem_of_union_r, Hl, Hj'.
Qed.

Lemma visit_farther :
  is_Some (get_node g i) ->
  (length R <? ef) || SFltb (dist_to i) (worst R) = false -> beam_ok X V' C R.
Proof.
  intros [n Hn] [H1%Nat.ltb_ge H2]%orb_false_iff. apply visit_discard. intros _.
  pose proof (bo_len _ _ _ _ Hb). split; [lia|].
  pose proof (entries_number _ _ (bo_R _ _ _ _ Hb)) as HRn.
  destruct (worst_last R) as (Hw & Hle & _); [apply Hb|done|].
  destruct (measured i n Hn) as [_ Hd]. rewrite ltb_number_false in H2 by done.
  rewrite Forall_forall in Hle, HRn |- *. intros p Hp.
  apply (float_le_trans _ (worst R)); [by apply HRn|done|done|by apply Hle|done].
Qed.

Lemma visit_closer C' R' :
  is_Some (get_node g i) -> reach eps i ->
  (length R <? ef) || SFltb (dist_to i) (worst R) = true ->
  C' ≡ₚ C ++ [(i, dist_to i)] -> StronglySorted dist_le C' ->
  R' ≡ₚ R ++ [(i, dist_to i)] -> StronglySorted dist_le R' ->
  beam_ok X V' C' (take ef R').
Proof.
  intros Hn Hreach Hclose HC' HsC HR' HsR. destruct Hb as [HC HR HnC HnR _ HsR0 Hlen Hbest Hcl].
  assert (Hnew : entry_ok V' (i, dist_to i)) by (constructor; cbn; [set_solver|done..]).
  assert (HR1 : Forall (entry_ok V') R').
  { rewrite HR'. apply Forall_app. split; [by apply entries_mono|]. by constructor. }
  assert (HnR1 : NoDup R'.*1).
  { rewrite HR', fmap_app. apply NoDup_app. split_and!; [done| |apply NoDup_singleton].
    intros j Hj ->%list_elem_of_singleton. by apply (not_entry R). }
  assert (Hlen' : length R' = S (length R)) by (rewrite HR', length_app; cbn; lia).
  pose proof (fun j => truncated_best V' R' j HR1 HsR) as Hcut.
  constructor.
  - rewrite HC'. apply Forall_app. split; [by apply entries_mono|]. by constructor.
  - by apply Forall_take.
  - rewrite HC', fmap_app. apply NoDup_app. split_and!; [done| |apply NoDup_singleton].
    intros j Hj ->%list_elem_of_singleton. by apply (not_entry C).
  - rewrite fmap_take. apply (sublist_NoDup _ R'.*1); auto using sublist_take.
  - done.
  - by apply StronglySorted_prefix.
  - rewrite length_take. lia.
  - intros j [->%elem_of_singleton|Hj]%elem_of_union Hnj.
    { apply Hcut. rewrite HR', fmap_app. set_solver. }
    destruct (Hbest j Hj Hnj) as [Hj'|[Hfull Hle]].
    { apply Hcut. rewrite HR', fmap_app. set_solver. }
    right. split; [rewrite length_take; lia|].
    destruct (nearer_than_full V R i j) as [->|Hij]; try done.
    { cbn in Hfull. rewrite <- Hfull, take_0. constructor. }
    apply Forall_take. rewrite HR'. apply Forall_app. split; [done|]. by constructor.
  - intros j Hj. assert (Hj' : j = i \/ j ∈ R.*1).
    { apply list_elem_of_fmap in Hj as (p & -> & Hp%elem_of_take). destruct Hp as (k & Hp & _).
      apply list_elem_of_lookup_2 in Hp. rewrite HR' in Hp. apply elem_of_app in Hp as [Hp|Hp].
      - right. by apply list_elem_of_fmap_2.
      - apply list_elem_of_singleton in Hp as ->. by left. }
    destruct Hj' as [->|Hj']; [left; rewrite HC', fmap_app; set_solver|].
    destruct (Hcl j Hj') as [Hc|[HX|Hl]]; [left; rewrite HC', fmap_app; set_solver|by right; left|].
    right; right. intros j' Hj''. apply elem_of_union_r, Hl, Hj''.
Qed.
End Visit.

Lemma expand_ok X neighbors : forall V C R,
  beam_ok X V C R -> Forall (reach eps) neighbors ->
  exists V' C' R', expand g query ef metric neighbors (V, C, R) = Ok (V', C', R') /\
    beam_ok X V' C' R' /\ V ⊆ V' /\ Forall (fun j => j ∈ V') neighbors /\ work V' C' <= work V C.
Proof.
  induction neighbors as [|i rest IH]; intros V C R Hb Hr.
  { exists V, C, R. by split_and!. }
  apply Forall_cons in Hr as [Hri Hr]. cbn [expand].
  assert (Hgo : forall V' C' R', beam_ok X V' C' R' -> {[i]} ∪ V ⊆ V' -> work V' C' <= work V C ->
    exists V2 C2 R2, expand g query ef metric rest (V', C', R') = Ok (V2, C2, R2) /\
      beam_ok X V2 C2 R2 /\ V ⊆ V2 /\ Forall (fun j => j ∈ V2) (i :: rest) /\ work V2 C2 <= work V C).
  { intros V' C' R' Hb' HV' Hw. destruct (IH V' C' R' Hb' Hr) as (V2 & C2 & R2 & E & Hb2 & HV & Hin & Hw2).
    exists V2, C2, R2. split_and!; [done|done|set_solver|constructor; [set_solver|done]|lia]. }
  case_decide as Hseen; [apply Hgo; [done|set_solver|lia]|].
  assert (Hw : work ({[i]} ∪ V) C <= work V C).
  { unfold work. assert (V ⊆ {[i]} ∪ V) as HV by set_solver. pose proof (unseen_mono _ _ HV). lia. }
  destruct (get_node g i) as [n|] eqn:En.
  2: { apply Hgo; [|done|done]. apply visit_discard; [done..|]. rewrite En. by intros []. }
  destruct (measured i n En) as [Ed Hd]. rewrite Ed. cbn [mbind result_bind].
  destruct (_ || _) eqn:Hclose.
  2: { apply Hgo; [|done|done]. apply visit_farther; eauto. }
  assert (Hnew : is_number (i, dist_to i)) by done.
  destruct (sort_candidates_ok (R ++ [(i, dist_to i)])) as (R' & -> & HR' & HsR).
  { apply Forall_app. split; [|by constructor]. eapply entries_number, bo_R; eauto. }
  destruct (sort_candidates_ok (C ++ [(i, dist_to i)])) as (C' & -> & HC' & HsC).
  { apply Forall_app. split; [|by constructor]. eapply entries_number, bo_C; eauto. }
  cbn [mbind result_bind]. rewrite truncate_take. apply Hgo; [|done|].
  - apply (visit_closer _ _ C R); eauto.
  - unfold work. rewrite HC', length_app. cbn. pose proof (unseen_insert V i n En Hseen). lia.
Qed.

(** *** The whole loop *)
(** What a layer search promises of its results. *)
Record found (res : list (Z * f64)) : Prop := {
  fo_node p : p ∈ res -> is_Some (get_node g p.1) /\ p.2 = dist_to p.1 /\ reach eps p.1;
  fo_nodup : NoDup res.*1;
  fo_sorted : StronglySorted dist_le res;
  fo_len : length res <= ef;
  fo_entry e : e ∈ eps -> is_Some (get_node g e) -> e ∈ res.*1 \/ no_better res e;
  fo_local i j : i ∈ res.*1 -> j ∈ links i layer -> is_Some (get_node g j) ->
    j ∈ res.*1 \/ no_better res j;
}.

Definition seeds_seen (V : gset Z) : Prop := forall e, e ∈ eps -> is_Some (get_node g e) -> e ∈ V.

Lemma beam_found V C R :
  beam_ok (fun _ => False) V C R -> seeds_seen V -> (forall i, i ∈ R.*1 -> i ∉ C.*1) -> found R.
Proof.
  intros Hb Hs Hdone. constructor; try apply Hb.
  - intros p Hp. pose proof (bo_R _ _ _ _ Hb) as HR. rewrite Forall_forall in HR.
    by destruct (HR p Hp).
  - intros e He Hn. apply (bo_best _ _ _ _ Hb); [by apply Hs|done].
  - intros i j Hi Hj Hn. apply (bo_best _ _ _ _ Hb); [|done].
    destruct (bo_closed _ _ _ _ Hb i Hi) as [Hc|[[]|Hl]]; [by destruct (Hdone i Hi)|by apply Hl].
Qed.

(** The loop stops when the nearest candidate is farther than full results:
    then every result has been expanded. *)
Lemma stop_expanded V c d C R i :
  beam_ok (fun _ => False) V ((c, d) :: C) R ->
  SFltb (worst R) d && (ef <=? length R) = true -> i ∈ R.*1 -> i ∉ ((c, d) :: C).*1.
Proof.
  intros Hb [Hlt _]%andb_true_iff Hi (p & -> & Hp)%list_elem_of_fmap.
  pose proof (bo_C _ _ _ _ Hb) as HC. pose proof (bo_R _ _ _ _ Hb) as HR.
  pose proof (entries_number _ _ HR) as HRn. pose proof (entries_number _ _ HC) as HCn.
  destruct (worst_last R) as (Hw & Hle & _); [apply Hb|done|].
  apply list_elem_of_fmap in Hi as (q & Eq & Hq).
  rewrite Forall_forall in HC, HR, HRn, HCn, Hle.
  assert (p.2 = q.2) as Epq by (rewrite (eo_dist _ _ (HC p Hp)), (eo_dist _ _ (HR q Hq)), Eq; done).
  assert (Hd : d <> S754_nan) by (apply (HCn (c, d)); set_solver).
  rewrite ltb_number in Hlt by done.
  assert (float_cmp d p.2 <> Gt) as Hdp.
  { apply elem_of_cons in Hp as [->|Hp]; [by rewrite float_cmp_refl|].
    pose proof (bo_sortedC _ _ _ _ Hb) as Hs. apply StronglySorted_cons in Hs as [Hs _].
    rewrite Forall_forall in Hs. apply (Hs p Hp). }
  rewrite Epq in Hdp. assert (float_cmp d (worst R) <> Gt) as Hdw.
  { apply (float_le_trans _ q.2); [done|by apply HRn|done|done|by apply Hle]. }
  by rewrite (to_sym _ _ float_cmp_total (worst R) d), Hlt in Hdw.
Qed.

Lemma beam_pop V c d C R :
  beam_ok (fun _ => False) V ((c, d) :: C) R -> beam_ok (fun i => i = c) V C R.
Proof.
  intros [HC HR HnC HnR HsC HsR Hlen Hbest Hcl]. apply Forall_cons in HC as [_ HC].
  cbn in HnC. apply NoDup_cons in HnC as [_ HnC]. apply StronglySorted_cons in HsC as [_ HsC].
  constructor; try done. intros i Hi. destruct (Hcl i Hi) as [Hc|[[]|?]]; [|by auto].
  cbn in Hc. apply elem_of_cons in Hc as [->|Hc]; auto.
Qed.

Lemma beam_close c V C R :
  beam_ok (fun i => i = c) V C R -> Forall (fun j => j ∈ V) (links c layer) ->
  beam_ok (fun _ => False) V C R.
Proof.
  intros [HC HR HnC HnR HsC HsR Hlen Hbest Hcl] Hc. constructor; try done.
  intros i Hi. destruct (Hcl i Hi) as [?|[->|?]]; [by auto| |by auto].
  right; right. by apply Forall_forall.
Qed.

Lemma search_loop_ok fuel : forall V C R,
  beam_ok (fun _ => False) V C R -> seeds_seen V -> work V C < fuel ->
  exists res, search_loop g query ef layer metric fuel (V, C, R) = Ok res /\ found res.
Proof.
  induction fuel as [|fuel IH]; intros V C R Hb Hs Hw; [lia|]. cbn [search_loop].
  destruct C as [|[c d] C].
  { exists R. split; [done|]. apply (beam_found V []); [done..|]. intros i _. apply not_elem_of_nil. }
  destruct (_ && _) eqn:Hstop.
  { exists R. split; [done|]. apply (beam_found V ((c, d) :: C)); [done..|].
    intros i Hi. by eapply stop_expanded. }
  assert (Hc : entry_ok V (c, d)) by (pose proof (bo_C _ _ _ _ Hb) as HC; by apply Forall_cons in HC as []).
  pose proof (beam_pop _ _ _ _ _ Hb) as Hb'. unfold work in Hw. cbn in Hw.
  assert (Hskip : links c layer = [] ->
    exists res, search_loop g query ef layer metric fuel (V, C, R) = Ok res /\ found res).
  { intros Hl. apply IH; [|done|unfold work; lia]. apply (beam_close c); [done|]. by rewrite Hl. }
  destruct (get_node g c) as [n|] eqn:En; [|apply Hskip; unfold links; by rewrite En].
  destruct (layers n !! layer) as [nb|] eqn:El;
    [|apply Hskip; unfold links; rewrite En; cbn; by rewrite El].
  assert (Hl : links c layer = nb) by (unfold links; rewrite En; cbn; by rewrite El).
  destruct (expand_ok _ nb V C R Hb') as (V' & C' & R' & -> & Hb2 & HV & Hin & Hw').
  { apply Forall_forall. intros j Hj. apply (reach_link _ c); [apply Hc|by rewrite Hl]. }
  cbn [mbind result_bind]. apply IH.
  - apply (beam_close c); [done|by rewrite Hl].
  - intros e He Hn. by apply HV, Hs.
  - unfold work in *. lia.
Qed.

(** *** Entry points *)
Lemma seed_beam_ok l : forall V C,
  (forall e, e ∈ l -> e ∈ eps) -> Forall (entry_ok V) C -> NoDup C.*1 -> (forall i, i ∈ V -> i ∈ C.*1) ->
  exists V' C', seed_beam g query metric l (V, C, C) = Ok (V', C', C') /\
    Forall (entry_ok V') C' /\ NoDup C'.*1 /\ (forall i, i ∈ V' -> i ∈ C'.*1) /\ V ⊆ V' /\
    (forall e, e ∈ l -> is_Some (get_node g e) -> e ∈ V') /\ work V' C' <= work V C.
Proof.
  induction l as [|e l IH]; intros V C Hl HC Hnd HV.
  { exists V, C. split_and!; try done. intros e He. by apply not_elem_of_nil in He. }
  assert (Hl' : forall e, e ∈ l -> e ∈ eps) by set_solver. cbn [seed_beam].
  assert (Hskip : (is_Some (get_node g e) -> e ∈ V) ->
    exists V' C', seed_beam g query metric l (V, C, C) = Ok (V', C', C') /\
    Forall (entry_ok V') C' /\ NoDup C'.*1 /\ (forall i, i ∈ V' -> i ∈ C'.*1) /\ V ⊆ V' /\
    (forall e', e' ∈ e :: l -> is_Some (get_node g e') -> e' ∈ V') /\ work V' C' <= work V C).
  { intros He. destruct (IH V C Hl' HC Hnd HV) as (V' & C' & E & ? & ? & ? & Hsub & Hin & ?).
    exists V', C'. split_and!; try done. intros e' [->|He']%elem_of_cons Hn; auto. }
  case_decide as Hseen; [by apply Hskip|].
  destruct (get_node g e) as [n|] eqn:En; [|apply Hskip; by intros []].
  destruct (measured e n En) as [-> _]. cbn [mbind result_bind].
  destruct (IH ({[e]} ∪ V) (C ++ [(e, dist_to e)]) Hl') as (V' & C' & E & ? & ? & ? & Hsub & Hin & Hw).
  - apply Forall_app. split.
    + eapply Forall_impl; [exact HC|]. intros p. apply entry_ok_mono. set_solver.
    + constructor; [|done]. constructor; cbn; [set_solver|eauto|done|]. apply reach_entry, Hl. set_solver.
  - rewrite fmap_app. apply NoDup_app. split_and!; [done| |apply NoDup_singleton].
    intros j (p & -> & Hp)%list_elem_of_fmap Hj%list_elem_of_singleton. rewrite Forall_forall in HC.
    apply Hseen. cbn in Hj; rewrite <- Hj. apply (HC p Hp).
  - intros i Hi. rewrite fmap_app. apply elem_of_union in Hi as [Hi|Hi]; [set_solver|].
    apply HV in Hi. set_solver.
  - exists V', C'. split_and!; try done.
    + set_solver.
    + intros e' [->|He']%elem_of_cons Hn; [set_solver|auto].
    + pose proof (unseen_insert V e n En Hseen). unfold work in *. rewrite length_app in Hw. cbn in Hw. lia.
Qed.

Lemma search_layer_found :
  exists res, search_layer g query ef layer metric eps = Ok res /\ found res.
Proof.
  unfold search_layer.
  destruct (seed_beam_ok eps ∅ []) as (V & C & -> & HC & Hnd & HV & _ & Hs & Hw);
    [done|constructor|constructor|set_solver|].
  cbn [mbind result_bind].
  destruct (sort_candidates_ok C) as (C' & -> & HC' & HsC); [by eapply entries_number|].
  cbn [mbind result_bind]. rewrite truncate_take. apply search_loop_ok; [|done|].
  - assert (Forall (entry_ok V) C') by by rewrite HC'.
    assert (NoDup C'.*1) by by rewrite HC'.
    constructor; try done.
    + by apply Forall_take.
    + rewrite fmap_take. apply (sublist_NoDup _ C'.*1); auto using sublist_take.
    + by apply StronglySorted_prefix.
    + rewrite length_take. lia.
    + intros i Hi _. apply (truncated_best V); [done..|]. rewrite HC'. by apply HV.
    + intros i Hi. left. apply list_elem_of_fmap in Hi as (p & -> & Hp%elem_of_take).
      destruct Hp as (k & Hp & _). apply list_elem_of_fmap_2. by eapply list_elem_of_lookup_2.
  - unfold work in *. rewrite HC'. cbn in Hw.
    assert (unseen ∅ <= length (nodes g)); [|lia]. unfold unseen. rewrite <- (length_fmap node_id).
    apply length_filter.
Qed.
End SearchLayerSpec.

(** ** From layers to the whole graph *)
Section SearchSpec.
Context `{Randomness}.
Implicit Types g : HnswGraph.

Lemma links_node g i l j : j ∈ links g i l -> is_Some (get_node g i).
Proof. unfold links. destruct (get_node g i); [eauto|]. intros Hj. by apply not_elem_of_nil in Hj. Qed.

Lemma found_room g query ef layer metric eps res j :
  length (nodes g) <= ef -> found g query ef layer metric eps res -> is_Some (get_node g j) ->
  no_better g query ef metric res j -> j ∈ res.*1.
Proof.
  intros Hef Hf [n Hn] [Hfull _]. destruct (decide (j ∈ res.*1)) as [|Hj]; [done|exfalso].
  assert (length (j :: res.*1) <= length (node_id <$> nodes g)) as Hlen.
  { apply submseteq_length, NoDup_submseteq; [by constructor; [|apply Hf]|].
    intros i [->|(p & -> & Hp)%list_elem_of_fmap]%elem_of_cons; [by eapply get_node_elem|].
    destruct (fo_node _ _ _ _ _ _ _ Hf p Hp) as ([n' Hn'] & _). by eapply get_node_elem. }
  cbn in Hlen. rewrite !length_fmap in Hlen. lia.
Qed.

(** A beam as wide as the graph finds everything there is to reach. *)
Lemma found_all g query ef layer metric eps res j :
  length (nodes g) <= ef -> found g query ef layer metric eps res ->
  reach g layer eps j -> is_Some (get_node g j) -> j ∈ res.*1.
Proof.
  intros Hef Hf. induction 1 as [e He|i j Hr IH Hj]; intros Hn.
  - destruct (fo_entry _ _ _ _ _ _ _ Hf e He Hn); [done|by eapply found_room].
  - pose proof (IH (links_node _ _ _ _ Hj)) as Hi.
    destruct (fo_local _ _ _ _ _ _ _ Hf i j Hi Hj Hn); [done|by eapply found_room].
Qed.

Lemma next_entry_node g query ef layer metric ep res :
  found g query ef layer metric [ep] res -> is_Some (get_node g ep) ->
  is_Some (get_node g (next_entry ep res)).
Proof.
  intros Hf Hep. destruct res as [|[i d] res]; [done|].
  apply (fo_node _ _ _ _ _ _ _ Hf (i, d)). set_solver.
Qed.

Lemma descend_ok g query metric ls : forall ep,
  measurable g query metric -> is_Some (get_node g ep) ->
  exists ep', descend g query metric ls ep = Ok ep' /\ is_Some (get_node g ep').
Proof.
  induction ls as [|l ls IH]; intros ep Hm Hep; cbn [descend]; [eauto|].
  destruct (search_layer_found g query 1 l metric Hm [ep]) as (res & -> & Hf).
  cbn [mbind result_bind]. apply IH; [done|]. by eapply next_entry_node.
Qed.

(** The [k] nearest neighbours, as an exhaustive comparison would find them,
    ties in any order. *)
Record nearest g (query : Vector) (metric : DistanceMetric) (k : nat) (res : list (Z * f64)) : Prop := {
  ne_node p : p ∈ res -> is_Some (get_node g p.1) /\ p.2 = dist_to g query metric p.1;
  ne_nodup : NoDup res.*1;
  ne_sorted : StronglySorted dist_le res;
  ne_len : length res <= k;
  ne_best j : is_Some (get_node g j) ->
    j ∈ res.*1 \/ (length res = k /\ Forall (fun p => float_cmp p.2 (dist_to g query metric j) <> Gt) res);
}.

Lemma take_nearest g query metric n k res :
  k <= n -> measurable g query metric -> nearest g query metric n res ->
  nearest g query metric k (take k res).
Proof.
  intros Hk Hm [Hn Hnd Hs Hl Hb]. constructor.
  - intros p (i & Hp & _)%elem_of_take. eapply Hn, list_elem_of_lookup_2, Hp.
  - rewrite fmap_take. apply (sublist_NoDup _ res.*1); auto using sublist_take.
  - by apply StronglySorted_prefix.
  - rewrite length_take. lia.
  - intros j Hj. destruct (Hb j Hj) as [(p & -> & Hp)%list_elem_of_fmap|[Hfull Hle]].
    + rewrite <- (take_drop k res) in Hp. apply elem_of_app in Hp as [Hp|Hp];
        [left; by apply list_elem_of_fmap_2|right]. split.
      * rewrite length_take. assert (length (drop k res) <> 0); [|rewrite length_drop in *; lia].
        by destruct (drop k res); [apply not_elem_of_nil in Hp|].
      * apply Forall_forall. intros q Hq. pose proof (sorted_drop_le _ _ _ _ _ Hs Hq Hp) as Hqp.
        destruct (Hn p) as [_ <-]; [|done]. rewrite <- (take_drop k res). set_solver.
    + right. rewrite length_take. split; [lia|]. by apply Forall_take.
Qed.

(** Layer 0 joins every two nodes. *)
Definition joined g : Prop :=
  forall i j, is_Some (get_node g i) -> is_Some (get_node g j) -> reach g 0 [i] j.

(** The entry point of a graph with nodes is one of them. *)
Definition entered g : Prop :=
  nodes g = [] \/ exists e, entry_point g = Some e /\ is_Some (get_node g e).

Lemma search_found g query k metric :
  measurable g query metric -> entered g -> nodes g <> [] ->
  exists ep res, search g query k metric = Ok (take k res) /\ is_Some (get_node g ep) /\
    found g query (ef_search (config g) `max` k) 0 metric [ep] res.
Proof.
  intros Hm [|(e & Ee & He)] Hne; [done|]. unfold search. destruct (nodes g) as [|n0 ns]; [done|].
  rewrite Ee. cbn [or_panic mbind result_bind].
  destruct (descend_ok g query metric (rev (seq 1 (max_layer g))) e Hm He) as (ep & -> & Hep).
  cbn [mbind result_bind].
  destruct (search_layer_found g query (ef_search (config g) `max` k) 0 metric Hm [ep]) as (res & -> & Hf).
  cbn [mbind result_bind]. rewrite truncate_take. eauto.
Qed.

Lemma found_nearest g query ef metric ep res :
  length (nodes g) <= ef -> joined g -> is_Some (get_node g ep) ->
  found g query ef 0 metric [ep] res -> nearest g query metric ef res.
Proof.
  intros Hef Hj Hep Hf. constructor; try apply Hf.
  - intros p Hp. by destruct (fo_node _ _ _ _ _ _ _ Hf p Hp) as (? & ? & _).
  - intros j Hn. left. eapply found_all; eauto.
Qed.

Lemma search_nearest g query k metric :
  measurable g query metric -> entered g -> joined g ->
  length (nodes g) <= ef_search (config g) `max` k ->
  exists res, search g query k metric = Ok res /\ nearest g query metric k res.
Proof.
  intros Hm He Hj Hlen. destruct (decide (nodes g = [])) as [Hnil|Hne].
  - exists []. unfold search. rewrite Hnil. split; [done|]. constructor; [set_solver|constructor..|cbn; lia|].
    intros j [n Hn%get_node_elem]. rewrite Hnil in Hn. set_solver.
  - destruct (search_found g query k metric) as (ep & res & -> & Hep & Hf); [done..|].
    eexists; split; [done|]. eapply take_nearest; [|done|by eapply found_nearest]. lia.
Qed.
End SearchSpec.
