(* ===== verification/HnswLinks.v ===== *)
(** * Inserting into the HNSW graph

    The links of a graph are a function from nodes and layers to lists of
    neighbours; everything [insert] does to old nodes changes one such list.
    The graph stays [woven]: links go both ways, between nodes that have the
    layer, without repetitions, and no list is longer than its limit. *)
From S2P Require Export HnswSearch.
Local Open Scope nat_scope.

Section Links.
Context `{Randomness}.
Implicit Types (g : HnswGraph) (i j : Z) (l : nat).

Definition ids g : list Z := node_id <$> nodes g.
Definition vectors g : list Vector := vector <$> nodes g.
Definition node_vector g i : option Vector := vector <$> get_node g i.
Definition height g i : nat := from_option (fun n => length (layers n)) 0 (get_node g i).

(** ** Changing one list *)
Fixpoint update_id (f : HnswNode -> HnswNode) i (ns : list HnswNode) : list HnswNode :=
  match ns with
  | [] => []
  | n :: ns => if decide (node_id n = i) then f n :: ns else n :: update_id f i ns
  end.

Lemma update_node_nodes f i g : nodes (update_node f i g) = update_id f i (nodes g).
Proof.
  unfold update_node.
  assert (Hl : forall ns, match list_find (fun n => node_id n = i) ns with
    | Some (k, _) => alter f k ns | None => ns end = update_id f i ns).
  { induction ns as [|n ns IH]; [done|]. cbn [list_find update_id]. case_decide; [done|].
    rewrite <- IH. by destruct (list_find _ ns) as [[]|]. }
  rewrite <- Hl. by destruct (list_find _ _) as [[]|].
Qed.

Lemma update_node_rest f i g :
  config (update_node f i g) = config g /\ entry_point (update_node f i g) = entry_point g /\
  max_layer (update_node f i g) = max_layer g /\ rng (update_node f i g) = rng g.
Proof. unfold update_node. by destruct (list_find _ _) as [[]|]. Qed.

Lemma get_update f i g j :
  (forall n, node_id (f n) = node_id n) ->
  get_node (update_node f i g) j = if decide (i = j) then f <$> get_node g j else get_node g j.
Proof.
  intros Hf. rewrite !get_node_find, update_node_nodes.
  induction (nodes g) as [|n ns IH]; cbn [update_id find_id]; [by case_decide|].
  destruct (decide (node_id n = i)) as [Hi|Hi]; cbn [find_id]; rewrite ?Hf;
    destruct (decide (node_id n = j)) as [Hj|Hj]; rewrite ?IH; try done;
    destruct (decide (i = j)); first [done|congruence].
Qed.

(** Graphs that differ in their links only. *)
Record alike g g' : Prop := {
  al_config : config g' = config g;
  al_ids : ids g' = ids g;
  al_entry : entry_point g' = entry_point g;
  al_top : max_layer g' = max_layer g;
  al_rng : rng g' = rng g;
  al_vectors : vectors g' = vectors g;
  al_vector i : node_vector g' i = node_vector g i;
  al_height i : height g' i = height g i;
}.

Lemma alike_refl g : alike g g.
Proof. by constructor. Qed.

Lemma alike_trans g1 g2 g3 : alike g1 g2 -> alike g2 g3 -> alike g1 g3.
Proof. intros [] []. constructor; try congruence; intros; congruence. Qed.

Lemma alike_node g g' i : alike g g' -> is_Some (get_node g' i) <-> is_Some (get_node g i).
Proof.
  intros Ha. pose proof (al_vector _ _ Ha i) as Hv. unfold node_vector in Hv.
  destruct (get_node g' i), (get_node g i); try done; by split; intros [].
Qed.

Lemma alter_links_alike f i l g : alike g (alter_links f i l g).
Proof.
  unfold alter_links. set (u := fun n => _).
  destruct (update_node_rest u i g) as (? & ? & ? & ?). constructor; try done.
  - unfold ids. rewrite update_node_nodes. induction (nodes g) as [|n ns IH]; [done|].
    cbn [update_id]. case_decide; [done|]. by rewrite !fmap_cons, IH.
  - unfold vectors. rewrite update_node_nodes. induction (nodes g) as [|n ns IH]; [done|].
    cbn [update_id]. case_decide; [done|]. by rewrite !fmap_cons, IH.
  - intros j. unfold node_vector. rewrite get_update by done. case_decide; [|done].
    by destruct (get_node g j).
  - intros j. unfold height. rewrite get_update by done. case_decide; [|done].
    destruct (get_node g j); [|done]. cbn. by rewrite length_alter.
Qed.

Lemma links_alter f i l g j l' :
  links (alter_links f i l g) j l' =
  if decide (i = j /\ l = l' /\ l < height g i) then f (links g j l') else links g j l'.
Proof.
  unfold links, alter_links, height. rewrite get_update by done.
  destruct (decide (i = j)) as [->|]; [|by rewrite decide_False by tauto].
  destruct (get_node g j) as [n|]; cbn; [|case_decide; [lia|done]].
  destruct (decide (l = l')) as [->|Hne].
  - rewrite list_lookup_alter_eq. case_decide as Hd.
    + destruct (layers n !! l') eqn:E; [done|]. apply lookup_ge_None in E. lia.
    + destruct (layers n !! l') eqn:E; [|done]. apply lookup_lt_Some in E. tauto.
  - rewrite list_lookup_alter_ne by done. by rewrite decide_False by tauto.
Qed.

Lemma links_height g i l : height g i <= l -> links g i l = [].
Proof.
  unfold links, height. destruct (get_node g i) as [n|]; [|done]. cbn. intros Hl.
  by rewrite lookup_ge_None_2.
Qed.

Lemma link_height g i l j : j ∈ links g i l -> l < height g i.
Proof.
  intros Hj. destruct (decide (l < height g i)) as [|Hl]; [done|].
  rewrite links_height in Hj by lia. by apply not_elem_of_nil in Hj.
Qed.

Lemma height_node g i : 0 < height g i -> is_Some (get_node g i).
Proof. unfold height. destruct (get_node g i); cbn; [eauto|lia]. Qed.

(** Measurements only depend on the vectors. *)
Lemma alike_measurable g g' q metric : alike g g' -> measurable g q metric -> measurable g' q metric.
Proof.
  intros Ha Hm i n Hn. pose proof (al_vector _ _ Ha i) as Hv. unfold node_vector in Hv.
  rewrite Hn in Hv. cbn in Hv. destruct (get_node g i) as [n'|] eqn:E; [|done].
  injection Hv as Hv. rewrite Hv. by apply (Hm i).
Qed.

(** ** The invariant *)
(** Links go both ways between different nodes that have the layer. *)
Record woven g : Prop := {
  wo_ids : NoDup (ids g);
  wo_irrefl i l : i ∉ links g i l;
  wo_sym i j l : j ∈ links g i l -> i ∈ links g j l;
  wo_nodup i l : NoDup (links g i l);
}.

Lemma wo_height g i j l : woven g -> j ∈ links g i l -> l < height g j.
Proof. intros Hw Hj%wo_sym; [|done]. by eapply link_height. Qed.

(** No list is longer than its limit, but those of the nodes in [N]. *)
Definition slim_but (N : list Z) l g : Prop :=
  forall i, i ∉ N -> length (links g i l) <= m_limit (config g) l.

Definition slim g : Prop := forall l, slim_but [] l g.

(** ** Linking a node in *)
Lemma link_back_all i l N : forall g,
  NoDup N -> i ∉ N -> (forall j, j ∈ N -> l < height g j /\ i ∉ links g j l) ->
  alike g (foldl (link_back i l) g N) /\
  forall a l', links (foldl (link_back i l) g N) a l' =
    if decide (a ∈ N /\ l' = l) then links g a l' ++ [i] else links g a l'.
Proof.
  induction N as [|j N IH]; intros g Hnd Hi HN; cbn [foldl].
  { split; [apply alike_refl|]. intros a l'. rewrite decide_False by set_solver. done. }
  apply NoDup_cons in Hnd as [Hj Hnd]. destruct (HN j) as [Hh Hij]; [set_solver|].
  set (g1 := link_back i l g j). assert (Ha : alike g g1) by apply alter_links_alike.
  assert (Hl : forall a l', links g1 a l' =
    if decide (a = j /\ l' = l) then links g a l' ++ [i] else links g a l').
  { intros a l'. unfold g1, link_back. rewrite links_alter.
    destruct (decide (a = j /\ l' = l)) as [[-> ->]|]; [|by rewrite decide_False by naive_solver].
    by rewrite decide_True, decide_False by done. }
  destruct (IH g1) as [Ha' Hl']; [done|set_solver| |].
  { intros a Haa. rewrite (al_height _ _ Ha), Hl, decide_False by set_solver. apply HN. set_solver. }
  split; [by eapply alike_trans|]. intros a l'. rewrite Hl', Hl.
  destruct (decide (a ∈ N /\ l' = l)), (decide (a = j /\ l' = l)), (decide (a ∈ j :: N /\ l' = l));
    try done; set_solver.
Qed.

(** A new node [i] without links on the layer gets [N], both ways. *)
Lemma link_in g i l N :
  woven g -> links g i l = [] -> l < height g i ->
  NoDup N -> i ∉ N -> (forall j, j ∈ N -> l < height g j) ->
  let g' := foldl (link_back i l) (alter_links (fun _ => N) i l g) N in
  alike g g' /\ woven g' /\
  (forall a l', links g' a l' =
    if decide (l' = l) then
      if decide (a = i) then N else if decide (a ∈ N) then links g a l ++ [i] else links g a l
    else links g a l').
Proof.
  intros Hw Hempty Hh Hnd Hi HN g'.
  assert (Hnone : forall a, i ∉ links g a l).
  { intros a Ha%wo_sym; [|done]. rewrite Hempty in Ha. by apply not_elem_of_nil in Ha. }
  destruct (link_back_all i l N (alter_links (fun _ => N) i l g)) as [Ha Hl]; [done..| |].
  { intros j Hj. rewrite (al_height _ _ (alter_links_alike _ _ _ _)), links_alter.
    rewrite decide_False by (intros [-> _]; done). split; [by apply HN|apply Hnone]. }
  fold g' in Ha, Hl.
  assert (Hl' : forall a l', links g' a l' =
    if decide (l' = l) then
      if decide (a = i) then N else if decide (a ∈ N) then links g a l ++ [i] else links g a l
    else links g a l').
  { intros a l'. rewrite Hl, links_alter. destruct (decide (l' = l)) as [->|].
    2: { rewrite !decide_False by naive_solver. done. }
    destruct (decide (a = i)) as [->|].
    - rewrite decide_False by naive_solver. by rewrite decide_True.
    - rewrite (decide_False (P := i = a /\ _)) by naive_solver.
      destruct (decide (a ∈ N)); [by rewrite decide_True|by rewrite decide_False by naive_solver]. }
  split_and!; [eapply alike_trans; [apply alter_links_alike|exact Ha]| |exact Hl']. constructor.
  - rewrite (al_ids _ _ Ha), (al_ids _ _ (alter_links_alike _ _ _ _)). apply Hw.
  - intros a l'. rewrite Hl'. pose proof (wo_irrefl _ Hw a). repeat case_decide; set_solver.
  - intros a b l'. rewrite !Hl'. pose proof (wo_sym _ Hw a b). pose proof (Hnone a).
    pose proof (Hnone b). destruct (decide (l' = l)) as [->|]; [|auto].
    repeat case_decide; subst; set_solver.
  - intros a l'. rewrite Hl'. pose proof (wo_nodup _ Hw a). repeat case_decide; try done.
    apply NoDup_app. split_and!; [done| |apply NoDup_singleton]. intros x Hx ->%list_elem_of_singleton.
    by apply (Hnone a).
Qed.

(** ** Pruning *)
Lemma drop_link_all i l D : forall g,
  alike g (foldl (drop_link i l) g D) /\
  forall a l', links (foldl (drop_link i l) g D) a l' =
    if decide (a ∈ D /\ l' = l) then filter (fun j => j <> i) (links g a l') else links g a l'.
Proof.
  induction D as [|d D IH]; intros g; cbn [foldl].
  { split; [apply alike_refl|]. intros a l'. rewrite decide_False by set_solver. done. }
  destruct (IH (drop_link i l g d)) as [Ha Hl].
  split; [eapply alike_trans; [apply alter_links_alike|exact Ha]|]. intros a l'. rewrite Hl.
  assert (Hd : links (drop_link i l g d) a l' =
    if decide (a = d /\ l' = l) then filter (fun j => j <> i) (links g a l') else links g a l').
  { unfold drop_link. rewrite links_alter. destruct (decide (a = d /\ l' = l)) as [[-> ->]|].
    - case_decide as Hr; [done|]. rewrite links_height; [done|]. assert (~ l < height g d) by tauto. lia.
    - by rewrite decide_False by naive_solver. }
  rewrite Hd.
  destruct (decide (a ∈ D /\ l' = l)), (decide (a = d /\ l' = l)), (decide (a ∈ d :: D /\ l' = l));
    try done; try set_solver.
  rewrite list_filter_filter. apply list_filter_iff. tauto.
Qed.

(** Node [i] keeps [keep] of its links on the layer, and those it drops
    forget it. *)
Lemma cut_links g i l keep :
  woven g -> l < height g i -> NoDup keep -> (forall j, j ∈ keep -> j ∈ links g i l) ->
  let dropped := filter (fun j => j ∉ keep) (links g i l) in
  let g' := foldl (drop_link i l) (alter_links (fun _ => keep) i l g) dropped in
  alike g g' /\ woven g' /\ links g' i l = keep /\
  (forall a l', length (links g' a l') <= length (links g a l')) /\
  (forall a l', l' <> l -> links g' a l' = links g a l').
Proof.
  intros Hw Hh Hnd Hk dropped g'.
  destruct (drop_link_all i l dropped (alter_links (fun _ => keep) i l g)) as [Ha Hl].
  fold g' in Ha, Hl.
  assert (Hdrop : forall a, a ∈ dropped <-> a ∈ links g i l /\ a ∉ keep).
  { intros a. unfold dropped. rewrite list_elem_of_filter. tauto. }
  pose proof (wo_irrefl _ Hw i l) as Hii.
  assert (Hl' : forall a l', links g' a l' =
    if decide (l' = l) then
      if decide (a = i) then keep
      else if decide (a ∈ dropped) then filter (fun j => j <> i) (links g a l) else links g a l
    else links g a l').
  { intros a l'. rewrite Hl, links_alter. destruct (decide (l' = l)) as [->|].
    2: { rewrite !decide_False by naive_solver. done. }
    destruct (decide (a = i)) as [->|].
    - rewrite decide_False by (rewrite Hdrop; tauto). by rewrite decide_True.
    - rewrite (decide_False (P := i = a /\ _)) by naive_solver.
      destruct (decide (a ∈ dropped)); [by rewrite decide_True|by rewrite decide_False by naive_solver]. }
  split_and!.
  - eapply alike_trans; [apply alter_links_alike|exact Ha].
  - constructor.
    + rewrite (al_ids _ _ Ha), (al_ids _ _ (alter_links_alike _ _ _ _)). apply Hw.
    + intros a l'. rewrite Hl'. pose proof (wo_irrefl _ Hw a).
      repeat case_decide; rewrite ?list_elem_of_filter; subst; naive_solver.
    + intros a b l'. rewrite !Hl'. destruct (decide (l' = l)) as [->|]; [|apply (wo_sym _ Hw)].
      pose proof (wo_sym _ Hw a b l) as Hs.
      destruct (decide (a = i)) as [->|], (decide (b = i)) as [->|]; [done|..].
      * intros Hb. rewrite decide_False by (rewrite Hdrop; tauto). by apply (wo_sym _ Hw), Hk.
      * case_decide as Hda; [by rewrite list_elem_of_filter; intros []|]. intros Hia%(wo_sym _ Hw).
        rewrite Hdrop in Hda. destruct (decide (a ∈ keep)); [done|tauto].
      * case_decide; case_decide; rewrite ?list_elem_of_filter; tauto.
    + intros a l'. rewrite Hl'. pose proof (wo_nodup _ Hw a).
      repeat case_decide; try done. by apply NoDup_filter.
  - rewrite Hl'. by rewrite !decide_True.
  - intros a l'. rewrite Hl'. repeat case_decide; subst; try done; [|apply length_filter].
    apply submseteq_length, NoDup_submseteq; auto.
  - intros a l' Hne. by rewrite Hl', decide_False.
Qed.
End Links.

(** ** The handlers *)
Section Insert.
Context `{Randomness}.
Variable metric : DistanceMetric.
Implicit Types (g : HnswGraph) (i j : Z) (l : nat).

(** Every distance between the vectors is a number. *)
Definition commensurable (vs : list Vector) : Prop := forall v w, v ∈ vs -> w ∈ vs ->
  exists d, compute (E := fault) metric (data v) (data w) = Ok d /\ d <> S754_nan.

Lemma node_vector_in g i v : node_vector g i = Some v -> v ∈ vectors g.
Proof.
  unfold node_vector, vectors. rewrite get_node_find. induction (nodes g) as [|n ns IH]; [done|].
  cbn [find_id]. rewrite fmap_cons. case_decide; [intros [= <-]; set_solver|].
  intros ?%IH. set_solver.
Qed.

Lemma commensurable_measurable g vs q :
  commensurable vs -> q ∈ vs -> (forall i v, node_vector g i = Some v -> v ∈ vs) -> measurable g q metric.
Proof.
  intros Hc Hq Hin i n Hn. apply Hc; [done|]. apply (Hin i). unfold node_vector. by rewrite Hn.
Qed.

(** The vectors a graph finds are among these. *)
Definition over (vs : list Vector) g : Prop := forall i v, node_vector g i = Some v -> v ∈ vs.

Lemma over_alike vs g g' : alike g g' -> over vs g -> over vs g'.
Proof. intros Ha Hv i v. rewrite (al_vector _ _ Ha). apply Hv. Qed.

Lemma measure_all_ok g v js :
  measurable g v metric -> (forall j, j ∈ js -> is_Some (get_node g j)) ->
  exists ds, measure_all g metric v js = Ok ds /\ ds.*1 = js /\ Forall is_number ds.
Proof.
  intros Hm. induction js as [|j js IH]; intros Hl; cbn [measure_all]; [by exists []|].
  destruct (Hl j) as [n Hn]; [set_solver|]. rewrite Hn.
  destruct (Hm j n Hn) as (d & -> & Hd). destruct IH as (ds & -> & Hds & Hnum); [set_solver|].
  cbn [mbind result_bind]. eexists; split_and!; [done|by rewrite fmap_cons, Hds|by constructor].
Qed.

(** What pruning a layer leaves alone, and what it makes shorter. *)
Record shortened l g g' : Prop := {
  sh_alike : alike g g';
  sh_woven : woven g';
  sh_links a l' : length (links g' a l') <= length (links g a l');
  sh_other a l' : l' <> l -> links g' a l' = links g a l';
}.

Lemma shortened_refl l g : woven g -> shortened l g g.
Proof. intros. constructor; [apply alike_refl|done..]. Qed.

Lemma shortened_trans l g1 g2 g3 : shortened l g1 g2 -> shortened l g2 g3 -> shortened l g1 g3.
Proof.
  intros [Ha1 _ H1 Ho1] [Ha2 Hw H2 Ho2]. constructor; [by eapply alike_trans|done|..].
  - intros a l'. by etransitivity; [apply H2|].
  - intros a l' Hl'. by rewrite Ho2, Ho1.
Qed.

Lemma prune_ok vs g i l limit :
  woven g -> commensurable vs -> over vs g ->
  exists g', prune metric l limit g i = Ok g' /\ shortened l g g' /\ length (links g' i l) <= limit.
Proof.
  intros Hw Hc Hv. unfold prune.
  destruct (get_node g i) as [n|] eqn:En; cbn [mbind option_bind].
  2: { exists g. split_and!; [done|by apply shortened_refl|]. unfold links. rewrite En. cbn. lia. }
  destruct (layers n !! l) as [old|] eqn:El; cbn [mbind option_bind].
  2: { exists g. split_and!; [done|by apply shortened_refl|]. unfold links. rewrite En. cbn. rewrite El. cbn. lia. }
  assert (Hold : links g i l = old) by (unfold links; rewrite En; cbn; by rewrite El).
  destruct (limit <? length old) eqn:E.
  2: { exists g. apply Nat.ltb_ge in E. split_and!; [done|by apply shortened_refl|by rewrite Hold]. }
  apply Nat.ltb_lt in E.
  destruct (measure_all_ok g (vector n) old) as (ds & -> & Hds & Hnum).
  { apply (commensurable_measurable g vs); [done| |done]. apply (Hv i). unfold node_vector. by rewrite En. }
  { intros j Hj. rewrite <- Hold in Hj. apply (wo_height _ _ _ _ Hw) in Hj. apply height_node. lia. }
  cbn [mbind result_bind]. destruct (sort_candidates_ok ds Hnum) as (ds' & -> & Hperm & _).
  cbn [mbind result_bind]. unfold select_neighbors. set (keep := (take limit ds').*1).
  assert (Hsub : keep `sublist_of` ds'.*1) by (unfold keep; rewrite fmap_take; apply sublist_take).
  assert (Hp : ds'.*1 ≡ₚ old) by (by rewrite Hperm, Hds).
  destruct (cut_links g i l keep) as (Ha & Hw' & Hk & Hle & Ho).
  - done.
  - unfold height. rewrite En. by eapply lookup_lt_Some.
  - apply (sublist_NoDup _ ds'.*1); [|exact Hsub]. rewrite Hp, <- Hold. by apply wo_nodup.
  - intros j Hj. rewrite Hold, <- Hp. by eapply elem_of_sublist.
  - eexists; split; [done|]. rewrite Hold in *. split.
    + by constructor.
    + rewrite Hk. unfold keep. rewrite length_fmap, length_take. lia.
Qed.

Lemma prune_all_ok vs l limit N : forall g,
  woven g -> commensurable vs -> over vs g ->
  exists g', prune_all metric l limit N g = Ok g' /\ shortened l g g' /\
    Forall (fun i => length (links g' i l) <= limit) N.
Proof.
  induction N as [|i N IH]; intros g Hw Hc Hv; cbn [prune_all].
  { exists g. split_and!; [done|by apply shortened_refl|done]. }
  destruct (prune_ok vs g i l limit Hw Hc Hv) as (g1 & -> & H1 & Hi). cbn [mbind result_bind].
  destruct (IH g1) as (g2 & E & H2 & HN); [by apply H1|done|eapply over_alike; [apply H1|done]|].
  exists g2. split_and!; [done|by eapply shortened_trans|constructor; [|done]].
  etransitivity; [apply (sh_links _ _ _ H2)|done].
Qed.

(** On a layer where the new node has no links yet, a search from another node
    stays on nodes that have the layer and does not meet the new node. *)
Lemma reach_tall g i l ep j :
  woven g -> links g i l = [] -> ep <> i -> l < height g ep ->
  reach g l [ep] j -> j <> i /\ l < height g j.
Proof.
  intros Hw Hi He Hh. induction 1 as [e ->%list_elem_of_singleton|a j _ _ Hj]; [done|].
  split; [|by eapply wo_height]. intros ->. apply (wo_sym _ Hw) in Hj. rewrite Hi in Hj.
  by apply not_elem_of_nil in Hj.
Qed.

(** The graph while node [i] is being linked in, from the top layer down:
    its layers below [n] have no links yet. *)
Record linking (vs : list Vector) (i : Z) (v : Vector) (n : nat) (ep : Z) g : Prop := {
  li_woven : woven g;
  li_slim : slim g;
  li_vectors : commensurable vs;
  li_over : over vs g;
  li_self : node_vector g i = Some v;
  li_height : n <= height g i;
  li_empty l : l < n -> links g i l = [];
  li_ep : ep <> i;
  li_ep_height : n <= height g ep;
}.

(** One layer: what the search finds, and the graph once the links to it are
    made in both directions, before pruning. *)
Lemma connect_layer_start vs i v l ep g :
  linking vs i v (S l) ep g ->
  exists res g1,
    let N := (take (m_limit (config g) l) res).*1 in
    connect_layer i v metric l g ep =
      (g2 ← prune_all metric l (m_limit (config g) l) N g1; Ok (g2, next_entry ep res)) /\
    found g v (ef_construction (config g)) l metric [ep] res /\
    (forall j, j ∈ res.*1 -> j <> i /\ l < height g j) /\
    alike g g1 /\ woven g1 /\
    (forall a l', links g1 a l' =
      if decide (l' = l) then
        if decide (a = i) then N else if decide (a ∈ N) then links g a l ++ [i] else links g a l
      else links g a l').
Proof.
  intros [Hw Hs Hc Hv Hi Hh He Hep Hephe]. unfold connect_layer.
  assert (Hm : measurable g v metric).
  { eapply commensurable_measurable; eauto. }
  destruct (search_layer_found g v (ef_construction (config g)) l metric Hm [ep]) as (res & -> & Hf).
  cbn [mbind result_bind]. unfold select_neighbors. set (N := (take (m_limit (config g) l) res).*1).
  assert (Hres : forall j, j ∈ res.*1 -> j <> i /\ l < height g j).
  { intros j (p & -> & Hp)%list_elem_of_fmap. destruct (fo_node _ _ _ _ _ _ _ Hf p Hp) as (_ & _ & Hr).
    eapply reach_tall; [done|apply He; lia|done|lia|done]. }
  assert (Hsub : N `sublist_of` res.*1) by (unfold N; rewrite fmap_take; apply sublist_take).
  assert (HN : forall j, j ∈ N -> j <> i /\ l < height g j).
  { intros j Hj. apply Hres. by eapply elem_of_sublist. }
  unfold set_links. destruct (get_node g i) as [n|] eqn:En; [|unfold node_vector in Hi; by rewrite En in Hi].
  rewrite decide_True by (unfold height in Hh; rewrite En in Hh; exact Hh). cbn [mbind result_bind].
  destruct (link_in g i l N) as (Ha & Hw1 & Hl); [done|apply He; lia|done| | |by apply HN|].
  { apply (sublist_NoDup _ res.*1); [apply Hf|exact Hsub]. }
  { intros Hin. by apply HN in Hin as []. }
  by exists res, (foldl (link_back i l) (alter_links (fun _ => N) i l g) N).
Qed.

Lemma connect_layer_ok vs i v l ep g :
  linking vs i v (S l) ep g ->
  exists g' ep', connect_layer i v metric l g ep = Ok (g', ep') /\ alike g g' /\
    linking vs i v l ep' g' /\ forall a l', l' <> l -> links g' a l' = links g a l'.
Proof.
  intros Hli. destruct (connect_layer_start vs i v l ep g Hli) as (res & g1 & -> & Hf & Hres & Ha & Hw1 & Hl).
  destruct Hli as [Hw Hs Hc Hv Hi Hh He Hep Hephe].
  set (limit := m_limit (config g) l) in *. set (N := (take limit res).*1) in *.
  destruct (prune_all_ok vs l limit N g1) as (g2 & -> & [Ha2 Hw2 Hle Ho] & Hlim);
    [done|done|by eapply over_alike|].
  cbn [mbind result_bind]. exists g2, (next_entry ep res).
  assert (Ha' : alike g g2) by by eapply alike_trans.
  assert (Hother : forall a l', l' <> l -> links g2 a l' = links g a l').
  { intros a l' Hl'. rewrite Ho by done. by rewrite Hl, decide_False. }
  split_and!; [done|done| |done]. constructor; try done.
  - intros l' a _. rewrite (al_config _ _ Ha'). destruct (decide (l' = l)) as [->|Hl'].
    + destruct (decide (a ∈ N)) as [Hin|Hin]; [rewrite Forall_forall in Hlim; by apply Hlim|].
      etransitivity; [apply Hle|]. rewrite Hl, decide_True by done. case_decide.
      * unfold N. rewrite length_fmap, length_take. unfold limit. lia.
      * rewrite decide_False by done. apply (Hs l a), not_elem_of_nil.
    + rewrite Hother by done. apply (Hs l' a), not_elem_of_nil.
  - by eapply over_alike.
  - by rewrite (al_vector _ _ Ha').
  - rewrite (al_height _ _ Ha'). lia.
  - intros l' Hl'. rewrite Hother by lia. apply He. lia.
  - destruct res as [|[j d] res]; [done|]. apply (Hres j). set_solver.
  - rewrite (al_height _ _ Ha'). destruct res as [|[j d] res]; [cbn; lia|].
    cbn. assert (l < height g j); [|lia]. apply (Hres j). set_solver.
Qed.

(** All the layers, down to layer 0 or to the layer above it. *)
Lemma connect_ok vs i v s n : forall ep g,
  linking vs i v (s + n) ep g ->
  exists g' ep', (forall ls, connect i v metric (rev (seq s n) ++ ls) g ep = connect i v metric ls g' ep') /\
    alike g g' /\ linking vs i v s ep' g' /\ forall a l, l < s -> links g' a l = links g a l.
Proof.
  induction n as [|n IH]; intros ep g Hl.
  { rewrite Nat.add_0_r in Hl. exists g, ep. split_and!; [done|apply alike_refl|done|done]. }
  rewrite seq_S, rev_unit. rewrite Nat.add_succ_r in Hl.
  destruct (connect_layer_ok vs i v (s + n) ep g Hl) as (g1 & ep1 & E1 & Ha1 & H1 & Ho1).
  destruct (IH ep1 g1 H1) as (g2 & ep2 & E & Ha2 & H2 & Ho2).
  exists g2, ep2. split_and!; [|by eapply alike_trans|done|].
  - intros ls. cbn [app connect]. rewrite E1. cbn [mbind result_bind]. apply E.
  - intros a l Hls. rewrite Ho2 by done. apply Ho1. lia.
Qed.

(** The descent ends on a node as tall as the last layer searched. *)
Lemma descend_tall g v s n : forall ep,
  woven g -> measurable g v metric -> s + n <= height g ep -> 0 < height g ep ->
  exists ep', descend g v metric (rev (seq s n)) ep = Ok ep' /\ s <= height g ep' /\ 0 < height g ep'.
Proof.
  induction n as [|n IH]; intros ep Hw Hm Hh Hp; [exists ep; split_and!; [done|lia|done]|].
  rewrite seq_S, rev_unit. cbn [descend].
  destruct (search_layer_found g v 1 (s + n) metric Hm [ep]) as (res & -> & Hf). cbn [mbind result_bind].
  assert (Hn : s + n < height g (next_entry ep res)).
  { destruct res as [|[j d] res]; [cbn; lia|]. cbn.
    destruct (fo_node _ _ _ _ _ _ _ Hf (j, d)) as (_ & _ & Hr); [set_solver|]. cbn in Hr.
    inversion Hr as [e He|a b _ Hb]; [|by eapply wo_height].
    apply list_elem_of_singleton in He as <-. lia. }
  apply IH; [done|done|lia|lia].
Qed.

(** ** Insertion *)
(** The entry point is a tallest node, and every node has a layer. *)
Record rooted g : Prop := {
  ro_entry : nodes g = [] \/ exists e, entry_point g = Some e /\ height g e = S (max_layer g);
  ro_top i : height g i <= S (max_layer g);
  ro_base i : is_Some (get_node g i) -> 0 < height g i;
}.

(** What holds of a graph between calls. *)
Record graph_ok g : Prop := {
  go_woven : woven g;
  go_slim : slim g;
  go_rooted : rooted g;
}.

Lemma ids_node g i : i ∈ ids g <-> is_Some (get_node g i).
Proof.
  split; [|by intros [n Hn%get_node_elem]]. unfold ids. rewrite get_node_find.
  induction (nodes g) as [|n ns IH]; cbn [find_id]; rewrite ?fmap_nil, ?fmap_cons;
    [intros Hi; by apply not_elem_of_nil in Hi|].
  intros [->|Hi]%elem_of_cons; [by rewrite decide_True by done|].
  case_decide; [eauto|by apply IH].
Qed.

Lemma get_push x g i :
  node_id x ∉ ids g ->
  get_node (push_node x g) i = if decide (i = node_id x) then Some x else get_node g i.
Proof.
  intros Hx. assert (Hf : find_id (node_id x) (nodes g) = None).
  { rewrite <- get_node_find. apply eq_None_not_Some. by rewrite <- ids_node. }
  rewrite !get_node_find. cbn [nodes push_node]. clear Hx.
  induction (nodes g) as [|n ns IH]; cbn [app find_id] in *.
  { destruct (decide (i = node_id x)) as [->|]; [by rewrite decide_True|by rewrite decide_False]. }
  destruct (decide (node_id n = node_id x)) as [|Hne]; [done|]. rewrite IH by done.
  destruct (decide (node_id n = i)) as [<-|]; [|done]. by rewrite decide_False.
Qed.

(** A node pushed with empty layers changes no links. *)
Lemma push_links i v k g a l :
  i ∉ ids g -> links (push_node (mkNode i v (replicate k [])) g) a l = links g a l.
Proof.
  intros Hi. unfold links. rewrite get_push by done. cbn [node_id]. case_decide as Ha; [|done].
  subst a. rewrite (proj2 (eq_None_not_Some (get_node g i))) by (by rewrite <- ids_node). cbn.
  destruct (replicate k [] !! l) as [x|] eqn:E; [|done]. by apply lookup_replicate in E as [-> _].
Qed.

Lemma push_height i v k g a :
  i ∉ ids g ->
  height (push_node (mkNode i v (replicate k [])) g) a = if decide (a = i) then k else height g a.
Proof.
  intros Hi. unfold height. rewrite get_push by done. cbn [node_id]. case_decide; [|done].
  cbn. apply length_replicate.
Qed.

Lemma push_vector i v k g a :
  i ∉ ids g ->
  node_vector (push_node (mkNode i v (replicate k [])) g) a = if decide (a = i) then Some v else node_vector g a.
Proof.
  intros Hi. unfold node_vector. rewrite get_push by done. cbn [node_id]. by case_decide.
Qed.

Lemma push_woven i v k g :
  i ∉ ids g -> woven g -> woven (push_node (mkNode i v (replicate k [])) g).
Proof.
  intros Hi [Hn Hr Hs Hd]. constructor.
  - unfold ids. cbn. rewrite fmap_app. apply NoDup_app. split_and!; [done| |apply NoDup_singleton].
    intros j Hj ->%list_elem_of_singleton. done.
  - intros a l. by rewrite push_links.
  - intros a b l. rewrite !push_links by done. apply Hs.
  - intros a l. by rewrite push_links.
Qed.

Lemma floor_usize_nonneg x : (0 <= floor_usize x)%Z.
Proof.
  destruct x as [| []| |[]]; cbn -[Z.shiftl Z.min]; try done.
  apply Z.min_glb; [done|]. by apply Z.shiftl_nonneg.
Qed.

Lemma random_level_nonneg g draw : (0 <= (random_level g draw).1)%Z.
Proof.
  unfold random_level. destruct (rng g) as [r|]; [destruct (gen_f64 r)|]; apply floor_usize_nonneg.
Qed.

Lemma new_layers_ok level :
  (24 * (level + 1) < 2 ^ 63)%Z -> new_layers level = Ok (replicate (Z.to_nat (level + 1)) []).
Proof. intros Hl. unfold new_layers. by rewrite decide_True. Qed.

(** A change of the random generator or the entry point is not a change of
    the nodes. *)
Lemma woven_nodes g g' : nodes g' = nodes g -> woven g -> woven g'.
Proof.
  intros E [Hn Hr Hs Hd]. assert (Hl : forall a l, links g' a l = links g a l).
  { intros a l. unfold links, get_node. by rewrite E. }
  constructor.
  - unfold ids. by rewrite E.
  - intros a l. by rewrite Hl.
  - intros a b l. rewrite !Hl. apply Hs.
  - intros a l. by rewrite Hl.
Qed.

(** The graph before the layers of a new node are linked: the node is there,
    alone, and the descent has found where to start. *)
Lemma insert_start i v g draw :
  graph_ok g -> i ∉ ids g -> nodes g <> [] -> commensurable (v :: vectors g) ->
  let level := (random_level g draw).1 in
  let g0 := with_rng (random_level g draw).2 g in
  let g1 := push_node (mkNode i v (replicate (Z.to_nat (level + 1)) [])) g0 in
  let top := if decide (level < Z.of_nat (max_layer g))%Z then Z.to_nat level else max_layer g in
  exists e ep, entry_point g = Some e /\
    descend g0 v metric (layers_above level (max_layer g)) e = Ok ep /\
    linking (v :: vectors g) i v (S top) ep g1.
Proof.
  intros [Hw Hs [He Htop Hbase]] Hi Hne Hc level g0 g1 top.
  pose proof (random_level_nonneg g draw) as Hlv. fold level in Hlv.
  destruct He as [|(e & He & Heh)]; [done|].
  assert (Hi0 : i ∉ ids g0) by done.
  assert (Hw0 : woven g0) by by apply (woven_nodes g).
  assert (Hov : over (v :: vectors g) g0).
  { intros a w Ha. apply (node_vector_in g0) in Ha. set_solver. }
  assert (Hm : measurable g0 v metric) by (eapply commensurable_measurable; [done|set_solver|done]).
  assert (Hdesc : exists ep, descend g0 v metric (layers_above level (max_layer g)) e = Ok ep /\
    S top <= height g0 ep).
  { unfold layers_above, top. destruct (decide (Z.of_nat (max_layer g) <= level)%Z).
    - rewrite decide_False by lia. exists e. split; [done|]. change (height g0 e) with (height g e). lia.
    - rewrite decide_True by lia. change (height g e) with (height g0 e) in Heh.
      destruct (descend_tall g0 v (S (Z.to_nat level)) (max_layer g - Z.to_nat level) e)
        as (ep & ? & ? & _); [done|done|lia|lia|eauto]. }
  destruct Hdesc as (ep & Hd & Hep). exists e, ep. split_and!; [done|done|].
  assert (Hepi : ep <> i).
  { intros ->. assert (0 < height g0 i) as Hp%height_node by lia. by apply ids_node in Hp. }
  constructor; try done.
  - by apply push_woven.
  - intros l a _. unfold g1. rewrite push_links by done. apply (Hs l a), not_elem_of_nil.
  - intros a w. unfold g1. rewrite push_vector by done. case_decide; [intros [= <-]; set_solver|apply Hov].
  - unfold g1. rewrite push_vector by done. by rewrite decide_True.
  - unfold g1. rewrite push_height, decide_True by done. unfold top. case_decide; lia.
  - intros l _. unfold g1. rewrite push_links by done. unfold links.
    by rewrite (proj2 (eq_None_not_Some (get_node g0 i))) by (by rewrite <- ids_node).
  - unfold g1. rewrite push_height by done. by rewrite decide_False.
Qed.
End Insert.
