(* ===== verification/HnswIndex.v ===== *)
(** * The HNSW graph as an index

    [insert] and [search] on a whole graph: insertion keeps the graph in order
    and adds one node, search returns real nodes in order of distance, and a
    small index answers as an exhaustive comparison would. *)
From S2P Require Export HnswLinks.
Local Open Scope nat_scope.

Section Index.
Context `{Randomness}.
Variable metric : DistanceMetric.
Implicit Types (g : HnswGraph) (i j : Z) (v : Vector).

(** The levels of a new node can be allocated. *)
Definition level_fits (level : Z) : Prop := (24 * (level + 1) < 2 ^ 63)%Z.

(** The last step of an insertion. *)
Definition finish (top : nat) (level : Z) i g : HnswGraph :=
  if decide (Z.of_nat top < level)%Z then with_entry (Some i) (Z.to_nat level) g else g.

Lemma finish_nodes top level i g : nodes (finish top level i g) = nodes g.
Proof. unfold finish. by case_decide. Qed.

Lemma finish_rng top level i g : rng (finish top level i g) = rng g.
Proof. unfold finish. by case_decide. Qed.

Lemma finish_config top level i g : config (finish top level i g) = config g.
Proof. unfold finish. by case_decide. Qed.

(** An insertion into a graph with nodes is the linking of its layers. *)
Lemma insert_connects g i v draw :
  graph_ok g -> i ∉ ids g -> nodes g <> [] -> commensurable metric (v :: vectors g) ->
  let level := (random_level g draw).1 in
  level_fits level ->
  let g1 := push_node (mkNode i v (replicate (Z.to_nat (level + 1)) [])) (with_rng (random_level g draw).2 g) in
  let top := if decide (level < Z.of_nat (max_layer g))%Z then Z.to_nat level else max_layer g in
  exists ep, linking metric (v :: vectors g) i v (S top) ep g1 /\
    insert g i v metric draw =
      (g2 ← connect i v metric (rev (seq 0 (S top))) g1 ep; Ok (finish (max_layer g) level i g2)).
Proof.
  intros Hg Hi Hne Hc level Hfits g1 top.
  destruct (insert_start metric i v g draw Hg Hi Hne Hc) as (e & ep & He & Hd & Hl).
  exists ep. split; [exact Hl|]. unfold insert. rewrite (surjective_pairing (random_level g draw)).
  fold level in Hd |- *. cbn [nodes with_rng entry_point max_layer].
  destruct (nodes g) as [|n ns] eqn:En; [done|]. rewrite He. cbn [or_panic mbind result_bind].
  rewrite Hd. cbn [mbind result_bind]. rewrite new_layers_ok by done. cbn [mbind result_bind].
  fold g1. fold top. apply result_bind_ext. intros g2. unfold finish. by repeat case_decide.
Qed.

(** *** What holds after an insertion *)
Record inserted i v (r : option StdRng) g g' : Prop := {
  in_ok : graph_ok g';
  in_ids : ids g' = ids g ++ [i];
  in_config : config g' = config g;
  in_rng : rng g' = r;
  in_vectors : vectors g' = vectors g ++ [v];
  in_vector j : node_vector g' j = if decide (j = i) then Some v else node_vector g j;
}.

Lemma height_nodes g g' i : nodes g' = nodes g -> height g' i = height g i.
Proof. intros E. unfold height, get_node. by rewrite E. Qed.

Lemma links_nodes g g' i l : nodes g' = nodes g -> links g' i l = links g i l.
Proof. intros E. unfold links, get_node. by rewrite E. Qed.

Lemma insert_first g i v draw :
  graph_ok g -> nodes g = [] -> level_fits (random_level g draw).1 ->
  exists g', insert g i v metric draw = Ok g' /\ inserted i v (random_level g draw).2 g g'.
Proof.
  intros Hg Hnil Hfits. pose proof (random_level_nonneg g draw) as Hlv.
  unfold insert. rewrite (surjective_pairing (random_level g draw)). set (level := (random_level g draw).1) in *.
  cbn [nodes with_rng]. rewrite Hnil, new_layers_ok by done. cbn [mbind result_bind].
  set (g0 := with_rng (random_level g draw).2 g). set (k := Z.to_nat (level + 1)).
  eexists; split; [done|].
  assert (Hi : i ∉ ids g0) by (unfold ids, g0; cbn; rewrite Hnil; apply not_elem_of_nil).
  set (g1 := push_node (mkNode i v (replicate k [])) g0).
  set (g' := with_entry _ _ g1). assert (En : nodes g' = nodes g1) by done.
  assert (Hnone : forall j, get_node g j = None) by (intros j; unfold get_node; by rewrite Hnil).
  assert (Hlinks : forall a l, links g' a l = []).
  { intros a l. rewrite (links_nodes g1 g') by done. unfold g1. rewrite push_links by done.
    unfold links. change (get_node g0 a) with (get_node g a). by rewrite Hnone. }
  assert (Hheight : forall a, height g' a = if decide (a = i) then k else 0).
  { intros a. rewrite (height_nodes g1 g') by done. unfold g1. rewrite push_height by done.
    unfold height. change (get_node g0 a) with (get_node g a). by rewrite Hnone. }
  constructor.
  - constructor.
    + apply (woven_nodes g1); [done|]. apply push_woven; [done|]. apply (woven_nodes g); [done|apply Hg].
    + intros l a _. rewrite Hlinks. cbn. lia.
    + constructor.
      * right. exists i. split; [done|]. rewrite Hheight, decide_True by done. cbn. unfold k. lia.
      * intros a. rewrite Hheight. cbn. unfold k. case_decide; lia.
      * intros a Ha. rewrite Hheight. rewrite decide_True; [unfold k; lia|].
        apply ids_node in Ha. unfold ids, g', g1, g0 in Ha. cbn in Ha. rewrite Hnil in Ha.
        by apply list_elem_of_singleton in Ha.
  - unfold ids. cbn. by rewrite fmap_app.
  - done.
  - done.
  - unfold vectors. cbn. by rewrite fmap_app.
  - intros j. exact (push_vector i v k g0 j Hi).
Qed.

Lemma connected_inserted g i v draw n ep g2 :
  graph_ok g -> i ∉ ids g -> nodes g <> [] ->
  let level := (random_level g draw).1 in
  let g1 := push_node (mkNode i v (replicate (Z.to_nat (level + 1)) [])) (with_rng (random_level g draw).2 g) in
  linking metric (v :: vectors g) i v n ep g2 -> alike g1 g2 ->
  inserted i v (random_level g draw).2 g (finish (max_layer g) level i g2).
Proof.
  intros Hg Hi Hne level g1 Hl Ha. pose proof (random_level_nonneg g draw) as Hlv. fold level in Hlv.
  set (k := Z.to_nat (level + 1)). set (g' := finish _ _ _ _).
  assert (En : nodes g' = nodes g2) by apply finish_nodes.
  assert (Hheight : forall a, height g' a = if decide (a = i) then k else height g a).
  { intros a. rewrite (height_nodes g2 g'), (al_height _ _ Ha) by done.
    unfold g1. rewrite push_height by done. done. }
  destruct Hg as [Hw Hs [He Htop Hbase]].
  assert (Hids : ids g' = ids g ++ [i]).
  { unfold ids. rewrite En. change (ids g2 = ids g ++ [i]). rewrite (al_ids _ _ Ha).
    unfold ids, g1. cbn. by rewrite fmap_app. }
  constructor.
  - constructor.
    + apply (woven_nodes g2); [done|apply Hl].
    + intros l a Hin. unfold g'. rewrite finish_config. rewrite (links_nodes g2) by apply finish_nodes.
      by apply (li_slim _ _ _ _ _ _ _ Hl l a).
    + assert (Htop' : max_layer g' = if decide (Z.of_nat (max_layer g) < level)%Z then Z.to_nat level else max_layer g).
      { unfold g', finish. case_decide; [done|]. rewrite (al_top _ _ Ha). done. }
      destruct He as [|(e & He & Heh)]; [done|].
      assert (e <> i).
      { intros ->. assert (0 < height g i) as Hn%height_node by lia. by apply Hi, ids_node. }
      constructor.
      * right. rewrite Htop'. unfold g', finish. case_decide.
        -- exists i. split; [done|]. rewrite (height_nodes g2), (al_height _ _ Ha) by done. unfold g1.
           rewrite push_height, decide_True by done. lia.
        -- exists e. split; [by rewrite (al_entry _ _ Ha)|].
           rewrite (al_height _ _ Ha). unfold g1. by rewrite push_height, decide_False.
      * intros a. rewrite Hheight, Htop'. pose proof (Htop a). unfold k. repeat case_decide; lia.
      * intros a Hn%ids_node. rewrite Hheight. destruct (decide (a = i)); [unfold k; lia|].
        rewrite Hids in Hn. apply elem_of_app in Hn as [Hn|Hn%list_elem_of_singleton]; [|done].
        by apply Hbase, ids_node.
  - done.
  - unfold g'. rewrite finish_config. by rewrite (al_config _ _ Ha).
  - unfold g'. rewrite finish_rng. by rewrite (al_rng _ _ Ha).
  - unfold vectors. rewrite En. change (vectors g2 = vectors g ++ [v]). rewrite (al_vectors _ _ Ha).
    unfold vectors, g1. cbn. by rewrite fmap_app.
  - intros j. unfold node_vector, get_node. rewrite En. change (node_vector g2 j = if decide (j = i) then Some v else node_vector g j).
    rewrite (al_vector _ _ Ha). unfold g1. by rewrite push_vector.
Qed.

Lemma insert_inserted g i v draw :
  graph_ok g -> i ∉ ids g -> commensurable metric (v :: vectors g) -> level_fits (random_level g draw).1 ->
  exists g', insert g i v metric draw = Ok g' /\ inserted i v (random_level g draw).2 g g'.
Proof.
  intros Hg Hi Hc Hfits. destruct (decide (nodes g = [])) as [Hnil|Hne].
  { by apply insert_first. }
  destruct (insert_connects g i v draw Hg Hi Hne Hc Hfits) as (ep & Hl & ->).
  destruct (connect_ok _ _ _ _ 0 _ _ _ Hl) as (g2 & ep2 & E & Ha & Hl2 & _).
  specialize (E []). rewrite app_nil_r in E. rewrite E. cbn [connect mbind result_bind].
  eexists; split; [done|]. by eapply connected_inserted.
Qed.

(** ** Small indexes *)
(** Layer 0 joins every node to every other. *)
Definition complete g : Prop := forall a b,
  is_Some (get_node g a) -> is_Some (get_node g b) -> a <> b -> b ∈ links g a 0.

Lemma complete_joined g : complete g -> joined g.
Proof.
  intros Hc a b Ha Hb. destruct (decide (a = b)) as [->|].
  - apply reach_entry. set_solver.
  - apply (reach_link _ _ _ a); [apply reach_entry; set_solver|]. by apply Hc.
Qed.

(** A node has fewer links than there are nodes. *)
Lemma links_fewer g i l : woven g -> is_Some (get_node g i) -> length (links g i l) < length (nodes g).
Proof.
  intros Hw Hi. assert (length (i :: links g i l) <= length (ids g)) as Hle.
  { apply submseteq_length, NoDup_submseteq; [constructor; [by apply wo_irrefl|by apply wo_nodup]|].
    intros j [->|Hj]%elem_of_cons; [by apply ids_node|]. apply (wo_height _ _ _ _ Hw) in Hj.
    apply ids_node, height_node. lia. }
  unfold ids in Hle. rewrite length_fmap in Hle. cbn in Hle. lia.
Qed.

Lemma prune_all_same l limit N g :
  (forall i, i ∈ N -> length (links g i l) <= limit) -> prune_all metric l limit N g = Ok g.
Proof.
  induction N as [|i N IH]; intros HN; [done|]. cbn [prune_all].
  assert (prune metric l limit g i = Ok g) as ->; [|apply IH; set_solver].
  pose proof (HN i) as Hi. unfold links in Hi. unfold prune.
  destruct (get_node g i) as [n|]; cbn [mbind option_bind] in *; [|done].
  destruct (layers n !! l) as [old|]; cbn [mbind option_bind default] in *; [|done].
  rewrite (proj2 (Nat.ltb_ge _ _)); [done|]. apply Hi. set_solver.
Qed.

(** Linking a node into a complete layer 0 that has room for it. *)
Lemma connect_complete vs i v ep g :
  linking metric vs i v 1 ep g ->
  (forall a b, is_Some (get_node g a) -> is_Some (get_node g b) -> a <> i -> b <> i -> a <> b -> b ∈ links g a 0) ->
  length (nodes g) <= ef_construction (config g) -> length (nodes g) <= S (m_max (config g)) ->
  exists g' ep', connect_layer i v metric 0 g ep = Ok (g', ep') /\ complete g'.
Proof.
  intros Hli Hcl Hef Hmax.
  destruct (connect_layer_start metric vs i v 0 ep g Hli) as (res & g1 & -> & Hf & Hres & Ha & Hw1 & Hl).
  destruct Hli as [Hw _ Hc Hv Hi Hh _ Hep Heph].
  assert (Hnode : forall a, is_Some (get_node g1 a) <-> is_Some (get_node g a)) by (intros; by apply alike_node).
  assert (Hlen1 : length (nodes g1) = length (nodes g)).
  { rewrite <- (length_fmap node_id (nodes g1)), <- (length_fmap node_id (nodes g)).
    change (length (ids g1) = length (ids g)). by rewrite (al_ids _ _ Ha). }
  assert (Hlim : m_limit (config g) 0 = m_max (config g)) by done. rewrite Hlim in *.
  assert (Hin : forall a, is_Some (get_node g a) -> a <> i -> a ∈ res.*1).
  { intros a Hna Hai. eapply found_all; [exact Hef|exact Hf| |done].
    destruct (decide (a = ep)) as [->|Hne]; [apply reach_entry; set_solver|].
    apply (reach_link _ _ _ ep); [apply reach_entry; set_solver|]. apply Hcl; try done. apply height_node. lia. }
  assert (Hroom : length res <= m_max (config g)).
  { assert (length (i :: res.*1) <= length (ids g)) as Hle.
    { apply submseteq_length, NoDup_submseteq.
      - constructor; [|apply Hf]. intros Hbad. by apply Hres in Hbad as [].
      - intros j [->|Hj]%elem_of_cons; [apply ids_node, height_node; lia|].
        apply Hres in Hj as [_ Hj]. apply ids_node, height_node. lia. }
    unfold ids in Hle. rewrite length_fmap in Hle. cbn in Hle. rewrite length_fmap in Hle. lia. }
  rewrite take_ge in Hl |- * by done. rewrite prune_all_same.
  2: { intros j Hj. assert (is_Some (get_node g1 j)) as Hn.
       { apply Hnode, height_node. destruct (Hres j Hj). lia. }
       pose proof (links_fewer g1 j 0 Hw1 Hn). lia. }
  cbn [mbind result_bind]. exists g1, (next_entry ep res). split; [done|].
  intros a b Hna Hnb Hab. rewrite Hl, decide_True by done. apply Hnode in Hna, Hnb.
  case_decide as Hai; [subst a; by apply Hin|].
  rewrite decide_True by by apply Hin. apply elem_of_app.
  destruct (decide (b = i)) as [->|]; [right; set_solver|left]. by apply Hcl.
Qed.

Lemma insert_keeps_complete g i v draw :
  graph_ok g -> i ∉ ids g -> commensurable metric (v :: vectors g) -> level_fits (random_level g draw).1 ->
  complete g -> length (nodes g) < ef_construction (config g) -> length (nodes g) <= m_max (config g) ->
  exists g', insert g i v metric draw = Ok g' /\ inserted i v (random_level g draw).2 g g' /\ complete g'.
Proof.
  intros Hg Hi Hc Hfits Hcl Hef Hmax.
  destruct (insert_inserted g i v draw Hg Hi Hc Hfits) as (g' & E & Hins).
  exists g'. split_and!; [done|done|]. destruct (decide (nodes g = [])) as [Hnil|Hne].
  { intros a b Ha%ids_node Hb%ids_node Hab. rewrite (in_ids _ _ _ _ _ Hins) in Ha, Hb.
    unfold ids in Ha, Hb. rewrite Hnil in Ha, Hb. set_solver. }
  destruct (insert_connects g i v draw Hg Hi Hne Hc Hfits) as (ep & Hl & E'). rewrite E' in E. clear E'.
  set (top := if decide _ then _ else _) in *. set (g1 := push_node _ _) in *.
  destruct (connect_ok _ _ _ _ 1 top _ _ Hl) as (g2 & ep2 & E2 & Ha & Hl2 & Ho).
  specialize (E2 [0]). change (seq 0 (S top)) with (0 :: seq 1 top) in E. cbn [rev] in E. rewrite E2 in E.
  cbn [connect] in E.
  destruct (connect_complete _ _ _ _ _ Hl2) as (g3 & ep3 & E3 & Hc3).
  - intros a b Hna Hnb Hai Hbi Hab. rewrite Ho by lia. unfold g1. rewrite push_links by done.
    assert (Hold : forall c, is_Some (get_node g2 c) -> c <> i -> is_Some (get_node g c)).
    { intros c Hnc Hci. apply (alike_node _ _ _ Ha) in Hnc. unfold g1 in Hnc. rewrite get_push in Hnc by done.
      by rewrite decide_False in Hnc. }
    apply Hcl; auto.
  - rewrite (al_config _ _ Ha). rewrite <- (length_fmap node_id). change (node_id <$> nodes g2) with (ids g2).
    rewrite (al_ids _ _ Ha). unfold ids, g1. cbn. rewrite fmap_app, length_app, length_fmap. cbn. lia.
  - rewrite (al_config _ _ Ha). rewrite <- (length_fmap node_id). change (node_id <$> nodes g2) with (ids g2).
    rewrite (al_ids _ _ Ha). unfold ids, g1. cbn. rewrite fmap_app, length_app, length_fmap. cbn. lia.
  - rewrite E3 in E. cbn [mbind result_bind] in E. injection E as <-.
    assert (En : nodes (finish (max_layer g) (random_level g draw).1 i g3) = nodes g3) by apply finish_nodes.
    intros a b Hna Hnb Hab. rewrite (links_nodes _ _ _ _ En). unfold get_node in Hna, Hnb. rewrite En in Hna, Hnb.
    by apply Hc3.
Qed.

(** ** Building an index *)
(** Ids, vectors and what the thread's generator draws when each is inserted. *)
Definition items : Type := list (Z * Vector * f64).

Fixpoint build (l : items) g : run HnswGraph :=
  match l with
  | [] => Ok g
  | (i, v, draw) :: l => g ← insert g i v metric draw; build l g
  end.

Definition item_ids (l : items) : list Z := (fun x => x.1.1) <$> l.
Definition item_vectors (l : items) : list Vector := (fun x => x.1.2) <$> l.

(** Every level drawn on the way can be allocated. *)
Fixpoint levels_fit g (l : items) : Prop :=
  match l with
  | [] => True
  | (_, _, draw) :: l =>
      level_fits (random_level g draw).1 /\ levels_fit (with_rng (random_level g draw).2 g) l
  end.

Lemma random_level_same g g' draw :
  config g' = config g -> rng g' = rng g -> random_level g' draw = random_level g draw.
Proof. unfold random_level. by intros -> ->. Qed.

Lemma levels_fit_same l : forall g g',
  config g' = config g -> rng g' = rng g -> levels_fit g l -> levels_fit g' l.
Proof.
  induction l as [|[[i v] draw] l IH]; intros g g' Hc Hr; [done|]. cbn [levels_fit].
  rewrite (random_level_same g g') by done. intros [H1 H2]. split; [done|]. by eapply IH; [| |exact H2].
Qed.

Lemma commensurable_sub vs ws : (forall v, v ∈ ws -> v ∈ vs) -> commensurable metric vs -> commensurable metric ws.
Proof. intros Hsub Hc v w Hv Hw. apply Hc; by apply Hsub. Qed.

(** What a graph built from [l] on top of [g] holds. *)
Record built (l : items) g g' : Prop := {
  bu_ok : graph_ok g';
  bu_config : config g' = config g;
  bu_ids : ids g' = ids g ++ item_ids l;
  bu_vectors : vectors g' = vectors g ++ item_vectors l;
  bu_old i v : node_vector g i = Some v -> node_vector g' i = Some v;
  bu_new i v draw : (i, v, draw) ∈ l -> node_vector g' i = Some v;
}.

(** Insertion after insertion: one induction for what each step keeps ([K])
    and needs ([P]). *)
Lemma build_steps (P : nat -> Prop) (K : HnswGraph -> Prop) :
  (forall g i v draw, graph_ok g -> i ∉ ids g -> commensurable metric (v :: vectors g) ->
    level_fits (random_level g draw).1 -> K g -> P (length (nodes g)) ->
    exists g', insert g i v metric draw = Ok g' /\ inserted i v (random_level g draw).2 g g' /\ K g') ->
  forall l g, graph_ok g -> K g -> (forall n, n < length (nodes g) + length l -> P n) ->
  NoDup (ids g ++ item_ids l) -> commensurable metric (vectors g ++ item_vectors l) -> levels_fit g l ->
  exists g', build l g = Ok g' /\ built l g g' /\ K g'.
Proof.
  intros Hstep. induction l as [|[[i v] draw] l IH]; intros g Hg HK HP Hnd Hc Hfit.
  { exists g. split_and!; [done| |done]. constructor; [done|done|by rewrite app_nil_r|by rewrite app_nil_r|done|set_solver]. }
  cbn [build item_ids item_vectors fmap list_fmap fst snd] in *. destruct Hfit as [Hfit Hfits].
  destruct (Hstep g i v draw) as (g1 & -> & [Hg1 Hids Hcfg Hrng Hvs Hv] & HK1); try done.
  { intros Hi. apply NoDup_app in Hnd as (_ & Hnd & _). apply (Hnd i Hi). set_solver. }
  { eapply commensurable_sub, Hc. set_solver. }
  { apply HP. cbn. lia. }
  cbn [mbind result_bind]. destruct (IH g1) as (g2 & -> & [Hg2 Hcfg2 Hids2 Hvs2 Hold Hnew] & HK2); try done.
  - intros n Hn. apply HP. cbn. assert (length (nodes g1) = S (length (nodes g))); [|lia].
    rewrite <- (length_fmap node_id (nodes g1)). change (node_id <$> nodes g1) with (ids g1).
    rewrite Hids, length_app. unfold ids. rewrite length_fmap. cbn. lia.
  - rewrite Hids, <- app_assoc. done.
  - rewrite Hvs, <- app_assoc. done.
  - by eapply levels_fit_same; [| |exact Hfits].
  - assert (Hi : i ∉ ids g).
    { intros Hi. apply NoDup_app in Hnd as (_ & Hnd & _). apply (Hnd i Hi). set_solver. }
    exists g2. split_and!; [done| |done]. constructor; [done|congruence| | | |].
    + rewrite Hids2, Hids, <- app_assoc. done.
    + rewrite Hvs2, Hvs, <- app_assoc. done.
    + intros a w Ha. apply Hold. rewrite Hv, decide_False; [done|]. intros ->.
      apply Hi, ids_node. unfold node_vector in Ha. destruct (get_node g i); [eauto|done].
    + intros a w d [Heq|Hin]%elem_of_cons; [|by eapply Hnew]. injection Heq as -> -> ->.
      apply Hold. by rewrite Hv, decide_True.
Qed.

(** ** The reference: the nearest by exhaustive comparison *)
(** [res] are [k] nearest of [l], or all of them when there are fewer; ties in
    any order. *)
Record knn (q : Vector) (k : nat) (l : items) (res : list (Z * f64)) : Prop := {
  kn_item i d : (i, d) ∈ res ->
    exists v draw, (i, v, draw) ∈ l /\ compute (E := fault) metric (data q) (data v) = Ok d;
  kn_nodup : NoDup res.*1;
  kn_sorted : StronglySorted dist_le res;
  kn_len : length res = Nat.min k (length l);
  kn_best i v draw d i' d' : (i, v, draw) ∈ l -> compute (E := fault) metric (data q) (data v) = Ok d ->
    i ∉ res.*1 -> (i', d') ∈ res -> float_cmp d' d <> Gt;
}.

Lemma empty_ok g : nodes g = [] -> graph_ok g.
Proof.
  intros Hnil. assert (Hn : forall i, get_node g i = None) by (intros i; unfold get_node; by rewrite Hnil).
  assert (Hl : forall i l, links g i l = []) by (intros i l; unfold links; by rewrite Hn).
  constructor.
  - constructor; intros *; rewrite ?Hl; [unfold ids; rewrite Hnil; constructor|apply not_elem_of_nil| |constructor].
    intros Hj. by apply not_elem_of_nil in Hj.
  - intros l i _. rewrite Hl. cbn. lia.
  - constructor; [by left| |].
    + intros i. unfold height. rewrite Hn. cbn. lia.
    + intros i. rewrite Hn. by intros [].
Qed.

Lemma graph_entered g : graph_ok g -> entered g.
Proof.
  intros Hg. destruct (ro_entry _ (go_rooted _ Hg)) as [|(e & He & Hh)]; [by left|right].
  exists e. split; [done|]. apply height_node. lia.
Qed.

Lemma built_knn l g g' q k res :
  nodes g = [] -> built l g g' -> NoDup (item_ids l) ->
  commensurable metric (q :: item_vectors l) -> nearest g' q metric k res -> knn q k l res.
Proof.
  intros Hnil Hb Hnd Hc Hne.
  assert (Hids : ids g' = item_ids l).
  { rewrite (bu_ids _ _ _ Hb). unfold ids. by rewrite Hnil. }
  assert (Hdist : forall i v draw, (i, v, draw) ∈ l ->
    is_Some (get_node g' i) /\ compute (E := fault) metric (data q) (data v) = Ok (dist_to g' q metric i)).
  { intros i v draw Hin. pose proof (bu_new _ _ _ Hb i v draw Hin) as Hv. unfold node_vector in Hv.
    unfold dist_to. destruct (get_node g' i) as [n|]; [|done]. injection Hv as ->. split; [eauto|].
    destruct (Hc q v) as (d & -> & _); [set_solver| |done]. apply elem_of_cons; right.
    apply list_elem_of_fmap. by exists (i, v, draw). }
  assert (Hitem : forall i, is_Some (get_node g' i) -> exists v draw, (i, v, draw) ∈ l).
  { intros i Hi%ids_node. rewrite Hids in Hi. apply list_elem_of_fmap in Hi as ([[a v] draw] & -> & Hin). eauto. }
  assert (Hsub : forall i, i ∈ res.*1 -> i ∈ item_ids l).
  { intros i (p & -> & Hp)%list_elem_of_fmap. rewrite <- Hids. by apply ids_node, (ne_node _ _ _ _ _ Hne). }
  assert (Hle : length res <= length l).
  { rewrite <- (length_fmap fst res), <- (length_fmap (fun x => x.1.1) l).
    apply submseteq_length, NoDup_submseteq; [apply Hne|exact Hsub]. }
  constructor; try apply Hne.
  - intros i d Hin. destruct (ne_node _ _ _ _ _ Hne _ Hin) as [Hi Hd]. cbn in Hi, Hd. subst d.
    destruct (Hitem i Hi) as (v & draw & Hl). exists v, draw. split; [done|]. by apply (Hdist i v draw).
  - pose proof (ne_len _ _ _ _ _ Hne). destruct (decide (length res = k)); [lia|].
    assert (length l <= length res); [|lia].
    rewrite <- (length_fmap fst res), <- (length_fmap (fun x => x.1.1) l).
    apply submseteq_length, NoDup_submseteq; [done|]. intros i Hi.
    destruct (ne_best _ _ _ _ _ Hne i) as [?|[? _]]; [|done|done]. apply ids_node. by rewrite Hids.
  - intros i v draw d i' d' Hin Hd Hni Hin'. destruct (Hdist i v draw Hin) as [Hi Hd'].
    rewrite Hd in Hd'. injection Hd' as ->. destruct (ne_best _ _ _ _ _ Hne i Hi) as [|[_ HF]]; [done|].
    rewrite Forall_forall in HF. apply (HF _ Hin').
Qed.
End Index.

(** ** The index, end to end *)
(** Vectors of finite numbers, all of one dimension, can be compared under the
    Euclidean metric. *)
Lemma euclidean_commensurable vs n :
  (forall v, v ∈ vs -> length (data v) = n /\ Forall is_finite (data v)) -> commensurable Euclidean vs.
Proof.
  intros Hvs v w [Hv Fv]%Hvs [Hw Fw]%Hvs.
  destruct (euclidean_nonneg (E := fault) (data v) (data w)) as (d & Hd & Hn); [congruence|done..|].
  exists d. split; [done|]. by intros ->.
Qed.

Section Claims.
Context `{Randomness}.

(** C12: insertions of new ids, one after the other, on a graph that is in order
    ([graph_ok]) return, when every two of the vectors, old and new, have a
    distance that is not NaN ([commensurable]: among others they have one
    dimension) and the levels drawn can be allocated ([levels_fit]): no index is
    out of range, no sort meets a NaN and no loop runs out of fuel. The graph it
    leaves is in order too: links go both ways between different nodes that have
    the layer, without repetitions, no list of neighbours is longer than its
    limit, and the entry point is a tallest node. The ids are the old ones and
    the new ones, each with its vector. *)
Theorem hnsw_build_ok metric (l : items) (g : HnswGraph) :
  graph_ok g -> NoDup (ids g ++ item_ids l) ->
  commensurable metric (vectors g ++ item_vectors l) -> levels_fit g l ->
  exists g', build metric l g = Ok g' /\ built l g g'.
Proof.
  intros Hg Hnd Hc Hfit.
  destruct (build_steps metric (fun _ => True) (fun _ => True)) with (l := l) (g := g)
    as (g' & E & Hb & _); try done; [|eauto].
  intros. destruct (insert_inserted metric g0 i v draw) as (g1 & ? & ?); eauto.
Qed.

(** C14: for a graph in order ([graph_ok]) whose every node has a distance from
    the query that is not NaN ([measurable]): a search of one layer ends within
    its fuel and does not panic, and its results are nodes it can reach, each
    once and with its distance, at most [ef] and in order of distance; an entry
    point or a neighbour of a result that is not among them is no nearer than
    any of them, and then the results are full. A search of the graph answers
    with at most [k] of its nodes, each once and with its distance, in order. *)
Theorem hnsw_search_correct metric (g : HnswGraph) q k :
  graph_ok g -> measurable g q metric ->
  (forall ef layer eps, exists res,
    search_layer g q ef layer metric eps = Ok res /\ found g q ef layer metric eps res) /\
  exists res, search g q k metric = Ok res /\ NoDup res.*1 /\ StronglySorted dist_le res /\
    length res <= k /\
    forall p, p ∈ res -> p.1 ∈ ids g /\ p.2 = dist_to g q metric p.1.
Proof.
  intros Hg Hm. split; [intros; by apply search_layer_found|].
  destruct (decide (nodes g = [])) as [Hnil|Hne].
  { exists []. unfold search. rewrite Hnil. split_and!; [done|constructor|constructor|cbn; lia|set_solver]. }
  destruct (search_found g q k metric) as (ep & res & -> & _ & Hf); [done|by apply graph_entered|done|].
  exists (take k res). split_and!.
  - done.
  - rewrite fmap_take. apply (sublist_NoDup _ res.*1); [apply Hf|apply sublist_take].
  - apply StronglySorted_prefix, Hf.
  - rewrite length_take. lia.
  - intros p (n & Hp & _)%elem_of_take. apply list_elem_of_lookup_2 in Hp.
    destruct (fo_node _ _ _ _ _ _ _ Hf p Hp) as (Hn & Hd & _). by rewrite ids_node.
Qed.

(** C13: a search of a small index is exact: when an index is built from
    nothing, of different ids, of vectors any two of which, and each and the
    query, have a distance that is not NaN ([commensurable]), with levels that
    can be allocated ([levels_fit]), and holds at most one vector more than a
    node has links on layer 0, and no more than the widths of the two beams,
    then the build and the search return, and the [k] nearest are those of an
    exhaustive comparison. With the default configuration that is 33 vectors. *)
Theorem hnsw_small_exact metric (l : items) (g : HnswGraph) q k :
  nodes g = [] -> NoDup (item_ids l) -> commensurable metric (q :: item_vectors l) -> levels_fit g l ->
  length l <= S (m_max (config g)) -> length l <= ef_construction (config g) ->
  length l <= ef_search (config g) `max` k ->
  exists g' res, build metric l g = Ok g' /\ search g' q k metric = Ok res /\ knn metric q k l res.
Proof.
  intros Hnil Hnd Hc Hfit Hmax Hef Hefs.
  assert (Hids : ids g = []) by (unfold ids; by rewrite Hnil).
  assert (Hvs : vectors g = []) by (unfold vectors; by rewrite Hnil).
  destruct (build_steps metric (fun n => n < ef_construction (config g) /\ n <= m_max (config g))
    (fun g' => config g' = config g /\ complete g')) with (l := l) (g := g)
    as (g' & E & Hb & [_ Hcl]).
  - intros g0 i v draw Hg Hi Hcm Hlv [Hcfg Hcl] [H1 H2].
    destruct (insert_keeps_complete metric g0 i v draw) as (g1 & ? & Hin & ?); rewrite ?Hcfg; try done.
    exists g1. split_and!; try done. rewrite <- Hcfg. apply Hin.
  - by apply empty_ok.
  - split; [done|]. intros a b [n Hn%get_node_elem]. rewrite Hnil in Hn. set_solver.
  - intros n. rewrite Hnil. cbn. lia.
  - by rewrite Hids.
  - rewrite Hvs. eapply commensurable_sub, Hc. set_solver.
  - done.
  - assert (Hlen : length (nodes g') = length l).
    { rewrite <- (length_fmap node_id). change (length (ids g') = length l).
      rewrite (bu_ids _ _ _ Hb), Hids. apply length_fmap. }
    assert (Hm : measurable g' q metric).
    { apply (commensurable_measurable metric g' (q :: item_vectors l)); [done|set_solver|].
      intros i v Hv%node_vector_in. rewrite (bu_vectors _ _ _ Hb), Hvs in Hv. by apply elem_of_cons; right. }
    destruct (search_nearest g' q k metric) as (res & Es & Hne); [done|by eapply graph_entered, Hb|..].
    { by apply complete_joined. }
    { rewrite Hlen, (bu_config _ _ _ Hb). done. }
    exists g', res. split_and!; [done|done|]. by eapply built_knn.
Qed.
End Claims.

(** ** A graph of five points of the plane *)
(** A generator that always draws one half, and the tangent of the logarithm
    at one in place of the logarithm. *)
#[local] Instance demo_randomness : Randomness := {|
  StdRng := unit; seed_from_u64 _ := tt; gen_f64 _ := (S754_finite false 1 (-1), tt);
  ln x := fsub x f64_one |}.

Definition demo_vector (x y : Z) : Vector := Vector_new [f64_value (f64_of_int x); f64_value (f64_of_int y)].

Definition demo_graph : HnswGraph :=
  HnswGraph_new 2 (mkConfig 2 4 10 5 (f64_value (f64_of_int 2))).

(** The draws put the nodes on levels 1, 0, 2, 0 and 1. *)
Definition demo_items : items :=
  [(10, demo_vector 0 0, S754_finite false 1 (-1)); (20, demo_vector 3 4, f64_one);
   (30, demo_vector 1 1, f64_zero); (40, demo_vector 6 8, f64_one);
   (50, demo_vector 0 2, S754_finite false 1 (-1))]%Z.

Lemma demo_commensurable : commensurable Euclidean (demo_vector 1 0 :: item_vectors demo_items).
Proof.
  apply (euclidean_commensurable _ 2). intros v Hv.
  assert (Hall : Forall (fun v => length (data v) = 2 /\ Forall is_finite (data v))
    (demo_vector 1 0 :: item_vectors demo_items)) by (apply (bool_decide_unpack _); by vm_compute).
  rewrite Forall_forall in Hall. by apply Hall.
Qed.

Lemma demo_levels_fit : levels_fit demo_graph demo_items.
Proof. repeat split. Qed.

Example demo_search :
  (g ← build Euclidean demo_items demo_graph; search g (demo_vector 1 0) 2 Euclidean) =
  Ok [(30, f64_one); (10, f64_one)]%Z.
Proof. vm_compute. reflexivity. Qed.

Lemma hnsw_build_ok_witness :
  exists g', build Euclidean demo_items demo_graph = Ok g' /\ built demo_items demo_graph g'.
Proof.
  apply hnsw_build_ok.
  - by apply empty_ok.
  - apply (bool_decide_unpack _). by vm_compute.
  - apply (commensurable_sub _ _ _ ltac:(intros v Hv; apply elem_of_cons; right; exact Hv) demo_commensurable).
  - apply demo_levels_fit.
Defined.

Lemma demo_built :
  exists g, build Euclidean demo_items demo_graph = Ok g /\ graph_ok g /\
    measurable g (demo_vector 1 0) Euclidean.
Proof.
  destruct (build_steps Euclidean (fun _ => True) (fun _ => True)) with (l := demo_items) (g := demo_graph)
    as (g & E & Hb & _).
  - intros g i v draw Hg Hi Hc Hf _ _.
    destruct (insert_inserted Euclidean g i v draw Hg Hi Hc Hf) as (g' & ? & ?). eauto.
  - by apply empty_ok.
  - exact I.
  - intros n _. exact I.
  - apply (bool_decide_unpack _). by vm_compute.
  - apply (commensurable_sub _ (demo_vector 1 0 :: item_vectors demo_items)); [|apply demo_commensurable].
    intros v Hv. apply elem_of_cons; right. exact Hv.
  - apply demo_levels_fit.
  - exists g. split_and!; [exact E|apply Hb|].
    apply (commensurable_measurable Euclidean g (demo_vector 1 0 :: item_vectors demo_items));
      [exact demo_commensurable|by apply elem_of_cons; left|].
    intros i v Hv%node_vector_in. rewrite (bu_vectors _ _ _ Hb) in Hv.
    apply elem_of_cons; right. exact Hv.
Qed.

Lemma hnsw_search_correct_witness :
  exists g res, build Euclidean demo_items demo_graph = Ok g /\
    search g (demo_vector 1 0) 2 Euclidean = Ok res /\ NoDup res.*1 /\ length res <= 2.
Proof.
  destruct demo_built as (g & E & Hg & Hm).
  destruct (hnsw_search_correct Euclidean g (demo_vector 1 0) 2 Hg Hm) as [_ (res & Er & Hnd & _ & Hl & _)].
  exact (ex_intro _ g (ex_intro _ res (conj E (conj Er (conj Hnd Hl))))).
Defined.

Lemma hnsw_small_exact_witness :
  exists g' res, build Euclidean demo_items demo_graph = Ok g' /\
    search g' (demo_vector 1 0) 2 Euclidean = Ok res /\ knn Euclidean (demo_vector 1 0) 2 demo_items res.
Proof.
  apply hnsw_small_exact.
  - done.
  - apply (bool_decide_unpack _). by vm_compute.
  - apply demo_commensurable.
  - apply demo_levels_fit.
  - cbn. lia.
  - cbn. lia.
  - cbn. lia.
Defined.

(** ** Where the index panics *)
(** A configuration with one link per node: [ln 1] is zero, so [ml] is infinite
    and so is the level of the first node. *)
Example single_link_config_panics :
  (c ← HnswConfig_new 1 10 10; g ← insert (HnswGraph_new 2 c) 1 (demo_vector 0 0) Euclidean (S754_finite false 1 (-1)); Ok (graph_len g)) = Panic.
Proof. vm_compute. reflexivity. Qed.

(** Finite components whose squares overflow: the cosine is NaN, and a search
    over two of them panics in the sort. *)
Definition huge_vector : Vector := Vector_new [S754_finite false (2 ^ 52) 900].

Example cosine_overflow_panics :
  compute (E := fault) Cosine (data huge_vector) (data huge_vector) = Ok S754_nan /\
  (g ← build Cosine [(1, huge_vector, f64_one); (2, huge_vector, f64_one)]%Z demo_graph;
   search g huge_vector 1 Cosine) = Panic.
Proof. split; vm_compute; reflexivity. Qed.

(** A vector of another dimension than the graph's is accepted, and the next
    insertion panics. *)
Definition demo_size (l : items) : run nat := g ← build Euclidean l demo_graph; Ok (graph_len g).

Example wrong_dimension_accepted :
  demo_size [(1, Vector_new [f64_one], f64_one)]%Z = Ok 1 /\
  demo_size [(1, Vector_new [f64_one], f64_one); (2, demo_vector 0 0, f64_one)]%Z = Panic.
Proof. split; vm_compute; reflexivity. Qed.

(** An id inserted again leaves two nodes of which only the first is found,
    and panics when the first has fewer layers. *)
Example duplicate_id_panics :
  demo_size [(2, demo_vector 1 1, f64_zero); (1, demo_vector 0 0, f64_one)]%Z = Ok 2 /\
  demo_size [(2, demo_vector 1 1, f64_zero); (1, demo_vector 0 0, f64_one); (1, demo_vector 9 9, f64_zero)]%Z = Panic.
Proof. split; vm_compute; reflexivity. Qed.
