(* ===== verification/IndexManager.v ===== *)
(** * The index manager: engine/index_manager.rs

    One index per (table, column).  The manager is written against an
    interface, [OrderedIndex]: a type of indexes with its operations, the
    sorted list of entries an index stands for, and the laws the operations
    keep.  The B-tree is the instance the program uses. *)
From S2P Require Export BTree Text.
Local Open Scope Z_scope.

Class OrderedIndex (T : Type) := {
  oi_new : T;
  oi_insert : T -> Z -> Rid -> option T;
  oi_delete : T -> Z -> option (T * bool);
  oi_search : T -> Z -> option (option Rid);
  oi_range : T -> Z -> Z -> option (list Rid);
  (** The entries an index stands for, and whether it has room for so many
      inserts. *)
  oi_models : T -> entries -> Prop;
  oi_room : T -> nat -> bool;
  oi_new_ok : oi_models oi_new [];
  oi_insert_ok t es k r n :
    oi_models t es -> es_lookup k es = None -> oi_room t (S n) = true ->
    exists t', oi_insert t k r = Some t' /\ oi_models t' (es_insert k r es) /\ oi_room t' n = true;
  oi_delete_ok t es k : oi_models t es ->
    exists t' b, oi_delete t k = Some (t', b) /\ oi_models t' (es_delete k es) /\
      forall n, oi_room t n = true -> oi_room t' n = true;
  oi_search_ok t es k : oi_models t es -> oi_search t k = Some (es_lookup k es);
  oi_range_ok t es a b : oi_models t es -> oi_range t a b = Some (es_range a b es);
  oi_room_less t n : oi_room t (S n) = true -> oi_room t n = true;
}.

#[export, refine] Instance BTree_index : OrderedIndex BTree := {
  oi_new := BTree_new;
  oi_insert := insert_key;
  oi_delete := delete_key;
  oi_search := search;
  oi_range := range_scan;
  oi_models := tree_ok;
  oi_room := fun t n => next_page_id t + INSERT_PAGES * Z.of_nat n <? 2 ^ 31;
}.
Proof.
  - exact BTree_new_ok.
  - intros t es k r n H Hk Hp%Z.ltb_lt. unfold INSERT_PAGES in Hp.
    destruct (insert_ok t es k r H Hk) as (t' & E & H' & Hn); [lia|].
    exists t'. split_and!; [done..|]. apply Z.ltb_lt. unfold INSERT_PAGES in *. lia.
  - intros t es k H. destruct (delete_ok t es k H) as (t' & E & H' & Hn).
    exists t', (bool_decide (is_Some (es_lookup k es))). split_and!; [done..|]. by rewrite Hn.
  - exact search_ok.
  - exact range_scan_ok.
  - intros t n Hp%Z.ltb_lt. apply Z.ltb_lt. unfold INSERT_PAGES in *. lia.
Defined.

(** ** The operations

    Outer [None]: a panic inside an index. *)
Section Manager.
Context {T : Type} `{OrderedIndex T}.

Record IndexManager := mkManager { indexes : gmap (rstring * rstring) T }.

Definition IndexManager_new : IndexManager := mkManager ∅.

Definition create_index (m : IndexManager) (table col : rstring) : IndexManager :=
  match indexes m !! (table, col) with
  | Some _ => m
  | None => mkManager (<[(table, col) := oi_new]> (indexes m))
  end.

Definition has_index (m : IndexManager) (table col : rstring) : bool :=
  bool_decide (is_Some (indexes m !! (table, col))).

Definition index_insert (m : IndexManager) (table col : rstring) (k : Z) (r : Rid)
    : option IndexManager :=
  match indexes m !! (table, col) with
  | Some t => t ← oi_insert t k r; Some (mkManager (<[(table, col) := t]> (indexes m)))
  | None => Some m
  end.

Definition index_delete (m : IndexManager) (table col : rstring) (k : Z) : option IndexManager :=
  match indexes m !! (table, col) with
  | Some t => '(t, _) ← oi_delete t k; Some (mkManager (<[(table, col) := t]> (indexes m)))
  | None => Some m
  end.

Definition index_search (m : IndexManager) (table col : rstring) (k : Z) : option (option Rid) :=
  match indexes m !! (table, col) with Some t => oi_search t k | None => Some None end.

Definition index_range (m : IndexManager) (table col : rstring) (a b : Z) : option (list Rid) :=
  match indexes m !! (table, col) with Some t => oi_range t a b | None => Some [] end.

(** A hash map's keys, in an order the source does not fix. *)
Definition get_index_defs (m : IndexManager) : list (rstring * rstring) :=
  (map_to_list (indexes m)).*1.

Definition index_clear (m : IndexManager) : IndexManager := mkManager ∅.

(** ** Sequences of calls *)
Inductive index_op :=
  | ICreate (table col : rstring)
  | IHas (table col : rstring)
  | IInsert (table col : rstring) (k : Z) (r : Rid)
  | IDelete (table col : rstring) (k : Z)
  | ISearch (table col : rstring) (k : Z)
  | IRange (table col : rstring) (a b : Z)
  | IClear.

Inductive index_res :=
  | IDone
  | IBool (b : bool)
  | IFound (r : option Rid)
  | IRows (rs : list Rid).

Definition index_step (m : IndexManager) (o : index_op) : option (IndexManager * index_res) :=
  match o with
  | ICreate t c => Some (create_index m t c, IDone)
  | IHas t c => Some (m, IBool (has_index m t c))
  | IInsert t c k r => m ← index_insert m t c k r; Some (m, IDone)
  | IDelete t c k => m ← index_delete m t c k; Some (m, IDone)
  | ISearch t c k => r ← index_search m t c k; Some (m, IFound r)
  | IRange t c a b => rs ← index_range m t c a b; Some (m, IRows rs)
  | IClear => Some (index_clear m, IDone)
  end.

(** The specification: a map from (table, column) to sorted entries. *)
Notation spec_map := (gmap (rstring * rstring) entries).

Definition spec_index_step (a : spec_map) (o : index_op) : spec_map * index_res :=
  match o with
  | ICreate t c => (match a !! (t, c) with Some _ => a | None => <[(t, c) := []]> a end, IDone)
  | IHas t c => (a, IBool (bool_decide (is_Some (a !! (t, c)))))
  | IInsert t c k r => (alter (es_insert k r) (t, c) a, IDone)
  | IDelete t c k => (alter (es_delete k) (t, c) a, IDone)
  | ISearch t c k => (a, IFound (a !! (t, c) ≫= es_lookup k))
  | IRange t c x y => (a, IRows (default [] (es_range x y <$> a !! (t, c))))
  | IClear => (∅, IDone)
  end.

(** Keys inserted are new to their index. *)
Definition index_op_ok (a : spec_map) (o : index_op) : Prop :=
  match o with IInsert t c k _ => (a !! (t, c) ≫= es_lookup k) = None | _ => True end.

(** Inserts an operation makes, and room for some in every index. *)
Definition index_op_size (o : index_op) : nat := match o with IInsert _ _ _ _ => 1 | _ => 0 end.

Definition index_room (m : IndexManager) (n : nat) : Prop :=
  oi_room oi_new n = true /\ forall k t, indexes m !! k = Some t -> oi_room t n = true.

Definition index_rel (m : IndexManager) (a : spec_map) : Prop :=
  forall k, option_Forall2 oi_models (indexes m !! k) (a !! k).

Lemma index_rel_insert m a k t es :
  index_rel m a -> oi_models t es -> index_rel (mkManager (<[k := t]> (indexes m))) (<[k := es]> a).
Proof.
  intros Hr Ht k'. cbn. destruct (decide (k = k')) as [->|Hne].
  - rewrite !lookup_insert_eq. by constructor.
  - rewrite !lookup_insert_ne by done. apply Hr.
Qed.

Lemma index_rel_cases m a k :
  index_rel m a ->
  (exists t es, indexes m !! k = Some t /\ a !! k = Some es /\ oi_models t es) \/
  (indexes m !! k = None /\ a !! k = None).
Proof.
  intros Hr. specialize (Hr k). inversion Hr as [t es Ht E1 E2|E1 E2]; [left|right]; eauto 6.
Qed.

(** Room for more is room for fewer. *)
Lemma index_room_less m n k : index_room m (k + n) -> index_room m n.
Proof.
  induction k as [|k IH]; [done|]. intros [Hnew Hm]. apply IH. split; [by apply oi_room_less|].
  intros k' t' Hk'. by eapply oi_room_less, Hm.
Qed.

Lemma index_room_insert m k t n :
  index_room m n -> oi_room t n = true -> index_room (mkManager (<[k := t]> (indexes m))) n.
Proof.
  intros [Hnew Hm] Ht. split; [done|]. intros k' t'. cbn.
  destruct (decide (k = k')) as [->|Hne].
  - rewrite lookup_insert_eq. by intros [= <-].
  - rewrite lookup_insert_ne by done. apply Hm.
Qed.

Lemma index_create_ok m a t c :
  index_rel m a ->
  index_rel (create_index m t c) (match a !! (t, c) with Some _ => a | None => <[(t, c) := []]> a end).
Proof.
  intros Hr. unfold create_index.
  destruct (index_rel_cases m a (t, c) Hr) as [(i & es & -> & -> & Hm)|[-> ->]]; [done|].
  apply index_rel_insert; [done|apply oi_new_ok].
Qed.

Lemma index_insert_ok m a t c k r n :
  index_rel m a -> (a !! (t, c) ≫= es_lookup k) = None -> index_room m (S n) ->
  exists m', index_insert m t c k r = Some m' /\ index_rel m' (alter (es_insert k r) (t, c) a) /\
    index_room m' n.
Proof.
  intros Hr Hk Hroom. unfold index_insert.
  destruct (index_rel_cases m a (t, c) Hr) as [(i & es & Em & Ea & Hm)|[Em Ea]]; rewrite Em.
  - rewrite Ea in Hk. destruct (oi_insert_ok i es k r n) as (i' & -> & Hi & Hri); [done|done|by apply Hroom in Em|].
    cbn. eexists. split; [done|]. rewrite (alter_present _ _ _ es) by done.
    split; [by apply index_rel_insert|]. apply index_room_insert; [|done].
    by apply (index_room_less m n 1).
  - rewrite alter_absent by done. exists m. split_and!; [done..|]. by apply (index_room_less m n 1).
Qed.

Lemma index_delete_ok m a t c k :
  index_rel m a ->
  exists m', index_delete m t c k = Some m' /\ index_rel m' (alter (es_delete k) (t, c) a) /\
    forall n, index_room m n -> index_room m' n.
Proof.
  intros Hr. unfold index_delete.
  destruct (index_rel_cases m a (t, c) Hr) as [(i & es & Em & Ea & Hm)|[Em Ea]]; rewrite Em.
  - destruct (oi_delete_ok i es k) as (i' & b & -> & Hi & Hn); [done|].
    cbn. eexists. split; [done|]. rewrite (alter_present _ _ _ es) by done.
    split; [by apply index_rel_insert|]. intros n Hroom. apply index_room_insert; [done|].
    apply (proj2 Hroom) in Em. by apply Hn.
  - rewrite alter_absent by done. eauto.
Qed.

Lemma index_search_ok m a t c k :
  index_rel m a -> index_search m t c k = Some (a !! (t, c) ≫= es_lookup k).
Proof.
  intros Hr. unfold index_search.
  destruct (index_rel_cases m a (t, c) Hr) as [(i & es & -> & -> & Hm)|[-> ->]]; [|done].
  by rewrite (oi_search_ok i es).
Qed.

Lemma index_range_ok m a t c x y :
  index_rel m a -> index_range m t c x y = Some (default [] (es_range x y <$> a !! (t, c))).
Proof.
  intros Hr. unfold index_range.
  destruct (index_rel_cases m a (t, c) Hr) as [(i & es & -> & -> & Hm)|[-> ->]]; [|done].
  by rewrite (oi_range_ok i es).
Qed.

Lemma has_index_ok m a t c : index_rel m a -> has_index m t c = bool_decide (is_Some (a !! (t, c))).
Proof.
  intros Hr. unfold has_index.
  by destruct (index_rel_cases m a (t, c) Hr) as [(i & es & -> & -> & _)|[-> ->]].
Qed.

Lemma index_step_ok m a o n :
  index_rel m a -> index_op_ok a o -> index_room m (index_op_size o + n) ->
  exists m', index_step m o = Some (m', (spec_index_step a o).2) /\
    index_rel m' (spec_index_step a o).1 /\ index_room m' n.
Proof.
  intros Hr Hop Hroom. pose proof (index_room_less m n (index_op_size o) Hroom) as Hn.
  destruct o as [t c|t c|t c k r|t c k|t c k|t c x y|]; cbn [index_step spec_index_step] in *.
  - eexists. split; [done|]. split; [by apply index_create_ok|]. unfold create_index.
    destruct (indexes m !! (t, c)) eqn:E; [done|]. apply index_room_insert; [done|apply Hn].
  - rewrite (has_index_ok m a) by done. eauto.
  - destruct (index_insert_ok m a t c k r n) as (m' & -> & Hr' & Hroom'); [done..|].
    cbn. eauto.
  - destruct (index_delete_ok m a t c k Hr) as (m' & -> & Hr' & Hroom'). cbn. eauto.
  - rewrite (index_search_ok m a) by done. cbn. eauto.
  - rewrite (index_range_ok m a) by done. cbn. eauto.
  - eexists. split; [done|]. split.
    + intros k. cbn. rewrite !lookup_empty. constructor.
    + split; [apply Hn|]. intros k t. cbn. by rewrite lookup_empty.
Qed.

Fixpoint index_run (m : IndexManager) (ops : list index_op)
    : option (IndexManager * list index_res) :=
  match ops with
  | [] => Some (m, [])
  | o :: ops => '(m, r) ← index_step m o; '(m, rs) ← index_run m ops; Some (m, r :: rs)
  end.

Fixpoint spec_index_run (a : spec_map) (ops : list index_op) : spec_map * list index_res :=
  match ops with
  | [] => (a, [])
  | o :: ops =>
      let '(a, r) := spec_index_step a o in
      let '(a, rs) := spec_index_run a ops in (a, r :: rs)
  end.

Fixpoint index_ops_ok (a : spec_map) (ops : list index_op) : Prop :=
  match ops with
  | [] => True
  | o :: ops => index_op_ok a o /\ index_ops_ok (spec_index_step a o).1 ops
  end.

Definition index_ops_size (ops : list index_op) : nat := foldr (fun o n => (index_op_size o + n)%nat) 0%nat ops.

Lemma index_run_ok m a ops :
  index_rel m a -> index_ops_ok a ops -> index_room m (index_ops_size ops) ->
  exists m', index_run m ops = Some (m', (spec_index_run a ops).2) /\
    index_rel m' (spec_index_run a ops).1.
Proof.
  revert m a. induction ops as [|o ops IH]; intros m a Hr Hok Hroom; [cbn; eauto|].
  destruct Hok as [Ho Hops].
  destruct (index_step_ok m a o _ Hr Ho Hroom) as (m1 & E & Hr1 & Hroom1).
  destruct (IH m1 _ Hr1 Hops Hroom1) as (m2 & E2 & Hr2).
  exists m2. cbn [index_run spec_index_run]. rewrite E. cbn [mbind option_bind]. rewrite E2.
  destruct (spec_index_step a o) as [a1 r1]. cbn in *.
  destruct (spec_index_run a1 ops) as [a2 rs]. cbn in *. eauto.
Qed.

Lemma index_defs_ok m a :
  index_rel m a -> NoDup (get_index_defs m) /\ forall k, k ∈ get_index_defs m <-> is_Some (a !! k).
Proof.
  intros Hr. unfold get_index_defs. split; [apply NoDup_fst_map_to_list|]. intros k.
  rewrite list_elem_of_fmap. split.
  - intros ([k' t] & -> & Hin%elem_of_map_to_list). cbn.
    destruct (index_rel_cases m a k' Hr) as [(i & es & _ & -> & _)|[E _]]; [done|congruence].
  - intros [es Ea]. destruct (index_rel_cases m a k Hr) as [(i & es' & Em & _ & _)|[_ E]]; [|congruence].
    exists (k, i). split; [done|]. by apply elem_of_map_to_list.
Qed.
End Manager.
Arguments IndexManager : clear implicits.

(** C24: the manager is a map from (table, column) to sorted maps, whatever
    ordered index it is built on. From a new manager every sequence of calls in
    which each key inserted is new to its index ([index_ops_ok]) and that is no
    longer than a new index has room for returns, with the answers of the map:
    creating an index twice keeps its entries, a call on a column without an
    index changes nothing and finds nothing, the other indexes are untouched.
    The definitions listed at the end are exactly the map's keys. *)
Theorem index_manager_refines `{OrderedIndex T} (ops : list index_op) :
  index_ops_ok ∅ ops -> oi_room oi_new (index_ops_size ops) = true ->
  exists m', index_run IndexManager_new ops = Some (m', (spec_index_run ∅ ops).2) /\
    index_rel m' (spec_index_run ∅ ops).1 /\
    NoDup (get_index_defs m') /\
    forall k, k ∈ get_index_defs m' <-> is_Some ((spec_index_run ∅ ops).1 !! k).
Proof.
  intros Hok Hroom. destruct (index_run_ok IndexManager_new ∅ ops) as (m' & E & Hr); [|done| |].
  { intros k. cbn. rewrite !lookup_empty. constructor. }
  { split; [done|]. intros k t. cbn. by rewrite lookup_empty. }
  exists m'. split_and!; [done|done|..]; by eapply index_defs_ok.
Qed.

Definition demo_index_ops : list index_op :=
  [ICreate [x74] [x61]; IInsert [x74] [x61] 7 (mkRid 3 0); IInsert [x74] [x62] 7 (mkRid 3 0);
   IInsert [x74] [x61] (-2) (mkRid 3 1); ICreate [x74] [x61]; ISearch [x74] [x61] 7;
   IDelete [x74] [x61] 7; IRange [x74] [x61] (-5) 9; IHas [x74] [x62]].

Lemma index_manager_refines_witness :
  exists m', index_run (T:=BTree) IndexManager_new demo_index_ops =
      Some (m', [IDone; IDone; IDone; IDone; IDone; IFound (Some (mkRid 3 0)); IDone;
                 IRows [mkRid 3 1]; IBool false]) /\
    index_rel m' (spec_index_run ∅ demo_index_ops).1 /\
    NoDup (get_index_defs m') /\
    forall k, k ∈ get_index_defs m' <-> is_Some ((spec_index_run ∅ demo_index_ops).1 !! k).
Proof.
  apply (index_manager_refines demo_index_ops); [vm_compute; repeat split|reflexivity].
Defined.
