(* ===== verification/Ast.v ===== *)
(** * The abstract syntax of the SQL subset: sql/ast.rs *)
From S2P Require Export Text.
Local Open Scope Z_scope.

Inductive DataType := DInt | DText | DFloat.

Record ColumnDef := mkCol { col_name : rstring; ty : DataType; primary_key : bool }.

Inductive OrderDir := Asc | Desc.

Inductive SelectColumns :=
  | Star
  | Named (cols : list rstring).

(** A literal; a float is its 64 bits. *)
Inductive Value :=
  | VInt (n : Z)
  | VFloat (bits : Z)
  | VText (s : rstring)
  | VNull.

Inductive Op := OpEq | OpNe | OpLt | OpGt | OpLe | OpGe | OpIsNull | OpIsNotNull.

Record Expr := mkExpr { left : rstring; op : Op; right : Value }.

Record Assignment := mkAssign { column : rstring; value : Value }.

Inductive Statement :=
  | CreateTable (table : rstring) (columns : list ColumnDef)
  | InsertInto (table : rstring) (values : list Value)
  | UpdateSet (table : rstring) (assignments : list Assignment) (filter : option Expr)
  | Select (table : rstring) (columns : SelectColumns) (filter : option Expr)
      (order_by : option (rstring * OrderDir)) (limit : option Z)
  | DeleteFrom (table : rstring) (filter : option Expr).

#[export] Instance DataType_eq_decision : EqDecision DataType.
Proof. solve_decision. Defined.
#[export] Instance ColumnDef_eq_decision : EqDecision ColumnDef.
Proof. solve_decision. Defined.
#[export] Instance OrderDir_eq_decision : EqDecision OrderDir.
Proof. solve_decision. Defined.
#[export] Instance Value_eq_decision : EqDecision Value.
Proof. solve_decision. Defined.
#[export] Instance Op_eq_decision : EqDecision Op.
Proof. solve_decision. Defined.

(** [PartialOrd for Value] *)
Definition value_partial_cmp (a b : Value) : option comparison :=
  match a, b with
  | VInt a, VInt b => Some (a ?= b)
  | VFloat a, VFloat b => f64_partial_cmp a b
  | VInt a, VFloat b => f64_partial_cmp (f64_of_int a) b
  | VFloat a, VInt b => f64_partial_cmp a (f64_of_int b)
  | VText a, VText b => Some (compare_bytes a b)
  | _, _ => None
  end.

(** Derived equality: floats compare as floats, other values by content. *)
Definition value_eq (a b : Value) : bool :=
  match a, b with
  | VInt a, VInt b => a =? b
  | VFloat a, VFloat b => match f64_partial_cmp a b with Some Eq => true | _ => false end
  | VText a, VText b => bool_decide (a = b)
  | VNull, VNull => true
  | _, _ => false
  end.

(** Values whose payloads have their types. *)
Definition value_ok (v : Value) : Prop :=
  match v with
  | VInt n => in_i64 n
  | VFloat b => in_u64 b
  | VText s => utf8 s /\ Z.of_nat (length s) < 2 ^ 32
  | VNull => True
  end.

#[export] Instance value_ok_dec v : Decision (value_ok v).
Proof. unfold value_ok. destruct v; apply _. Defined.
