(* ===== verification/Catalog.v ===== *)
(** * Schemas and rows: engine/catalog.rs

    A row is stored as its fields, each a type tag and a payload.  Errors are
    the [Err] strings of the source, as constructors. *)
From S2P Require Export Ast.
Local Open Scope Z_scope.

Inductive catalog_error :=
  | CountMismatch (expected got : nat)
  | TypeMismatch (col : rstring) (expected : DataType) (got : Value)
  | UnexpectedEnd
  | TagMismatch (tag : byte) (expected : DataType)
  | Utf8Error
  | TableExists (name : rstring).

Record Schema := mkSchema {
  name : rstring;
  columns : list ColumnDef;
  schema_pk : option rstring;
}.

#[export] Instance Schema_eq_decision : EqDecision Schema.
Proof. solve_decision. Defined.

Fixpoint find_index {A} (f : A -> bool) (l : list A) : option nat :=
  match l with
  | [] => None
  | x :: l => if f x then Some 0%nat else S <$> find_index f l
  end.

(** The first column flagged as primary key. *)
Definition first_pk (cols : list ColumnDef) : option rstring :=
  i ← find_index primary_key cols; col_name <$> cols !! i.

Definition Schema_new (n : rstring) (cols : list ColumnDef) : Schema :=
  mkSchema n cols (first_pk cols).

Definition col_index (s : Schema) (n : rstring) : option nat :=
  find_index (fun c => bool_decide (col_name c = n)) (columns s).

Definition pk_col_index (s : Schema) : option nat := pk ← schema_pk s; col_index s pk.

(** ** Rows to bytes *)
Definition TAG_INT : byte := x00.
Definition TAG_TEXT : byte := x01.
Definition TAG_NULL : byte := x02.
Definition TAG_FLOAT : byte := x03.

(** One field; [None] is the type mismatch. *)
Definition serialize_field (t : DataType) (v : Value) : option bytes :=
  match t, v with
  | _, VNull => Some [TAG_NULL]
  | DInt, VInt n => Some (TAG_INT :: to_le 8 n)
  | DFloat, VFloat f => Some (TAG_FLOAT :: to_le 8 f)
  | DText, VText s => Some (TAG_TEXT :: to_le 4 (as_u32 (Z.of_nat (length s))) ++ s)
  | _, _ => None
  end.

(** The loop over [columns.zip(values)], which stops at the first mismatch. *)
Fixpoint serialize_fields (cols : list ColumnDef) (vs : list Value)
    : result catalog_error bytes :=
  match cols, vs with
  | c :: cols, v :: vs =>
      match serialize_field (ty c) v with
      | None => Err (TypeMismatch (col_name c) (ty c) v)
      | Some b => bs ← serialize_fields cols vs; Ok (b ++ bs)
      end
  | _, _ => Ok []
  end.

Definition serialize_row (s : Schema) (vs : list Value) : result catalog_error bytes :=
  if decide (length vs = length (columns s)) then serialize_fields (columns s) vs
  else Err (CountMismatch (length (columns s)) (length vs)).

(** ** Bytes to rows

    The bytes that remain; slices past the end panic. *)
Definition deserialize_field (t : DataType) (buf : bytes)
    : result catalog_error (Value * bytes) :=
  match buf with
  | [] => Err UnexpectedEnd
  | tag :: l =>
      if decide (tag = TAG_NULL) then Ok (VNull, l)
      else if decide (tag = TAG_INT /\ t = DInt) then
        '(n, l) ← or_panic (read_le 8 l); Ok (VInt (as_i64 n), l)
      else if decide (tag = TAG_FLOAT /\ t = DFloat) then
        '(n, l) ← or_panic (read_le 8 l); Ok (VFloat n, l)
      else if decide (tag = TAG_TEXT /\ t = DText) then
        '(n, l) ← or_panic (read_le 4 l);
        '(b, l) ← or_panic (if Z.of_nat (length l) <? n then None else read_n (Z.to_nat n) l);
        s ← ok_or Utf8Error (from_utf8 b); Ok (VText s, l)
      else Err (TagMismatch tag t)
  end.

Fixpoint deserialize_fields (cols : list ColumnDef) (buf : bytes)
    : result catalog_error (list Value) :=
  match cols with
  | [] => Ok []
  | c :: cols =>
      '(v, buf) ← deserialize_field (ty c) buf;
      vs ← deserialize_fields cols buf; Ok (v :: vs)
  end.

Definition deserialize_row (s : Schema) (buf : bytes) : result catalog_error (list Value) :=
  deserialize_fields (columns s) buf.

(** ** The catalog *)
Record Catalog := mkCatalog {
  tables : gmap rstring Schema;
  index_defs : list (rstring * rstring);
}.

Definition Catalog_new : Catalog := mkCatalog ∅ [].

Definition create_table (c : Catalog) (s : Schema) : Catalog * result catalog_error unit :=
  match tables c !! name s with
  | Some _ => (c, Err (TableExists (name s)))
  | None => (mkCatalog (<[name s := s]> (tables c)) (index_defs c), Ok tt)
  end.

Definition catalog_get (c : Catalog) (n : rstring) : option Schema := tables c !! n.

(** ** Rows round-trip *)
Definition type_matches (t : DataType) (v : Value) : Prop :=
  match t, v with
  | _, VNull | DInt, VInt _ | DFloat, VFloat _ | DText, VText _ => True
  | _, _ => False
  end.

#[export] Instance type_matches_dec t v : Decision (type_matches t v).
Proof. destruct t, v; apply _. Defined.

Definition row_matches (s : Schema) (vs : list Value) : Prop :=
  Forall2 (fun c v => type_matches (ty c) v) (columns s) vs.

(** The format: a tag that tells the values apart, and the payload. *)
Definition value_bytes (v : Value) : bytes :=
  match v with
  | VInt n => x00 :: to_le 8 n
  | VText s => x01 :: to_le 4 (as_u32 (Z.of_nat (length s))) ++ s
  | VNull => [x02]
  | VFloat f => x03 :: to_le 8 f
  end.

(** The column a name finds has that name. *)
Lemma col_index_name s n i : col_index s n = Some i -> exists c, columns s !! i = Some c /\ col_name c = n.
Proof.
  unfold col_index. revert i. induction (columns s) as [|c cols IH]; intros i; csimpl; [done|].
  case_bool_decide as Hc; [intros [= <-]; by exists c|].
  intros (j & Hj & ->)%fmap_Some. destruct (IH j Hj) as (c' & ? & ?). by exists c'.
Qed.


Section Rows.
Implicit Types (c : ColumnDef) (v : Value) (vs : list Value).

Lemma serialize_field_ok t v : type_matches t v <-> is_Some (serialize_field t v).
Proof. destruct t, v; simpl; split; try done; by intros []. Qed.

Lemma serialize_field_bytes t v b : serialize_field t v = Some b -> b = value_bytes v.
Proof. by destruct t, v; intros [= <-]. Qed.

(** A field is read back whatever follows it. *)
Lemma field_roundtrip t v b rest :
  serialize_field t v = Some b -> value_ok v -> deserialize_field t (b ++ rest) = Ok (v, rest).
Proof.
  intros H Hok. destruct v as [n|f|s|]; destruct t; cbn [serialize_field] in H; try done;
    apply (inj Some) in H; subst b; try done; unfold deserialize_field; cbn [app];
    cbv [TAG_INT TAG_TEXT TAG_NULL TAG_FLOAT];
    repeat (rewrite decide_False by naive_solver); rewrite decide_True by done.
  - unfold read_le. rewrite read_n_app by apply length_to_le.
    cbn [mbind option_bind or_panic result_bind]. rewrite of_to_le. change (256 ^ Z.of_nat 8) with (2 ^ 64). by rewrite as_i64_small.
  - rewrite read_le_u64 by done. done.
  - destruct Hok as [Hu Hl]. rewrite as_u32_small by width.
    rewrite <- app_assoc, read_le_u32 by width. cbn.
    rewrite length_app, (proj2 (Z.ltb_ge _ _)) by lia.
    rewrite Nat2Z.id, read_n_app by done. cbn. by rewrite from_utf8_valid.
Qed.

Lemma fields_roundtrip cols vs b rest :
  length vs = length cols -> serialize_fields cols vs = Ok b -> Forall value_ok vs ->
  deserialize_fields cols (b ++ rest) = Ok vs.
Proof.
  revert vs b. induction cols as [|c cols IH]; intros [|v vs] b Hl H Hok; simplify_eq/=; [done|].
  destruct (serialize_field (ty c) v) as [b1|] eqn:E; [|done].
  apply result_bind_ok in H as (b2 & H2 & [= <-]). apply Forall_cons in Hok as [Hv Hvs].
  rewrite <- app_assoc, (field_roundtrip _ _ _ _ E Hv). cbn. by rewrite (IH vs b2).
Qed.

(** The first column whose value does not fit it. *)
Definition first_misfit (cols : list ColumnDef) vs (c : ColumnDef) (v : Value) : Prop :=
  exists i, cols !! i = Some c /\ vs !! i = Some v /\ ~ type_matches (ty c) v /\
    Forall2 (fun c v => type_matches (ty c) v) (take i cols) (take i vs).

Lemma serialize_fields_total cols vs :
  length vs = length cols ->
  match serialize_fields cols vs with
  | Ok b => Forall2 (fun c v => type_matches (ty c) v) cols vs /\ b = vs ≫= value_bytes
  | Err e => exists c v, e = TypeMismatch (col_name c) (ty c) v /\ first_misfit cols vs c v
  | Panic => False
  end.
Proof.
  revert vs. induction cols as [|c cols IH]; intros [|v vs] Hl; simplify_eq/=; [split; [constructor|done]|].
  destruct (serialize_field (ty c) v) as [b1|] eqn:E.
  - assert (Hm : type_matches (ty c) v) by (apply serialize_field_ok; eauto).
    specialize (IH vs Hl). destruct (serialize_fields cols vs) as [b|e|]; cbn [mbind result_bind].
    + destruct IH as [Hms ->]. split; [by constructor|]. f_equal. by eapply serialize_field_bytes.
    + destruct IH as (c' & v' & -> & i & Hc & Hv & Hno & Hbefore). exists c', v'. split; [done|].
      exists (S i). split_and!; [done..|]. by constructor.
    + done.
  - exists c, v. split; [done|]. exists 0%nat. split_and!; [done|done| |constructor].
    intros [? H]%serialize_field_ok. congruence.
Qed.
End Rows.

(** C22: a row is stored and read back. A row that matches its schema, of values
    that Rust's types hold, serialises; and whatever bytes follow the row in its
    tuple (an in-place update by a shorter row leaves some), [deserialize_row]
    returns the values [serialize_row] was given. *)
Theorem row_roundtrip s vs :
  row_matches s vs -> Forall value_ok vs ->
  exists b, serialize_row s vs = Ok b /\ forall rest, deserialize_row s (b ++ rest) = Ok vs.
Proof.
  intros Hm Hv. pose proof (Forall2_length _ _ _ Hm) as Hl. unfold serialize_row, deserialize_row. rewrite decide_True by done.
  pose proof (serialize_fields_total (columns s) vs (eq_sym Hl)) as Ht.
  destruct (serialize_fields (columns s) vs) as [b|x|] eqn:E; [|exfalso|done].
  - exists b. split; [done|]. intros rest. by apply fields_roundtrip.
  - destruct Ht as (c & v & _ & i & Hc & Hvi & Hno & _). apply Hno.
    by destruct (Forall2_lookup_l _ _ _ _ _ Hm Hc) as (v' & Hv' & ?); simplify_eq.
Qed.

Definition demo_schema : Schema :=
  Schema_new [x74] [mkCol [x61] DInt true; mkCol [x62] DText false; mkCol [x63] DFloat false;
    mkCol [x64] DInt false].

Lemma row_roundtrip_witness :
  exists b, serialize_row demo_schema [VInt (-7); VText [xc3; xa9]; VFloat 1; VNull] = Ok b /\
    deserialize_row demo_schema (b ++ [x2a]) = Ok [VInt (-7); VText [xc3; xa9]; VFloat 1; VNull].
Proof.
  destruct (row_roundtrip demo_schema [VInt (-7); VText [xc3; xa9]; VFloat 1; VNull]) as (b & E & Hb).
  - repeat constructor.
  - apply (bool_decide_unpack _). by vm_compute.
  - by exists b.
Defined.

(** C37: [serialize_row] answers on every input. It succeeds exactly on rows of
    the schema's arity and types, where [NULL] has every type, and its bytes are
    the values' own, each a tag and a payload, one after the other. Otherwise it
    names the two counts when they differ, and else the first column whose value
    does not fit it, with that value. *)
Theorem serialize_row_spec s vs :
  match serialize_row s vs with
  | Ok b => row_matches s vs /\ b = vs ≫= value_bytes
  | Err (CountMismatch e g) => e = length (columns s) /\ g = length vs /\ e <> g
  | Err (TypeMismatch n t v) => length vs = length (columns s) /\
      exists c, n = col_name c /\ t = ty c /\ first_misfit (columns s) vs c v
  | Err _ | Panic => False
  end.
Proof.
  unfold serialize_row. case_decide as Hl.
  - pose proof (serialize_fields_total (columns s) vs Hl) as H.
    destruct (serialize_fields _ _) as [b|e|]; [done| |done].
    destruct H as (c & v & -> & Hm). eauto.
  - split_and!; [done|done|]. congruence.
Qed.
