(* ===== verification/CatalogStore.v ===== *)
(** * The catalog file: storage/catalog_store.rs

    [catalog.bin] is its bytes.  [save] lists the tables in the order the
    [HashMap] happens to iterate them, a parameter.  [load] slices the buffer,
    and a slice out of range is a panic; the checks before each read are what
    keeps it from one.  The write to a temporary file and the rename are one
    step here: the file is the old one or the new one (see Directory). *)
From S2P Require Export Catalog Disk.
Local Open Scope Z_scope.

(** ** Saving *)
Definition put_str (s : rstring) : bytes := to_le 4 (as_u32 (Z.of_nat (length s))) ++ s.

Definition type_tag (t : DataType) : byte :=
  match t with DInt => x00 | DText => x01 | DFloat => x02 end.

Definition put_column (c : ColumnDef) : bytes :=
  put_str (col_name c) ++ [type_tag (ty c); if primary_key c then x01 else x00].

Definition put_schema (s : Schema) : bytes :=
  put_str (name s) ++ to_le 4 (as_u32 (Z.of_nat (length (columns s)))) ++ (columns s ≫= put_column).

Definition put_index_def (d : rstring * rstring) : bytes := put_str d.1 ++ put_str d.2.

Definition U32_MAX : Z := 2 ^ 32 - 1.

Definition save_bytes (order : list Schema) (c : Catalog) : bytes :=
  to_le 4 U32_MAX ++ [x02] ++ to_le 4 (as_u32 (Z.of_nat (length order))) ++
  (order ≫= put_schema) ++
  to_le 4 (as_u32 (Z.of_nat (length (index_defs c)))) ++ (index_defs c ≫= put_index_def).

(** ** Loading

    The bytes that remain behind the offset. Each read first checks that they are
    enough, and then takes them; taking more than there are panics, as a slice
    past the end does. *)
Definition reader (A : Type) : Type := bytes -> result io_error (A * bytes).

Definition get_u32 : reader Z := fun l =>
  if (length l <? 4)%nat then Err UnexpectedEof else or_panic (read_le 4 l).

Definition get_byte : reader byte := fun l =>
  if (length l =? 0)%nat then Err UnexpectedEof
  else b ← or_panic (l !! 0%nat); Ok (b, drop 1 l).

Definition get_str : reader rstring := fun l =>
  '(n, l) ← get_u32 l;
  if Z.of_nat (length l) <? n then Err UnexpectedEof
  else
    '(b, l) ← or_panic (read_n (Z.to_nat n) l);
    s ← ok_or InvalidData (from_utf8 b); Ok (s, l).

Definition type_of_tag (b : byte) : result io_error DataType :=
  if decide (b = x00) then Ok DInt
  else if decide (b = x01) then Ok DText
  else if decide (b = x02) then Ok DFloat
  else Err InvalidData.

(** [version >= 2] *)
Definition get_column (v2 : bool) : reader ColumnDef := fun l =>
  '(n, l) ← get_str l;
  '(tag, l) ← get_byte l;
  t ← type_of_tag tag;
  if v2 then '(pk, l) ← get_byte l; Ok (mkCol n t (bool_decide (pk = x01)), l)
  else Ok (mkCol n t false, l).

Fixpoint get_many {A} (r : reader A) (n : nat) : reader (list A) := fun l =>
  match n with
  | O => Ok ([], l)
  | S n => '(x, l) ← r l; '(xs, l) ← get_many r n l; Ok (x :: xs, l)
  end.

Definition get_schema (v2 : bool) : reader Schema := fun l =>
  '(n, l) ← get_str l;
  '(k, l) ← get_u32 l;
  '(cols, l) ← get_many (get_column v2) (Z.to_nat k) l;
  Ok (Schema_new n cols, l).

Definition get_index_def : reader (rstring * rstring) := fun l =>
  '(t, l) ← get_str l; '(c, l) ← get_str l; Ok ((t, c), l).

(** [catalog.tables.insert] of every schema read, in the order of the file. *)
Definition add_tables (ss : list Schema) (m : gmap rstring Schema) : gmap rstring Schema :=
  foldl (fun m s => <[name s := s]> m) m ss.

(** The version and the number of tables. *)
Definition get_header : reader (Z * Z) := fun l =>
  '(first, l) ← get_u32 l;
  if decide (first = U32_MAX) then
    '(v, l) ← get_byte l; '(n, l) ← get_u32 l; Ok ((Z_of_byte v, n), l)
  else Ok ((1, first), l).

Definition load_bytes (l : bytes) : result io_error Catalog :=
  '((version, num_tables), l) ← get_header l;
  '(ss, l) ← get_many (get_schema (2 <=? version)) (Z.to_nat num_tables) l;
  let m := add_tables ss ∅ in
  if (2 <=? version) && negb (bool_decide (l = [])) then
    '(k, l) ← get_u32 l;
    '(defs, l) ← get_many get_index_def (Z.to_nat k) l;
    Ok (mkCatalog m defs)
  else Ok (mkCatalog m []).

(** A missing file is an empty catalog. *)
Definition load (file : option bytes) : result io_error Catalog :=
  match file with None => Ok Catalog_new | Some l => load_bytes l end.

(** ** Round trips *)
Definition str_ok (s : rstring) : Prop := utf8 s /\ Z.of_nat (length s) < 2 ^ 32.
Definition column_ok (c : ColumnDef) : Prop := str_ok (col_name c).
Definition schema_ok (s : Schema) : Prop :=
  str_ok (name s) /\ Forall column_ok (columns s) /\ Z.of_nat (length (columns s)) < 2 ^ 32 /\
  schema_pk s = first_pk (columns s).

#[export] Instance str_ok_dec s : Decision (str_ok s).
Proof. unfold str_ok. apply _. Defined.
#[export] Instance schema_ok_dec s : Decision (schema_ok s).
Proof. unfold schema_ok, column_ok. apply _. Defined.

(** Catalogs the program builds: tables under their names, primary keys as
    [Schema::new] finds them, counts that fit a [u32]. *)
Definition catalog_ok (c : Catalog) : Prop :=
  (forall n s, tables c !! n = Some s -> name s = n /\ schema_ok s) /\
  Forall (fun d => str_ok d.1 /\ str_ok d.2) (index_defs c) /\
  Z.of_nat (size (tables c)) < 2 ^ 32 /\ Z.of_nat (length (index_defs c)) < 2 ^ 32.

(** An iteration of the table map. *)
Definition table_order (c : Catalog) (order : list Schema) : Prop :=
  order ≡ₚ (map_to_list (tables c)).*2.

Section Codec.
Implicit Types (l rest : bytes).

Lemma get_u32_put z rest : in_u32 z -> get_u32 (to_le 4 z ++ rest) = Ok (z, rest).
Proof.
  intros. unfold get_u32. rewrite (proj2 (Nat.ltb_ge _ _)) by (rewrite length_app, length_to_le; lia).
  by rewrite read_le_u32.
Qed.

Lemma get_str_put s rest : str_ok s -> get_str (put_str s ++ rest) = Ok (s, rest).
Proof.
  intros [Hu Hl]. unfold get_str, put_str. rewrite as_u32_small by width.
  rewrite <- app_assoc, get_u32_put by width. cbn [mbind result_bind].
  rewrite length_app, (proj2 (Z.ltb_ge _ _)) by lia.
  rewrite Nat2Z.id, read_n_app by done. cbn [or_panic mbind result_bind]. by rewrite from_utf8_valid.
Qed.

Lemma get_column_put c rest : column_ok c -> get_column true (put_column c ++ rest) = Ok (c, rest).
Proof.
  intros H. unfold get_column, put_column. rewrite <- app_assoc, get_str_put by done.
  cbn. by destruct c as [n [] []].
Qed.

Lemma get_many_put {A} (r : reader A) (e : A -> bytes) (P : A -> Prop) xs rest :
  (forall x rest, P x -> r (e x ++ rest) = Ok (x, rest)) -> Forall P xs ->
  get_many r (length xs) ((xs ≫= e) ++ rest) = Ok (xs, rest).
Proof.
  intros Hr H. induction H as [|x xs Hx _ IH]; [done|]. cbn [length get_many].
  rewrite bind_cons, <- app_assoc, Hr by done. cbn [mbind result_bind]. by rewrite IH.
Qed.

Lemma get_schema_put s rest : schema_ok s -> get_schema true (put_schema s ++ rest) = Ok (s, rest).
Proof.
  intros (Hn & Hc & Hl & Hpk). unfold get_schema, put_schema. rewrite as_u32_small by width.
  rewrite <- !app_assoc, get_str_put by done. cbn [mbind result_bind].
  rewrite get_u32_put by width. cbn [mbind result_bind]. rewrite Nat2Z.id.
  rewrite (get_many_put _ put_column column_ok) by (done || apply get_column_put).
  cbn [mbind result_bind]. unfold Schema_new. rewrite <- Hpk. by destruct s.
Qed.

Lemma get_index_def_put d rest :
  str_ok d.1 /\ str_ok d.2 -> get_index_def (put_index_def d ++ rest) = Ok (d, rest).
Proof.
  intros [H1 H2]. unfold get_index_def, put_index_def.
  rewrite <- app_assoc, get_str_put by done. cbn [mbind result_bind].
  rewrite get_str_put by done. by destruct d.
Qed.

Lemma add_tables_lookup ss m n :
  NoDup (name <$> ss) ->
  add_tables ss m !! n = match list_find (fun s => name s = n) ss with
                         | Some (_, s) => Some s | None => m !! n end.
Proof.
  revert m. induction ss as [|s ss IH]; intros m; [done|]. csimpl. intros [Hn Hnd]%NoDup_cons.
  unfold add_tables in *. simpl. rewrite IH by done.
  destruct (decide (name s = n)) as [<-|Hne].
  - destruct (list_find (fun s' => name s' = name s) ss) as [[i s']|] eqn:E; simpl.
    + apply list_find_Some in E as (Hi & Heq & _). exfalso. apply Hn.
      rewrite <- Heq. apply list_elem_of_fmap. exists s'. split; [done|].
      by eapply list_elem_of_lookup_2.
    + by rewrite lookup_insert_eq.
  - rewrite lookup_insert_ne by done. by destruct (list_find _ ss) as [[i s']|].
Qed.
End Codec.

Section Tables.
Variables (c : Catalog) (order : list Schema).
Hypothesis Hc : catalog_ok c.
Hypothesis Ho : table_order c order.

Lemma elem_of_order s : s ∈ order <-> tables c !! name s = Some s.
Proof.
  unfold table_order in Ho. rewrite Ho, list_elem_of_fmap. split.
  - intros ([n s'] & -> & Hin%elem_of_map_to_list). simpl.
    destruct (proj1 Hc _ _ Hin) as [-> _]. done.
  - intros H. exists (name s, s). split; [done|]. by apply elem_of_map_to_list.
Qed.

Lemma NoDup_order : NoDup (name <$> order).
Proof.
  unfold table_order in Ho. rewrite Ho.
  assert (Heq : name <$> (map_to_list (tables c)).*2 = (map_to_list (tables c)).*1).
  { rewrite <- list_fmap_compose. apply list_fmap_ext. intros i [n s] Hi%list_elem_of_lookup_2.
    apply elem_of_map_to_list in Hi. simpl. by destruct (proj1 Hc _ _ Hi). }
  rewrite Heq. apply NoDup_fst_map_to_list.
Qed.

Lemma add_tables_order : add_tables order ∅ = tables c.
Proof.
  apply map_eq. intros n. rewrite add_tables_lookup by apply NoDup_order.
  destruct (list_find (fun s => name s = n) order) as [[i s]|] eqn:E.
  - apply list_find_Some in E as (Hi & <- & _). symmetry. apply elem_of_order.
    by eapply list_elem_of_lookup_2.
  - rewrite lookup_empty. symmetry. apply eq_None_not_Some. intros [s Hs].
    destruct (proj1 Hc _ _ Hs) as [Hn _]. rewrite <- Hn in Hs. apply elem_of_order in Hs.
    apply list_find_None in E. rewrite Forall_forall in E. by apply (E s).
Qed.

Lemma order_ok : Forall schema_ok order /\ Z.of_nat (length order) < 2 ^ 32.
Proof.
  split.
  - apply Forall_forall. intros s Hs%elem_of_order. by apply (proj1 Hc _ _ Hs).
  - unfold table_order in Ho. rewrite Ho, length_fmap.
    destruct Hc as (_ & _ & Hs & _). by rewrite <- length_map_to_list in Hs.
Qed.

Lemma load_save : load_bytes (save_bytes order c) = Ok c.
Proof.
  destruct order_ok as [Hs Hl]. destruct Hc as (_ & Hd & _ & Hdl).
  unfold load_bytes, save_bytes, get_header.
  rewrite get_u32_put by done. cbn [mbind result_bind]. rewrite decide_True by done.
  change (get_byte ([x02] ++ ?l)) with (Ok (E:=io_error) (x02, l)). cbn [mbind result_bind]. rewrite as_u32_small by width.
  rewrite get_u32_put by width. cbn [mbind result_bind].
  change (2 <=? Z_of_byte x02) with true. rewrite Nat2Z.id.
  rewrite (get_many_put _ put_schema schema_ok) by (done || apply get_schema_put).
  cbn [mbind result_bind]. rewrite add_tables_order. rewrite as_u32_small by width.
  rewrite bool_decide_eq_false_2 by (intros H; apply (f_equal length) in H; by rewrite length_app, length_to_le in H).
  cbn [andb negb]. rewrite get_u32_put by width. cbn [mbind result_bind]. rewrite Nat2Z.id.
  rewrite <- (app_nil_r (index_defs c ≫= put_index_def)).
  rewrite (get_many_put _ put_index_def (fun d => str_ok d.1 /\ str_ok d.2)) by (done || apply get_index_def_put).
  by destruct c.
Qed.
End Tables.

(** C32: the catalog survives a restart. Whatever order the tables are written
    in, loading the saved file gives the catalog back: every schema with its
    column names, types and primary-key flags, and the index definitions. *)
Theorem catalog_roundtrip c order :
  catalog_ok c -> table_order c order -> load (Some (save_bytes order c)) = Ok c.
Proof. apply load_save. Qed.

(** ** Version 1 files *)
Definition put_column_v1 (c : ColumnDef) : bytes := put_str (col_name c) ++ [type_tag (ty c)].

Definition put_schema_v1 (s : Schema) : bytes :=
  put_str (name s) ++ to_le 4 (as_u32 (Z.of_nat (length (columns s)))) ++
  (columns s ≫= put_column_v1).

(** A version 1 file: no magic, no flags, no index definitions. *)
Definition v1_bytes (ss : list Schema) : bytes :=
  to_le 4 (as_u32 (Z.of_nat (length ss))) ++ (ss ≫= put_schema_v1).

(** The schema a version 1 file can express. *)
Definition v1_schema (s : Schema) : Prop :=
  schema_ok s /\ Forall (fun c => primary_key c = false) (columns s).

#[export] Instance v1_schema_dec s : Decision (v1_schema s).
Proof. unfold v1_schema. apply _. Defined.

Lemma get_column_v1 c rest :
  column_ok c /\ primary_key c = false -> get_column false (put_column_v1 c ++ rest) = Ok (c, rest).
Proof.
  intros [H Hpk]. unfold get_column, put_column_v1. rewrite <- app_assoc, get_str_put by done.
  cbn. destruct c as [n [] pk]; simpl in Hpk; by subst.
Qed.

Lemma get_schema_v1 s rest : v1_schema s -> get_schema false (put_schema_v1 s ++ rest) = Ok (s, rest).
Proof.
  intros [(Hn & Hc & Hl & Hpk) Hf]. unfold get_schema, put_schema_v1. rewrite as_u32_small by width.
  rewrite <- !app_assoc, get_str_put by done. cbn [mbind result_bind].
  rewrite get_u32_put by width. cbn [mbind result_bind]. rewrite Nat2Z.id.
  rewrite (get_many_put _ put_column_v1 (fun c => column_ok c /\ primary_key c = false)).
  - cbn [mbind result_bind]. unfold Schema_new. rewrite <- Hpk. by destruct s.
  - apply get_column_v1.
  - apply Forall_and. done.
Qed.

(** Files of version 1 still load: the tables are those of the file, no
    column is a primary key and no index is defined. *)
Lemma catalog_v1_loads ss :
  Forall v1_schema ss -> NoDup (name <$> ss) -> Z.of_nat (length ss) < 2 ^ 32 - 1 ->
  exists c, load (Some (v1_bytes ss)) = Ok c /\ index_defs c = [] /\
    (forall s, s ∈ ss -> catalog_get c (name s) = Some s) /\
    (forall n s, catalog_get c n = Some s -> s ∈ ss /\ name s = n /\ schema_pk s = None).
Proof.
  intros Hs Hnd Hl. unfold load, load_bytes, v1_bytes, get_header. rewrite as_u32_small by width.
  rewrite get_u32_put by width. cbn [mbind result_bind].
  rewrite decide_False by (unfold U32_MAX; width). cbn [mbind result_bind].
  rewrite Nat2Z.id, <- (app_nil_r (ss ≫= put_schema_v1)).
  change (2 <=? 1) with false.
  rewrite (get_many_put _ put_schema_v1 v1_schema) by (done || apply get_schema_v1).
  cbn [mbind result_bind andb]. eexists. split; [done|]. split; [done|].
  unfold catalog_get. cbn [tables]. split.
  - intros s Hin. rewrite add_tables_lookup by done.
    destruct (list_find _ ss) as [[i s']|] eqn:E.
    + apply list_find_Some in E as (Hi & Hn & _). f_equal.
      apply list_elem_of_lookup in Hin as [j Hj].
      assert (i = j) as <-; [|congruence].
      apply (NoDup_lookup _ i j (name s) Hnd); rewrite list_lookup_fmap; [by rewrite Hi; simpl; rewrite Hn|by rewrite Hj].
    + apply list_find_None in E. rewrite Forall_forall in E. by destruct (E s Hin).
  - intros n s. rewrite add_tables_lookup by done.
    destruct (list_find _ ss) as [[i s']|] eqn:E; [|by rewrite lookup_empty].
    intros [= <-]. apply list_find_Some in E as (Hi & Hn & _).
    apply list_elem_of_lookup_2 in Hi. rewrite Forall_forall in Hs.
    destruct (Hs s' Hi) as [(_ & _ & _ & Hpk) Hf]. split_and!; [done..|]. rewrite Hpk.
    unfold first_pk. replace (find_index primary_key (columns s')) with (@None nat); [done|].
    clear -Hf. induction Hf as [|c cols Hc _ IH]; [done|]. simpl. by rewrite Hc, <- IH.
Qed.

(** ** Files of any contents

    What is read is well formed, and what cannot be read is an error. *)
Section AnyFile.
Definition loads {A} (P : A -> Prop) (r : result io_error A) : Prop :=
  match r with
  | Ok x => P x
  | Err e => e = UnexpectedEof \/ e = InvalidData
  | Panic => False
  end.

Definition reads {A} (P : A -> Prop) (r : reader A) : Prop := forall l, loads (fun x => P x.1) (r l).

Lemma loads_bind {A B} (P : A -> Prop) (Q : B -> Prop) (r : result io_error A) (f : A -> result io_error B) :
  loads P r -> (forall a, P a -> loads Q (f a)) -> loads Q (a ← r; f a).
Proof. destruct r; cbn; auto. Qed.

(** A read and what is done with it. *)
Lemma reads_bind {A B} (P : A -> Prop) (Q : B -> Prop) (r : reader A) l (f : A -> bytes -> result io_error B) :
  reads P r -> (forall x l, P x -> loads Q (f x l)) -> loads Q ('(x, l) ← r l; f x l).
Proof. intros Hr Hf. eapply loads_bind; [apply Hr|]. intros [x l'] Hx. by apply Hf. Qed.

Lemma get_u32_reads : reads in_u32 get_u32.
Proof.
  intros l. unfold get_u32. destruct (Nat.ltb_spec (length l) 4) as [|Hl]; [by left|].
  unfold read_le, read_n. rewrite decide_True by done. cbn. apply of_le_u32. rewrite length_take. lia.
Qed.

Lemma get_byte_reads : reads (fun _ => True) get_byte.
Proof. intros [|b l]; [by left|done]. Qed.

Lemma get_str_reads : reads str_ok get_str.
Proof.
  intros l. apply (reads_bind in_u32); [apply get_u32_reads|]. intros n l1 Hn.
  destruct (Z.ltb_spec (Z.of_nat (length l1)) n) as [|Hl]; [by left|].
  unfold read_n. rewrite decide_True by width. cbn [or_panic mbind result_bind].
  destruct (from_utf8 (take (Z.to_nat n) l1)) as [s|] eqn:E; [|by right]. cbn.
  apply from_utf8_Some in E as [-> Hu]. split; [done|]. rewrite length_take. width.
Qed.

Lemma get_many_reads {A} (P : A -> Prop) (r : reader A) n :
  reads P r -> reads (fun xs => length xs = n /\ Forall P xs) (get_many r n).
Proof.
  intros Hr. induction n as [|n IH]; intros l; [by split|]. cbn [get_many].
  apply (reads_bind P); [done|]. intros x l1 Hx. apply (reads_bind _ _ _ l1 _ IH). intros xs l2 [Hl Hxs].
  cbn. split; [by rewrite Hl|by constructor].
Qed.

Lemma get_column_reads v2 : reads column_ok (get_column v2).
Proof.
  intros l. apply (reads_bind str_ok); [apply get_str_reads|]. intros n l1 Hn.
  apply (reads_bind (fun _ => True)); [apply get_byte_reads|]. intros b l2 _.
  apply (loads_bind (fun _ => True)); [unfold type_of_tag; repeat case_decide; cbn; auto|]. intros t _.
  destruct v2; [|done]. apply (reads_bind (fun _ => True)); [apply get_byte_reads|done].
Qed.

Lemma get_schema_reads v2 : reads schema_ok (get_schema v2).
Proof.
  intros l. apply (reads_bind str_ok); [apply get_str_reads|]. intros n l1 Hn.
  apply (reads_bind in_u32); [apply get_u32_reads|]. intros k l2 Hk.
  eapply reads_bind; [apply get_many_reads, get_column_reads|]. intros cols l3 [Hl Hcols].
  split_and!; try done. cbn. width.
Qed.

Lemma get_index_def_reads : reads (fun d => str_ok d.1 /\ str_ok d.2) get_index_def.
Proof.
  intros l. apply (reads_bind str_ok); [apply get_str_reads|]. intros n l1 Hn.
  apply (reads_bind str_ok); [apply get_str_reads|done].
Qed.

Lemma get_header_reads : reads (fun h => in_u32 h.2) get_header.
Proof.
  intros l. apply (reads_bind in_u32); [apply get_u32_reads|]. intros n l1 Hn. case_decide; [|done].
  apply (reads_bind (fun _ => True)); [apply get_byte_reads|]. intros v l2 _.
  apply (reads_bind in_u32); [apply get_u32_reads|done].
Qed.

(** The tables of a file, under their names. *)
Lemma add_tables_ok ss m :
  Forall schema_ok ss -> (forall n s, m !! n = Some s -> name s = n /\ schema_ok s) ->
  (forall n s, add_tables ss m !! n = Some s -> name s = n /\ schema_ok s) /\
  (size (add_tables ss m) <= length ss + size m)%nat.
Proof.
  intros Hss. revert m. induction Hss as [|s ss Hs _ IH]; intros m Hm; [by split|].
  destruct (IH (<[name s := s]> m)) as [H1 H2].
  - intros n s'. destruct (decide (name s = n)) as [<-|Hne].
    + rewrite lookup_insert_eq. by intros [= <-].
    + rewrite lookup_insert_ne by done. apply Hm.
  - split; [exact H1|]. etransitivity; [exact H2|]. cbn [length].
    rewrite map_size_insert. destruct (m !! name s); cbn; lia.
Qed.
End AnyFile.

(** C36: loading a catalog file, whatever bytes it holds, never panics: every
    slice is within the file. A file that is cut or corrupted is [UnexpectedEof]
    or [InvalidData], and a catalog that is loaded is well formed: each table is
    under its own name, with its key column as [Schema::new] finds it, the names
    are UTF-8 and the counts fit a [u32]: what a catalog needs to be saved. *)
Theorem load_graceful file :
  match load file with
  | Ok c => catalog_ok c
  | Err e => e = UnexpectedEof \/ e = InvalidData
  | Panic => False
  end.
Proof.
  change (loads catalog_ok (load file)). destruct file as [l|].
  2: { split; [|split; [constructor|done]]. intros n s. cbn. by rewrite lookup_empty. }
  apply (reads_bind _ _ _ l _ get_header_reads). intros [v n] l1 Hn.
  eapply reads_bind; [apply get_many_reads, get_schema_reads|]. intros ss l2 [Hl Hss].
  destruct (add_tables_ok ss ∅ Hss) as [Ht Hsz]; [intros ? ?; by rewrite lookup_empty|]. rewrite map_size_empty in Hsz.
  cbn [snd] in Hn. case_match; [|split_and!; cbn; [done|constructor|width|done]].
  apply (reads_bind in_u32); [apply get_u32_reads|]. intros k l3 Hk.
  eapply reads_bind; [apply get_many_reads, get_index_def_reads|]. intros defs l4 [Hdl Hdefs].
  split_and!; cbn; [done|done|width|width].
Qed.

Definition demo_catalog : Catalog :=
  mkCatalog {[ [x74] := demo_schema ]} [([x74], [x61])].

Lemma demo_catalog_ok : catalog_ok demo_catalog.
Proof.
  unfold catalog_ok, demo_catalog. cbn [tables index_defs]. split_and!.
  - intros n s [<- <-]%lookup_singleton_Some. split; [done|].
    apply (bool_decide_unpack _). by vm_compute.
  - apply (bool_decide_unpack _). by vm_compute.
  - by vm_compute.
  - by vm_compute.
Qed.

Lemma catalog_roundtrip_witness :
  load (Some (save_bytes [demo_schema] demo_catalog)) = Ok demo_catalog.
Proof.
  apply catalog_roundtrip; [apply demo_catalog_ok|]. unfold table_order. by vm_compute.
Defined.

Lemma catalog_v1_loads_witness :
  exists c, load (Some (v1_bytes [Schema_new [x74] [mkCol [x69] DInt false]])) = Ok c /\
    index_defs c = [] /\ True.
Proof.
  destruct (catalog_v1_loads [Schema_new [x74] [mkCol [x69] DInt false]]) as (c & H & Hi & _).
  - apply (bool_decide_unpack _). by vm_compute.
  - apply NoDup_singleton.
  - done.
  - by exists c.
Defined.
