(* ===== verification/Lexer.v ===== *)
(** * The lexer: sql/lexer.rs

    The state of the lexer is the characters that remain.  The Unicode tables
    of the standard library are a class: its laws fix them on ASCII, where
    they are documented, and leave them open elsewhere. *)
From Stdlib Require Import Strings.String.
From S2P Require Export Ast.
Local Open Scope Z_scope.

Inductive Token :=
  | KCreate | KTable | KInsert | KInto | KValues
  | KSelect | KFrom | KWhere | KDelete
  | KInt | KText | KFloat | KUpdate | KSet
  | KNull | KIs | KNot
  | KOrder | KBy | KAsc | KDesc | KLimit
  | KPrimary | KKey
  | PLParen | PRParen | PComma | PSemicolon | PStar
  | PEq | PNe | PLt | PGt | PLe | PGe
  | Ident (s : rstring)
  | IntLit (n : Z)
  | FloatLit (bits : Z)
  | TextLit (s : rstring)
  | Eof.

#[export] Instance Token_eq_decision : EqDecision Token.
Proof. solve_decision. Defined.

Inductive lex_error :=
  | UnexpectedBang
  | UnexpectedChar (c : Z)
  | UnterminatedString
  | InvalidFloat (s : rstring)
  | InvalidNumber (s : rstring).

(** ** Characters *)
Definition is_ascii_digit (c : Z) : bool := (48 <=? c) && (c <=? 57).
Definition ascii_upper (c : Z) : bool := (65 <=? c) && (c <=? 90).
Definition ascii_lower (c : Z) : bool := (97 <=? c) && (c <=? 122).
Definition ascii_space (c : Z) : bool := ((9 <=? c) && (c <=? 13)) || (c =? 32).
Definition ascii_to_upper (c : Z) : Z := if ascii_lower c then c - 32 else c.

Class Unicode := {
  is_whitespace : Z -> bool;
  is_alphabetic : Z -> bool;
  is_numeric : Z -> bool;
  to_uppercase : Z -> list Z;
  ascii_whitespace c : 0 <= c < 128 -> is_whitespace c = ascii_space c;
  ascii_alphabetic c : 0 <= c < 128 -> is_alphabetic c = ascii_upper c || ascii_lower c;
  ascii_numeric c : 0 <= c < 128 -> is_numeric c = is_ascii_digit c;
  ascii_uppercase c : 0 <= c < 128 -> to_uppercase c = [ascii_to_upper c];
  alphabetic_not_space c : is_alphabetic c = true -> is_whitespace c = false;
}.

(** The characters of ASCII text. *)
Definition codes (s : string) : list Z := Z_of_byte <$> list_byte_of_string s.

(** ** Numbers *)
Definition digit (c : Z) : Z := c - 48.
Definition digits_value (ds : list Z) : Z := foldl (fun n c => 10 * n + digit c) 0 ds.

(** [str::parse::<i64>] on an optional sign and digits. *)
Definition parse_i64 (neg : bool) (ds : list Z) : option Z :=
  if decide (ds = []) then None
  else
    let n := if neg then - digits_value ds else digits_value ds in
    if decide (in_i64 n) then Some n else None.

(** The characters before and after the first point. *)
Fixpoint split_point (s : list Z) : option (list Z * list Z) :=
  match s with
  | [] => None
  | c :: s => if c =? 46 then Some ([], s) else '(a, b) ← split_point s; Some (c :: a, b)
  end.

(** [str::parse::<f64>] on a sign, digits and points: one point, and a digit
    on one side of it at least. *)
Definition parse_f64 (neg : bool) (s : list Z) : option Z :=
  '(a, b) ← split_point s;
  if bool_decide (46 ∈ b) || bool_decide (a ++ b = []) then None
  else Some (f64_of_decimal neg (digits_value (a ++ b)) (length b)).

Section Lexer.
Context `{Unicode}.

Definition is_alphanumeric (c : Z) : bool := is_alphabetic c || is_numeric c.
Definition ident_start (c : Z) : bool := is_alphabetic c || (c =? 95).
Definition ident_char (c : Z) : bool := is_alphanumeric c || (c =? 95).
Definition number_char (c : Z) : bool := is_ascii_digit c || (c =? 46).

(** [while matches!(self.peek(), Some(c) if f(c)) { self.advance() }] *)
Fixpoint take_while (f : Z -> bool) (s : list Z) : list Z * list Z :=
  match s with
  | [] => ([], [])
  | c :: s' => if f c then let '(a, b) := take_while f s' in (c :: a, b) else ([], s)
  end.

Definition skip_whitespace (s : list Z) : list Z := (take_while is_whitespace s).2.

(** After the opening quote. *)
Fixpoint read_string (s : list Z) : result lex_error (list Z * list Z) :=
  match s with
  | [] => Err UnterminatedString
  | c :: s => if c =? 39 then Ok ([], s) else '(a, b) ← read_string s; Ok (c :: a, b)
  end.

Definition read_number (s : list Z) : result lex_error (Token * list Z) :=
  let '(neg, s) := match s with 45 :: s => (true, s) | _ => (false, s) end in
  let '(body, rest) := take_while number_char s in
  let text := encode_utf8 ((if neg then [45] else []) ++ body) in
  if bool_decide (46 ∈ body) then
    f ← ok_or (InvalidFloat text) (parse_f64 neg body); Ok (FloatLit f, rest)
  else
    n ← ok_or (InvalidNumber text) (parse_i64 neg body); Ok (IntLit n, rest).

(** The keywords, upper case. *)
Definition keywords : list (list Z * Token) := [
  (codes "CREATE", KCreate); (codes "TABLE", KTable); (codes "INSERT", KInsert);
  (codes "INTO", KInto); (codes "VALUES", KValues); (codes "SELECT", KSelect);
  (codes "FROM", KFrom); (codes "WHERE", KWhere); (codes "DELETE", KDelete);
  (codes "INT", KInt); (codes "TEXT", KText); (codes "FLOAT", KFloat);
  (codes "UPDATE", KUpdate); (codes "SET", KSet); (codes "NULL", KNull);
  (codes "IS", KIs); (codes "NOT", KNot); (codes "ORDER", KOrder); (codes "BY", KBy);
  (codes "ASC", KAsc); (codes "DESC", KDesc); (codes "LIMIT", KLimit);
  (codes "PRIMARY", KPrimary); (codes "KEY", KKey)].

Fixpoint assoc (k : list Z) (l : list (list Z * Token)) : option Token :=
  match l with
  | [] => None
  | (k', t) :: l => if decide (k = k') then Some t else assoc k l
  end.

(** The token of a word. *)
Definition word_token (w : list Z) : Token :=
  default (Ident (encode_utf8 w)) (assoc (w ≫= to_uppercase) keywords).

Definition read_ident_or_keyword (s : list Z) : Token * list Z :=
  let '(w, rest) := take_while ident_char s in (word_token w, rest).

(** The operators of one character and, with [=], of two. *)
Definition read_operator (c : Z) (s : list Z) : option (result lex_error (Token * list Z)) :=
  let with_eq t2 r1 := match s with 61 :: s => Ok (t2, s) | _ => r1 end in
  match c with
  | 40 => Some (Ok (PLParen, s))
  | 41 => Some (Ok (PRParen, s))
  | 44 => Some (Ok (PComma, s))
  | 59 => Some (Ok (PSemicolon, s))
  | 42 => Some (Ok (PStar, s))
  | 61 => Some (Ok (PEq, s))
  | 60 => Some (with_eq PLe (Ok (PLt, s)))
  | 62 => Some (with_eq PGe (Ok (PGt, s)))
  | 33 => Some (with_eq PNe (Err UnexpectedBang))
  | _ => None
  end.

Definition next_token (s : list Z) : result lex_error (Token * list Z) :=
  match skip_whitespace s with
  | [] => Ok (Eof, [])
  | c :: s =>
      match read_operator c s with
      | Some r => r
      | None =>
          if c =? 39 then '(t, s) ← read_string s; Ok (TextLit (encode_utf8 t), s)
          else if is_ascii_digit c || (c =? 45) then read_number (c :: s)
          else if ident_start c then Ok (read_ident_or_keyword (c :: s))
          else Err (UnexpectedChar c)
      end
  end.

(** The loop of [tokenize]; [Panic] is fuel that ran out.  Every token but the
    last consumes a character, so one round more than there are characters
    is enough. *)
Fixpoint tokenize_from (fuel : nat) (s : list Z) : result lex_error (list Token) :=
  match fuel with
  | O => Panic
  | S fuel =>
      '(t, s) ← next_token s;
      if decide (t = Eof) then Ok [t] else ts ← tokenize_from fuel s; Ok (t :: ts)
  end.

Definition tokenize_chars (s : list Z) : result lex_error (list Token) :=
  tokenize_from (S (length s)) s.

Definition tokenize (input : rstring) : result lex_error (list Token) := tokenize_chars (chars input).
End Lexer.

(** The tables on ASCII, and nothing beyond: for the examples. *)
Definition ascii_unicode : Unicode.
Proof.
  refine (@Build_Unicode ascii_space (fun c => ascii_upper c || ascii_lower c)
    is_ascii_digit (fun c => [ascii_to_upper c]) _ _ _ _ _); try done.
  intros c. unfold ascii_space, ascii_upper, ascii_lower. lia.
Defined.

Example tokenize_example :
  @tokenize ascii_unicode (list_byte_of_string "select a FROM t WHERE b_1>=-5 ;") =
  Ok [KSelect; Ident [x61]; KFrom; Ident [x74]; KWhere; Ident [x62; x5f; x31]; PGe; IntLit (-5);
      PSemicolon; Eof].
Proof. by vm_compute. Qed.

(** ** The lexer ends *)
Section Total.
Context `{Unicode}.
Implicit Types (s r : list Z).

Lemma take_while_app f s : (take_while f s).1 ++ (take_while f s).2 = s.
Proof.
  induction s as [|c s IH]; simpl; [done|]. destruct (f c); [|done].
  destruct (take_while f s). simpl in *. by rewrite IH.
Qed.

Lemma take_while_length f s : (length (take_while f s).2 <= length s)%nat.
Proof. rewrite <- (take_while_app f s) at 2. rewrite length_app. lia. Qed.

Lemma take_while_step f c s : f c = true -> (length (take_while f (c :: s)).2 <= length s)%nat.
Proof.
  intros Hc. cbn [take_while]. rewrite Hc. pose proof (take_while_length f s).
  by destruct (take_while f s).
Qed.

(** A step that ends in a token left at most [n] characters, or failed. *)
Definition consumes {A} (n : nat) (x : result lex_error (A * list Z)) : Prop :=
  match x with Ok (_, r) => (length r <= n)%nat | Err _ => True | Panic => False end.

Lemma read_string_consumes s : consumes (length s) (read_string s).
Proof.
  induction s as [|c s IH]; simpl; [done|]. destruct (c =? 39); simpl; [lia|].
  destruct (read_string s) as [[a b]| |]; simpl in *; [lia|done..].
Qed.

(** A token that is not the last one, and what is left. *)
Definition emits (n : nat) (x : result lex_error (Token * list Z)) : Prop :=
  match x with Ok (t, r) => t <> Eof /\ (length r <= n)%nat | Err _ => True | Panic => False end.

Lemma read_number_emits c s :
  is_ascii_digit c || (c =? 45) = true -> emits (length s) (read_number (c :: s)).
Proof.
  intros Hc. unfold read_number.
  assert (Hb : exists neg s', match c :: s with 45 :: s => (true, s) | _ => (false, c :: s) end = (neg, s') /\
    (length (take_while number_char s').2 <= length s)%nat).
  { destruct (Z.eqb_spec c 45) as [->|Hne].
    - exists true, s. split; [done|apply take_while_length].
    - exists false, (c :: s). split; [by repeat case_match|]. apply take_while_step.
      unfold number_char. rewrite orb_false_r in Hc. by rewrite Hc. }
  destruct Hb as (neg & s' & -> & Hl). destruct (take_while number_char s') as [body rest].
  simpl in Hl. destruct (bool_decide _).
  - by destruct (parse_f64 neg body).
  - by destruct (parse_i64 neg body).
Qed.

Lemma ident_start_char c : ident_start c = true -> ident_char c = true.
Proof. unfold ident_start, ident_char, is_alphanumeric. by destruct (is_alphabetic c), (is_numeric c). Qed.

Lemma read_operator_emits c s x : read_operator c s = Some x -> emits (length s) x.
Proof.
  unfold read_operator. intros Hx.
  repeat (case_match; simplify_eq; simpl in *; try done);
    simplify_eq; simpl; (split; [done|lia]).
Qed.

Lemma assoc_in k l t : assoc k l = Some t -> (k, t) ∈ l.
Proof.
  induction l as [|[k' t'] l IH]; simpl; [done|]. case_decide; subst.
  - intros [= <-]. left.
  - intros. right. auto.
Qed.

Lemma word_token_not_eof w : word_token w <> Eof.
Proof.
  unfold word_token. destruct (assoc _ _) as [t|] eqn:E; [|done].
  apply assoc_in in E. intros Ht. simpl in Ht. subst.
  assert (Hno : Forall (fun p => p.2 <> Eof) keywords) by (unfold keywords; repeat constructor; done).
  rewrite Forall_forall in Hno. by apply (Hno _ E).
Qed.

Lemma next_token_emits s :
  match next_token s with
  | Ok (t, r) => t = Eof \/ t <> Eof /\ (length r < length s)%nat
  | Err _ => True
  | Panic => False
  end.
Proof.
  unfold next_token. pose proof (take_while_length is_whitespace s) as Hl.
  unfold skip_whitespace. destruct (take_while is_whitespace s).2 as [|c r]; [by left|].
  simpl in Hl.
  assert (Hlift : forall x, emits (length r) x ->
    match x with Ok (t, r) => t = Eof \/ t <> Eof /\ (length r < length s)%nat
    | Err _ => True | Panic => False end).
  { intros [[t r']| |]; simpl; try done. intros []. right. split; [done|lia]. }
  apply Hlift. destruct (read_operator c r) as [x|] eqn:Eo; [by eapply read_operator_emits|].
  destruct (c =? 39).
  { pose proof (read_string_consumes r). by destruct (read_string r) as [[a b]| |]. }
  destruct (is_ascii_digit c || (c =? 45)) eqn:En; [by apply read_number_emits|].
  destruct (ident_start c) eqn:Ei; [|done].
  unfold read_ident_or_keyword.
  pose proof (take_while_step ident_char c r (ident_start_char c Ei)).
  destruct (take_while ident_char (c :: r)). split; [apply word_token_not_eof|done].
Qed.

Lemma tokenize_from_total fuel s :
  (length s < fuel)%nat ->
  match tokenize_from fuel s with
  | Ok ts => exists ts', ts = ts' ++ [Eof] /\ Eof ∉ ts' /\ (length ts' <= length s)%nat
  | Err _ => True
  | Panic => False
  end.
Proof.
  revert s. induction fuel as [|fuel IH]; intros s Hf; [lia|]. simpl.
  pose proof (next_token_emits s) as Hn. destruct (next_token s) as [[t r]| |]; [|done..].
  cbn. case_decide as Ht.
  - exists []. subst. split_and!; [done|apply not_elem_of_nil|simpl; lia].
  - destruct Hn as [|[_ Hr]]; [done|]. specialize (IH r ltac:(lia)).
    destruct (tokenize_from fuel r) as [ts| |]; [|done..]. cbn.
    destruct IH as (ts' & -> & Hno & Hl). exists (t :: ts'). split_and!; [done| |simpl; lia].
    rewrite not_elem_of_cons. auto.
Qed.
End Total.

(** C34: the lexer is total. On every input it returns an error or a list of
    tokens, no more than the input has characters, with [Eof] at its end and
    nowhere else. *)
Theorem tokenize_total `{Unicode} input :
  match tokenize input with
  | Ok ts => exists ts', ts = ts' ++ [Eof] /\ Eof ∉ ts' /\ (length ts' <= length (chars input))%nat
  | Err _ => True
  | Panic => False
  end.
Proof. apply tokenize_from_total. lia. Qed.

(** ** What the lexer accepts

    [spells a t r]: the characters [a] are a spelling of [t] when [r] follows
    them: a word or a number must not go on, [<] and [>] not be followed by
    [=]. *)
Definition stops (f : Z -> bool) (r : list Z) : Prop :=
  match r with [] => True | c :: _ => f c = false end.

Section Spelling.
Context `{Unicode}.
Implicit Types (a s r : list Z).

Definition operators : list (list Z * Token) := [
  (codes "(", PLParen); (codes ")", PRParen); (codes ",", PComma); (codes ";", PSemicolon);
  (codes "*", PStar); (codes "=", PEq); (codes "!=", PNe); (codes "<=", PLe); (codes ">=", PGe)].

Inductive spells : list Z -> Token -> list Z -> Prop :=
  | sp_keyword c w t r :
      ident_start c = true -> Forall (fun c => ident_char c = true) w -> stops ident_char r ->
      ((c :: w) ≫= to_uppercase, t) ∈ keywords -> spells (c :: w) t r
  | sp_ident c w r :
      ident_start c = true -> Forall (fun c => ident_char c = true) w -> stops ident_char r ->
      (forall t, ((c :: w) ≫= to_uppercase, t) ∉ keywords) ->
      spells (c :: w) (Ident (encode_utf8 (c :: w))) r
  | sp_operator a t r : (a, t) ∈ operators -> spells a t r
  | sp_lt r : stops (Z.eqb 61) r -> spells (codes "<") PLt r
  | sp_gt r : stops (Z.eqb 61) r -> spells (codes ">") PGt r
  | sp_int (neg : bool) ds n r :
      Forall (fun c => is_ascii_digit c = true) ds -> stops number_char r ->
      parse_i64 neg ds = Some n -> spells ((if neg then codes "-" else []) ++ ds) (IntLit n) r
  | sp_float (neg : bool) c ds1 ds2 r :
      Forall (fun c => is_ascii_digit c = true) (c :: ds1 ++ ds2) -> stops number_char r ->
      spells ((if neg then codes "-" else []) ++ c :: ds1 ++ codes "." ++ ds2)
        (FloatLit (f64_of_decimal neg (digits_value (c :: ds1 ++ ds2)) (length ds2))) r
  | sp_text u r : 39 ∉ u -> spells (codes "'" ++ u ++ codes "'") (TextLit (encode_utf8 u)) r.

(** Texts that are tokens with white space around and, where needed, between. *)
Inductive lexes : list Z -> list Token -> Prop :=
  | lx_end ws : Forall (fun c => is_whitespace c = true) ws -> lexes ws [Eof]
  | lx_token ws a t r ts :
      Forall (fun c => is_whitespace c = true) ws -> spells a t r -> lexes r ts ->
      lexes (ws ++ a ++ r) (t :: ts).

Lemma take_while_stop f a r :
  Forall (fun c => f c = true) a -> stops f r -> take_while f (a ++ r) = (a, r).
Proof.
  intros Ha Hr. induction Ha as [|c a Hc _ IH]; simpl.
  - destruct r as [|c r]; simpl; [done|]. simpl in Hr. by rewrite Hr.
  - by rewrite Hc, IH.
Qed.

Lemma skip_whitespace_app ws c s :
  Forall (fun c => is_whitespace c = true) ws -> is_whitespace c = false ->
  skip_whitespace (ws ++ c :: s) = c :: s.
Proof. intros Hw Hc. unfold skip_whitespace. by rewrite take_while_stop. Qed.

Definition operator_codes : list Z := [40; 41; 44; 59; 42; 61; 60; 62; 33].

Lemma read_operator_None c s : c ∉ operator_codes -> read_operator c s = None.
Proof.
  intros Hc. unfold read_operator. unfold operator_codes in Hc.
  repeat (case_match; simplify_eq; try done); exfalso; apply Hc;
    repeat (first [left | right]); done || set_solver.
Qed.

(** Where a word starts: not at anything the lexer tests for before words. *)
Lemma ident_start_spec c :
  ident_start c = true ->
  is_whitespace c = false /\ c ∉ operator_codes /\ c <> 39 /\ is_ascii_digit c = false /\ c <> 45.
Proof.
  unfold ident_start. intros Hc.
  assert (Ha : 0 <= c < 128 -> ascii_upper c || ascii_lower c || (c =? 95) = true).
  { intros Hr. by rewrite <- ascii_alphabetic. }
  unfold ascii_upper, ascii_lower in Ha. unfold operator_codes, is_ascii_digit.
  split_and!.
  - apply orb_true_iff in Hc as [Hc|Hc]; [by apply alphabetic_not_space|].
    apply Z.eqb_eq in Hc. subst. by rewrite ascii_whitespace.
  - rewrite !not_elem_of_cons. split_and!; try apply not_elem_of_nil; lia.
  - lia.
  - lia.
  - lia.
Qed.

Lemma assoc_keyword k t : (k, t) ∈ keywords -> assoc k keywords = Some t.
Proof.
  intros Hin. assert (Hall : Forall (fun p => assoc p.1 keywords = Some p.2) keywords).
  { unfold keywords at 2. repeat constructor; by vm_compute. }
  rewrite Forall_forall in Hall. by apply (Hall _ Hin).
Qed.

Lemma next_word ws c w r :
  Forall (fun c => is_whitespace c = true) ws -> ident_start c = true ->
  Forall (fun c => ident_char c = true) w -> stops ident_char r ->
  next_token (ws ++ (c :: w) ++ r) = Ok (word_token (c :: w), r).
Proof.
  intros Hws Hc Hw Hr. destruct (ident_start_spec c Hc) as (H1 & H2 & H3 & H4 & H5).
  unfold next_token. rewrite <- app_comm_cons, skip_whitespace_app by done.
  rewrite read_operator_None by done. rewrite (proj2 (Z.eqb_neq _ _)) by done.
  rewrite H4, (proj2 (Z.eqb_neq c 45)) by done. cbn [orb]. rewrite Hc.
  unfold read_ident_or_keyword. rewrite app_comm_cons, take_while_stop; [done| |done].
  constructor; [by apply ident_start_char|done].
Qed.

Lemma digit_char c : is_ascii_digit c = true -> number_char c = true /\ 48 <= c <= 57.
Proof. unfold number_char, is_ascii_digit. lia. Qed.

(** The branch of the lexer for a number. *)
Lemma next_number ws (neg : bool) c body r :
  Forall (fun c => is_whitespace c = true) ws -> is_ascii_digit c = true ->
  next_token (ws ++ ((if neg then codes "-" else []) ++ c :: body) ++ r) =
    read_number (((if neg then codes "-" else []) ++ c :: body) ++ r).
Proof.
  intros Hws Hc. destruct (digit_char c Hc) as [_ Hr]. unfold next_token.
  assert (Hsp : forall c, 45 <= c <= 57 -> is_whitespace c = false).
  { intros x Hx. rewrite ascii_whitespace by lia. unfold ascii_space. lia. }
  destruct neg; [change (codes "-") with [45]|]; cbn [app].
  - rewrite skip_whitespace_app by (done || (apply Hsp; lia)).
    rewrite read_operator_None by (unfold operator_codes; set_solver). done.
  - rewrite skip_whitespace_app by (done || (apply Hsp; lia)).
    rewrite read_operator_None
      by (unfold operator_codes; rewrite !not_elem_of_cons; split_and!; try apply not_elem_of_nil; lia).
    rewrite (proj2 (Z.eqb_neq _ _)) by lia. by rewrite Hc.
Qed.

Lemma read_number_sign (neg : bool) c body r :
  is_ascii_digit c = true ->
  match ((if neg then codes "-" else []) ++ c :: body) ++ r with
  | 45 :: s => (true, s)
  | _ => (false, ((if neg then codes "-" else []) ++ c :: body) ++ r)
  end = (neg, (c :: body) ++ r).
Proof.
  intros Hc. destruct (digit_char c Hc) as [_ Hr].
  destruct neg; [done|]. cbn [app]. repeat case_match; subst; (done || lia).
Qed.

Lemma digits_no_point ds : Forall (fun c => is_ascii_digit c = true) ds -> 46 ∉ ds.
Proof.
  intros Hd Hin. rewrite Forall_forall in Hd. by specialize (Hd _ Hin).
Qed.

Lemma digits_number ds :
  Forall (fun c => is_ascii_digit c = true) ds -> Forall (fun c => number_char c = true) ds.
Proof. intros Hd. eapply Forall_impl; [exact Hd|]. intros c Hc. by apply digit_char. Qed.

Lemma split_point_app a b : 46 ∉ a -> split_point (a ++ 46 :: b) = Some (a, b).
Proof.
  induction a as [|c a IH]; [done|]. intros [Hc Ha]%not_elem_of_cons. cbn [app split_point].
  rewrite (proj2 (Z.eqb_neq _ _)) by done. by rewrite IH.
Qed.

Lemma read_string_app u r : 39 ∉ u -> read_string (u ++ 39 :: r) = Ok (u, r).
Proof.
  induction u as [|c u IH]; [done|]. intros [Hc Hu]%not_elem_of_cons. cbn [app read_string].
  rewrite (proj2 (Z.eqb_neq _ _)) by done. by rewrite IH.
Qed.

Lemma parse_i64_nonempty neg ds n : parse_i64 neg ds = Some n -> ds <> [].
Proof. unfold parse_i64. by case_decide. Qed.

Lemma next_int ws (neg : bool) ds n r :
  Forall (fun c => is_whitespace c = true) ws ->
  Forall (fun c => is_ascii_digit c = true) ds -> stops number_char r ->
  parse_i64 neg ds = Some n ->
  next_token (ws ++ ((if neg then codes "-" else []) ++ ds) ++ r) = Ok (IntLit n, r).
Proof.
  intros Hws Hd Hr Hn. pose proof (parse_i64_nonempty _ _ _ Hn) as Hne.
  destruct ds as [|c ds]; [done|]. apply Forall_cons in Hd as Hd'. destruct Hd' as [Hc _].
  rewrite next_number by done. unfold read_number. rewrite read_number_sign by done.
  rewrite take_while_stop by (done || by apply digits_number).
  rewrite bool_decide_eq_false_2 by (by apply digits_no_point). by rewrite Hn.
Qed.

Lemma next_float ws (neg : bool) c ds1 ds2 r :
  Forall (fun c => is_whitespace c = true) ws ->
  Forall (fun c => is_ascii_digit c = true) (c :: ds1 ++ ds2) -> stops number_char r ->
  next_token (ws ++ ((if neg then codes "-" else []) ++ c :: ds1 ++ codes "." ++ ds2) ++ r) =
    Ok (FloatLit (f64_of_decimal neg (digits_value (c :: ds1 ++ ds2)) (length ds2)), r).
Proof.
  intros Hws Hd Hr. rewrite app_comm_cons in Hd. apply Forall_app in Hd as [Hd1 Hd2].
  apply Forall_cons in Hd1 as Hd'. destruct Hd' as [Hc _]. change (codes ".") with [46]. cbn [app].
  rewrite next_number by done. unfold read_number. rewrite read_number_sign by done.
  rewrite app_comm_cons. rewrite take_while_stop; [|apply Forall_app; split; [by apply digits_number|
    constructor; [done|by apply digits_number]]|done].
  rewrite bool_decide_eq_true_2 by (apply elem_of_app; right; left).
  unfold parse_f64. rewrite split_point_app by (by apply digits_no_point).
  cbn [mbind option_bind]. rewrite !bool_decide_eq_false_2 by (done || by apply digits_no_point). done.
Qed.

Lemma next_operator ws a t r :
  Forall (fun c => is_whitespace c = true) ws -> (a, t) ∈ operators ->
  next_token (ws ++ a ++ r) = Ok (t, r).
Proof.
  intros Hws Hin. unfold next_token.
  assert (Hall : Forall (fun p => exists c s, p.1 = c :: s /\ is_whitespace c = false /\
    forall r, read_operator c (s ++ r) = Some (Ok (p.2, r))) operators).
  { unfold operators. repeat constructor; do 2 eexists; (split; [by vm_compute|]);
      (split; [by rewrite ascii_whitespace|done]). }
  rewrite Forall_forall in Hall. destruct (Hall _ Hin) as (c & s & Heq & Hc & Hop).
  simpl in Heq, Hop. subst a. rewrite <- app_comm_cons, skip_whitespace_app by done. by rewrite Hop.
Qed.

Lemma next_spelled ws a t r :
  Forall (fun c => is_whitespace c = true) ws -> spells a t r ->
  next_token (ws ++ a ++ r) = Ok (t, r) /\ t <> Eof.
Proof.
  intros Hws Hsp. destruct Hsp as [c w t r Hc Hw Hr Hk|c w r Hc Hw Hr Hk|a t r Hin|r Hr|r Hr
    |neg ds n r Hd Hr Hn|neg c ds1 ds2 r Hd Hr|u r Hu].
  - rewrite next_word by done. pose proof (word_token_not_eof (c :: w)).
    assert (word_token (c :: w) = t) as <-; [|done].
    unfold word_token. by rewrite (assoc_keyword _ _ Hk).
  - rewrite next_word by done. unfold word_token.
    destruct (assoc _ _) as [t|] eqn:E; [|done]. apply assoc_in in E. by destruct (Hk t).
  - split; [by apply next_operator|]. intros ->. unfold operators in Hin.
    repeat (apply elem_of_cons in Hin as [[=]|Hin]). by apply elem_of_nil in Hin.
  - split; [|done]. unfold next_token. change (codes "<" ++ r) with (60 :: r).
    rewrite skip_whitespace_app by (done || by rewrite ascii_whitespace).
    unfold read_operator. destruct r as [|c r]; [done|]. simpl in Hr.
    repeat case_match; subst; simplify_eq; done.
  - split; [|done]. unfold next_token. change (codes ">" ++ r) with (62 :: r).
    rewrite skip_whitespace_app by (done || by rewrite ascii_whitespace).
    unfold read_operator. destruct r as [|c r]; [done|]. simpl in Hr.
    repeat case_match; subst; simplify_eq; done.
  - split; [by apply next_int|done].
  - split; [by apply next_float|done].
  - split; [|done]. unfold next_token. change (codes "'") with [39]. cbn [app].
    rewrite <- app_assoc. cbn [app].
    rewrite skip_whitespace_app by (done || by rewrite ascii_whitespace).
    rewrite read_operator_None by (unfold operator_codes; set_solver).
    change (39 =? 39) with true. cbn match. by rewrite read_string_app.
Qed.

Lemma lexes_tokenize s ts fuel :
  lexes s ts -> (length s < fuel)%nat -> tokenize_from fuel s = Ok ts.
Proof.
  intros Hl. revert fuel. induction Hl as [ws Hws|ws a t r ts Hws Hsp _ IH]; intros [|fuel] Hf; try lia.
  - cbn [tokenize_from]. unfold next_token, skip_whitespace.
    rewrite <- (app_nil_r ws), take_while_stop by done. done.
  - cbn [tokenize_from]. destruct (next_spelled ws a t r Hws Hsp) as [Hn Ht]. rewrite Hn.
    pose proof (next_token_emits (ws ++ a ++ r)) as Hlen. rewrite Hn in Hlen.
    destruct Hlen as [|[_ Hlen]]; [done|]. cbn [mbind result_bind].
    rewrite decide_False by done. by rewrite IH by lia.
Qed.
End Spelling.

(** C33: what the lexer accepts. A text made of spelled tokens - keywords in any
    case, identifiers, operators, integers in range, decimals, quoted text - and
    white space lexes to exactly those tokens and [Eof]. *)
Theorem tokenize_spelled `{Unicode} s ts : lexes s ts -> tokenize_chars s = Ok ts.
Proof. intros Hl. apply lexes_tokenize; [done|lia]. Qed.

Lemma tokenize_spelled_witness :
  @tokenize_chars ascii_unicode (codes "SeLect -12.50>'a b'") =
  Ok [KSelect; FloatLit (f64_of_decimal true 1250 2); PGt; TextLit [x61; x20; x62]; Eof].
Proof.
  apply tokenize_spelled.
  apply (lx_token [] (codes "SeLect") KSelect (codes " -12.50>'a b'")); [constructor| |].
  { apply sp_keyword; [done|repeat constructor|done|vm_compute; set_solver]. }
  apply (lx_token (codes " ") (codes "-12.50") _ (codes ">'a b'")); [by repeat constructor| |].
  { apply (sp_float true 49 [50] [53; 48]); [by repeat constructor|done]. }
  apply (lx_token [] (codes ">") _ (codes "'a b'")); [constructor|by apply sp_gt|].
  apply (lx_token [] (codes "'a b'") _ []); [constructor| |by apply lx_end].
  apply (sp_text (codes "a b")). vm_compute. set_solver.
Defined.
