(* ===== verification/Parser.v ===== *)
(** * The parser: sql/parser.rs

    The state is the tokens that remain; past the end the parser sees [Eof].
    The loops over comma-separated items take fuel, one more than there are
    tokens; [Panic] is fuel that ran out, which does not happen. *)
From S2P Require Export Lexer.
Local Open Scope Z_scope.

Inductive parse_error :=
  | UnexpectedToken (t : Token)
  | ExpectedToken (expected got : Token)
  | ExpectedIdent (got : Token)
  | ExpectedType (got : Token)
  | ExpectedCommaOrParen (got : Token)
  | ExpectedValue (got : Token)
  | ExpectedOperator (got : Token)
  | ExpectedLimit (got : Token).

Definition parser (A : Type) : Type := list Token -> result parse_error (A * list Token).

Definition peek (ts : list Token) : Token := default Eof (head ts).
Definition advance (ts : list Token) : Token * list Token := (peek ts, tail ts).

(** The source compares discriminants; the tokens expected carry no payload. *)
Definition expect (e : Token) : parser unit := fun ts =>
  let '(t, ts) := advance ts in
  if decide (t = e) then Ok (tt, ts) else Err (ExpectedToken e t).

Definition expect_ident : parser rstring := fun ts =>
  match advance ts with (Ident s, ts) => Ok (s, ts) | (t, _) => Err (ExpectedIdent t) end.

Definition parse_type : parser DataType := fun ts =>
  match advance ts with
  | (KInt, ts) => Ok (DInt, ts)
  | (KText, ts) => Ok (DText, ts)
  | (KFloat, ts) => Ok (DFloat, ts)
  | (t, _) => Err (ExpectedType t)
  end.

Definition parse_value : parser Value := fun ts =>
  match advance ts with
  | (IntLit n, ts) => Ok (VInt n, ts)
  | (FloatLit f, ts) => Ok (VFloat f, ts)
  | (TextLit s, ts) => Ok (VText s, ts)
  | (KNull, ts) => Ok (VNull, ts)
  | (t, _) => Err (ExpectedValue t)
  end.

(** ** Lists *)
(** Items up to a closing parenthesis. *)
Fixpoint parenthesised {A} (item : parser A) (fuel : nat) : parser (list A) := fun ts =>
  match fuel with
  | O => Panic
  | S fuel =>
      '(x, ts) ← item ts;
      match peek ts with
      | PComma => '(xs, ts) ← parenthesised item fuel (tail ts); Ok (x :: xs, ts)
      | PRParen => Ok ([x], tail ts)
      | t => Err (ExpectedCommaOrParen t)
      end
  end.

(** Items as long as commas follow. *)
Fixpoint comma_separated {A} (item : parser A) (fuel : nat) : parser (list A) := fun ts =>
  match fuel with
  | O => Panic
  | S fuel =>
      '(x, ts) ← item ts;
      match peek ts with
      | PComma => '(xs, ts) ← comma_separated item fuel (tail ts); Ok (x :: xs, ts)
      | _ => Ok ([x], ts)
      end
  end.

(** ** Clauses *)
Definition parse_column : parser ColumnDef := fun ts =>
  '(n, ts) ← expect_ident ts;
  '(t, ts) ← parse_type ts;
  if decide (peek ts = KPrimary)
  then '(_, ts) ← expect KKey (tail ts); Ok (mkCol n t true, ts)
  else Ok (mkCol n t false, ts).

Definition parse_op : parser Op := fun ts =>
  match advance ts with
  | (PEq, ts) => Ok (OpEq, ts)
  | (PNe, ts) => Ok (OpNe, ts)
  | (PLt, ts) => Ok (OpLt, ts)
  | (PGt, ts) => Ok (OpGt, ts)
  | (PLe, ts) => Ok (OpLe, ts)
  | (PGe, ts) => Ok (OpGe, ts)
  | (t, _) => Err (ExpectedOperator t)
  end.

Definition parse_expr : parser Expr := fun ts =>
  '(l, ts) ← expect_ident ts;
  if decide (peek ts = KIs) then
    let ts := tail ts in
    if decide (peek ts = KNot)
    then '(_, ts) ← expect KNull (tail ts); Ok (mkExpr l OpIsNotNull VNull, ts)
    else '(_, ts) ← expect KNull ts; Ok (mkExpr l OpIsNull VNull, ts)
  else
    '(o, ts) ← parse_op ts; '(v, ts) ← parse_value ts; Ok (mkExpr l o v, ts).

Definition parse_where : parser (option Expr) := fun ts =>
  if decide (peek ts = KWhere) then '(e, ts) ← parse_expr (tail ts); Ok (Some e, ts)
  else Ok (None, ts).

Definition parse_order : parser (option (rstring * OrderDir)) := fun ts =>
  if decide (peek ts = KOrder) then
    '(_, ts) ← expect KBy (tail ts);
    '(c, ts) ← expect_ident ts;
    match peek ts with
    | KAsc => Ok (Some (c, Asc), tail ts)
    | KDesc => Ok (Some (c, Desc), tail ts)
    | _ => Ok (Some (c, Asc), ts)
    end
  else Ok (None, ts).

Definition parse_limit : parser (option Z) := fun ts =>
  if decide (peek ts = KLimit) then
    match advance (tail ts) with
    | (IntLit n, ts) => if 0 <=? n then Ok (Some n, ts) else Err (ExpectedLimit (IntLit n))
    | (t, _) => Err (ExpectedLimit t)
    end
  else Ok (None, ts).

Definition parse_assignment : parser Assignment := fun ts =>
  '(c, ts) ← expect_ident ts; '(_, ts) ← expect PEq ts; '(v, ts) ← parse_value ts;
  Ok (mkAssign c v, ts).

(** ** Statements *)
Definition parse_create : parser Statement := fun ts =>
  '(_, ts) ← expect KCreate ts; '(_, ts) ← expect KTable ts;
  '(table, ts) ← expect_ident ts; '(_, ts) ← expect PLParen ts;
  '(cols, ts) ← parenthesised parse_column (S (length ts)) ts;
  Ok (CreateTable table cols, ts).

Definition parse_insert : parser Statement := fun ts =>
  '(_, ts) ← expect KInsert ts; '(_, ts) ← expect KInto ts;
  '(table, ts) ← expect_ident ts; '(_, ts) ← expect KValues ts;
  '(_, ts) ← expect PLParen ts;
  '(vs, ts) ← parenthesised parse_value (S (length ts)) ts;
  Ok (InsertInto table vs, ts).

Definition parse_columns : parser SelectColumns := fun ts =>
  if decide (peek ts = PStar) then Ok (Star, tail ts)
  else '(cs, ts) ← comma_separated expect_ident (S (length ts)) ts; Ok (Named cs, ts).

Definition parse_select : parser Statement := fun ts =>
  '(_, ts) ← expect KSelect ts; '(cols, ts) ← parse_columns ts;
  '(_, ts) ← expect KFrom ts; '(table, ts) ← expect_ident ts;
  '(filter, ts) ← parse_where ts; '(order, ts) ← parse_order ts; '(limit, ts) ← parse_limit ts;
  Ok (Select table cols filter order limit, ts).

Definition parse_delete : parser Statement := fun ts =>
  '(_, ts) ← expect KDelete ts; '(_, ts) ← expect KFrom ts;
  '(table, ts) ← expect_ident ts; '(filter, ts) ← parse_where ts;
  Ok (DeleteFrom table filter, ts).

Definition parse_update : parser Statement := fun ts =>
  '(_, ts) ← expect KUpdate ts; '(table, ts) ← expect_ident ts; '(_, ts) ← expect KSet ts;
  '(assigns, ts) ← comma_separated parse_assignment (S (length ts)) ts;
  '(filter, ts) ← parse_where ts;
  Ok (UpdateSet table assigns filter, ts).

(** The statement and the tokens [parse] leaves unread. *)
Definition parse_statement : parser Statement := fun ts =>
  match peek ts with
  | KCreate => parse_create ts
  | KInsert => parse_insert ts
  | KSelect => parse_select ts
  | KDelete => parse_delete ts
  | KUpdate => parse_update ts
  | t => Err (UnexpectedToken t)
  end.

Definition parse (ts : list Token) : result parse_error Statement :=
  '(s, _) ← parse_statement ts; Ok s.

(** ** The grammar

    The tokens of each clause; [asc] says whether an ascending order is
    written out. *)
Fixpoint commas {A} (f : A -> list Token) (xs : list A) : list Token :=
  match xs with
  | [] => []
  | [x] => f x
  | x :: xs => f x ++ PComma :: commas f xs
  end.

Definition value_token (v : Value) : Token :=
  match v with VInt n => IntLit n | VFloat f => FloatLit f | VText s => TextLit s | VNull => KNull end.

Definition type_token (t : DataType) : Token :=
  match t with DInt => KInt | DText => KText | DFloat => KFloat end.

Definition column_tokens (c : ColumnDef) : list Token :=
  [Ident (col_name c); type_token (ty c)] ++ if primary_key c then [KPrimary; KKey] else [].

Definition op_tokens (o : Op) : list Token :=
  match o with
  | OpEq => [PEq] | OpNe => [PNe] | OpLt => [PLt] | OpGt => [PGt] | OpLe => [PLe] | OpGe => [PGe]
  | OpIsNull => [KIs; KNull] | OpIsNotNull => [KIs; KNot; KNull]
  end.

Definition expr_tokens (e : Expr) : list Token :=
  Ident (left e) :: op_tokens (op e) ++
    match op e with OpIsNull | OpIsNotNull => [] | _ => [value_token (right e)] end.

Definition where_tokens (f : option Expr) : list Token :=
  match f with Some e => KWhere :: expr_tokens e | None => [] end.

Definition order_tokens (asc : bool) (o : option (rstring * OrderDir)) : list Token :=
  match o with
  | Some (c, d) => [KOrder; KBy; Ident c] ++
      match d with Desc => [KDesc] | Asc => if asc then [KAsc] else [] end
  | None => []
  end.

Definition limit_tokens (l : option Z) : list Token :=
  match l with Some n => [KLimit; IntLit n] | None => [] end.

Definition columns_tokens (c : SelectColumns) : list Token :=
  match c with Star => [PStar] | Named cs => commas (fun c => [Ident c]) cs end.

Definition assign_tokens (a : Assignment) : list Token :=
  [Ident (column a); PEq; value_token (value a)].

Definition stmt_tokens (asc : bool) (s : Statement) : list Token :=
  match s with
  | CreateTable t cs => [KCreate; KTable; Ident t; PLParen] ++ commas column_tokens cs ++ [PRParen]
  | InsertInto t vs =>
      [KInsert; KInto; Ident t; KValues; PLParen] ++ commas (fun v => [value_token v]) vs ++ [PRParen]
  | Select t cs f o l =>
      KSelect :: columns_tokens cs ++ [KFrom; Ident t] ++ where_tokens f ++
        order_tokens asc o ++ limit_tokens l
  | DeleteFrom t f => [KDelete; KFrom; Ident t] ++ where_tokens f
  | UpdateSet t xs f => [KUpdate; Ident t; KSet] ++ commas assign_tokens xs ++ where_tokens f
  end.

(** Statements the grammar can write: lists have an item, [IS NULL] carries no
    value, a limit is not negative. *)
Definition expr_ok (e : Expr) : Prop :=
  match op e with OpIsNull | OpIsNotNull => right e = VNull | _ => True end.

Definition filter_ok (f : option Expr) : Prop := match f with Some e => expr_ok e | None => True end.

Definition stmt_ok (s : Statement) : Prop :=
  match s with
  | CreateTable _ cs => cs <> []
  | InsertInto _ vs => vs <> []
  | Select _ cs f _ l => match cs with Named [] => False | _ => True end /\ filter_ok f /\
      match l with Some n => 0 <= n | None => True end
  | DeleteFrom _ f => filter_ok f
  | UpdateSet _ xs f => xs <> [] /\ filter_ok f
  end.

(** Tokens that end a statement: none of those that would continue a clause. *)
Definition stmt_end (rest : list Token) : Prop :=
  peek rest ∉ [PComma; KWhere; KOrder; KAsc; KDesc; KLimit; KPrimary].

(** ** Parsers and what they read

    [reads p f]: [p] succeeds exactly on the tokens [f] writes; what follows
    must not continue the item ([ends]). [Panic] never comes out. *)
Record reads {A} (p : parser A) (f : A -> list Token) (P : A -> Prop)
    (ends : list Token -> Prop) : Prop := {
  rd_complete x rest : P x -> ends rest -> p (f x ++ rest) = Ok (x, rest);
  rd_sound ts x rest : p ts = Ok (x, rest) -> P x /\ ts = f x ++ rest;
  rd_total ts : p ts <> Panic;
}.

Section Reads.
Context {A : Type}.
Implicit Types (p : parser A) (ts rest : list Token).

Lemma peek_cons t ts : peek (t :: ts) = t.
Proof. done. Qed.

Lemma peek_inv ts t : peek ts = t -> t <> Eof -> ts = t :: tail ts.
Proof. destruct ts as [|t' ts]; cbn; [by intros <-|intros ->; done]. Qed.

Lemma expect_eq t ts : expect t (t :: ts) = Ok (tt, ts).
Proof. unfold expect, advance. simpl. by rewrite decide_True. Qed.

Lemma expect_sound t ts u rest : expect t ts = Ok (u, rest) -> t <> Eof -> ts = t :: rest.
Proof.
  unfold expect, advance. case_decide as Ht; [|done]. intros [= _ <-] Hne. by apply peek_inv.
Qed.

Lemma expect_total t ts : expect t ts <> Panic.
Proof. unfold expect, advance. by case_decide. Qed.

Lemma reads_length p f P ends ts x rest :
  reads p f P ends -> p ts = Ok (x, rest) -> (length rest <= length ts)%nat.
Proof. intros H [_ ->]%(rd_sound _ _ _ _ H). rewrite length_app. lia. Qed.

Lemma length_commas (f : A -> list Token) xs : (length xs <= S (length (commas f xs)))%nat.
Proof.
  induction xs as [|x [|y xs] IH]; [simpl; lia..|].
  change (commas f (x :: y :: xs)) with (f x ++ PComma :: commas f (y :: xs)).
  rewrite length_app. cbn [length] in *. lia.
Qed.

(** Both loops over items, with what may follow an item. *)
Lemma parenthesised_complete p f P ends fuel xs rest :
  reads p f P ends -> (forall r, ends (PComma :: r)) -> (forall r, ends (PRParen :: r)) ->
  Forall P xs -> xs <> [] -> (length xs <= fuel)%nat ->
  parenthesised p fuel (commas f xs ++ PRParen :: rest) = Ok (xs, rest).
Proof.
  intros H Hc Hr. revert xs. induction fuel as [|fuel IH]; intros xs HP Hne Hf.
  { destruct xs; [done|simpl in Hf; lia]. }
  destruct xs as [|x [|y xs]]; [done|..].
  - apply Forall_cons in HP as [Hx _]. cbn [commas parenthesised].
    by rewrite (rd_complete _ _ _ _ H) by auto.
  - apply Forall_cons in HP as [Hx HP].
    change (commas f (x :: y :: xs)) with (f x ++ PComma :: commas f (y :: xs)).
    rewrite <- app_assoc. cbn [parenthesised app].
    rewrite (rd_complete _ _ _ _ H) by auto. cbn [mbind result_bind peek head default tail].
    rewrite IH by (done || (simpl in *; lia)). done.
Qed.

Lemma comma_separated_complete p f P ends fuel xs rest :
  reads p f P ends -> (forall r, ends (PComma :: r)) -> ends rest -> peek rest <> PComma ->
  Forall P xs -> xs <> [] -> (length xs <= fuel)%nat ->
  comma_separated p fuel (commas f xs ++ rest) = Ok (xs, rest).
Proof.
  intros H Hc Hr Hp. revert xs. induction fuel as [|fuel IH]; intros xs HP Hne Hf.
  { destruct xs; [done|simpl in Hf; lia]. }
  destruct xs as [|x [|y xs]]; [done|..].
  - apply Forall_cons in HP as [Hx _]. cbn [commas comma_separated].
    rewrite (rd_complete _ _ _ _ H) by auto. cbn [mbind result_bind].
    destruct (peek rest); done.
  - apply Forall_cons in HP as [Hx HP].
    change (commas f (x :: y :: xs)) with (f x ++ PComma :: commas f (y :: xs)).
    rewrite <- app_assoc. cbn [comma_separated app].
    rewrite (rd_complete _ _ _ _ H) by auto. cbn [mbind result_bind peek head default tail].
    rewrite IH by (done || (simpl in *; lia)). done.
Qed.

Lemma commas_cons (f : A -> list Token) x xs :
  xs <> [] -> commas f (x :: xs) = f x ++ PComma :: commas f xs.
Proof. by destruct xs. Qed.

Lemma parenthesised_sound p f P ends fuel ts xs rest :
  reads p f P ends -> parenthesised p fuel ts = Ok (xs, rest) ->
  Forall P xs /\ xs <> [] /\ ts = commas f xs ++ PRParen :: rest.
Proof.
  intros H. revert ts xs. induction fuel as [|fuel IH]; intros ts xs; [done|]. cbn [parenthesised].
  destruct (p ts) as [[x ts1]| |] eqn:E; cbn [mbind result_bind]; try done.
  apply (rd_sound _ _ _ _ H) in E as [Hx ->].
  destruct (peek ts1) eqn:Ep; try done.
  - intros [= <- <-]. apply peek_inv in Ep; [|done]. rewrite Ep at 1. by repeat constructor.
  - destruct (parenthesised p fuel (tail ts1)) as [[xs1 ts2]| |] eqn:E2; try done.
    cbn [mbind result_bind]. intros [= <- <-]. apply IH in E2 as (HP & Hne & Ht).
    apply peek_inv in Ep; [|done]. split_and!; [by constructor|done|].
    rewrite commas_cons, <- app_assoc by done. cbn [app]. rewrite Ep at 1. by rewrite Ht.
Qed.

Lemma comma_separated_sound p f P ends fuel ts xs rest :
  reads p f P ends -> comma_separated p fuel ts = Ok (xs, rest) ->
  Forall P xs /\ xs <> [] /\ ts = commas f xs ++ rest.
Proof.
  intros H. revert ts xs. induction fuel as [|fuel IH]; intros ts xs; [done|]. cbn [comma_separated].
  destruct (p ts) as [[x ts1]| |] eqn:E; cbn [mbind result_bind]; try done.
  apply (rd_sound _ _ _ _ H) in E as [Hx ->].
  destruct (decide (peek ts1 = PComma)) as [Ep|Ep].
  - rewrite Ep.
    destruct (comma_separated p fuel (tail ts1)) as [[xs1 ts2]| |] eqn:E2; try done.
    cbn [mbind result_bind]. intros [= <- <-]. apply IH in E2 as (HP & Hne & Ht).
    apply peek_inv in Ep; [|done]. split_and!; [by constructor|done|].
    rewrite commas_cons, <- app_assoc by done. cbn [app]. rewrite Ep at 1. by rewrite Ht.
  - destruct (peek ts1); try done; intros [= <- <-]; by repeat constructor.
Qed.

Lemma items_total p f P ends fuel ts :
  reads p f P ends -> (length ts < fuel)%nat ->
  parenthesised p fuel ts <> Panic /\ comma_separated p fuel ts <> Panic.
Proof.
  intros H. revert ts. induction fuel as [|fuel IH]; intros ts Hf; [lia|].
  cbn [parenthesised comma_separated]. pose proof (rd_total _ _ _ _ H ts) as Hp.
  destruct (p ts) as [[x ts1]| |] eqn:E; try done.
  apply (reads_length _ _ _ _ _ _ _ H) in E. cbn [mbind result_bind].
  destruct (decide (peek ts1 = PComma)) as [Ep|Ep].
  - rewrite Ep. apply peek_inv in Ep; [|done]. apply (f_equal length) in Ep. simpl in Ep.
    destruct (IH (tail ts1) ltac:(lia)) as [H1 H2].
    split; [by destruct (parenthesised p fuel (tail ts1)) as [[]| |]|
      by destruct (comma_separated p fuel (tail ts1)) as [[]| |]].
  - by destruct (peek ts1).
Qed.
End Reads.

(** *** Items *)
Lemma ident_reads : reads expect_ident (fun s => [Ident s]) (fun _ => True) (fun _ => True).
Proof.
  split; [done| |by intros [|[] ts]].
  intros [|[] ts] x rest; cbn; try done. by intros [= <- <-].
Qed.

Lemma ident_eq s ts : expect_ident (Ident s :: ts) = Ok (s, ts).
Proof. done. Qed.

Lemma value_reads : reads parse_value (fun v => [value_token v]) (fun _ => True) (fun _ => True).
Proof.
  split; [by intros []| |by intros [|[] ts]].
  intros [|[] ts] x rest; cbn; try done; by intros [= <- <-].
Qed.

Lemma type_reads : reads parse_type (fun t => [type_token t]) (fun _ => True) (fun _ => True).
Proof.
  split; [by intros []| |by intros [|[] ts]].
  intros [|[] ts] x rest; cbn; try done; by intros [= <- <-].
Qed.

Lemma op_reads :
  reads parse_op op_tokens (fun o => o <> OpIsNull /\ o <> OpIsNotNull) (fun _ => True).
Proof.
  split; [intros [] rest [H1 H2] _; done| |by intros [|[] ts]].
  intros [|[] ts] x rest; cbn; try done; by intros [= <- <-].
Qed.

(** *** Clauses *)
(** One bind of a successful parse. *)
Ltac bind_step H :=
  let x := fresh "x" in let ts := fresh "ts" in let E := fresh "E" in
  apply result_bind_ok in H as ([x ts] & E & H);
  first [ apply expect_sound in E; [|done]
        | apply (rd_sound _ _ _ _ ident_reads) in E as [_ E]
        | apply (rd_sound _ _ _ _ value_reads) in E as [_ E]
        | apply (rd_sound _ _ _ _ type_reads) in E as [_ E]
        | idtac ];
  cbn [app] in E.

Lemma result_bind_total {E A B} (m : result E A) (f : A -> result E B) :
  m <> Panic -> (forall a, m = Ok a -> f a <> Panic) -> (a ← m; f a) <> Panic.
Proof. destruct m as [a|e|]; cbn; [naive_solver|done|done]. Qed.

Ltac total :=
  repeat (lazymatch goal with |- (_ ≫= _) <> Panic => apply result_bind_total end;
    [ first [ apply expect_total | apply (rd_total _ _ _ _ ident_reads)
            | apply (rd_total _ _ _ _ value_reads) | apply (rd_total _ _ _ _ type_reads)
            | apply (rd_total _ _ _ _ op_reads) | idtac ]
    | intros [? ?] _ ]); try done.

Lemma column_reads :
  reads parse_column column_tokens (fun _ => True) (fun rest => peek rest <> KPrimary).
Proof.
  split.
  - intros [n t pk] rest _ Hr. unfold parse_column, column_tokens. cbn [col_name ty primary_key app].
    change (expect_ident _) with
      (@Ok parse_error _ (n, type_token t :: (if pk then [KPrimary; KKey] else []) ++ rest)).
    cbn [mbind result_bind].
    change (parse_type _) with (parse_type ([type_token t] ++ (if pk then [KPrimary; KKey] else []) ++ rest)).
    rewrite (rd_complete _ _ _ _ type_reads t) by done. cbn [mbind result_bind].
    destruct pk; cbn [app]; [done|by rewrite decide_False].
  - intros ts x rest H. split; [done|]. unfold parse_column in H.
    bind_step H. bind_step H. subst. case_decide as Ep.
    + bind_step H. injection H as <- <-. apply peek_inv in Ep; [|done].
      rewrite Ep. by rewrite E.
    + by injection H as <- <-.
  - intros ts. unfold parse_column. total. case_decide; total.
Qed.

Lemma expr_reads : reads parse_expr expr_tokens expr_ok (fun _ => True).
Proof.
  split.
  - intros [l o v] rest Hok _. unfold expr_ok in Hok. cbn [op right] in Hok.
    destruct o; subst; try done; by destruct v.
  - intros ts e rest H. unfold parse_expr in H. bind_step H. subst. case_decide as Ep.
    + apply peek_inv in Ep; [|done]. case_decide as En.
      * apply peek_inv in En; [|done]. bind_step H. injection H as <- <-.
        split; [done|]. by rewrite Ep, En, E.
      * bind_step H. injection H as <- <-. split; [done|]. by rewrite Ep, E.
    + bind_step H. apply (rd_sound _ _ _ _ op_reads) in E as [[Ho1 Ho2] E]. bind_step H. subst.
      injection H as <- <-. by destruct x0.
  - intros ts. unfold parse_expr. total. case_decide; [case_decide|]; total.
Qed.

Lemma where_reads :
  reads parse_where where_tokens filter_ok (fun rest => peek rest <> KWhere).
Proof.
  split.
  - intros [e|] rest Hok Hr; unfold parse_where; cbn [where_tokens app].
    + rewrite decide_True by done. cbn [tail].
      by rewrite (rd_complete _ _ _ _ expr_reads e).
    + by rewrite decide_False.
  - intros ts f rest H. unfold parse_where in H. case_decide as Ep.
    + bind_step H. apply (rd_sound _ _ _ _ expr_reads) in E as [Ho E]. injection H as <- <-.
      apply peek_inv in Ep; [|done]. split; [done|]. rewrite Ep. by rewrite E.
    + by injection H as <- <-.
  - intros ts. unfold parse_where. case_decide; [|done]. total. apply (rd_total _ _ _ _ expr_reads).
Qed.

Lemma assignment_reads :
  reads parse_assignment assign_tokens (fun _ => True) (fun _ => True).
Proof.
  split.
  - intros [c v] rest _ _. by destruct v.
  - intros ts a rest H. unfold parse_assignment in H. do 3 bind_step H. injection H as <- <-.
    by subst.
  - intros ts. unfold parse_assignment. total.
Qed.

(** An ascending order may be left implicit, so what was read is not unique. *)
Lemma order_complete asc o rest :
  peek rest ∉ [KOrder; KAsc; KDesc] -> parse_order (order_tokens asc o ++ rest) = Ok (o, rest).
Proof.
  rewrite !not_elem_of_cons. intros (Ho & Ha & Hd & _). destruct o as [[c d]|].
  - destruct d; [destruct asc|]; [done| |done]. clear Ho. revert Ha Hd.
    unfold parse_order. rewrite decide_True by done. cbn [order_tokens app tail].
    rewrite expect_eq. cbn [mbind result_bind]. rewrite ident_eq. cbn [mbind result_bind].
    by destruct (peek rest).
  - unfold parse_order. by rewrite decide_False.
Qed.

Lemma order_sound ts o rest :
  parse_order ts = Ok (o, rest) -> exists asc, ts = order_tokens asc o ++ rest.
Proof.
  unfold parse_order. case_decide as Ep; [|intros [= <- <-]; by exists true].
  intros H. do 2 bind_step H. apply peek_inv in Ep; [|done]. rewrite Ep, E, E0.
  destruct (decide (peek ts1 = KAsc)) as [Ha|Ha]; [|destruct (decide (peek ts1 = KDesc)) as [Hd|Hd]].
  - exists true. rewrite Ha in H. injection H as <- <-. apply peek_inv in Ha; [|done]. by rewrite Ha at 1.
  - exists true. rewrite Hd in H. injection H as <- <-. apply peek_inv in Hd; [|done]. by rewrite Hd at 1.
  - exists false. revert Ha Hd H. by destruct (peek ts1); intros ? ? [= <- <-].
Qed.

Lemma limit_reads :
  reads parse_limit limit_tokens (fun l => match l with Some n => 0 <= n | None => True end)
    (fun rest => peek rest <> KLimit).
Proof.
  split.
  - intros [n|] rest Hn Hr; unfold parse_limit; cbn [limit_tokens app].
    + rewrite decide_True by done. cbn. by rewrite (proj2 (Z.leb_le 0 n) Hn).
    + by rewrite decide_False.
  - intros ts l rest. unfold parse_limit. case_decide as Ep; [|by intros [= <- <-]].
    apply peek_inv in Ep; [|done]. rewrite Ep. destruct (tail ts) as [|[] ts1]; cbn; try done.
    destruct (Z.leb_spec 0 n); [|done]. by intros [= <- <-].
  - intros ts. unfold parse_limit. case_decide; [|done].
    destruct (tail ts) as [|[] ts1]; cbn; try done. by case_match.
Qed.

(** ** Statements *)
Lemma columns_reads :
  reads parse_columns columns_tokens (fun c => match c with Named [] => False | _ => True end)
    (fun rest => peek rest <> PComma).
Proof.
  split.
  - intros [|cs] rest Hc Hr; [done|]. unfold parse_columns. cbn [columns_tokens].
    destruct cs as [|c cs]; [done|].
    assert (Hs : peek (commas (fun c => [Ident c]) (c :: cs) ++ rest) = Ident c) by by destruct cs.
    rewrite Hs, decide_False by done.
    rewrite (comma_separated_complete _ _ _ _ _ _ _ ident_reads); try done.
    + by apply Forall_true.
    + rewrite length_app. pose proof (length_commas (fun c => [Ident c]) (c :: cs)). lia.
  - intros ts c rest. unfold parse_columns. case_decide as Ep.
    + intros [= <- <-]. apply peek_inv in Ep; [|done]. by rewrite Ep at 1.
    + intros H. bind_step H. injection H as <- <-.
      apply (comma_separated_sound _ _ _ _ _ _ _ _ ident_reads) in E as (_ & Hne & ->).
      by destruct x.
  - intros ts. unfold parse_columns. case_decide; [done|]. total.
    apply (items_total _ _ _ _ _ _ ident_reads). lia.
Qed.

Lemma stmt_end_elim rest t :
  stmt_end rest -> t ∈ [PComma; KWhere; KOrder; KAsc; KDesc; KLimit; KPrimary] -> peek rest <> t.
Proof. intros H Ht <-. by apply H. Qed.

Ltac ends H := apply (stmt_end_elim _ _ H); apply (bool_decide_unpack _); vm_compute; exact I.

Lemma peek_limit l rest t :
  t <> KLimit -> peek rest <> t -> peek (limit_tokens l ++ rest) <> t.
Proof. by destruct l; cbn. Qed.

Lemma peek_order asc o rest t :
  t <> KOrder -> peek rest <> t -> peek (order_tokens asc o ++ rest) <> t.
Proof. by destruct o as [[c d]|]; cbn. Qed.

(** What a statement's tokens start with, one head at a time. *)
Ltac run_head := repeat (first [ rewrite expect_eq | rewrite ident_eq ]; cbn [mbind result_bind]).

Lemma select_complete asc t cs f o l rest :
  stmt_ok (Select t cs f o l) -> stmt_end rest ->
  parse_select (stmt_tokens asc (Select t cs f o l) ++ rest) = Ok (Select t cs f o l, rest).
Proof.
  intros (Hc & Hf & Hl) He. cbn [stmt_tokens app]. rewrite <- !app_assoc. cbn [app]. rewrite <- !app_assoc.
  unfold parse_select. run_head.
  rewrite (rd_complete _ _ _ _ columns_reads) by done. cbn [mbind result_bind]. run_head.
  rewrite (rd_complete _ _ _ _ where_reads) by
    (done || (apply peek_order; [done|apply peek_limit; [done|ends He]])).
  cbn [mbind result_bind]. rewrite order_complete.
  - cbn [mbind result_bind]. by rewrite (rd_complete _ _ _ _ limit_reads) by (done || ends He).
  - rewrite !not_elem_of_cons. split_and!; [..|apply not_elem_of_nil];
      (apply peek_limit; [done|ends He]).
Qed.

Lemma create_complete asc t cs rest :
  stmt_ok (CreateTable t cs) ->
  parse_create (stmt_tokens asc (CreateTable t cs) ++ rest) = Ok (CreateTable t cs, rest).
Proof.
  intros Hc. cbn [stmt_tokens app]. rewrite <- !app_assoc. cbn [app].
  unfold parse_create. run_head.
  rewrite (parenthesised_complete _ _ _ _ _ _ _ column_reads); try done; [by apply Forall_true|].
  rewrite length_app. pose proof (length_commas column_tokens cs). cbn [length]. lia.
Qed.

Lemma insert_complete asc t vs rest :
  stmt_ok (InsertInto t vs) ->
  parse_insert (stmt_tokens asc (InsertInto t vs) ++ rest) = Ok (InsertInto t vs, rest).
Proof.
  intros Hv. cbn [stmt_tokens app]. rewrite <- !app_assoc. cbn [app].
  unfold parse_insert. run_head.
  rewrite (parenthesised_complete _ _ _ _ _ _ _ value_reads); try done; [by apply Forall_true|].
  rewrite length_app. pose proof (length_commas (fun v => [value_token v]) vs). cbn [length]. lia.
Qed.

Lemma update_complete asc t xs f rest :
  stmt_ok (UpdateSet t xs f) -> stmt_end rest ->
  parse_update (stmt_tokens asc (UpdateSet t xs f) ++ rest) = Ok (UpdateSet t xs f, rest).
Proof.
  intros [Hx Hf] He. cbn [stmt_tokens app]. rewrite <- !app_assoc.
  unfold parse_update. run_head.
  rewrite (comma_separated_complete _ _ _ _ _ _ _ assignment_reads); try done.
  - cbn [mbind result_bind]. by rewrite (rd_complete _ _ _ _ where_reads) by (done || ends He).
  - destruct f; [done|ends He].
  - by apply Forall_true.
  - rewrite length_app. pose proof (length_commas assign_tokens xs). lia.
Qed.

Lemma delete_complete asc t f rest :
  stmt_ok (DeleteFrom t f) -> stmt_end rest ->
  parse_delete (stmt_tokens asc (DeleteFrom t f) ++ rest) = Ok (DeleteFrom t f, rest).
Proof.
  intros Hf He. cbn [stmt_tokens app]. unfold parse_delete. run_head.
  by rewrite (rd_complete _ _ _ _ where_reads) by (done || ends He).
Qed.

Lemma parse_statement_sound ts s rest :
  parse_statement ts = Ok (s, rest) -> stmt_ok s /\ exists asc, ts = stmt_tokens asc s ++ rest.
Proof.
  unfold parse_statement. intros H. destruct (peek ts); try done; unfold parse_create, parse_insert,
    parse_select, parse_delete, parse_update in H.
  - do 4 bind_step H. bind_step H. injection H as <- <-.
    apply (parenthesised_sound _ _ _ _ _ _ _ _ column_reads) in E3 as (_ & Hne & ->).
    split; [done|]. exists true. subst. cbn [stmt_tokens app]. by rewrite <- app_assoc.
  - do 5 bind_step H. bind_step H. injection H as <- <-.
    apply (parenthesised_sound _ _ _ _ _ _ _ _ value_reads) in E4 as (_ & Hne & ->).
    split; [done|]. exists true. subst. cbn [stmt_tokens app]. by rewrite <- app_assoc.
  - do 7 bind_step H. injection H as <- <-.
    apply (rd_sound _ _ _ _ columns_reads) in E0 as [Hc E0].
    apply (rd_sound _ _ _ _ where_reads) in E3 as [Hf E3].
    apply order_sound in E4 as [asc E4].
    apply (rd_sound _ _ _ _ limit_reads) in E5 as [Hl E5].
    split; [by split_and!|]. exists asc. subst. cbn [stmt_tokens app].
    rewrite <- !app_assoc. cbn [app]. by rewrite <- !app_assoc.
  - do 4 bind_step H. injection H as <- <-.
    apply (rd_sound _ _ _ _ where_reads) in E2 as [Hf E2].
    split; [done|]. exists true. by subst.
  - do 5 bind_step H. injection H as <- <-.
    apply (comma_separated_sound _ _ _ _ _ _ _ _ assignment_reads) in E2 as (_ & Hne & E2).
    apply (rd_sound _ _ _ _ where_reads) in E3 as [Hf E3].
    split; [by split|]. exists true. subst. cbn [stmt_tokens app]. by rewrite <- !app_assoc.
Qed.

Lemma parse_statement_total ts : parse_statement ts <> Panic.
Proof.
  pose proof (fun fuel ts => items_total _ _ _ _ fuel ts column_reads) as Hc.
  pose proof (fun fuel ts => items_total _ _ _ _ fuel ts value_reads) as Hv.
  pose proof (fun fuel ts => items_total _ _ _ _ fuel ts assignment_reads) as Ha.
  unfold parse_statement.
  destruct (peek ts); try done; unfold parse_create, parse_insert,
    parse_select, parse_delete, parse_update; total;
    first [ apply Hc; lia | apply Hv; lia | apply Ha; lia | apply (rd_total _ _ _ _ columns_reads)
          | apply (rd_total _ _ _ _ where_reads) | apply (rd_total _ _ _ _ limit_reads) | idtac ].
  unfold parse_order. case_decide; [|done]. total. by case_match.
Qed.

Lemma parse_statement_complete asc s rest :
  stmt_ok s -> stmt_end rest -> parse_statement (stmt_tokens asc s ++ rest) = Ok (s, rest).
Proof.
  intros Hs He. destruct s.
  - by apply create_complete.
  - by apply insert_complete.
  - by apply update_complete.
  - by apply select_complete.
  - by apply delete_complete.
Qed.

(** C21: the parser accepts every statement the grammar writes and builds exactly
    its syntax tree, with a written or an implicit [ASC], whatever follows as long
    as the next token does not continue a clause. *)
Theorem parse_complete asc s rest :
  stmt_ok s -> stmt_end rest -> parse (stmt_tokens asc s ++ rest) = Ok s.
Proof. intros Hs He. unfold parse. by rewrite parse_statement_complete. Qed.

Lemma parse_complete_witness :
  parse (stmt_tokens false (Select [x74] (Named [[x61]; [x62]])
    (Some (mkExpr [x61] OpIsNotNull VNull)) (Some ([x62], Asc)) (Some 5)) ++ [PSemicolon; Eof]) =
  Ok (Select [x74] (Named [[x61]; [x62]])
    (Some (mkExpr [x61] OpIsNotNull VNull)) (Some ([x62], Asc)) (Some 5)).
Proof.
  apply parse_complete; [by vm_compute|].
  apply (bool_decide_unpack _). vm_compute. exact I.
Defined.

(** C31: the parser invents nothing and always answers. It never runs out of
    fuel; when it answers with a statement, the statement is one the grammar can
    write and the tokens start with a way to write it; when it rejects the
    tokens, they are not a statement of the grammar with something after it that
    does not go on with it ([stmt_end]: what follows is not a comma, WHERE,
    ORDER, ASC, DESC, LIMIT or PRIMARY). *)
Theorem parse_exact ts :
  match parse ts with
  | Ok s => stmt_ok s /\ exists asc rest, ts = stmt_tokens asc s ++ rest
  | Err _ => forall s asc rest, stmt_ok s -> stmt_end rest -> ts <> stmt_tokens asc s ++ rest
  | Panic => False
  end.
Proof.
  unfold parse. pose proof (parse_statement_total ts) as Ht.
  destruct (parse_statement ts) as [[s rest]|e|] eqn:E; cbn; [|intros s asc rest Hs He ->|done].
  - apply parse_statement_sound in E as [Hs [asc ->]]. eauto.
  - by rewrite parse_statement_complete in E.
Qed.

(** A statement followed by anything is accepted: the rest of a condition
    joined by AND, which the lexer reads as an identifier, is dropped. *)
Lemma trailing_tokens_ignored `{Unicode} t a b n m :
  parse ([KDelete; KFrom; Ident t; KWhere; Ident a; PEq; IntLit n] ++
         [word_token (codes "AND"); Ident b; PEq; IntLit m; Eof]) =
  Ok (DeleteFrom t (Some (mkExpr a OpEq (VInt n)))).
Proof. done. Qed.
