(* ===== verification/TableMeta.v ===== *)
(** * Table heaps on disk: the page lists of engine/executor.rs

    Each table has a file [<table>.pages], the ids of its pages behind their
    number.  A file that is missing or too short is an empty list, and a list
    cut short ends where the file does. *)
From S2P Require Export Bytes.
Local Open Scope Z_scope.

(** What [save_table_meta] writes. *)
Definition meta_bytes (pids : list Z) : bytes :=
  to_le 4 (as_u32 (Z.of_nat (length pids))) ++ (pids ≫= to_le 4).

(** The loop over [0..num], which breaks at the end of the buffer. *)
Fixpoint read_pids (n : nat) (l : bytes) : list Z :=
  match n with
  | O => []
  | S n => match read_le 4 l with None => [] | Some (p, l) => p :: read_pids n l end
  end.

Definition load_table_meta (file : option bytes) : list Z :=
  match file with
  | None => []
  | Some buf =>
      match read_le 4 buf with
      | None => []
      | Some (n, l) => read_pids (Z.to_nat n) l
      end
  end.

Definition pids_ok (pids : list Z) : Prop :=
  Forall in_u32 pids /\ Z.of_nat (length pids) < 2 ^ 32.

Lemma read_le_short n l : (length l < n)%nat -> read_le n l = None.
Proof. intros. unfold read_le, read_n. by rewrite decide_False by lia. Qed.

Lemma take_to_le c z l :
  (4 <= c)%nat -> take c (to_le 4 z ++ l) = to_le 4 z ++ take (c - 4) l.
Proof.
  intros. rewrite take_app. rewrite length_to_le. rewrite take_ge; [done|]. rewrite length_to_le. lia.
Qed.

Lemma read_pids_cut pids n c :
  Forall in_u32 pids -> (length pids <= n)%nat ->
  read_pids n (take c (pids ≫= to_le 4)) = take (c / 4) pids.
Proof.
  intros H. revert n c. induction H as [|p pids Hp _ IH]; intros n c Hn.
  { rewrite take_nil. simpl. rewrite !take_nil. by destruct n. }
  destruct n as [|n]; simpl in Hn; [lia|]. rewrite bind_cons. cbn [read_pids].
  destruct (decide (c < 4)%nat) as [Hc|Hc].
  - rewrite read_le_short by (rewrite length_take; lia). by rewrite Nat.div_small.
  - rewrite take_to_le, read_le_u32 by (done || lia). rewrite IH by lia.
    replace c with (1 * 4 + (c - 4))%nat at 2 by lia. by rewrite Nat.div_add_l.
Qed.

(** A page list cut anywhere keeps the ids that are there in full. *)
Lemma load_meta_cut pids cut : pids_ok pids -> load_table_meta (Some (take cut (meta_bytes pids))) = take (cut / 4 - 1) pids.
Proof.
  intros [Hp Hl]. unfold meta_bytes, load_table_meta. rewrite as_u32_small by width.
  destruct (decide (cut < 4)%nat) as [Hc|Hc].
  - rewrite read_le_short by (rewrite length_take; lia). by rewrite Nat.div_small.
  - rewrite take_to_le, read_le_u32 by (lia || width). rewrite Nat2Z.id, read_pids_cut by done.
    replace cut with (1 * 4 + (cut - 4))%nat at 2 by lia. rewrite Nat.div_add_l by lia. f_equal. lia.
Qed.

Lemma length_meta_bytes pids : length (meta_bytes pids) = (4 * S (length pids))%nat.
Proof.
  unfold meta_bytes. rewrite length_app, length_to_le. induction pids as [|p pids IH]; [done|].
  rewrite bind_cons, length_app, length_to_le. cbn [length]. lia.
Qed.

Lemma read_pids_app pids extra : Forall in_u32 pids -> read_pids (length pids) ((pids ≫= to_le 4) ++ extra) = pids.
Proof.
  induction 1 as [|p pids Hp _ IH]; [done|]. rewrite bind_cons. cbn [length read_pids].
  rewrite <- app_assoc, read_le_u32 by done. by rewrite IH.
Qed.

Lemma load_meta_app pids extra : pids_ok pids -> load_table_meta (Some (meta_bytes pids ++ extra)) = pids.
Proof.
  intros [Hp Hl]. unfold meta_bytes, load_table_meta. rewrite as_u32_small by width.
  rewrite <- app_assoc, read_le_u32 by width. rewrite Nat2Z.id. by apply read_pids_app.
Qed.

Lemma load_meta_bytes pids : pids_ok pids -> load_table_meta (Some (meta_bytes pids)) = pids.
Proof. intros Hp. rewrite <- (app_nil_r (meta_bytes pids)). by apply load_meta_app. Qed.

(** C38: the page list of a table survives its file. Of a list of [u32] ids that
    a [u32] counts, reading back what was written gives the list, whatever bytes
    follow it; reading a file cut anywhere gives the ids that are complete in it,
    in their order; and a file that is missing is an empty list. *)
Theorem meta_roundtrip pids cut extra :
  pids_ok pids ->
  load_table_meta (Some (meta_bytes pids ++ extra)) = pids /\
  load_table_meta (Some (take cut (meta_bytes pids))) = take (cut / 4 - 1) pids /\
  load_table_meta None = [].
Proof. intros Hp. split_and!; [by apply load_meta_app|by apply load_meta_cut|done]. Qed.

Lemma meta_roundtrip_witness :
  load_table_meta (Some (meta_bytes [1; 7; 300] ++ [x2a])) = [1; 7; 300] /\
  load_table_meta (Some (take 13 (meta_bytes [1; 7; 300]))) = [1; 7] /\
  load_table_meta None = [].
Proof.
  apply (meta_roundtrip [1; 7; 300] 13 [x2a]).
  split; [apply (bool_decide_unpack _); vm_compute; exact I|vm_compute; reflexivity].
Defined.
