(* ===== verification/Directory.v ===== *)
(** * Replacing a file: storage/catalog_store.rs, engine/executor.rs

    The catalog and the page lists are saved by writing a temporary file and
    renaming it.  The executor's model saves a file in one step; here are the
    calls to the operating system that the step stands for, and what a crash
    between them leaves.  A file is its bytes and whether they have been synced;
    after a crash a file that has not been may hold anything.  A rename is
    atomic, but no name is durable, since the source never syncs a directory:
    after a crash each name may be as an earlier call left it. *)
From Stdlib Require Import Strings.String.
From S2P Require Export CatalogStore TableMeta.
Local Open Scope Z_scope.

Record File := mkFile { file_bytes : bytes; file_synced : bool }.

Abbreviation directory := (gmap rstring File).

(** ** Calls *)
Inductive fs_call :=
  | OpenTruncated (p : rstring)
  | WriteBytes (p : rstring) (b : bytes)
  | SyncAll (p : rstring)
  | Rename (p q : rstring).

Definition fs_do (d : directory) (c : fs_call) : directory :=
  match c with
  | OpenTruncated p => <[p := mkFile [] false]> d
  | WriteBytes p b => alter (fun f => mkFile (file_bytes f ++ b) false) p d
  | SyncAll p => alter (fun f => mkFile (file_bytes f) true) p d
  | Rename p q => match d !! p with Some f => <[q := f]> (delete p d) | None => d end
  end.

(** What the next process finds under [p] when [d] is what became durable. *)
Definition left_by (d d' : directory) (p : rstring) : Prop :=
  match d !! p with
  | None => d' !! p = None
  | Some f => exists b, d' !! p = Some (mkFile b true) /\ (file_synced f = true -> b = file_bytes f)
  end.

(** A crash after these calls: each name is, by itself, as some number of them
    left it. *)
Definition crashed (d : directory) (cs : list fs_call) (d' : directory) : Prop :=
  forall p, exists i, left_by (foldl fs_do d (take i cs)) d' p.

(** The same on a file system that keeps the calls in order, as one with a
    journal does: the number is the same for all names. *)
Definition crashed_in_order (d : directory) (cs : list fs_call) (d' : directory) : Prop :=
  exists i, forall p, left_by (foldl fs_do d (take i cs)) d' p.

(** ** Paths *)
Definition str (s : string) : rstring := list_byte_of_string s.

Definition catalog_path (data_dir : rstring) : rstring := data_dir ++ str "/catalog.bin".
Definition table_meta_path (data_dir table : rstring) : rstring := data_dir ++ str "/" ++ table ++ str ".pages".
Definition tmp_path (path : rstring) : rstring := path ++ str ".tmp".

(** [write_all] writes in as many pieces as the system likes. *)
Definition tmp_calls (path : rstring) (pieces : list bytes) : list fs_call :=
  OpenTruncated (tmp_path path) :: (WriteBytes (tmp_path path) <$> pieces) ++ [SyncAll (tmp_path path)].

Definition replace_calls (path : rstring) (pieces : list bytes) : list fs_call :=
  tmp_calls path pieces ++ [Rename (tmp_path path) path].

(** ** The files of the executor *)
Inductive saved_file := CatalogFile | PageList (table : rstring).

Definition file_path (data_dir : rstring) (x : saved_file) : rstring :=
  match x with CatalogFile => catalog_path data_dir | PageList t => table_meta_path data_dir t end.

(** The catalog file and the page lists, as the executor's model has them. *)
Abbreviation saved := (option bytes * gmap rstring bytes)%type.

Definition saved_at (x : saved_file) (fs : saved) : option bytes :=
  match x with CatalogFile => fs.1 | PageList t => fs.2 !! t end.

Definition put_file (x : saved_file) (b : bytes) (fs : saved) : saved :=
  match x with CatalogFile => (Some b, fs.2) | PageList t => (fs.1, <[t := b]> fs.2) end.

Definition in_directory (data_dir : rstring) (d : directory) (fs : saved) : Prop :=
  forall x, d !! file_path data_dir x = (fun b => mkFile b true) <$> saved_at x fs.

(** Several files saved, one after the other. *)
Definition save_calls (data_dir : rstring) (saves : list (saved_file * list bytes)) : list fs_call :=
  saves ≫= fun s => replace_calls (file_path data_dir s.1) s.2.

Definition save_all (saves : list (saved_file * list bytes)) (fs : saved) : saved :=
  foldl (fun fs s => put_file s.1 (mjoin s.2) fs) fs saves.

#[export] Instance saved_file_eq_decision : EqDecision saved_file.
Proof. solve_decision. Defined.

Section Paths.
Implicit Types (dir path t : rstring) (x y : saved_file).

(** The last letters of the names tell the files apart. *)
Lemma last_file_path dir x : last (file_path dir x) = Some (match x with CatalogFile => x6e | PageList _ => x73 end).
Proof. destruct x; cbn [file_path]; unfold catalog_path, table_meta_path; by rewrite !last_app. Qed.

Lemma last_tmp_path path : last (tmp_path path) = Some x70.
Proof. unfold tmp_path. by rewrite last_app. Qed.

Lemma file_not_tmp dir x path : file_path dir x <> tmp_path path.
Proof. intros E%(f_equal last). rewrite last_file_path, last_tmp_path in E. by destruct x. Qed.

Lemma file_path_inj dir x y : file_path dir x = file_path dir y -> x = y.
Proof.
  intros E. pose proof (f_equal last E) as El. rewrite !last_file_path in El. destruct x, y; try done.
  cbn [file_path] in E. unfold table_meta_path in E. apply app_inv_head, app_inv_head, app_inv_tail in E. by subst.
Qed.

Lemma saved_at_put x y b fs : saved_at y (put_file x b fs) = if decide (x = y) then Some b else saved_at y fs.
Proof.
  destruct x as [|t], y as [|t']; cbn; try (by rewrite decide_True || by rewrite decide_False); try done.
  destruct (decide (t = t')) as [->|Hne]; [by rewrite lookup_insert_eq, decide_True|].
  rewrite lookup_insert_ne by done. rewrite decide_False; [done|]. by intros [= ->].
Qed.
End Paths.

(** ** Up to the rename only the temporary file changes *)
Section Replace.
Implicit Types (d : directory) (p q path : rstring) (c : fs_call).

Definition only_on p c : Prop :=
  match c with OpenTruncated p' | WriteBytes p' _ | SyncAll p' => p' = p | Rename _ _ => False end.

Lemma only_on_others p cs d q : Forall (only_on p) cs -> q <> p -> foldl fs_do d cs !! q = d !! q.
Proof.
  intros Hcs Hq. revert d. induction Hcs as [|c cs Hc _ IH]; intros d; [done|]. cbn [foldl]. rewrite IH.
  destruct c; cbn in *; subst; by rewrite ?lookup_insert_ne, ?lookup_alter_ne.
Qed.

Lemma tmp_calls_only path pieces : Forall (only_on (tmp_path path)) (tmp_calls path pieces).
Proof.
  constructor; [done|]. apply Forall_app. split; [|by constructor]. apply Forall_fmap, Forall_forall. done.
Qed.

Lemma tmp_calls_written path pieces d :
  foldl fs_do d (tmp_calls path pieces) !! tmp_path path = Some (mkFile (mjoin pieces) true).
Proof.
  unfold tmp_calls. cbn [foldl fs_do]. rewrite foldl_app. cbn [foldl fs_do]. rewrite lookup_alter_eq.
  assert (Hw : forall d b s, d !! tmp_path path = Some (mkFile b s) -> exists s',
    foldl fs_do d (WriteBytes (tmp_path path) <$> pieces) !! tmp_path path = Some (mkFile (b ++ mjoin pieces) s')).
  { clear d. induction pieces as [|x pieces IH]; intros d b s Hd; [exists s; by rewrite app_nil_r|].
    cbn [fmap list_fmap foldl fs_do mjoin list_join]. rewrite (assoc_L (++)). eapply IH. by rewrite lookup_alter_eq, Hd. }
  destruct (Hw (<[tmp_path path := mkFile [] false]> d) [] false) as [s' ->]; [by rewrite lookup_insert_eq|]. done.
Qed.

Lemma left_by_synced d d' p o :
  left_by d d' p -> d !! p = (fun b => mkFile b true) <$> o -> d' !! p = (fun b => mkFile b true) <$> o.
Proof.
  unfold left_by. intros Hc Hp. rewrite Hp in Hc. destruct o as [b|]; [|done].
  destruct Hc as (b' & -> & Hb). cbn. by rewrite (Hb eq_refl).
Qed.

(** What saving a file does to it and to the others, whatever was there. *)
Lemma replaced_lookup dir d x y pieces :
  foldl fs_do d (replace_calls (file_path dir x) pieces) !! file_path dir y =
    if decide (x = y) then Some (mkFile (mjoin pieces) true) else d !! file_path dir y.
Proof.
  unfold replace_calls. rewrite foldl_app. cbn [foldl fs_do]. rewrite tmp_calls_written. case_decide as Hxy.
  - subst y. by rewrite lookup_insert_eq.
  - rewrite lookup_insert_ne by (intros ?%file_path_inj; done).
    rewrite lookup_delete_ne by (symmetry; apply file_not_tmp).
    rewrite (only_on_others (tmp_path (file_path dir x))); [done|apply tmp_calls_only|apply file_not_tmp].
Qed.

Lemma replaced dir d fs x pieces :
  in_directory dir d fs ->
  in_directory dir (foldl fs_do d (replace_calls (file_path dir x) pieces)) (put_file x (mjoin pieces) fs).
Proof. intros Hd y. rewrite replaced_lookup, saved_at_put. case_decide; [done|apply Hd]. Qed.

(** Up to the rename every file is as it was. *)
Lemma replace_cut dir d fs x pieces k :
  in_directory dir d fs -> (k < length (replace_calls (file_path dir x) pieces))%nat ->
  in_directory dir (foldl fs_do d (take k (replace_calls (file_path dir x) pieces))) fs.
Proof.
  intros Hd Hk y. unfold replace_calls in *. rewrite length_app in Hk. cbn [length] in Hk. rewrite take_app_le by lia.
  rewrite (only_on_others (tmp_path (file_path dir x))); [apply Hd|apply Forall_take, tmp_calls_only|apply file_not_tmp].
Qed.

(** After any number of calls some number of the files is saved. *)
Lemma saves_cut dir d fs saves i :
  in_directory dir d fs -> exists n, (length (save_calls dir (take n saves)) <= i)%nat /\
    in_directory dir (foldl fs_do d (take i (save_calls dir saves))) (save_all (take n saves) fs).
Proof.
  revert d fs i. induction saves as [|[x pieces] saves IH]; intros d fs i Hd.
  { exists 0%nat. cbn. rewrite take_nil. split; [lia|done]. }
  unfold save_calls. rewrite bind_cons. cbn [fst snd]. set (cs := replace_calls (file_path dir x) pieces).
  destruct (decide (i < length cs)%nat) as [Hi|Hi].
  - exists 0%nat. split; [cbn; lia|]. rewrite take_app_le by lia. by apply replace_cut.
  - rewrite take_app_ge by lia. rewrite foldl_app.
    destruct (IH _ _ (i - length cs)%nat (replaced dir d fs x pieces Hd)) as (n & Hn & Hd').
    exists (S n). cbn [take]. split; [|exact Hd']. unfold save_calls in *. rewrite bind_cons, length_app. cbn [fst snd]. fold cs. lia.
Qed.

(** When the calls keep their order, the files are together as after some number
    of the saves. *)
Lemma crashed_in_order_saves dir d d' fs saves k :
  in_directory dir d fs -> crashed_in_order d (take k (save_calls dir saves)) d' ->
  exists n, in_directory dir d' (save_all (take n saves) fs).
Proof.
  intros Hd [i Hc]. destruct (saves_cut dir d fs saves (i `min` k) Hd) as (n & _ & Hd').
  exists n. intros x. eapply left_by_synced; [apply Hc|]. rewrite take_take. apply Hd'.
Qed.
End Replace.

(** C17: saving is atomic, on a file system where a rename replaces a name at
    once. The catalog and the page lists are saved, any number of them one after
    the other, in whatever pieces they are written, and a crash comes after any
    of the calls. Contents that were not synced may be lost, and since no
    directory is synced each name may, by itself, be as an earlier call left it,
    so that a rename made may be lost. Then each file is, whole, what it was
    after some number of the saves, all of which had been renamed into place:
    its first contents or one of the versions saved, never a mixture and never
    missing once it is there. The next save of a file replaces it and no other,
    whatever the crash has left. *)
Theorem replace_atomic dir d d' fs saves k x :
  in_directory dir d fs -> crashed d (take k (save_calls dir saves)) d' ->
  (exists n, (length (save_calls dir (take n saves)) <= k)%nat /\
     d' !! file_path dir x = (fun b => mkFile b true) <$> saved_at x (save_all (take n saves) fs)) /\
  (forall pieces y, foldl fs_do d' (replace_calls (file_path dir x) pieces) !! file_path dir y =
     if decide (x = y) then Some (mkFile (mjoin pieces) true) else d' !! file_path dir y).
Proof.
  intros Hd Hc. split; [|intros pieces y; apply replaced_lookup].
  destruct (Hc (file_path dir x)) as [i Hi]. rewrite take_take in Hi.
  destruct (saves_cut dir d fs saves (i `min` k) Hd) as (n & Hn & Hd').
  exists n. split; [lia|]. eapply left_by_synced; [exact Hi|apply Hd'].
Qed.

(** The catalog is saved, and then the page list of t in two pieces. The process
    dies before the second rename; the first is lost, too, and the temporary file
    of the page list holds garbage. *)
Lemma replace_atomic_witness :
  let dir := str "venom-data" in
  let d : directory := {[catalog_path dir := mkFile [x01] true]} in
  let d' : directory := <[tmp_path (table_meta_path dir [x74]) := mkFile [xff] true]> d in
  let saves := [(CatalogFile, [[x05]]); (PageList [x74], [[x02]; [x03]])] in
  (exists n, (length (save_calls dir (take n saves)) <= 6)%nat /\
     d' !! catalog_path dir = (fun b => mkFile b true) <$> saved_at CatalogFile (save_all (take n saves) (Some [x01], ∅))) /\
  foldl fs_do d' (replace_calls (catalog_path dir) [[x06]]) !! catalog_path dir = Some (mkFile [x06] true).
Proof.
  intros dir d d' saves.
  destruct (replace_atomic dir d d' (Some [x01], ∅) saves 6 CatalogFile) as [H1 H2].
  - intros [|t]; [by vm_compute|]. cbn [saved_at snd file_path]. rewrite lookup_empty.
    unfold d. rewrite lookup_singleton_ne; [done|].
    intros E. by apply (file_path_inj dir CatalogFile (PageList t)) in E.
  - intros p. destruct (decide (p = tmp_path (table_meta_path dir [x74]))) as [->|Hne].
    + exists 6%nat. unfold left_by. vm_compute. eexists. by split.
    + exists 0%nat. unfold left_by, d'. rewrite take_0. cbn [foldl]. rewrite lookup_insert_ne by done. unfold d.
      destruct (decide (p = catalog_path dir)) as [->|Hp]; [rewrite lookup_singleton_eq; by exists [x01]|].
      by rewrite !lookup_singleton_ne by done.
  - split; [exact H1|]. exact (H2 [[x06]] CatalogFile).
Defined.
