(* ===== verification/Query.v ===== *)
(** * Query evaluation: the pure parts of engine/executor.rs

    Filters, projection, ordering and limits on rows that have been read.
    Errors are the [Err] strings of the executor, as constructors. *)
From S2P Require Export Catalog Disk Node Sort.
Local Open Scope Z_scope.

Abbreviation Row := (list Value) (only parsing).

Inductive exec_error :=
  | TableNotFound (table : rstring)
  | MetaNotFound (table : rstring)
  | ColumnNotFound (col : rstring)
  | PrimaryKeyNull (col : rstring)
  | DuplicateKey (col : rstring) (k : Z)
  | CatalogError (e : catalog_error)
  | UnsupportedOperator (o : Op)
  | WhereMismatch (cell : Value) (o : Op) (rhs : Value)
  | OrderNotFound (col : rstring)
  | OrderNotSelected (col : rstring)
  | AssignMismatch (a : Assignment)
  | UpdateTooLarge
  | IoError (e : io_error).

(** ** Filters *)
Definition is_null (v : Value) : bool := match v with VNull => true | _ => false end.

Definition eval_filter (s : Schema) (row : Row) (e : Expr) : result exec_error bool :=
  i ← ok_or (ColumnNotFound (left e)) (col_index s (left e));
  cell ← or_panic (row !! i);
  match op e with
  | OpIsNull => Ok (is_null cell)
  | OpIsNotNull => Ok (negb (is_null cell))
  | _ =>
      if is_null cell || is_null (right e) then Ok false
      else
        let c := value_partial_cmp cell (right e) in
        r ← match op e with
            | OpEq => Ok (bool_decide (c = Some Eq))
            | OpNe => Ok (bool_decide (is_Some c) && negb (bool_decide (c = Some Eq)))
            | OpLt => Ok (bool_decide (c = Some Lt))
            | OpGt => Ok (bool_decide (c = Some Gt))
            | OpLe => Ok (bool_decide (c = Some Lt) || bool_decide (c = Some Eq))
            | OpGe => Ok (bool_decide (c = Some Gt) || bool_decide (c = Some Eq))
            | o => Err (UnsupportedOperator o)
            end;
        match c with None => Err (WhereMismatch cell (op e) (right e)) | Some _ => Ok r end
  end.

(** ** Projection *)
Fixpoint project_named (s : Schema) (row : Row) (names : list rstring) : result exec_error Row :=
  match names with
  | [] => Ok []
  | n :: names =>
      i ← ok_or (ColumnNotFound n) (col_index s n);
      v ← or_panic (row !! i);
      vs ← project_named s row names; Ok (v :: vs)
  end.

Definition project (s : Schema) (row : Row) (cols : SelectColumns) : result exec_error Row :=
  match cols with Star => Ok row | Named names => project_named s row names end.

(** ** Order and limit *)
(** NULLs sort last. *)
Definition compare_values (a b : Value) : comparison :=
  match a, b with
  | VNull, VNull => Eq
  | VNull, _ => Gt
  | _, VNull => Lt
  | a, b => default Lt (value_partial_cmp a b)
  end.

Definition reverse_cmp (d : OrderDir) (c : comparison) : comparison :=
  match d with Asc => c | Desc => CompOpp c end.

(** The column of the projected row the order is on. *)
Definition sort_index (s : Schema) (cols : SelectColumns) (c : rstring) : result exec_error nat :=
  match cols with
  | Star => ok_or (OrderNotFound c) (col_index s c)
  | Named names => ok_or (OrderNotSelected c) (position (fun n => bool_decide (n = c)) names)
  end.

Definition row_cell (i : nat) (r : Row) : Value := default VNull (r !! i).

Definition row_cmp (i : nat) (d : OrderDir) (a b : Row) : comparison :=
  reverse_cmp d (compare_values (row_cell i a) (row_cell i b)).

(** Comparing rows indexes both: a row too short panics once two are compared. *)
Definition order_pass (s : Schema) (cols : SelectColumns) (o : option (rstring * OrderDir))
    (rows : list Row) : result exec_error (list Row) :=
  match o with
  | None => Ok rows
  | Some (c, d) =>
      i ← sort_index s cols c;
      if decide (Forall (fun r => (i < length r)%nat) rows \/ (length rows < 2)%nat)
      then Ok (sort_by (row_cmp i d) rows) else Panic
  end.

Definition limit_pass (l : option Z) (rows : list Row) : list Row :=
  match l with None => rows | Some n => take (Z.to_nat n) rows end.

(** The source orders and truncates, and then does both again. *)
Definition order_limit (s : Schema) (cols : SelectColumns) (o : option (rstring * OrderDir))
    (l : option Z) (rows : list Row) : result exec_error (list Row) :=
  rows ← order_pass s cols o rows;
  rows ← order_pass s cols o (limit_pass l rows);
  Ok (limit_pass l rows).

(** ** SQL's three-valued comparisons *)
(** [None] is NULL, the unknown truth value. *)
Definition sql_truth (cell : Value) (o : Op) (rhs : Value) : option bool :=
  match o with
  | OpIsNull => Some (is_null cell)
  | OpIsNotNull => Some (negb (is_null cell))
  | _ =>
      if is_null cell || is_null rhs then None
      else
        c ← value_partial_cmp cell rhs;
        Some match o, c with
             | OpEq, Eq | OpNe, Lt | OpNe, Gt | OpLt, Lt | OpGt, Gt
             | OpLe, Lt | OpLe, Eq | OpGe, Gt | OpGe, Eq => true
             | _, _ => false
             end
  end.

Definition op_opposite (o : Op) : Op :=
  match o with
  | OpEq => OpNe | OpNe => OpEq | OpLt => OpGe | OpGe => OpLt | OpGt => OpLe | OpLe => OpGt
  | OpIsNull => OpIsNotNull | OpIsNotNull => OpIsNull
  end.

Lemma sql_truth_opposite cell o rhs :
  sql_truth cell (op_opposite o) rhs = negb <$> sql_truth cell o rhs.
Proof.
  destruct o; cbn [op_opposite sql_truth];
    try (destruct (is_null cell || is_null rhs); [done|];
         by destruct (value_partial_cmp cell rhs) as [[]|]);
    cbn; by rewrite ?negb_involutive.
Qed.

Lemma eval_filter_truth s row e i cell :
  col_index s (left e) = Some i -> row !! i = Some cell ->
  eval_filter s row e =
    match sql_truth cell (op e) (right e) with
    | Some b => Ok b
    | None => if is_null cell || is_null (right e) then Ok false
              else Err (WhereMismatch cell (op e) (right e))
    end.
Proof.
  intros Hi Hc. unfold eval_filter. rewrite Hi. cbn [ok_or mbind result_bind]. rewrite Hc.
  cbn [or_panic mbind result_bind].
  destruct (op e); cbn [sql_truth]; try done;
    (destruct (is_null cell || is_null (right e)); [done|]);
    by destruct (value_partial_cmp cell (right e)) as [[]|].
Qed.

(** C39: a filter follows SQL's three-valued logic. On a row with a value for
    each column of the schema: a column the schema does not have is an error;
    else the answer is the truth of the comparison of the row's cell, NULL
    counting as false; the one error is that two values, neither of them NULL, do
    not compare, and it is never an answer. A filter and its opposite are errors
    together, keep the row exactly once between them when the comparison is
    known, and neither keeps it when it is NULL. *)
Theorem eval_filter_spec s row e :
  length row = length (columns s) ->
  match col_index s (left e) with
  | None => eval_filter s row e = Err (ColumnNotFound (left e))
  | Some i => exists cell, row !! i = Some cell /\
      (eval_filter s row e = Ok true <-> sql_truth cell (op e) (right e) = Some true) /\
      (forall x, eval_filter s row e = Err x <->
         x = WhereMismatch cell (op e) (right e) /\ is_null cell = false /\ is_null (right e) = false /\
         op e <> OpIsNull /\ op e <> OpIsNotNull /\ value_partial_cmp cell (right e) = None) /\
      (let opposite := eval_filter s row (mkExpr (left e) (op_opposite (op e)) (right e)) in
       match eval_filter s row e with
       | Ok b => opposite = Ok (match sql_truth cell (op e) (right e) with Some _ => negb b | None => false end)
       | Err _ => exists x, opposite = Err x
       | Panic => False
       end)
  end.
Proof.
  intros Hl. destruct (col_index s (left e)) as [i|] eqn:Hi; [|by unfold eval_filter; rewrite Hi].
  destruct (col_index_name _ _ _ Hi) as (cd & Hcd & _).
  assert (is_Some (row !! i)) as [cell Hc] by (apply lookup_lt_is_Some; rewrite Hl; by eapply lookup_lt_Some).
  exists cell. cbn zeta. rewrite !(eval_filter_truth s row _ i cell) by done. cbn [op right].
  rewrite sql_truth_opposite.
  split_and!; [done|..].
  - destruct (sql_truth _ _ _); [naive_solver|]. by destruct (is_null cell || _).
  - intros x. destruct (op e) eqn:Eo; cbn [sql_truth];
      (destruct (is_null cell) eqn:En1; [cbn; naive_solver|]);
      (destruct (is_null (right e)) eqn:En2; [cbn; naive_solver|]);
      cbn; destruct (value_partial_cmp cell (right e)); cbn; naive_solver.
  - destruct (sql_truth cell (op e) (right e)) as [b|] eqn:E; [by cbn|cbn].
    destruct (is_null cell || is_null (right e)); eauto.
Qed.

Lemma eval_filter_spec_witness :
  exists cell, [VInt 7; VText [x61]; VNull; VNull] !! 0%nat = Some cell /\
    (eval_filter demo_schema [VInt 7; VText [x61]; VNull; VNull] (mkExpr [x61] OpGe (VInt 7)) = Ok true <->
     sql_truth cell OpGe (VInt 7) = Some true).
Proof.
  destruct (eval_filter_spec demo_schema [VInt 7; VText [x61]; VNull; VNull] (mkExpr [x61] OpGe (VInt 7)) eq_refl)
    as (cell & Hc & Ht & _).
  exists cell. by split.
Defined.

(** ** The order of values *)
(** Values a column of the type holds, apart from NaN. *)
Definition comparable (t : DataType) (v : Value) : Prop :=
  type_matches t v /\ match v with VFloat f => f64_value f <> S754_nan | _ => True end.

Definition value_key (v : Value) : list Z :=
  match v with
  | VNull => [1]
  | VInt n => [0; n]
  | VFloat f => 0 :: float_key (f64_value f)
  | VText s => 0 :: (Z_of_byte <$> s)
  end.

Lemma compare_bytes_lex a b : compare_bytes a b = lex (Z_of_byte <$> a) (Z_of_byte <$> b).
Proof. revert b. induction a as [|x a IH]; intros [|y b]; csimpl; try done. by rewrite IH. Qed.

Lemma compare_values_lex t a b :
  comparable t a -> comparable t b -> compare_values a b = lex (value_key a) (value_key b).
Proof.
  intros [Ha Na] [Hb Nb]. destruct t, a, b; try done; cbn in *.
  - by destruct (n ?= n0).
  - apply compare_bytes_lex.
  - unfold f64_partial_cmp. by rewrite float_lex.
Qed.

Lemma compare_values_total t : total_on (comparable t) compare_values.
Proof.
  constructor.
  - intros x y Hx Hy. rewrite !(compare_values_lex t) by done. apply lex_sym.
  - intros x y z Hx Hy Hz. rewrite !(compare_values_lex t) by done. apply lex_trans.
Qed.

Lemma total_reverse {A} P (cmp : A -> A -> comparison) d :
  total_on P cmp -> total_on P (fun x y => reverse_cmp d (cmp x y)).
Proof.
  intros [Hs Ht]. destruct d; [by constructor|]. constructor; cbn.
  - intros x y Hx Hy. by rewrite (Hs x y).
  - intros x y z Hx Hy Hz H1 H2. rewrite <- Hs in H1, H2 by done. rewrite <- Hs by done. eauto.
Qed.

Definition sortable (t : DataType) (i : nat) (r : Row) : Prop :=
  (i < length r)%nat /\ comparable t (row_cell i r).

Lemma row_cmp_total t i d : total_on (sortable t i) (row_cmp i d).
Proof.
  apply (total_reverse _ (fun a b => compare_values (row_cell i a) (row_cell i b))).
  destruct (compare_values_total t) as [Hs Ht]. constructor.
  - intros x y [_ Hx] [_ Hy]. by apply Hs.
  - intros x y z [_ Hx] [_ Hy] [_ Hz]. by apply Ht.
Qed.

(** C23: ordering and limiting a result. When the column the order is on holds
    values of one type and no NaN, the rows returned are the first [n] of a
    permutation of the rows that is sorted, in the direction asked, with NULLs
    after the other values (before them when descending), and stable: rows
    that tie keep the order they were read in. The second ordering and
    truncation of the source change nothing. *)
Theorem order_limit_spec s cols c d l rows i t :
  sort_index s cols c = Ok i -> Forall (sortable t i) rows ->
  exists sorted, order_limit s cols (Some (c, d)) l rows = Ok (limit_pass l sorted) /\
    sorted ≡ₚ rows /\
    StronglySorted (fun a b => reverse_cmp d (compare_values (row_cell i a) (row_cell i b)) <> Gt) sorted /\
    forall r, sortable t i r ->
      filter (fun r' => compare_values (row_cell i r) (row_cell i r') = Eq) sorted =
      filter (fun r' => compare_values (row_cell i r) (row_cell i r') = Eq) rows.
Proof.
  intros Hi HP. pose proof (row_cmp_total t i d) as Ht.
  assert (Hlen : forall rows', Forall (sortable t i) rows' ->
    order_pass s cols (Some (c, d)) rows' = Ok (sort_by (row_cmp i d) rows')).
  { intros rows' HP'. unfold order_pass. rewrite Hi. cbn [mbind result_bind].
    rewrite decide_True; [done|]. left. eapply Forall_impl; [done|]. by intros r []. }
  assert (Hs : StronglySorted (le_by (row_cmp i d)) (sort_by (row_cmp i d) rows))
    by by eapply sort_by_sorted.
  exists (sort_by (row_cmp i d) rows). split_and!.
  - unfold order_limit. rewrite Hlen by done. cbn [mbind result_bind].
    assert (HP' : Forall (sortable t i) (limit_pass l (sort_by (row_cmp i d) rows))).
    { destruct l; [apply Forall_take|]; by apply sort_by_Forall. }
    rewrite Hlen by done. cbn [mbind result_bind]. f_equal.
    rewrite sort_by_fixed; [destruct l; simpl; [|done]|].
    + by rewrite take_take, Nat.min_id.
    + destruct l; [by apply sorted_take|done].
  - apply sort_by_perm.
  - done.
  - intros r Hr.
    assert (Hiff : forall r', reverse_cmp d (compare_values (row_cell i r) (row_cell i r')) = Eq <->
      compare_values (row_cell i r) (row_cell i r') = Eq).
    { intros r'. destruct d; [done|]. by destruct (compare_values _ _). }
    rewrite <- !(list_filter_iff _ _ _ Hiff). by apply (sort_by_stable _ _ Ht).
Qed.

Definition demo_rows : list Row :=
  [[VInt 3; VText [x61]]; [VNull; VText [x62]]; [VInt (-1); VText [x63]]; [VInt 3; VText [x64]]].

Lemma order_limit_spec_witness :
  exists sorted, order_limit demo_schema Star (Some ([x61], Desc)) (Some 3) demo_rows =
      Ok (limit_pass (Some 3) sorted) /\
    sorted ≡ₚ demo_rows /\
    StronglySorted (fun a b => reverse_cmp Desc (compare_values (row_cell 0 a) (row_cell 0 b)) <> Gt) sorted /\
    forall r, sortable DInt 0 r ->
      filter (fun r' => compare_values (row_cell 0 r) (row_cell 0 r') = Eq) sorted =
      filter (fun r' => compare_values (row_cell 0 r) (row_cell 0 r') = Eq) demo_rows.
Proof.
  apply order_limit_spec; [reflexivity|].
  repeat (constructor; [split; [simpl; lia|split; exact I]|]). constructor.
Defined.

(** Descending order puts NULLs first. *)
Lemma nulls_first_descending :
  order_limit demo_schema Star (Some ([x61], Desc)) (Some 1) demo_rows = Ok [[VNull; VText [x62]]].
Proof. done. Qed.
