(* ===== verification/Heap.v ===== *)
(** * Pages through the pool, one at a time

    The executor holds at most one page: it fetches it, reads or edits it and
    unpins it before it touches another.  Under that discipline no fetch fails
    for want of a frame: an [idle] pool has every page unpinned and evictable,
    [held] is the pool while a page is held, [edited] after changes to it.  [D]
    lists the pages that may differ from the file. *)
From S2P Require Export Buffer.
Local Open Scope Z_scope.

Section Heap.
Context `{Crc32}.
Implicit Types (b : BufferPool) (σ : gmap Z spec_page) (f g : nat) (p q : Page) (a : spec_page) (D : list Z).

(** Every frame but [f] is free to go. *)
Definition others_free D b (f : option nat) : Prop :=
  forall g gr q, Some g <> f -> frames b !! g = Some gr -> fpage gr = Some q ->
    pin_count gr = 0 /\ g ∈ order (replacer b) /\ (is_dirty gr = true -> pid q ∈ D).

Record idle D b σ : Prop := {
  id_pool : pool_ok b σ;
  id_size : (0 < pool_size b)%nat;
  id_free : others_free D b None;
}.

Record held D b σ f id p a : Prop := {
  hd_pool : pool_ok b σ;
  hd_size : (0 < pool_size b)%nat;
  hd_free : others_free D b (Some f);
  hd_frame : exists d, frames b !! f = Some (mkFrame (Some p) 1 d) /\ (d = true -> id ∈ D);
  hd_pid : pid p = id;
  hd_rep : page_rep p a;
  hd_cell : σ !! id = Some a;
}.

Definition edited D b σ f id p a : Prop :=
  exists b0 p0 a0, held D b0 σ f id p0 a0 /\ b = set_page f p b0 /\ pid p = id /\ page_rep p a.

Lemma find_free_frame_frames b b' f :
  find_free_frame b = (b', Ok f) ->
  b' = b \/ exists l, order (replacer b) = f :: l /\ order (replacer b') = l /\
    frames b' = <[f := mkFrame None 0 false]> (frames b).
Proof.
  unfold find_free_frame. destruct (first_empty _ _ _) as [[i|]|]; [intros [= -> _]; by left| |done].
  unfold lru_evict. destruct (order (replacer b)) as [|v l] eqn:El; [done|].
  destruct (frames (set_replacer _ b) !! v) as [fr|]; [|done].
  destruct (if is_dirty fr then _ else _) as [[d pg]|]; [|done].
  intros [= <- <-]. right. exists l. by destruct pg.
Qed.

(** An idle pool always has a frame to give. *)
Lemma find_free_frame_idle D b σ :
  idle D b σ ->
  exists b' f fr, find_free_frame b = (b', Ok f) /\ pool_ok b' σ /\
    frames b' !! f = Some fr /\ fpage fr = None /\ pool_size b' = pool_size b /\
    disk_num_pages (disk b') = disk_num_pages (disk b) /\
    (forall id, page_table b !! id = None -> page_table b' !! id = None) /\
    others_free D b' (Some f).
Proof.
  intros [Hok Hsz Hfree]. pose proof (find_free_frame_ok b σ Hok) as HF.
  destruct (find_free_frame b) as [b' [f|x|]] eqn:E; [| |done].
  - destruct HF as (Hok' & (fr & Hf & Hemp) & Hn & Hsz' & Ht).
    exists b', f, fr. split_and!; try done.
    intros g gr q Hg Hgr Hq. assert (Hgf : g <> f) by congruence.
    apply find_free_frame_frames in E as [->|(l & Hl & Hl' & Hfr)]; [by eapply Hfree|].
    rewrite Hfr, list_lookup_insert_ne in Hgr by done.
    destruct (Hfree g gr q) as (Hp & Hin & Hd); [done..|]. split_and!; [done| |done].
    rewrite Hl in Hin. rewrite Hl'. apply elem_of_cons in Hin as [|]; done.
  - destruct HF as (_ & _ & Hnil & Hall).
    destruct (Hall 0%nat Hsz) as (fr & p & Hf & Hp).
    destruct (Hfree 0%nat fr p) as (_ & Hin & _); [done..|]. rewrite Hnil in Hin. by apply elem_of_nil in Hin.
Qed.

Lemma others_free_lru D b b' f :
  others_free D b (Some f) \/ others_free D b None ->
  (forall g, g <> f -> frames b' !! g = frames b !! g) ->
  (forall g, g <> f -> g ∈ order (replacer b) -> g ∈ order (replacer b')) ->
  others_free D b' (Some f).
Proof.
  intros Hfree Hfr Hord g gr q Hg Hgr Hq. assert (g <> f) by congruence.
  rewrite Hfr in Hgr by done.
  destruct Hfree as [Hf|Hf]; destruct (Hf g gr q) as (? & ? & ?); auto.
Qed.

Lemma lru_access_in r f g : g <> f -> g ∈ order r -> g ∈ order (lru_record_access (lru_pin r f) f).
Proof.
  intros Hne Hg. simpl. rewrite elem_of_app, !list_elem_of_filter. by left.
Qed.

Lemma fetch_idle D b σ id a :
  idle D b σ -> σ !! id = Some a ->
  exists b' f p, fetch_page id b = (b', Ok f) /\ held D b' σ f id p a.
Proof.
  intros Hi Ha. destruct Hi as [Hok Hsz Hfree].
  assert (Hid : 0 <= id) by (apply (pk_dom _ _ Hok); eauto).
  pose proof (fetch_page_ok b σ id Hok Hid) as HF. unfold fetch_page in *.
  destruct (page_table b !! id) as [f|] eqn:Et.
  - pose proof Et as (fr & p & Hf & Hp & Hpid)%(pk_table _ _ Hok). rewrite Hf in *.
    destruct (Hfree f fr p) as (Hpin0 & _); [done..|]. rewrite Hpin0 in HF |- *.
    change (0 + 1 <? 2 ^ 32) with true in *. cbv iota in *. destruct HF as (Hok' & Hsz' & fr' & p' & a' & Hf' & _ & Hp' & Hpid' & Ha' & Hr').
    assert (a' = a) as -> by congruence.
    eexists _, f, p'. split; [done|]. constructor; try done.
    + apply (others_free_lru D b); [by right| |].
      * intros g Hg. cbn. by rewrite list_lookup_insert_ne.
      * intros g Hg Hin. cbn -[lru_record_access lru_pin]. by apply lru_access_in.
    + destruct (Hfree f fr p) as (_ & _ & Hdf); [done..|]. cbn in Hf'.
      rewrite list_lookup_insert_eq in Hf' by (by eapply lookup_lt_Some). injection Hf' as <-.
      cbn in Hp'. exists (is_dirty fr). cbn. rewrite list_lookup_insert_eq by (by eapply lookup_lt_Some).
      rewrite Hp'. split; [done|]. by rewrite <- Hpid.
  - assert (Hi : idle D (add_miss b) σ) by (constructor; [by apply pool_add_miss|done|done]).
    destruct (find_free_frame_idle _ _ _ Hi) as (b1 & f & fr & E & Hok1 & Hf & Hemp & Hsz1 & _ & Ht & Hfree1).
    rewrite E in *. destruct (pk_disk _ _ Hok1 id a Ha (Ht _ Et)) as (p & Hread & _). rewrite Hread in *.
    destruct HF as (Hok' & Hsz' & fr' & p' & a' & Hf' & _ & Hp' & Hpid' & Ha' & Hr').
    assert (a' = a) as -> by congruence.
    cbn in Hf'. rewrite list_lookup_insert_eq in Hf' by (by eapply lookup_lt_Some).
    injection Hf' as <-. injection Hp' as <-.
    eexists _, f, p. split; [done|]. constructor; try done.
    + cbn. rewrite Hsz1. done.
    + apply (others_free_lru D b1); [by left| |].
      * intros g Hg. cbn. by rewrite list_lookup_insert_ne.
      * intros g Hg Hin. cbn -[lru_pin]. by apply elem_lru_pin.
    + exists false. cbn. by rewrite list_lookup_insert_eq by (by eapply lookup_lt_Some).
Qed.

(** Reading and editing the held page. *)
Lemma edited_refl D b σ f id p a : held D b σ f id p a -> edited D b σ f id p a.
Proof.
  intros Hh. exists b, p, a. pose proof Hh as [? ? ? (d & Hf & _) ? ? ?].
  split_and!; try done. unfold set_page. rewrite Hf. cbn.
  unfold set_frames. rewrite list_insert_id by done. by destruct b.
Qed.

Lemma edited_get D b σ f id p a : edited D b σ f id p a -> get_page b f = Some (Some p).
Proof.
  intros (b0 & p0 & a0 & [? ? ? (d & Hf & _) ? ? ?] & -> & _). unfold get_page, set_page. rewrite Hf. cbn.
  by rewrite list_lookup_insert_eq by (by eapply lookup_lt_Some).
Qed.

Lemma edited_set D b σ f id p a p' a' :
  edited D b σ f id p a -> pid p' = pid p -> page_rep p' a' -> edited D (set_page f p' b) σ f id p' a'.
Proof.
  intros (b0 & p0 & a0 & Hh & -> & Hid & Hr) Hp' Hr'. exists b0, p0, a0.
  pose proof Hh as [? ? ? (d & Hf & _) ? ? ?]. split_and!; try done; [|congruence].
  unfold set_page. rewrite Hf. cbn. rewrite list_lookup_insert_eq by (by eapply lookup_lt_Some).
  cbn. unfold set_frames. cbn. by rewrite list_insert_insert_eq.
Qed.

Lemma others_free_unpin D D' b f fr b' :
  others_free D b (Some f) -> frames b !! f = Some fr -> D ⊆ D' ->
  (exists pg n d, frames b' = <[f := mkFrame pg 0 d]> (frames b) /\
     replacer b' = lru_unpin (replacer b) n /\ n = f /\ (d = true -> forall q, pg = Some q -> pid q ∈ D')) ->
  others_free D' b' None.
Proof.
  intros Hfree Hf HD (q0 & n & d & Hfr & Hrep & -> & Hd) g gr q _ Hg Hq.
  assert (Hin : g ∈ order (replacer b) \/ g = f -> g ∈ order (replacer b')).
  { rewrite Hrep. unfold lru_unpin. case_decide; [naive_solver|]. simpl.
    rewrite elem_of_app, list_elem_of_singleton. done. }
  rewrite Hfr in Hg. destruct (decide (g = f)) as [->|Hne].
  - rewrite list_lookup_insert_eq in Hg by (by eapply lookup_lt_Some). injection Hg as <-. cbn in *. auto.
  - rewrite list_lookup_insert_ne in Hg by done.
    destruct (Hfree g gr q) as (? & ? & ?); [congruence|done..|]. auto.
Qed.

Lemma NoDup_lru_unpin r f : NoDup (order r) -> NoDup (order (lru_unpin r f)).
Proof.
  intros Hnd. unfold lru_unpin. case_decide; [done|]. simpl. apply NoDup_app.
  split_and!; [done| |apply NoDup_singleton]. intros g Hg ->%list_elem_of_singleton. done.
Qed.

(** Unpinning as dirty publishes the edits. *)
Lemma unpin_edited D b σ f id p a :
  edited D b σ f id p a -> exists b', unpin f true b = (b', Ok tt) /\ idle (id :: D) b' (<[id := a]> σ).
Proof.
  intros (b0 & p0 & a0 & [Hok Hsz Hfree (d & Hf & _) Hid Hr0 Ha] & -> & Hid' & Hr).
  pose proof (lookup_lt_Some _ _ _ Hf) as Hlt.
  unfold set_page, unpin. rewrite Hf. cbn. rewrite list_lookup_insert_eq by done. cbn.
  eexists. split; [done|]. rewrite list_insert_insert_eq, orb_true_r.
  constructor; cbn; [|done|].
  - rewrite <- Hid. apply (rewrite_frame_ok b0 σ f (mkFrame (Some p0) 1 d) p0 p a 0); try done.
    + congruence.
    + apply NoDup_lru_unpin, (pk_lru_nodup _ _ Hok).
    + intros g. unfold lru_unpin. case_decide; [by left|]. simpl.
      rewrite elem_of_app, list_elem_of_singleton. done.
  - eapply (others_free_unpin D _ b0); [done..|set_solver|]. eexists _, f, _. split_and!; [done..|].
    intros _ q [= <-]. rewrite Hid'. left.
Qed.

(** Unpinning a page that was only read. *)
Lemma unpin_held D b σ f id p a :
  held D b σ f id p a -> exists b', unpin f false b = (b', Ok tt) /\ idle D b' σ.
Proof.
  intros [Hok Hsz Hfree (d & Hf & Hd) Hid Hr Ha]. pose proof (lookup_lt_Some _ _ _ Hf) as Hlt.
  destruct (unpin_ok b σ f false) as (b' & E & Hok' & Hsz'); [done|by rewrite <- (pk_len _ _ Hok)|].
  exists b'. split; [done|]. constructor; [done|by rewrite Hsz'|].
  unfold unpin in E. rewrite Hf in E. cbn in E. injection E as <-.
  eapply (others_free_unpin D D b); [done..|]. eexists _, f, _. split_and!; [done..|].
  rewrite orb_false_r. intros ? q [= <-]. rewrite Hid. auto.
Qed.

(** Flushing a page takes it off the list. *)
Lemma flush_idle D D' b σ id :
  idle D b σ -> (forall i, i ∈ D -> i <> id -> i ∈ D') -> exists b', flush_page id b = (b', Ok tt) /\ idle D' b' σ.
Proof.
  intros [Hok Hsz Hfree] HD. destruct (flush_page_ok b σ id Hok) as (b' & E & Hok' & Hsz' & _).
  exists b'. split; [done|]. constructor; [done|by rewrite Hsz'|].
  assert (Huniq : forall g gr q, frames b !! g = Some gr -> fpage gr = Some q -> pid q = id ->
    page_table b !! id = Some g) by (intros; apply (pk_table _ _ Hok); eauto).
  assert (Hother : forall g gr q, frames b !! g = Some gr -> fpage gr = Some q ->
    (is_dirty gr = true -> page_table b !! id = Some g -> False) ->
    pin_count gr = 0 /\ g ∈ order (replacer b) /\ (is_dirty gr = true -> pid q ∈ D')).
  { intros g gr q Hg Hq Hne. destruct (Hfree g gr q) as (? & ? & Hd); [done..|]. split_and!; [done..|].
    intros Hdirty. apply HD; [by apply Hd|]. intros Hid. by eapply Hne, Huniq. }
  unfold flush_page in E. destruct (page_table b !! id) as [f|] eqn:Et.
  2: { injection E as <-. intros g gr q _ Hg Hq. by eapply Hother. }
  destruct (frames b !! f) as [fr|] eqn:Hf; [|done]. destruct (is_dirty fr) eqn:Edirty.
  2: { injection E as <-. intros g gr q _ Hg Hq. eapply Hother; [done..|]. intros ? [= ->]. congruence. }
  assert (Hput : forall pg d', (forall q, pg = Some q -> exists p, fpage fr = Some p) ->
    others_free D' (set_frames (<[f := mkFrame pg (pin_count fr) false]> (frames b)) (set_disk d' b)) None).
  { intros pg d' Hpg g gr q _ Hg Hq. cbn in *. destruct (decide (g = f)) as [->|Hne].
    - rewrite list_lookup_insert_eq in Hg by (by eapply lookup_lt_Some). injection Hg as <-.
      destruct (Hpg q Hq) as [p Hp]. destruct (Hfree f fr p) as (? & ? & _); done.
    - rewrite list_lookup_insert_ne in Hg by done. eapply Hother; [done..|]. intros _ [= <-]. done. }
  unfold write_frame in E. destruct (fpage fr) as [p|] eqn:Ep.
  - destruct (write_page (disk b) p) as [[d' p']|]; [|done]. cbn in E. injection E as <-. apply Hput. eauto.
  - cbn in E. injection E as <-. by apply Hput.
Qed.

Lemma flush_list_idle D D' b σ ids :
  idle D b σ -> (forall i, i ∈ D -> i ∉ ids -> i ∈ D') ->
  exists b', st_iter flush_page ids b = (b', Ok tt) /\ idle D' b' σ.
Proof.
  revert D b. induction ids as [|id ids IH]; intros D b Hi HD.
  { exists b. split; [done|]. destruct Hi as [Hok Hsz Hfree]. constructor; [done..|].
    intros g gr q Hg Hgr Hq. destruct (Hfree g gr q) as (? & ? & ?); [done..|]. split_and!; [done..|].
    intros Hd. apply HD; [auto|]. by apply not_elem_of_nil. }
  destruct (flush_idle D (filter (fun i => i <> id) D) b σ id Hi) as (b1 & E1 & H1).
  { intros i Hin Hne. by apply list_elem_of_filter. }
  destruct (IH _ b1 H1) as (b2 & E2 & H2).
  { intros i [Hne Hin]%list_elem_of_filter Hids. apply HD; [done|]. by apply not_elem_of_cons. }
  exists b2. split; [|done]. cbn [st_iter]. by rewrite (st_bind_ok _ _ _ _ _ E1).
Qed.

(** A new page is held at once, empty, under the next id. *)
Definition next_page σ (id : Z) : Prop := forall i, is_Some (σ !! i) <-> 0 <= i < id.

Lemma new_page_idle D b σ id :
  idle D b σ -> next_page σ id -> 0 <= id -> id + 1 < 2 ^ 32 ->
  exists b' f p, new_page b = (b', Ok (id, f)) /\ σ !! id = None /\
    held (id :: D) b' (<[id := spec_new]> σ) f id p spec_new.
Proof.
  intros Hi Hnext H0 Hmax. pose proof Hi as [Hok Hsz Hfree].
  assert (Hn : disk_num_pages (disk b) = id).
  { pose proof (pk_dom _ _ Hok) as Hd. pose proof (pk_num _ _ Hok) as Hu.
    assert (Hiff : forall i, 0 <= i < disk_num_pages (disk b) <-> 0 <= i < id)
      by (intros i; rewrite <- Hd; apply Hnext).
    pose proof (Hiff id). pose proof (Hiff (disk_num_pages (disk b))). width. }
  pose proof (new_page_ok b σ Hok ltac:(lia)) as HN. unfold new_page in *.
  destruct (find_free_frame_idle D b σ Hi) as (b1 & f & fr & E & Hok1 & Hf & Hemp & Hsz1 & Hnum & _ & Hfree1).
  rewrite E in *. rewrite allocate_page_some in * by (rewrite Hnum, Hn; done). cbn in HN. rewrite Hnum, Hn in HN.
  destruct HN as (Hfresh & _ & Hok' & _ & _ & fr' & p' & Hf' & _ & Hp' & Hpid & Hr).
  cbn. rewrite Hnum, Hn. eexists _, f, _. split; [done|]. split; [done|].
  rewrite list_lookup_insert_eq in Hf' by (by eapply lookup_lt_Some).
  injection Hf' as <-. injection Hp' as <-. constructor; try done.
  - cbn. by rewrite Hsz1.
  - apply (others_free_lru (id :: D) b1).
    + left. intros g gr q Hg Hgr Hq. destruct (Hfree1 g gr q) as (? & ? & Hd); [done..|].
      split_and!; [done..|]. intros ?. right. by apply Hd.
    + intros g Hg. cbn. by rewrite list_lookup_insert_ne.
    + intros g Hg Hin. cbn -[lru_pin]. by apply elem_lru_pin.
  - exists true. cbn. rewrite list_lookup_insert_eq by (by eapply lookup_lt_Some). split; [done|left].
  - apply lookup_insert_eq.
Qed.

(** ** A page at work

    The page [id] is held in frame [f] and [σ] already has its edits; a page
    that is not [dirty] has none. *)
Definition working D b σ f id (dirty : bool) : Prop :=
  exists σ0 p a, σ = <[id := a]> σ0 /\ edited D b σ0 f id p a /\ (dirty = false -> held D b σ f id p a).

Lemma held_working D b σ f id p a : held D b σ f id p a -> working D b σ f id false.
Proof.
  intros Hh. exists σ, p, a. rewrite insert_id by apply Hh. split_and!; [done| |done].
  by apply edited_refl.
Qed.

Lemma fetch_working D b σ id a :
  idle D b σ -> σ !! id = Some a -> exists b' f, fetch_page id b = (b', Ok f) /\ working D b' σ f id false.
Proof.
  intros Hi Ha. destruct (fetch_idle D b σ id a Hi Ha) as (b' & f & p & E & Hh).
  exists b', f. split; [done|]. by eapply held_working.
Qed.

Lemma working_get D b σ f id dirty a :
  working D b σ f id dirty -> σ !! id = Some a ->
  exists p, get_page b f = Some (Some p) /\ page_rep p a /\ pid p = id.
Proof.
  intros (σ0 & p & a' & -> & Hed & _) Ha. rewrite lookup_insert_eq in Ha. injection Ha as ->.
  exists p. split; [by eapply edited_get|]. destruct Hed as (? & ? & ? & ? & ? & ? & ?). done.
Qed.

Lemma working_set D b σ f id dirty p p' a' :
  working D b σ f id dirty -> get_page b f = Some (Some p) -> pid p' = pid p -> page_rep p' a' ->
  working D (set_page f p' b) (<[id := a']> σ) f id true.
Proof.
  intros (σ0 & p0 & a & -> & Hed & _) Hp Hpid Hr. exists σ0, p', a'.
  rewrite insert_insert_eq. split_and!; [done| |done].
  eapply edited_set; [done| |done]. rewrite (edited_get _ _ _ _ _ _ _ Hed) in Hp. congruence.
Qed.

(** The pages that may differ from the file once [id] is unpinned. *)
Definition dirtied (id : Z) (dirty : bool) D : list Z := if dirty then id :: D else D.

Lemma working_unpin D b σ f id dirty :
  working D b σ f id dirty -> exists b', unpin f dirty b = (b', Ok tt) /\ idle (dirtied id dirty D) b' σ.
Proof.
  intros (σ0 & p & a & -> & Hed & Hh). destruct dirty; [by eapply unpin_edited|].
  eapply unpin_held. by apply Hh.
Qed.

Lemma new_pool_idle n : (0 < n)%nat -> idle [] (BufferPool_new n []) ∅.
Proof.
  intros Hn. constructor; [apply pool_new_ok|done|]. intros g gr q _ Hg Hq.
  unfold BufferPool_new in Hg. cbn [frames] in Hg. apply lookup_replicate in Hg as [-> _]. done.
Qed.

Lemma idle_mono D D' b σ : D ⊆ D' -> idle D b σ -> idle D' b σ.
Proof.
  intros HD [Hok Hsz Hfree]. constructor; [done..|]. intros g gr q Hg Hgr Hq.
  destruct (Hfree g gr q) as (? & ? & ?); auto.
Qed.

(** What need not be written is in the file. *)
Lemma idle_clean D b σ id a : idle D b σ -> σ !! id = Some a -> id ∉ D -> on_disk (disk b) id a.
Proof.
  intros [Hok _ Hfree] Ha HD. destruct (page_table b !! id) as [f|] eqn:Et; [|by apply (pk_disk _ _ Hok)].
  apply (pk_table _ _ Hok) in Et as (fr & p & Hf & Hp & <-).
  destruct (pk_cached _ _ Hok _ _ _ Hf Hp) as (a' & Ha' & _ & Hcl). assert (a' = a) as -> by congruence.
  apply Hcl. destruct (Hfree f fr p) as (_ & _ & Hd); [done..|].
  destruct (is_dirty fr); [|done]. destruct HD. by apply Hd.
Qed.

Lemma idle_on_disk b σ id a : idle [] b σ -> σ !! id = Some a -> on_disk (disk b) id a.
Proof. intros Hi Ha. eapply idle_clean; [done..|]. apply not_elem_of_nil. Qed.

(** The file opened again: the same pages. *)
Lemma on_disk_length d id a : 0 <= id -> on_disk d id a -> (id + 1) * 4096 <= Z.of_nat (length (file d)).
Proof.
  intros Hid (p & Hp & _). unfold read_page in Hp.
  destruct (slice (file d) (page_offset id) PAGE_SIZE) as [c|] eqn:E; [|done].
  apply slice_Some in E as [Hle _]. unfold page_offset in Hle. pose proof PAGE_SIZE_of_nat. nia.
Qed.

(** A file that holds the pages. *)
Record on_file (d : DiskManager) σ : Prop := {
  of_pages id a : σ !! id = Some a -> on_disk d id a;
  of_dom id : is_Some (σ !! id) <-> 0 <= id < disk_num_pages d;
  of_num : in_u32 (disk_num_pages d);
  of_size : Z.of_nat (length (file d)) < (disk_num_pages d + 1) * 4096;
}.

Lemma idle_on_file b σ : idle [] b σ -> on_file (disk b) σ.
Proof.
  intros Hi. pose proof (id_pool _ _ _ Hi) as Hok. constructor.
  - intros id a. by apply idle_on_disk.
  - apply (pk_dom _ _ Hok).
  - apply (pk_num _ _ Hok).
  - apply (pk_file _ _ Hok).
Qed.

Lemma reopen_pages d σ : on_file d σ -> disk_num_pages (DiskManager_new (file d)) = disk_num_pages d.
Proof.
  intros [Hpg Hdom Hu Hf]. cbn. set (n := disk_num_pages d) in *.
  assert (Hn : Z.of_nat (length (file d)) / PAGE_SIZE_Z = n).
  { symmetry. apply (Z.div_unique_pos _ _ _ (Z.of_nat (length (file d)) - PAGE_SIZE_Z * n)); [|lia].
    unfold PAGE_SIZE_Z. split; [|lia]. destruct (decide (n = 0)) as [->|Hne]; [lia|].
    assert (is_Some (σ !! (n - 1))) as [a Ha] by (apply Hdom; width).
    apply Hpg, on_disk_length in Ha; width. }
  rewrite Hn. apply as_u32_small. width.
Qed.

Lemma reopen_idle n d σ : (0 < n)%nat -> on_file d σ -> idle [] (BufferPool_new n (file d)) σ.
Proof.
  intros Hn Hd. pose proof (reopen_pages d σ Hd) as Hpg. destruct Hd as [Hp Hdom Hu Hf].
  assert (Hfr : forall f fr, replicate n Frame_new !! f = Some fr -> fr = Frame_new) by
    (by intros f fr [-> _]%lookup_replicate).
  constructor; [|done|by intros g gr q _ ->%Hfr].
  constructor; cbn [frames page_table replacer disk pool_size BufferPool_new Lru_new order]; rewrite ?Hpg; try done.
  - apply length_replicate.
  - intros id f. rewrite lookup_empty. split; [done|]. by intros (fr & p & ->%Hfr & ? & _).
  - apply NoDup_nil_2.
  - by intros f ?%elem_of_nil.
  - by intros f fr p ->%Hfr.
  - by intros f fr ->%Hfr.
  - intros id a Ha _. by apply (on_disk_file d), Hp.
Qed.

(** The file under a pool that has pages to write, when all can be read. *)
Lemma idle_readable D b σ :
  idle D b σ -> (forall id, is_Some (σ !! id) -> exists a, on_disk (disk b) id a) ->
  exists σ', on_file (disk b) σ' /\ (forall id, is_Some (σ' !! id) <-> is_Some (σ !! id)) /\
    forall id, id ∉ D -> σ' !! id = σ !! id.
Proof.
  intros Hi Hread. pose proof (id_pool _ _ _ Hi) as Hok.
  destruct (map_choice (fun id a => on_disk (disk b) id a) σ) as (σ' & Hdom & Hall); [by eauto|].
  exists σ'. split; [|split; [done|]].
  - constructor; [by apply Hall|intros id; by rewrite Hdom, (pk_dom _ _ Hok)|apply (pk_num _ _ Hok)|apply (pk_file _ _ Hok)].
  - intros id HD. destruct (σ !! id) as [a|] eqn:Ha.
    + assert (is_Some (σ' !! id)) as [a' Ha'] by (apply Hdom; eauto). rewrite Ha'. f_equal.
      eapply on_disk_inj; [by apply Hall|by eapply idle_clean].
    + apply eq_None_not_Some. rewrite Hdom, Ha. by intros [].
Qed.

(** Another page in the place of one. *)
Definition page_over (f : bytes) p : bytes := file_write f (page_offset (pid p)) (data p).

Definition readable p : Prop := verify_checksum p = Some true /\ exists a, page_rep p a.

Lemma page_over_on_file d σ p a :
  on_file d σ -> verify_checksum p = Some true -> page_rep p a -> is_Some (σ !! pid p) ->
  on_file (mkDisk (page_over (file d) p) (disk_num_pages d)) (<[pid p := a]> σ).
Proof.
  intros [Hpg Hdom Hu Hf] Hv Hr Hid. pose proof (page_rep_length _ _ Hr) as Hl. pose proof PAGE_SIZE_of_nat as HP.
  pose proof (proj1 (Hdom _) Hid) as Hin. constructor; cbn [file disk_num_pages]; [| |done|].
  - intros id a'. destruct (decide (pid p = id)) as [<-|Hne].
    + rewrite lookup_insert_eq. intros [= <-]. exists (Page_from_bytes (pid p) (data p)).
      split; [|by apply (page_rep_bytes p)]. unfold read_page, page_over. cbn [file].
      rewrite <- Hl, slice_file_write_same. by rewrite (verify_bytes p), Hv by done.
    + rewrite lookup_insert_ne by done. intros Ha. destruct (Hpg _ _ Ha) as (q & Hq & Hr'). exists q. split; [|done].
      assert (0 <= id) by (apply Hdom; eauto).
      unfold read_page, page_over in *. cbn [file] in *. destruct (slice (file d) (page_offset id) PAGE_SIZE) as [c|] eqn:E; [|done].
      rewrite (slice_file_write_other _ _ _ _ _ c E); [done|]. rewrite Hl. unfold page_offset. nia.
  - intros id. rewrite lookup_insert_is_Some'. rewrite <- Hdom. split; [by intros [<-|?]|by right].
  - unfold page_over. rewrite file_write_length, Hl. unfold page_offset. nia.
Qed.

(** Several pages: those that are not named are as before. *)
Lemma pages_over_on_file d σ ps :
  on_file d σ -> Forall readable ps -> Forall (fun p => is_Some (σ !! pid p)) ps ->
  exists σ', on_file (mkDisk (foldl page_over (file d) ps) (disk_num_pages d)) σ' /\
    (forall id, is_Some (σ' !! id) <-> is_Some (σ !! id)) /\ forall id, id ∉ pid <$> ps -> σ' !! id = σ !! id.
Proof.
  revert d σ. induction ps as [|p ps IH]; intros d σ Hd.
  { intros _ _. exists σ. split; [|done]. by destruct d. }
  intros [(Hv & a & Hr) Hps]%Forall_cons [Hid Hids]%Forall_cons.
  assert (Hsame : forall id, is_Some (<[pid p := a]> σ !! id) <-> is_Some (σ !! id)).
  { intros id. rewrite lookup_insert_is_Some'. split; [by intros [<-|?]|by right]. }
  destruct (IH (mkDisk (page_over (file d) p) (disk_num_pages d)) (<[pid p := a]> σ)) as (σ' & Hd' & Hdom & Hrest);
    [by apply page_over_on_file|done| |].
  { eapply Forall_impl; [exact Hids|]. intros q. by rewrite Hsame. }
  exists σ'. split; [done|]. split; [intros id; by rewrite Hdom|].
  intros id. csimpl. intros [Hne Hnin]%not_elem_of_cons. by rewrite Hrest, lookup_insert_ne by done.
Qed.
End Heap.
