(* ===== verification/Tables.v ===== *)
(** * Table contents, and queries on them

    What the pages of a table hold as a list of rows, in the order of a scan,
    and the answer of a query on a list of rows. *)
From S2P Require Export Query Heap.
Local Open Scope Z_scope.

(** ** The tuples of a heap *)
Definition tuple_at (σ : gmap Z spec_page) (r : Rid) : option bytes :=
  if decide (0 <= slot_id r) then a ← σ !! page_id r; spec_get a (slot_id r) else None.

Definition page_tuples (id : Z) (a : spec_page) : list (Rid * bytes) :=
  omap (fun i => pair (mkRid id i) <$> spec_get a i) (seqZ 0 (Z.of_nat (length (cells a)))).

Definition heap_tuples (σ : gmap Z spec_page) (pids : list Z) : list (Rid * bytes) :=
  pids ≫= fun id => from_option (page_tuples id) [] (σ !! id).

Section Heaps.
Implicit Types (σ : gmap Z spec_page) (a : spec_page) (pids : list Z).

Lemma spec_get_lt a i b : spec_get a i = Some b -> (Z.to_nat i < length (cells a))%nat.
Proof.
  unfold spec_get. destruct (cells a !! Z.to_nat i) eqn:E; [|done].
  intros _. by eapply lookup_lt_Some.
Qed.

Lemma elem_of_page_tuples id a r b :
  (r, b) ∈ page_tuples id a <-> page_id r = id /\ 0 <= slot_id r /\ spec_get a (slot_id r) = Some b.
Proof.
  unfold page_tuples. rewrite list_elem_of_omap. setoid_rewrite elem_of_seqZ. split.
  - intros (i & Hi & E). apply fmap_Some in E as (b' & Hb & [= -> <-]). simpl. split_and!; (done || lia).
  - intros (<- & H0 & Hb). apply spec_get_lt in Hb as Hlt. exists (slot_id r).
    split; [lia|]. rewrite Hb. by destruct r.
Qed.

Lemma elem_of_heap_tuples σ pids r b :
  (r, b) ∈ heap_tuples σ pids <-> page_id r ∈ pids /\ tuple_at σ r = Some b.
Proof.
  unfold heap_tuples, tuple_at. rewrite list_elem_of_bind. split.
  - intros (id & Hin & Hid). destruct (σ !! id) as [a|] eqn:Ea; [|by apply elem_of_nil in Hin].
    apply elem_of_page_tuples in Hin as (<- & H0 & Hb). rewrite decide_True by done. by rewrite Ea.
  - intros [Hid Hb]. case_decide as H0; [|done]. exists (page_id r). split; [|done].
    destruct (σ !! page_id r) as [a|] eqn:Ea; [|done]. by apply elem_of_page_tuples.
Qed.

Lemma page_tuples_fst id a :
  (page_tuples id a).*1 = mkRid id <$> omap (fun i => (fun _ => i) <$> spec_get a i) (seqZ 0 (Z.of_nat (length (cells a)))).
Proof.
  unfold page_tuples. induction (seqZ _ _) as [|i l IH]; [done|]. csimpl.
  destruct (spec_get a i); csimpl; [by rewrite IH|done].
Qed.

Lemma NoDup_omap_self {A B} (f : A -> option B) (l : list A) :
  NoDup l -> NoDup (omap (fun i => (fun _ => i) <$> f i) l).
Proof.
  induction 1 as [|x l Hx Hl IH]; csimpl; [constructor|]. destruct (f x); csimpl; [|done].
  constructor; [|done]. intros (y & Hy & E)%list_elem_of_omap.
  apply fmap_Some in E as (? & _ & ->). done.
Qed.

Lemma NoDup_page_rids id a : NoDup (page_tuples id a).*1.
Proof.
  rewrite page_tuples_fst. apply NoDup_fmap_2_strong; [by intros ? ? _ _ [= ->]|].
  apply NoDup_omap_self, NoDup_seqZ.
Qed.

Lemma heap_tuples_cons σ id pids :
  heap_tuples σ (id :: pids) = from_option (page_tuples id) [] (σ !! id) ++ heap_tuples σ pids.
Proof. done. Qed.

Lemma heap_tuples_app σ p1 p2 : heap_tuples σ (p1 ++ p2) = heap_tuples σ p1 ++ heap_tuples σ p2.
Proof. apply bind_app. Qed.

Lemma NoDup_heap_rids σ pids : NoDup pids -> NoDup (heap_tuples σ pids).*1.
Proof.
  induction 1 as [|id pids Hid Hnd IH]; [constructor|]. rewrite heap_tuples_cons, fmap_app.
  apply NoDup_app. split_and!; [|intros r Hr Hr'|done].
  - destruct (σ !! id); [apply NoDup_page_rids|constructor].
  - destruct (σ !! id) as [a|]; [|by apply elem_of_nil in Hr]. simpl in Hr.
    apply list_elem_of_fmap in Hr as ([r1 b1] & -> & (Hr & _)%elem_of_page_tuples).
    apply list_elem_of_fmap in Hr' as ([r2 b2] & Heq & (Hin & _)%elem_of_heap_tuples).
    simpl in *. by subst.
Qed.

Lemma heap_tuples_frame σ σ' pids :
  (forall id, id ∈ pids -> σ' !! id = σ !! id) -> heap_tuples σ' pids = heap_tuples σ pids.
Proof.
  induction pids as [|id pids IH]; intros Hf; [done|]. rewrite !heap_tuples_cons, IH.
  - by rewrite Hf by left.
  - intros i Hi. apply Hf. by right.
Qed.

Lemma tuple_at_page σ id a i :
  0 <= i -> σ !! id = Some a -> tuple_at σ (mkRid id i) = spec_get a i.
Proof. intros H0 Ha. unfold tuple_at. simpl. by rewrite decide_True, Ha. Qed.

Lemma tuple_at_insert_ne σ id a r :
  page_id r <> id -> tuple_at (<[id := a]> σ) r = tuple_at σ r.
Proof. intros Hne. unfold tuple_at. case_decide; [|done]. by rewrite lookup_insert_ne. Qed.

Lemma tuple_at_insert_eq σ id a r :
  page_id r = id ->
  tuple_at (<[id := a]> σ) r = if decide (0 <= slot_id r) then spec_get a (slot_id r) else None.
Proof. intros <-. unfold tuple_at. case_decide; [|done]. by rewrite lookup_insert_eq. Qed.
End Heaps.

(** ** Rows *)
(** A tuple that holds a row of the schema: its encoding, perhaps followed by
    what a longer row has left. *)
Definition stored (s : Schema) (row : Row) (b : bytes) : Prop :=
  exists enc tail, b = enc ++ tail /\ serialize_row s row = Ok enc /\ Forall value_ok row.

Definition decoded (s : Schema) (b : bytes) : Row :=
  match deserialize_row s b with Ok r => r | _ => [] end.

Definition table_rows (s : Schema) (σ : gmap Z spec_page) (pids : list Z) : list (Rid * Row) :=
  (fun t => (t.1, decoded s t.2)) <$> heap_tuples σ pids.

Section Rows.
Implicit Types (s : Schema) (row : Row) (b : bytes).

Lemma stored_decode s row b : stored s row b -> deserialize_row s b = Ok row.
Proof.
  intros (enc & tail & -> & Hs & Hok). unfold serialize_row in Hs. case_decide; [|done].
  by apply fields_roundtrip.
Qed.

Lemma stored_decoded s row b : stored s row b -> decoded s b = row.
Proof. intros H. unfold decoded. by rewrite (stored_decode s row b). Qed.

Lemma serialize_row_types s row enc : serialize_row s row = Ok enc -> row_matches s row.
Proof.
  unfold serialize_row. case_decide as Hl; [|done]. intros E.
  pose proof (serialize_fields_total (columns s) row Hl) as Ht. rewrite E in Ht. apply Ht.
Qed.

Lemma stored_matches s row b : stored s row b -> row_matches s row.
Proof. intros (enc & tail & _ & Hs & _). by eapply serialize_row_types. Qed.

Lemma row_matches_cell s row i c :
  row_matches s row -> columns s !! i = Some c -> exists v, row !! i = Some v /\ type_matches (ty c) v.
Proof.
  intros Hm Hc. destruct (Forall2_lookup_l _ _ _ _ _ Hm Hc) as (v & Hv & ?). eauto.
Qed.
End Rows.

(** ** Answers *)
Definition filter_result (s : Schema) (filter : option Expr) (row : Row) : result exec_error bool :=
  match filter with None => Ok true | Some x => eval_filter s row x end.

(** The rows kept, projected; the first error in the order of the list wins. *)
Fixpoint select_rows (s : Schema) (cols : SelectColumns) (filter : option Expr) (rows : list Row)
    : result exec_error (list Row) :=
  match rows with
  | [] => Ok []
  | row :: rows =>
      keep ← filter_result s filter row;
      if (keep : bool) then
        r ← project s row cols; rs ← select_rows s cols filter rows; Ok (r :: rs)
      else select_rows s cols filter rows
  end.

Section Select.
Implicit Types (s : Schema) (cols : SelectColumns) (filter : option Expr) (rows : list Row).

Lemma select_rows_app s cols filter rows1 rows2 :
  select_rows s cols filter (rows1 ++ rows2) =
    (rs1 ← select_rows s cols filter rows1; rs2 ← select_rows s cols filter rows2; Ok (rs1 ++ rs2)).
Proof.
  induction rows1 as [|row rows IH]; simpl.
  - by destruct (select_rows s cols filter rows2).
  - destruct (filter_result s filter row) as [[|]| |]; cbn; [|done..].
    destruct (project s row cols) as [r| |]; cbn; [|done..]. rewrite IH.
    destruct (select_rows s cols filter rows) as [rs| |]; cbn; [|done..].
    by destruct (select_rows s cols filter rows2).
Qed.

(** Rows the filter drops do not count. *)
Lemma select_rows_dropped s cols filter rows :
  Forall (fun row => filter_result s filter row = Ok false) rows ->
  select_rows s cols filter rows = Ok [].
Proof. induction 1 as [|row rows E _ IH]; simpl; [done|]. by rewrite E. Qed.
End Select.
