(* ===== verification/Executor.v ===== *)
(** * The executor: engine/executor.rs

    The engine's state and its handlers: create, insert, select, delete,
    update and recovery, on the catalog, the page lists, the buffer pool, the
    log and the indexes.  [catalog_file] and [meta_files] are the files the
    executor writes itself; [data.db] and the log are in the pool and in the
    WAL manager.  A handler keeps the state it reached when it fails. *)
From S2P Require Export Query TableMeta Buffer Wal CatalogStore IndexManager.
Local Open Scope Z_scope.

Record Executor := mkExec {
  catalog : Catalog;
  table_pages : gmap rstring (list Z);
  buffer_pool : BufferPool;
  ex_wal : WalManager;
  index_manager : IndexManager BTree;
  catalog_file : option bytes;
  meta_files : gmap rstring bytes;
}.

Definition set_catalog (c : Catalog) (e : Executor) : Executor :=
  mkExec c (table_pages e) (buffer_pool e) (ex_wal e) (index_manager e) (catalog_file e) (meta_files e).
Definition set_table_pages (m : gmap rstring (list Z)) (e : Executor) : Executor :=
  mkExec (catalog e) m (buffer_pool e) (ex_wal e) (index_manager e) (catalog_file e) (meta_files e).
Definition set_pool (b : BufferPool) (e : Executor) : Executor :=
  mkExec (catalog e) (table_pages e) b (ex_wal e) (index_manager e) (catalog_file e) (meta_files e).
Definition set_wal (w : WalManager) (e : Executor) : Executor :=
  mkExec (catalog e) (table_pages e) (buffer_pool e) w (index_manager e) (catalog_file e) (meta_files e).
Definition set_indexes (m : IndexManager BTree) (e : Executor) : Executor :=
  mkExec (catalog e) (table_pages e) (buffer_pool e) (ex_wal e) m (catalog_file e) (meta_files e).
Definition set_catalog_file (f : bytes) (e : Executor) : Executor :=
  mkExec (catalog e) (table_pages e) (buffer_pool e) (ex_wal e) (index_manager e) (Some f) (meta_files e).
Definition set_meta_files (m : gmap rstring bytes) (e : Executor) : Executor :=
  mkExec (catalog e) (table_pages e) (buffer_pool e) (ex_wal e) (index_manager e) (catalog_file e) m.

Notation ex := (st Executor exec_error).

(** [Executor::open] on a directory that holds these files. *)
Definition Executor_open (cat : option bytes) (metas : gmap rstring bytes) (db log : bytes)
    : Executor :=
  mkExec Catalog_new ∅ (BufferPool_new 64 db) (WalManager_new log) IndexManager_new cat metas.

(** ** Calls into the parts *)
Definition pool {A} (m : st BufferPool io_error A) : ex A := st_zoom buffer_pool set_pool IoError m.
Definition walm {A} (m : st WalManager io_error A) : ex A := st_zoom ex_wal set_wal IoError m.

Definition catalog_op {A} (m : Catalog -> Catalog * result catalog_error A) : ex A :=
  st_zoom catalog set_catalog CatalogError m.

Definition index_op_ex (m : IndexManager BTree -> option (IndexManager BTree)) : ex unit := fun e =>
  match m (index_manager e) with Some i => (set_indexes i e, Ok tt) | None => (e, Panic) end.

Definition asks {A} (f : Executor -> A) : ex A := fun e => (e, Ok (f e)).

(** [get_page(f).and_then(g)]; [None] of [g] is a panic. *)
Definition view {A} (f : nat) (g : Page -> option A) (otherwise : A) : ex A := fun e =>
  match get_page (buffer_pool e) f with
  | None => (e, Panic)
  | Some None => (e, Ok otherwise)
  | Some (Some p) => match g p with Some a => (e, Ok a) | None => (e, Panic) end
  end.

(** [get_page_mut(f)] and a method on the page. *)
Definition edit {A} (f : nat) (g : Page -> option (Page * A)) (otherwise : A) : ex A := fun e =>
  match get_page (buffer_pool e) f with
  | None => (e, Panic)
  | Some None => (e, Ok otherwise)
  | Some (Some p) =>
      match g p with
      | Some (p, a) => (set_pool (set_page f p (buffer_pool e)) e, Ok a)
      | None => (e, Panic)
      end
  end.

Definition page_slots (f : nat) : ex (list Z) :=
  n ← view f num_slots 0; mret (seqZ 0 n).

Definition find_schema (table : rstring) : ex Schema :=
  s ← asks (fun e => catalog_get (catalog e) table); st_lift (ok_or (TableNotFound table) s).

Definition find_meta (table : rstring) : ex (list Z) :=
  m ← asks (fun e => table_pages e !! table); st_lift (ok_or (MetaNotFound table) m).

Definition save_table_meta (table : rstring) : ex unit :=
  st_modify (fun e =>
    set_meta_files (<[table := meta_bytes (default [] (table_pages e !! table))]> (meta_files e)) e).

Definition decode_row (s : Schema) (t : bytes) : ex Row :=
  st_lift match deserialize_row s t with
          | Ok r => Ok r | Err e => Err (CatalogError e) | Panic => Panic
          end.

Definition encode_row (s : Schema) (r : Row) : ex bytes :=
  st_lift match serialize_row s r with
          | Ok b => Ok b | Err e => Err (CatalogError e) | Panic => Panic
          end.

(** [self.index_manager.search(table, col, k).is_some()] *)
Definition index_has (table col : rstring) (k : Z) : ex bool :=
  r ← asks (fun e => index_search (index_manager e) table col k);
  r ← st_lift (or_panic r); mret (bool_decide (is_Some r)).

(** [for (col_idx, col) in schema.columns.iter().enumerate()] with a guard on
    [has_index]. *)
Fixpoint for_indexed (table : rstring) (cols : list ColumnDef) (i : nat)
    (act : nat -> ColumnDef -> ex unit) : ex unit :=
  match cols with
  | [] => mret tt
  | c :: cols =>
      indexed ← asks (fun e => has_index (index_manager e) table (col_name c));
      _ ← (if (indexed : bool) then act i c else mret tt);
      for_indexed table cols (S i) act
  end.

(** The value of a column, for an index that takes INT values only. *)
Definition with_key (row : Row) (i : nat) (act : Z -> ex unit) : ex unit :=
  v ← st_lift (or_panic (row !! i));
  match v with VInt k => act k | _ => mret tt end.

Section Executor.
Context `{Crc32}.

(** ** CREATE TABLE

    [order] is the order in which the catalog's hash map is iterated. *)
Definition exec_create_table (order : gmap rstring Schema -> list Schema)
    (table : rstring) (cols : list ColumnDef) : ex (list Row) :=
  let s := Schema_new table cols in
  _ ← match schema_pk s with
      | Some pk => st_modify (fun e => set_indexes (create_index (index_manager e) table pk) e)
      | None => mret tt
      end;
  _ ← catalog_op (fun c => create_table c s);
  _ ← match schema_pk s with
      | Some pk => st_modify (fun e =>
          set_catalog (mkCatalog (tables (catalog e)) (index_defs (catalog e) ++ [(table, pk)])) e)
      | None => mret tt
      end;
  _ ← st_modify (fun e => set_table_pages (<[table := []]> (table_pages e)) e);
  _ ← st_modify (fun e => set_catalog_file (save_bytes (order (tables (catalog e))) (catalog e)) e);
  _ ← save_table_meta table;
  mret [].

(** ** INSERT *)
(** The primary key must not be NULL nor, for an INT key, be taken. *)
Definition check_primary_key (table : rstring) (s : Schema) (values : Row) : ex unit :=
  match pk_col_index s with
  | None => mret tt
  | Some i =>
      v ← st_lift (or_panic (values !! i));
      pk ← st_lift (or_panic (schema_pk s));
      match v with
      | VNull => st_fail (PrimaryKeyNull pk)
      | VInt k =>
          taken ← index_has table pk k;
          if (taken : bool) then st_fail (DuplicateKey pk k) else mret tt
      | _ => mret tt
      end
  end.

(** The log first, then the page in the pool. *)
Definition place_row (t id : Z) (f : nat) (row : bytes) : ex Rid :=
  _ ← walm (log_insert t id row);
  sid ← edit f (fun p => '(p, r) ← insert_tuple p row; Some (p, default 0 r)) 0;
  _ ← pool (unpin f true);
  mret (mkRid id sid).

Fixpoint try_pages (t : Z) (row : bytes) (pids : list Z) : ex (option Rid) :=
  match pids with
  | [] => mret None
  | id :: pids =>
      f ← pool (fetch_page id);
      space ← view f (fun p => n ← free_space p;
                               Some (bool_decide (Z.of_nat (length row) + 5 <= n))) false;
      if (space : bool) then rid ← place_row t id f row; mret (Some rid)
      else _ ← pool (unpin f false); try_pages t row pids
  end.

Definition new_row_page (table : rstring) (t : Z) (row : bytes) : ex Rid :=
  '(id, f) ← pool new_page;
  rid ← place_row t id f row;
  m ← find_meta table;
  _ ← st_modify (fun e => set_table_pages (<[table := m ++ [id]]> (table_pages e)) e);
  _ ← save_table_meta table;
  mret rid.

(** Every indexed INT column gets the row. *)
Definition index_new_row (table : rstring) (s : Schema) (values : Row) (rid : Rid) : ex unit :=
  for_indexed table (columns s) 0 (fun i c =>
    with_key values i (fun k => index_op_ex (fun m => index_insert m table (col_name c) k rid))).

Definition exec_insert (table : rstring) (values : Row) : ex (list Row) :=
  s ← find_schema table;
  _ ← check_primary_key table s values;
  row ← encode_row s values;
  t ← walm begin_txn;
  m ← find_meta table;
  found ← try_pages t row m;
  rid ← match found with Some rid => mret rid | None => new_row_page table t row end;
  _ ← index_new_row table s values rid;
  _ ← walm (commit t);
  _ ← pool (flush_page (page_id rid));
  mret [].

(** ** SELECT *)
Definition filter_row (s : Schema) (row : Row) (filter : option Expr) : ex bool :=
  match filter with None => mret true | Some x => st_lift (eval_filter s row x) end.

Fixpoint scan_slots (s : Schema) (cols : SelectColumns) (filter : option Expr) (f : nat)
    (slots : list Z) : ex (list Row) :=
  match slots with
  | [] => mret []
  | i :: slots =>
      t ← view f (fun p => get_tuple p i) None;
      match t with
      | None => scan_slots s cols filter f slots
      | Some t =>
          row ← decode_row s t;
          keep ← filter_row s row filter;
          if (keep : bool) then
            r ← st_lift (project s row cols);
            rs ← scan_slots s cols filter f slots; mret (r :: rs)
          else scan_slots s cols filter f slots
      end
  end.

Fixpoint scan_pages (s : Schema) (cols : SelectColumns) (filter : option Expr) (pids : list Z)
    : ex (list Row) :=
  match pids with
  | [] => mret []
  | id :: pids =>
      f ← pool (fetch_page id);
      slots ← page_slots f;
      rs ← scan_slots s cols filter f slots;
      _ ← pool (unpin f false);
      rest ← scan_pages s cols filter pids; mret (rs ++ rest)
  end.

(** Keys from [rhs + 1] or up to [rhs - 1]; the bounds overflow at the ends. *)
Definition I64_MIN : Z := - 2 ^ 63.
Definition I64_MAX : Z := 2 ^ 63 - 1.

Definition add_i64 (a b : Z) : option Z := if decide (in_i64 (a + b)) then Some (a + b) else None.

(** The rows an index gives for a comparison; the inner [None] is a fall back
    to the scan, the outer one a panic. *)
Definition index_rids (m : IndexManager BTree) (table col : rstring) (o : Op) (rhs : Z)
    : option (option (list Rid)) :=
  match o with
  | OpEq => r ← index_search m table col rhs; Some (Some (option_list r))
  | OpGt => a ← add_i64 rhs 1; rs ← index_range m table col a I64_MAX; Some (Some rs)
  | OpGe => rs ← index_range m table col rhs I64_MAX; Some (Some rs)
  | OpLt => b ← add_i64 rhs (-1); rs ← index_range m table col I64_MIN b; Some (Some rs)
  | OpLe => rs ← index_range m table col I64_MIN rhs; Some (Some rs)
  | _ => Some None
  end.

Fixpoint fetch_rids (s : Schema) (cols : SelectColumns) (x : Expr) (meta : list Z)
    (rids : list Rid) : ex (list Row) :=
  match rids with
  | [] => mret []
  | rid :: rids =>
      if decide (page_id rid ∉ meta) then fetch_rids s cols x meta rids
      else
        f ← pool (fetch_page (page_id rid));
        t ← view f (fun p => get_tuple p (slot_id rid)) None;
        _ ← pool (unpin f false);
        match t with
        | None => fetch_rids s cols x meta rids
        | Some t =>
            row ← decode_row s t;
            keep ← st_lift (eval_filter s row x);
            if (keep : bool) then
              r ← st_lift (project s row cols);
              rs ← fetch_rids s cols x meta rids; mret (r :: rs)
            else fetch_rids s cols x meta rids
        end
  end.

(** [None]: no index was used. *)
Definition try_index_select (table : rstring) (s : Schema) (x : Expr) (cols : SelectColumns)
    (meta : list Z) : ex (option (list Row)) :=
  indexed ← asks (fun e => has_index (index_manager e) table (left x));
  if negb indexed then mret None
  else
    match right x with
    | VInt rhs =>
        r ← asks (fun e => index_rids (index_manager e) table (left x) (op x) rhs);
        r ← st_lift (or_panic r);
        match r with
        | None => mret None
        | Some rids => rs ← fetch_rids s cols x meta rids; mret (Some rs)
        end
    | _ => mret None
    end.

Definition exec_select (table : rstring) (cols : SelectColumns) (filter : option Expr)
    (order : option (rstring * OrderDir)) (limit : option Z) : ex (list Row) :=
  s ← find_schema table;
  meta ← find_meta table;
  used ← match filter with
         | Some x => try_index_select table s x cols meta
         | None => mret None
         end;
  rows ← match used with
         | Some rows => mret rows
         | None => scan_pages s cols filter meta
         end;
  st_lift (order_limit s cols order limit rows).

(** ** DELETE *)
Definition index_old_row (table : rstring) (s : Schema) (row : Row) : ex unit :=
  for_indexed table (columns s) 0 (fun i c =>
    with_key row i (fun k => index_op_ex (fun m => index_delete m table (col_name c) k))).

(** The slots of a page; the answer says whether one was deleted. *)
Fixpoint delete_slots (table : rstring) (s : Schema) (filter : option Expr) (t id : Z) (f : nat)
    (dirty : bool) (slots : list Z) : ex bool :=
  match slots with
  | [] => mret dirty
  | i :: slots =>
      b ← view f (fun p => get_tuple p i) None;
      match b with
      | None => delete_slots table s filter t id f dirty slots
      | Some b =>
          row ← decode_row s b;
          hit ← filter_row s row filter;
          if (hit : bool) then
            _ ← walm (log_delete t id i);
            _ ← edit f (fun p => delete_tuple p i) false;
            _ ← index_old_row table s row;
            delete_slots table s filter t id f true slots
          else delete_slots table s filter t id f dirty slots
      end
  end.

(** The pages of a table; the answer is the dirty ones. *)
Fixpoint delete_pages (table : rstring) (s : Schema) (filter : option Expr) (t : Z)
    (pids : list Z) : ex (list Z) :=
  match pids with
  | [] => mret []
  | id :: pids =>
      f ← pool (fetch_page id);
      slots ← page_slots f;
      dirty ← delete_slots table s filter t id f false slots;
      _ ← pool (unpin f dirty);
      rest ← delete_pages table s filter t pids;
      mret (if (dirty : bool) then id :: rest else rest)
  end.

Definition exec_delete (table : rstring) (filter : option Expr) : ex (list Row) :=
  s ← find_schema table;
  meta ← find_meta table;
  t ← walm begin_txn;
  dirty ← delete_pages table s filter t meta;
  _ ← walm (commit t);
  _ ← pool (st_iter flush_page dirty);
  mret [].

(** ** UPDATE *)
(** The assignments to the primary key against the row's old values. *)
Fixpoint check_new_keys (table : rstring) (s : Schema) (pk : rstring) (old : Row)
    (xs : list Assignment) : ex unit :=
  match xs with
  | [] => mret tt
  | a :: xs =>
      _ ← (if decide (column a = pk) then
             match value a with
             | VNull => st_fail (PrimaryKeyNull pk)
             | VInt k =>
                 i ← st_lift (or_panic (pk_col_index s));
                 v ← st_lift (or_panic (old !! i));
                 if decide (v = VInt k) then mret tt
                 else
                   taken ← index_has table pk k;
                   if (taken : bool) then st_fail (DuplicateKey pk k) else mret tt
             | _ => mret tt
             end
           else mret tt);
      check_new_keys table s pk old xs
  end.

(** The types UPDATE lets through: any NULL, INT and TEXT. *)
Definition assignable (v : Value) (t : DataType) : bool :=
  match v, t with VNull, _ | VInt _, DInt | VText _, DText => true | _, _ => false end.

Fixpoint apply_assignments (s : Schema) (xs : list Assignment) (row : Row) : result exec_error Row :=
  match xs with
  | [] => Ok row
  | a :: xs =>
      i ← ok_or (ColumnNotFound (column a)) (col_index s (column a));
      c ← or_panic (columns s !! i);
      if assignable (value a) (ty c) then
        _ ← or_panic (row !! i);
        apply_assignments s xs (<[i := value a]> row)
      else Err (AssignMismatch a)
  end.

Definition index_changed_row (table : rstring) (s : Schema) (old new : Row) (rid : Rid) : ex unit :=
  for_indexed table (columns s) 0 (fun i c =>
    _ ← with_key old i (fun k => index_op_ex (fun m => index_delete m table (col_name c) k));
    with_key new i (fun k => index_op_ex (fun m => index_insert m table (col_name c) k rid))).

(** One row that matches: checked, logged, written in place, re-indexed. *)
Definition update_row (table : rstring) (s : Schema) (xs : list Assignment) (t id : Z) (f : nat)
    (dirty : bool) (i : Z) (old_bytes : bytes) (old : Row) : ex unit :=
  _ ← match schema_pk s with
      | Some pk => check_new_keys table s pk old xs
      | None => mret tt
      end;
  row ← st_lift (apply_assignments s xs old);
  new_bytes ← encode_row s row;
  _ ← walm (log_update t id i old_bytes new_bytes);
  ok ← edit f (fun p => update_tuple p i new_bytes) false;
  if (ok : bool) then index_changed_row table s old row (mkRid id i)
  else
    _ ← pool (unpin f dirty);
    _ ← walm (abort t);
    st_fail UpdateTooLarge.

Fixpoint update_slots (table : rstring) (s : Schema) (xs : list Assignment) (filter : option Expr)
    (t id : Z) (f : nat) (dirty : bool) (slots : list Z) : ex bool :=
  match slots with
  | [] => mret dirty
  | i :: slots =>
      b ← view f (fun p => get_tuple p i) None;
      match b with
      | None => update_slots table s xs filter t id f dirty slots
      | Some b =>
          row ← decode_row s b;
          hit ← filter_row s row filter;
          if (hit : bool) then
            _ ← update_row table s xs t id f dirty i b row;
            update_slots table s xs filter t id f true slots
          else update_slots table s xs filter t id f dirty slots
      end
  end.

Fixpoint update_pages (table : rstring) (s : Schema) (xs : list Assignment) (filter : option Expr)
    (t : Z) (pids : list Z) : ex (list Z) :=
  match pids with
  | [] => mret []
  | id :: pids =>
      f ← pool (fetch_page id);
      slots ← page_slots f;
      dirty ← update_slots table s xs filter t id f false slots;
      _ ← pool (unpin f dirty);
      rest ← update_pages table s xs filter t pids;
      mret (if (dirty : bool) then id :: rest else rest)
  end.

Definition exec_update (table : rstring) (xs : list Assignment) (filter : option Expr)
    : ex (list Row) :=
  s ← find_schema table;
  meta ← find_meta table;
  t ← walm begin_txn;
  dirty ← update_pages table s xs filter t meta;
  _ ← walm (commit t);
  _ ← pool (st_iter flush_page dirty);
  mret [].

(** ** Statements *)
Definition execute (order : gmap rstring Schema -> list Schema) (s : Statement) : ex (list Row) :=
  match s with
  | CreateTable table cols => exec_create_table order table cols
  | InsertInto table values => exec_insert table values
  | Select table cols filter order_by limit => exec_select table cols filter order_by limit
  | DeleteFrom table filter => exec_delete table filter
  | UpdateSet table xs filter => exec_update table xs filter
  end.

(** ** Recovery

    The orders in which the hash maps are iterated: the pages of the log, the
    page table of the pool, the tables. *)
Record iterations := mkIter {
  it_wal : gset Z -> list Z;
  it_pool : gset Z -> list Z;
  it_tables : gset rstring -> list rstring;
}.

Definition load_all_table_metas : ex unit :=
  st_modify (fun e =>
    set_table_pages (map_imap (fun n _ => Some (load_table_meta (meta_files e !! n)))
                       (tables (catalog e))) e).

(** A page the log rebuilt goes into its frame; a page that cannot be fetched
    is left out. *)
Definition push_page (id : Z) : ex unit := fun e =>
  match wal_pages (ex_wal e) !! id with
  | None => (e, Ok tt)
  | Some wp =>
      match pool (fetch_page id) e with
      | (e, Ok f) =>
          (_ ← edit f (fun p => Some (mkPage (pid p) (data wp) true, tt)) tt; pool (unpin f true)) e
      | (e, Err _) => (e, Ok tt)
      | (e, Panic) => (e, Panic)
      end
  end.

Definition reindex_row (table : rstring) (s : Schema) (row : Row) (rid : Rid) : ex unit :=
  for_indexed table (columns s) 0 (fun _ c =>
    match col_index s (col_name c) with
    | None => mret tt
    | Some i => with_key row i (fun k => index_op_ex (fun m => index_insert m table (col_name c) k rid))
    end).

(** Rows that do not decode are skipped. *)
Fixpoint reindex_slots (table : rstring) (s : Schema) (id : Z) (f : nat) (slots : list Z) : ex unit :=
  match slots with
  | [] => mret tt
  | i :: slots =>
      b ← view f (fun p => get_tuple p i) None;
      _ ← match b with
          | None => mret tt
          | Some b =>
              match deserialize_row s b with
              | Ok row => reindex_row table s row (mkRid id i)
              | Err _ => mret tt
              | Panic => st_lift Panic
              end
          end;
      reindex_slots table s id f slots
  end.

(** Pages that cannot be fetched are skipped. *)
Fixpoint reindex_pages (table : rstring) (s : Schema) (pids : list Z) : ex unit :=
  match pids with
  | [] => mret tt
  | id :: pids =>
      _ ← (fun e => match pool (fetch_page id) e with
                    | (e, Ok f) => (slots ← page_slots f;
                                    _ ← reindex_slots table s id f slots;
                                    pool (unpin f false)) e
                    | (e, Err _) => (e, Ok tt)
                    | (e, Panic) => (e, Panic)
                    end);
      reindex_pages table s pids
  end.

Definition reindex_table (table : rstring) : ex unit :=
  s ← asks (fun e => catalog_get (catalog e) table);
  m ← asks (fun e => table_pages e !! table);
  match s, m with Some s, Some m => reindex_pages table s m | _, _ => mret tt end.

Definition load_catalog : ex unit := fun e =>
  match load (catalog_file e) with
  | Ok c => (set_catalog c e, Ok tt)
  | Err x => (e, Err (IoError x))
  | Panic => (e, Panic)
  end.

(** [redone], [undone] and the number of tables. *)
Definition ex_recover (it : iterations) : ex (nat * nat * nat) :=
  _ ← load_catalog;
  _ ← load_all_table_metas;
  report ← walm recover;
  ids ← asks (fun e => it_wal it (dom (wal_pages (ex_wal e))));
  _ ← st_iter push_page ids;
  cached ← asks (fun e => it_pool it (dom (page_table (buffer_pool e))));
  _ ← pool (flush_all cached);
  defs ← asks (fun e => index_defs (catalog e));
  _ ← st_iter (fun d => st_modify (fun e =>
        set_indexes (create_index (index_manager e) d.1 d.2) e)) defs;
  names ← asks (fun e => it_tables it (dom (table_pages e)));
  _ ← st_iter reindex_table names;
  n ← asks (fun e => size (tables (catalog e)));
  mret (redone report, undone report, n).
End Executor.
