(* ===== verification/Files.v ===== *)
(** * What the handlers do to the files

    DELETE, UPDATE and the parts of INSERT that place a row leave the catalog
    and the page lists, in memory and on disk, as they are; INSERT saves the
    page list it makes longer. *)
From S2P Require Export Executor.
Local Open Scope Z_scope.

(** The page lists are in their files; a table without pages may have none. *)
Definition meta_saved (pids : list Z) (file : option bytes) : Prop :=
  file = Some (meta_bytes pids) \/ file = None /\ pids = [].

Definition metas_saved (e : Executor) : Prop := forall t,
  match table_pages e !! t with Some pids => meta_saved pids (meta_files e !! t) | None => meta_files e !! t = None end.

Lemma load_meta_saved pids file : meta_saved pids file -> pids_ok pids -> load_table_meta file = pids.
Proof. intros [->|[-> ->]] Hp; [by apply load_meta_bytes|done]. Qed.

(** What a handler does, whatever it answers. *)
Definition keeps (R : relation Executor) {A} (m : ex A) : Prop := forall e, R e (m e).1.

(** It touches neither the catalog nor the page lists. *)
Definition same_files (e e' : Executor) : Prop :=
  catalog e' = catalog e /\ catalog_file e' = catalog_file e /\ table_pages e' = table_pages e /\
  meta_files e' = meta_files e.

Abbreviation keeps_files := (keeps same_files).

(** It does not touch [data.db]. *)
Definition same_disk (e e' : Executor) : Prop := disk (buffer_pool e') = disk (buffer_pool e).

#[export] Instance same_files_preorder : PreOrder same_files.
Proof. split; [done|]. intros e1 e2 e3 (?&?&?&?) (?&?&?&?). split_and!; congruence. Qed.

#[export] Instance same_disk_preorder : PreOrder same_disk.
Proof. split; [done|]. intros e1 e2 e3. unfold same_disk. congruence. Qed.

(** A handler that leaves the catalog alone and, when it succeeds, the page
    lists saved. *)
Definition saves {A} (m : ex A) : Prop := forall e e' a, m e = (e', Ok a) -> metas_saved e ->
  catalog e' = catalog e /\ catalog_file e' = catalog_file e /\ metas_saved e'.

Create HintDb files.

Section Keeps.
Context (R : relation Executor) `{!PreOrder R}.

Lemma keeps_ret {A} (a : A) : keeps R (mret a).
Proof. intros e. reflexivity. Qed.

Lemma keeps_lift {A} (r : result exec_error A) : keeps R (st_lift r).
Proof. intros e. reflexivity. Qed.

Lemma keeps_fail {A} x : keeps R (st_fail (A:=A) x).
Proof. intros e. reflexivity. Qed.

Lemma keeps_asks {A} (f : Executor -> A) : keeps R (asks f).
Proof. intros e. reflexivity. Qed.

Lemma keeps_view {A} f g (d : A) : keeps R (view f g d).
Proof. intros e. unfold view. repeat case_match; reflexivity. Qed.

Lemma keeps_bind {A B} (m : ex A) (k : A -> ex B) :
  keeps R m -> (forall a, keeps R (k a)) -> keeps R (x ← m; k x).
Proof.
  intros Hm Hk e. unfold mbind, st_bind. specialize (Hm e). destruct (m e) as [e1 [a| |]]; cbn in *; [|done..].
  etransitivity; [exact Hm|apply Hk].
Qed.

Lemma keeps_iter {A} (f : A -> ex unit) l : (forall a, keeps R (f a)) -> keeps R (st_iter f l).
Proof. intros Hf. induction l as [|a l IH]; cbn [st_iter]; [apply keeps_ret|by apply keeps_bind]. Qed.
End Keeps.

(** ** The steps of handlers *)
Section Files.
Context `{Crc32}.
Implicit Types (e : Executor).

Lemma keeps_pool {A} (m : st BufferPool io_error A) : keeps_files (pool m).
Proof. intros e. unfold pool, st_zoom. by destruct (m (buffer_pool e)). Qed.

Lemma keeps_walm {A} (m : st WalManager io_error A) : keeps_files (walm m).
Proof. intros e. unfold walm, st_zoom. by destruct (m (ex_wal e)). Qed.

Lemma keeps_index m : keeps_files (index_op_ex m).
Proof. intros e. unfold index_op_ex. by destruct (m (index_manager e)). Qed.

Lemma keeps_edit {A} f g (d : A) : keeps_files (edit f g d).
Proof. intros e. unfold edit. by repeat case_match. Qed.

Lemma disk_walm {A} (m : st WalManager io_error A) : keeps same_disk (walm m).
Proof. intros e. unfold walm, st_zoom. by destruct (m (ex_wal e)). Qed.

Lemma disk_index m : keeps same_disk (index_op_ex m).
Proof. intros e. unfold index_op_ex. by destruct (m (index_manager e)). Qed.

Lemma disk_edit {A} f g (d : A) : keeps same_disk (edit f g d).
Proof. intros e. unfold edit, set_page. by repeat case_match. Qed.

Lemma disk_unpin f d : keeps same_disk (pool (unpin f d)).
Proof.
  intros e. unfold same_disk, pool, st_zoom, unpin. destruct (frames (buffer_pool e) !! f) as [fr|]; [|done].
  destruct (pin_count fr =? 0); [done|]. cbn. by destruct (_ =? 0).
Qed.
End Files.

#[export] Hint Resolve same_files_preorder same_disk_preorder keeps_ret keeps_lift keeps_fail keeps_asks keeps_pool
  keeps_walm keeps_index keeps_view keeps_edit keeps_iter disk_walm disk_index disk_edit disk_unpin : files.

(** One bind or case after the other. *)
Ltac keeps := repeat first
  [ progress intros
  | solve [auto with files]
  | apply (keeps_bind _)
  | case_match ].

Section Handlers.
Context `{Crc32} (R : relation Executor) `{!PreOrder R}.
Implicit Types (e : Executor).

Lemma keeps_find_schema t : keeps R (find_schema t).
Proof. unfold find_schema. keeps. Qed.

Lemma keeps_find_meta t : keeps R (find_meta t).
Proof. unfold find_meta. keeps. Qed.

Lemma keeps_slots f : keeps R (page_slots f).
Proof. unfold page_slots. keeps. Qed.

Lemma keeps_decode s t : keeps R (decode_row s t).
Proof. by apply keeps_lift. Qed.

Lemma keeps_encode s r : keeps R (encode_row s r).
Proof. by apply keeps_lift. Qed.

Lemma keeps_filter s r f : keeps R (filter_row s r f).
Proof. unfold filter_row. keeps. Qed.

Lemma keeps_with_key row i act : (forall k, keeps R (act k)) -> keeps R (with_key row i act).
Proof. intros Ha. unfold with_key. keeps. Qed.

Lemma keeps_for_indexed t cols i act : (forall i c, keeps R (act i c)) -> keeps R (for_indexed t cols i act).
Proof. intros Ha. revert i. induction cols as [|c cols IH]; intros i; cbn [for_indexed]; keeps. Qed.

Lemma keeps_index_has t c k : keeps R (index_has t c k).
Proof. unfold index_has. keeps. Qed.
End Handlers.

#[export] Hint Resolve keeps_find_schema keeps_find_meta keeps_slots keeps_decode keeps_encode keeps_filter
  keeps_with_key keeps_for_indexed keeps_index_has : files.

Lemma keeps_check_new_keys `{Crc32} (R : relation Executor) `{!PreOrder R} t s pk old xs : keeps R (check_new_keys t s pk old xs).
Proof. induction xs as [|a xs IH]; cbn [check_new_keys]; keeps. Qed.

#[export] Hint Resolve keeps_check_new_keys : files.

(** The same under the loop over the indexed columns. *)
Ltac keeps_rows := keeps; repeat (first [apply keeps_for_indexed | apply keeps_with_key]; keeps).

Section Writers.
Context `{Crc32}.
Implicit Types (e : Executor).

Lemma keeps_delete_slots t s flt x id f d slots : keeps_files (delete_slots t s flt x id f d slots).
Proof. revert d. induction slots as [|i slots IH]; intros d; cbn [delete_slots]; unfold index_old_row; keeps_rows. Qed.

Lemma keeps_delete_pages t s flt x pids : keeps_files (delete_pages t s flt x pids).
Proof.
  pose proof keeps_delete_slots. induction pids as [|id pids IH]; cbn [delete_pages]; keeps.
Qed.

Lemma keeps_exec_delete t flt : keeps_files (exec_delete t flt).
Proof. pose proof keeps_delete_pages. unfold exec_delete. keeps. Qed.

Lemma keeps_update_row t s xs x id f d i b old : keeps_files (update_row t s xs x id f d i b old).
Proof. unfold update_row, index_changed_row. keeps_rows. Qed.

Lemma keeps_update_slots t s xs flt x id f d slots : keeps_files (update_slots t s xs flt x id f d slots).
Proof. pose proof keeps_update_row. revert d. induction slots as [|i slots IH]; intros d; cbn [update_slots]; keeps. Qed.

Lemma keeps_update_pages t s xs flt x pids : keeps_files (update_pages t s xs flt x pids).
Proof. pose proof keeps_update_slots. induction pids as [|id pids IH]; cbn [update_pages]; keeps. Qed.

Lemma keeps_exec_update t xs flt : keeps_files (exec_update t xs flt).
Proof. pose proof keeps_update_pages. unfold exec_update. keeps. Qed.

Lemma keeps_place_row x id f row : keeps_files (place_row x id f row).
Proof. unfold place_row. keeps. Qed.

Lemma keeps_try_pages x row pids : keeps_files (try_pages x row pids).
Proof. pose proof keeps_place_row. induction pids as [|id pids IH]; cbn [try_pages]; keeps. Qed.
End Writers.

(** ** INSERT saves what it changes *)
Section Savers.
Context `{Crc32}.
Implicit Types (e : Executor).

Lemma saves_keeps {A} (m : ex A) : keeps_files m -> saves m.
Proof.
  intros Hm e e' a E Hs. specialize (Hm e). rewrite E in Hm. cbn in Hm. destruct Hm as (? & ? & Ht & Hf).
  split_and!; [done..|]. unfold metas_saved. by rewrite Ht, Hf.
Qed.

Lemma saves_bind {A B} (m : ex A) (k : A -> ex B) : saves m -> (forall a, saves (k a)) -> saves (x ← m; k x).
Proof.
  intros Hm Hk e e' b E Hs. unfold mbind, st_bind in E. destruct (m e) as [e1 [a| |]] eqn:E1; [|done..].
  destruct (Hm e e1 a E1 Hs) as (<- & <- & Hs1). by eapply Hk.
Qed.

Lemma saves_add_page t (ids : list Z) (rid : Rid) :
  saves (_ ← st_modify (fun e => set_table_pages (<[t := ids]> (table_pages e)) e); _ ← save_table_meta t; mret rid).
Proof.
  intros e e' a [= <- _] Hs. split_and!; [done..|]. intros t'. cbn. rewrite lookup_insert_eq. cbn.
  destruct (decide (t = t')) as [->|Hne]; [by rewrite !lookup_insert_eq; left|].
  rewrite !lookup_insert_ne by done. apply Hs.
Qed.

Lemma saves_new_row_page t x row : saves (new_row_page t x row).
Proof.
  unfold new_row_page. apply saves_bind; [apply saves_keeps, keeps_pool|]. intros [id f].
  apply saves_bind; [apply saves_keeps, keeps_place_row|]. intros rid.
  apply saves_bind; [apply saves_keeps; keeps|]. intros m. apply saves_add_page.
Qed.

Lemma saves_exec_insert t values : saves (exec_insert t values).
Proof.
  unfold exec_insert. apply saves_bind; [apply saves_keeps; keeps|]. intros s.
  apply saves_bind; [apply saves_keeps; unfold check_primary_key; keeps|]. intros _.
  apply saves_bind; [apply saves_keeps; keeps|]. intros row.
  apply saves_bind; [apply saves_keeps; keeps|]. intros x.
  apply saves_bind; [apply saves_keeps; keeps|]. intros m.
  apply saves_bind; [apply saves_keeps, keeps_try_pages|]. intros found.
  apply saves_bind; [destruct found; [apply saves_keeps; keeps|apply saves_new_row_page]|]. intros rid.
  apply saves_keeps. unfold index_new_row. keeps_rows.
Qed.
End Savers.
