(* ===== verification/Session.v ===== *)
(** * The executor's statements *)
From S2P Require Export Executor Tables.
Local Open Scope Z_scope.

(** ** Reading *)
Section Reading.
Context `{Crc32}.
Implicit Types (e : Executor) (σ : gmap Z spec_page) (s : Schema).

Lemma asks_step {A B} (f : Executor -> A) (k : A -> ex B) e : (x ← asks f; k x) e = k (f e) e.
Proof. done. Qed.

Lemma pool_ok_step {A} (m : st BufferPool io_error A) e b x :
  m (buffer_pool e) = (b, Ok x) -> pool m e = (set_pool b e, Ok x).
Proof. intros E. unfold pool, st_zoom. by rewrite E. Qed.

Lemma walm_ok_step {A} (m : st WalManager io_error A) e w x :
  m (ex_wal e) = (w, Ok x) -> walm m e = (set_wal w e, Ok x).
Proof. intros E. unfold walm, st_zoom. by rewrite E. Qed.

Lemma view_edited {D : list Z} {A} e σ f id p a (g : Page -> option A) d x :
  edited D (buffer_pool e) σ f id p a -> g p = Some x -> view f g d e = (e, Ok x).
Proof. intros Hed Hg. unfold view. rewrite (edited_get _ _ _ _ _ _ _ Hed). by rewrite Hg. Qed.

Lemma edit_edited {D : list Z} {A} e σ f id p a p' a' (g : Page -> option (Page * A)) d x :
  edited D (buffer_pool e) σ f id p a -> g p = Some (p', x) -> pid p' = pid p -> page_rep p' a' ->
  exists b, edit f g d e = (set_pool b e, Ok x) /\ edited D b σ f id p' a'.
Proof.
  intros Hed Hg Hp Hr. eexists. unfold edit. rewrite (edited_get _ _ _ _ _ _ _ Hed), Hg.
  split; [done|]. by eapply edited_set.
Qed.

Lemma edited_rep {D : list Z} b σ f id p a : edited D b σ f id p a -> page_rep p a /\ pid p = id.
Proof. by intros (? & ? & ? & ? & ? & ? & ?). Qed.

Lemma page_slots_edited {D : list Z} e σ f id p a :
  edited D (buffer_pool e) σ f id p a ->
  page_slots f e = (e, Ok (seqZ 0 (Z.of_nat (length (cells a))))).
Proof.
  intros Hed. unfold page_slots.
  erewrite st_bind_ok; [done|]. eapply view_edited; [done|].
  by eapply num_slots_refines, edited_rep.
Qed.

Lemma view_tuple {D : list Z} e σ f id p a i :
  edited D (buffer_pool e) σ f id p a -> 0 <= i ->
  view f (fun p => get_tuple p i) None e = (e, Ok (spec_get a i)).
Proof. intros Hed Hi. eapply view_edited; [done|]. eapply get_refines; [by eapply edited_rep|done]. Qed.

Lemma decode_stored s row b e : stored s row b -> decode_row s b e = (e, Ok row).
Proof. intros Hs. unfold decode_row, st_lift. by rewrite (stored_decode s row b). Qed.

Lemma filter_row_result s row filter e : filter_row s row filter e = (e, filter_result s filter row).
Proof. by destruct filter. Qed.

(** All the tuples of a page hold rows. *)
Definition page_stored s a : Prop :=
  forall i b, 0 <= i -> spec_get a i = Some b -> exists row, stored s row b.

Lemma page_tuples_snd id a :
  (page_tuples id a).*2 = omap (spec_get a) (seqZ 0 (Z.of_nat (length (cells a)))).
Proof.
  unfold page_tuples. induction (seqZ _ _) as [|i l IH]; [done|]. csimpl.
  destruct (spec_get a i); csimpl; by rewrite IH.
Qed.

Lemma scan_slots_ok {D : list Z} e σ f id p a s cols filter slots :
  edited D (buffer_pool e) σ f id p a -> page_stored s a -> Forall (fun i => 0 <= i) slots ->
  scan_slots s cols filter f slots e =
    (e, select_rows s cols filter (decoded s <$> omap (spec_get a) slots)).
Proof.
  intros Hed Hst. induction 1 as [|i slots Hi Hsl IH]; [done|]. cbn [scan_slots].
  rewrite (st_bind_ok _ _ _ _ _ (view_tuple e σ f id p a i Hed Hi)). csimpl.
  destruct (spec_get a i) as [b|] eqn:Eb; [|by rewrite IH].
  destruct (Hst i b Hi Eb) as [row Hrow].
  rewrite (st_bind_ok _ _ _ _ _ (decode_stored s row b e Hrow)). csimpl.
  rewrite (stored_decoded s row b Hrow).
  unfold mbind at 1, st_bind at 1. rewrite filter_row_result. cbn [select_rows].
  destruct (filter_result s filter row) as [[|]| |]; cbn; [|by rewrite IH|done..].
  unfold mbind at 1, st_bind at 1, st_lift at 1.
  destruct (project s row cols) as [r| |]; cbn; [|done..].
  unfold mbind at 1, st_bind at 1. rewrite IH.
  by destruct (select_rows _ _ _ _).
Qed.

Lemma set_pool_pool b e : buffer_pool (set_pool b e) = b.
Proof. done. Qed.

Lemma set_pool_set b b' e : set_pool b (set_pool b' e) = set_pool b e.
Proof. done. Qed.

(** A scan gives the rows of the pages; what it leaves in the pool is only
    settled when it succeeds, since an error leaves the page pinned. *)
Lemma scan_pages_ok {D : list Z} e σ s cols filter pids :
  idle D (buffer_pool e) σ ->
  (forall id, id ∈ pids -> exists a, σ !! id = Some a /\ page_stored s a) ->
  exists b, scan_pages s cols filter pids e =
      (set_pool b e, select_rows s cols filter (table_rows s σ pids).*2) /\
    ((exists rs, select_rows s cols filter (table_rows s σ pids).*2 = Ok rs) -> idle D b σ).
Proof.
  revert e. induction pids as [|id pids IH]; intros e Hi Hall.
  { exists (buffer_pool e). split; [by destruct e|done]. }
  destruct (Hall id) as (a & Ha & Hst); [left|].
  destruct (fetch_idle D (buffer_pool e) σ id a Hi Ha) as (b1 & f & p & Hf & Hheld).
  cbn [scan_pages]. rewrite (st_bind_ok _ _ _ _ _ (pool_ok_step _ _ _ _ Hf)).
  set (e1 := set_pool b1 e).
  assert (Hed : edited D (buffer_pool e1) σ f id p a) by by apply edited_refl.
  rewrite (st_bind_ok _ _ _ _ _ (page_slots_edited _ _ _ _ _ _ Hed)).
  assert (Hrows : (table_rows s σ (id :: pids)).*2 =
    (decoded s <$> omap (spec_get a) (seqZ 0 (Z.of_nat (length (cells a))))) ++ (table_rows s σ pids).*2).
  { unfold table_rows. rewrite heap_tuples_cons, Ha. simpl. rewrite !fmap_app. f_equal.
    rewrite <- (page_tuples_snd id a), <- !list_fmap_compose. done. }
  rewrite Hrows, select_rows_app.
  unfold mbind at 1, st_bind at 1. rewrite (scan_slots_ok _ _ _ _ _ _ s cols filter _ Hed Hst)
    by (apply Forall_forall; intros i [? _]%elem_of_seqZ; lia).
  destruct (select_rows s cols filter (decoded s <$> _)) as [rs| |] eqn:Er; cbn.
  2,3: (exists b1; split; [done|]; by intros [? ?]).
  destruct (unpin_held _ _ _ _ _ _ _ Hheld) as (b2 & Hu & Hi2).
  rewrite (st_bind_ok _ _ _ _ _ (pool_ok_step (unpin f false) e1 b2 tt Hu)).
  destruct (IH (set_pool b2 e1) Hi2) as (b3 & Hscan & Hi3); [intros i Hin; apply Hall; by right|].
  unfold mbind, st_bind. rewrite Hscan. exists b3.
  destruct (select_rows s cols filter (table_rows s σ pids).*2) as [rest| |] eqn:Er2.
  - split; [done|]. intros _. by apply Hi3; eauto.
  - split; [done|]. by intros [? ?].
  - split; [done|]. by intros [? ?].
Qed.
End Reading.

(** ** The invariant of a session *)
Record table_ok (σ : gmap Z spec_page) (s : Schema) (pids : list Z) : Prop := {
  tb_nodup : NoDup pids;
  tb_pages id : id ∈ pids -> exists a, σ !! id = Some a /\ page_stored s a;
  tb_names : NoDup (col_name <$> columns s);
}.

Record tables_ok (σ : gmap Z spec_page) (c : Catalog) (tp : gmap rstring (list Z)) : Prop := {
  tk_dom t : is_Some (tables c !! t) <-> is_Some (tp !! t);
  tk_table t s pids : tables c !! t = Some s -> tp !! t = Some pids -> table_ok σ s pids;
  tk_disjoint t t' pids pids' id :
    t <> t' -> tp !! t = Some pids -> tp !! t' = Some pids' -> id ∈ pids -> id ∉ pids';
}.

(** An index has exactly the INT values of its column, with where they are. *)
Record index_holds (σ : gmap Z spec_page) (s : Schema) (pids : list Z) (i : nat) (es : entries) : Prop := {
  ih_sorted : es_sorted es;
  ih_rows k r : es_lookup k es = Some r <->
    exists b, page_id r ∈ pids /\ tuple_at σ r = Some b /\ decoded s b !! i = Some (VInt k);
}.

(** Indexes are on the primary keys, and those are INT columns. *)
Record indexes_ok (σ : gmap Z spec_page) (c : Catalog) (tp : gmap rstring (list Z))
    (ix : gmap (rstring * rstring) entries) : Prop := {
  ix_pk t s pk : tables c !! t = Some s -> schema_pk s = Some pk -> is_Some (ix !! (t, pk));
  ix_only t col es : ix !! (t, col) = Some es ->
    exists s pids i cd, tables c !! t = Some s /\ tp !! t = Some pids /\ schema_pk s = Some col /\
      col_index s col = Some i /\ columns s !! i = Some cd /\ ty cd = DInt /\
      index_holds σ s pids i es;
}.

(** The records of the log, and the transactions they are of: a record of a
    transaction that is not active is of one that has committed. *)
Record logged (w : WalManager) (rs : list LogRecord) : Prop := {
  lg_file : log_file w = log_of rs;
  lg_recs : Forall rec_ok rs;
  lg_txns r t : r ∈ rs -> rec_txn r = Some t -> t ∈ txns_of committed_by rs \/ t ∈ active_txns w;
}.

(** Replaying the records gives the pages; those that have none are empty. *)
Definition replays (rs : list LogRecord) (σ : gmap Z spec_page) : Prop :=
  db_eq (spec_replay ∅ rs) σ /\ forall id, is_Some (spec_replay ∅ rs !! id) -> is_Some (σ !! id).

(** The log's copy of a page has the room of the page, and the log replayed
    gives the pages. *)
Record wal_sync (w : WalManager) (σ : gmap Z spec_page) : Prop := {
  ws_ids id : is_Some (σ !! id) -> in_u32 id;
  ws_room id : in_u32 id ->
    exists aw, page_rep (entry_page (wal_pages w) id) aw /\ room aw = room (dpage σ id);
  ws_log : exists rs, logged w rs /\ replays rs σ;
}.

(** A transaction at work, and the log between statements. *)
Definition writing (t : Z) (w : WalManager) : Prop := active_txns w = {[t]} /\ in_u32 t.

Definition quiet (w : WalManager) : Prop := active_txns w = ∅ /\ log_synced w = length (log_file w).

Definition synced (e : Executor) (σ : gmap Z spec_page) (ix : gmap (rstring * rstring) entries) : Prop :=
  tables_ok σ (catalog e) (table_pages e) /\ index_rel (index_manager e) ix /\
  indexes_ok σ (catalog e) (table_pages e) ix /\ wal_sync (ex_wal e) σ.

Record exec_ok `{Crc32} (e : Executor) (σ : gmap Z spec_page) (ix : gmap (rstring * rstring) entries)
    : Prop := {
  xk_idle : idle [] (buffer_pool e) σ;
  xk_sync : synced e σ ix;
  xk_quiet : quiet (ex_wal e);
}.

(** ** Index lookups *)
Section IndexRows.
Implicit Types (es : entries) (k : Z) (r : Rid).

Lemma es_lookup_elem es k r : es_sorted es -> es_lookup k es = Some r <-> (k, r) ∈ es.
Proof.
  intros Hs. induction es as [|[k' r'] es IH]; csimpl.
  - split; [done|by intros ?%elem_of_nil].
  - apply es_sorted_cons in Hs as [Hg Hs]. rewrite elem_of_cons.
    destruct (Z.eqb_spec k' k) as [->|Hne].
    + split; [by intros [= ->]; left|]. intros [[= ->]|Hin]; [done|].
      specialize (Hg _ Hin). simpl in Hg. lia.
    + rewrite (IH Hs). naive_solver.
Qed.

Lemma elem_of_es_range es a b r :
  r ∈ es_range a b es <-> exists k, (k, r) ∈ es /\ a <= k <= b.
Proof.
  induction es as [|[k' r'] es IH]; csimpl.
  - split; [by intros ?%elem_of_nil|]. by intros (k & ?%elem_of_nil & _).
  - destruct (Z.leb_spec a k'), (Z.leb_spec k' b); csimpl; rewrite ?elem_of_cons, IH;
      setoid_rewrite elem_of_cons; naive_solver lia.
Qed.

Lemma es_range_sublist es a b : es_range a b es `sublist_of` es.*2.
Proof.
  induction es as [|[k r] es IH]; csimpl; [done|]. destruct (_ && _); csimpl; by constructor.
Qed.

(** The keys a comparison selects. *)
Definition key_in (o : Op) (rhs k : Z) : bool :=
  match o with
  | OpEq => k =? rhs | OpLt => k <? rhs | OpLe => k <=? rhs
  | OpGt => rhs <? k | OpGe => rhs <=? k | _ => false
  end.

(** The operators an index answers, when the bound does not overflow. *)
Definition index_answers (o : Op) (rhs : Z) : bool :=
  match o with
  | OpEq | OpLe | OpGe => true
  | OpLt => I64_MIN <? rhs
  | OpGt => rhs <? I64_MAX
  | _ => false
  end.

Lemma in_i64_bounds z : in_i64 z <-> I64_MIN <= z <= I64_MAX.
Proof. unfold I64_MIN, I64_MAX. split; intros; width. Qed.

Lemma add_i64_ok a b : I64_MIN <= a + b <= I64_MAX -> add_i64 a b = Some (a + b).
Proof. intros Hb. unfold add_i64. apply in_i64_bounds in Hb. by rewrite decide_True. Qed.

(** A range scan whose bounds amount to the comparison. *)
Lemma bounded_rids (res : option (list Rid)) es a b (sel : Z -> bool) :
  (exists rids, res = Some rids /\ NoDup rids /\
     forall r, r ∈ rids <-> exists k, es_lookup k es = Some r /\ a <= k <= b) ->
  (forall k r, es_lookup k es = Some r -> sel k = true <-> a <= k <= b) ->
  exists rids, (rs ← res; Some (Some rs)) = Some (Some rids) /\ NoDup rids /\
    forall r, r ∈ rids <-> exists k, es_lookup k es = Some r /\ sel k = true.
Proof.
  intros (rids & -> & Hn & Hin) Hsel. exists rids. split_and!; [done..|]. intros r. rewrite Hin.
  split; intros (k & Hl & Hk); exists k; (split; [done|]); by apply (Hsel k r Hl).
Qed.

Lemma index_rids_ok m ix t col es o rhs :
  index_rel m ix -> ix !! (t, col) = Some es -> es_sorted es -> NoDup es.*2 ->
  (forall k r, (k, r) ∈ es -> in_i64 k) -> in_i64 rhs -> index_answers o rhs = true ->
  exists rids, index_rids m t col o rhs = Some (Some rids) /\ NoDup rids /\
    forall r, r ∈ rids <-> exists k, es_lookup k es = Some r /\ key_in o rhs k = true.
Proof.
  intros Hrel Hes Hs Hnd Hk Hr Ho. unfold index_rids.
  assert (Hrange : forall a b, exists rids, index_range m t col a b = Some rids /\ NoDup rids /\
    forall r, r ∈ rids <-> exists k, es_lookup k es = Some r /\ a <= k <= b).
  { intros a b. rewrite (index_range_ok m ix) by done. rewrite Hes. simpl.
    eexists. split; [done|]. split; [by eapply sublist_NoDup, es_range_sublist|].
    intros r. rewrite elem_of_es_range. by setoid_rewrite es_lookup_elem. }
  assert (Hkey : forall k r, es_lookup k es = Some r -> in_i64 k).
  { intros k r Hl. apply es_lookup_elem in Hl; [|done]. by eapply Hk. }
  assert (Hend : forall k r, es_lookup k es = Some r -> I64_MIN <= k <= I64_MAX).
  { intros k r Hl%Hkey. by apply in_i64_bounds. }
  apply in_i64_bounds in Hr.
  destruct o; try done; cbn [key_in index_answers] in *.
  - rewrite (index_search_ok m ix) by done. rewrite Hes. cbn [mbind option_bind].
    eexists. split; [done|]. destruct (es_lookup rhs es) as [r|] eqn:El.
    + change (option_list (Some r)) with [r]. split; [apply NoDup_singleton|]. intros r'. rewrite list_elem_of_singleton. split.
      * intros ->. exists rhs. split; [done|lia].
      * intros (k & Hl & Hkr). assert (k = rhs) as -> by lia. congruence.
    + change (option_list None) with (@nil Rid). split; [constructor|]. intros r'.
      split; [by intros ?%elem_of_nil|]. intros (k & Hl & Hkr). assert (k = rhs) as -> by lia. congruence.
  - rewrite add_i64_ok by lia. cbn [mbind option_bind].
    apply (bounded_rids _ _ _ _ (fun k => k <? rhs) (Hrange I64_MIN (rhs + -1)));
      intros k r Hl; specialize (Hend k r Hl); lia.
  - rewrite add_i64_ok by lia. cbn [mbind option_bind].
    apply (bounded_rids _ _ _ _ (fun k => rhs <? k) (Hrange (rhs + 1) I64_MAX));
      intros k r Hl; specialize (Hend k r Hl); lia.
  - apply (bounded_rids _ _ _ _ (fun k => k <=? rhs) (Hrange I64_MIN rhs));
      intros k r Hl; specialize (Hend k r Hl); lia.
  - apply (bounded_rids _ _ _ _ (fun k => rhs <=? k) (Hrange rhs I64_MAX));
      intros k r Hl; specialize (Hend k r Hl); lia.
Qed.
End IndexRows.

(** ** SELECT *)
Section Selecting.
Context `{Crc32}.
Implicit Types (e : Executor) (σ : gmap Z spec_page) (s : Schema).

Lemma fetch_rids_ok {D : list Z} e σ s cols x meta rids :
  idle D (buffer_pool e) σ ->
  (forall id, id ∈ meta -> exists a, σ !! id = Some a /\ page_stored s a) ->
  Forall (fun r => 0 <= slot_id r /\ page_id r ∈ meta) rids ->
  exists b, fetch_rids s cols x meta rids e =
      (set_pool b e, select_rows s cols (Some x) (decoded s <$> omap (tuple_at σ) rids)) /\ idle D b σ.
Proof.
  intros Hi Hall Hr. revert e Hi. induction Hr as [|r rids [H0 Hin] _ IH]; intros e Hi.
  { exists (buffer_pool e). split; [by destruct e|done]. }
  cbn [fetch_rids]. rewrite decide_False by tauto.
  destruct (Hall _ Hin) as (a & Ha & Hst).
  destruct (fetch_idle D (buffer_pool e) σ _ a Hi Ha) as (b1 & f & p & Hf & Hheld).
  rewrite (st_bind_ok _ _ _ _ _ (pool_ok_step _ _ _ _ Hf)). set (e1 := set_pool b1 e).
  assert (Hed : edited D (buffer_pool e1) σ f (page_id r) p a) by by apply edited_refl.
  rewrite (st_bind_ok _ _ _ _ _ (view_tuple e1 σ f _ p a _ Hed H0)).
  destruct (unpin_held _ _ _ _ _ _ _ Hheld) as (b2 & Hu & Hi2).
  rewrite (st_bind_ok _ _ _ _ _ (pool_ok_step (unpin f false) e1 b2 tt Hu)).
  destruct (IH (set_pool b2 e1) Hi2) as (b3 & Hrest & Hi3).
  assert (Ht : tuple_at σ r = spec_get a (slot_id r)).
  { unfold tuple_at. rewrite decide_True by done. by rewrite Ha. }
  csimpl. rewrite Ht. destruct (spec_get a (slot_id r)) as [b|] eqn:Eb.
  2: { rewrite Hrest. eauto. }
  destruct (Hst _ b H0 Eb) as [row Hrow]. csimpl.
  rewrite (st_bind_ok _ _ _ _ _ (decode_stored s row b _ Hrow)), (stored_decoded s row b Hrow).
  unfold mbind at 1, st_bind at 1, st_lift at 1. cbn [filter_result].
  destruct (eval_filter s row x) as [[|]|err|]; cbn [mbind result_bind].
  - unfold mbind at 1, st_bind at 1, st_lift at 1.
    destruct (project s row cols) as [pr|err|]; cbn [mbind result_bind]; [|by exists b2..].
    unfold mbind at 1, st_bind at 1. rewrite Hrest. exists b3. split; [|done].
    by destruct (select_rows _ _ _ _).
  - rewrite Hrest. eauto.
  - by exists b2.
  - by exists b2.
Qed.

(** The rows that match, as a filter on the table's rows sees them. *)
Lemma eval_key s row x i cd rhs :
  col_index s (left x) = Some i -> columns s !! i = Some cd -> ty cd = DInt ->
  right x = VInt rhs -> index_answers (op x) rhs = true -> row_matches s row ->
  (exists k, row !! i = Some (VInt k) /\ eval_filter s row x = Ok (key_in (op x) rhs k)) \/
  (row !! i = Some VNull /\ eval_filter s row x = Ok false).
Proof.
  intros Hi Hc Hty Hr Ho Hm. destruct (row_matches_cell s row i cd Hm Hc) as (v & Hv & Ht).
  rewrite Hty in Ht. rewrite (eval_filter_truth s row x i v) by done. rewrite Hr.
  destruct v as [k| | |]; try done; [left|right].
  - exists k. split; [done|].
    destruct (op x); try done; cbn; destruct (Z.compare_spec k rhs); try done; simpl; f_equal; lia.
  - split; [done|]. by destruct (op x).
Qed.

Lemma indexed_column σ c tp ix t col es s pids :
  indexes_ok σ c tp ix -> ix !! (t, col) = Some es -> tables c !! t = Some s -> tp !! t = Some pids ->
  exists i cd, schema_pk s = Some col /\ col_index s col = Some i /\ columns s !! i = Some cd /\
    ty cd = DInt /\ index_holds σ s pids i es.
Proof.
  intros Hix He Hs Hp. destruct (ix_only _ _ _ _ Hix t col es He)
    as (s' & pids' & i & cd & Hs' & Hp' & Hpk & Hi & Hc & Hty & Hh).
  assert (s' = s) as -> by congruence. assert (pids' = pids) as -> by congruence. eauto 10.
Qed.

(** The tuples of a table hold rows of its schema. *)
Lemma table_tuple σ s pids r b :
  table_ok σ s pids -> page_id r ∈ pids -> tuple_at σ r = Some b ->
  0 <= slot_id r /\ exists row, stored s row b.
Proof.
  intros Htb Hin Hb. unfold tuple_at in Hb. case_decide as H0; [|done]. split; [done|].
  destruct (tb_pages _ _ _ Htb _ Hin) as (a & Ha & Hst). rewrite Ha in Hb. by eapply Hst.
Qed.

Lemma index_entry_once σ s pids i es k k' r :
  index_holds σ s pids i es -> es_lookup k es = Some r -> es_lookup k' es = Some r -> k = k'.
Proof.
  intros Hh (b & _ & Hb & Hk)%(ih_rows _ _ _ _ _ Hh) (b' & _ & Hb' & Hk')%(ih_rows _ _ _ _ _ Hh).
  congruence.
Qed.

Lemma index_rids_nodup σ s pids i es : index_holds σ s pids i es -> NoDup es.*2.
Proof.
  intros Hh. pose proof (ih_sorted _ _ _ _ _ Hh) as Hs.
  assert (Honce : forall k k' r, (k, r) ∈ es -> (k', r) ∈ es -> k = k').
  { intros k k' r H1 H2. apply es_lookup_elem in H1, H2; try done. by eapply index_entry_once. }
  clear Hh. induction es as [|[k r] es IH]; csimpl; [constructor|].
  apply es_sorted_cons in Hs as [Hg Hs]. constructor.
  - intros ([k' r'] & Heq & Hin)%list_elem_of_fmap. simpl in Heq. subst r'.
    specialize (Hg _ Hin). simpl in Hg. assert (k = k') by (eapply Honce; [left|by right]). lia.
  - apply IH; [done|]. intros k1 k2 r' H1 H2. eapply Honce; by right.
Qed.

Lemma index_key_i64 σ s pids i es k r :
  table_ok σ s pids -> index_holds σ s pids i es -> es_lookup k es = Some r -> in_i64 k.
Proof.
  intros Htb Hh (b & Hin & Hb & Hk)%(ih_rows _ _ _ _ _ Hh).
  destruct (table_tuple _ _ _ _ _ Htb Hin Hb) as [_ [row Hst]].
  rewrite (stored_decoded s row b Hst) in Hk. destruct Hst as (_ & _ & _ & _ & Hok).
  by apply (Forall_lookup_1 _ _ _ _ Hok Hk).
Qed.

(** The rows an index gives and the rest make up the table. *)
Lemma index_split σ s pids rids :
  table_ok σ s pids -> NoDup rids ->
  Forall (fun r => page_id r ∈ pids /\ is_Some (tuple_at σ r)) rids ->
  heap_tuples σ pids ≡ₚ
    omap (fun r => pair r <$> tuple_at σ r) rids ++ filter (fun t => t.1 ∉ rids) (heap_tuples σ pids).
Proof.
  intros Htb Hnd Hr. pose proof (NoDup_heap_rids σ pids (tb_nodup _ _ _ Htb)) as Hh.
  assert (Hht : NoDup (heap_tuples σ pids)) by (by eapply NoDup_fmap_1).
  apply NoDup_Permutation; [done| |].
  - apply NoDup_app. split_and!.
    + clear Hr Hh Hht. induction Hnd as [|r rids Hnin _ IH]; csimpl; [constructor|].
      destruct (tuple_at σ r) as [b|]; csimpl; [|done]. constructor; [|done].
      intros (r' & Hin & E)%list_elem_of_omap. apply fmap_Some in E as (? & _ & [= -> _]). done.
    + intros t (r & Hin & E)%list_elem_of_omap. apply fmap_Some in E as (b & _ & ->).
      rewrite list_elem_of_filter. naive_solver.
    + by apply NoDup_filter.
  - intros [r b]. rewrite elem_of_app, list_elem_of_omap, list_elem_of_filter. cbn [fst].
    rewrite elem_of_heap_tuples. split.
    + intros [Hp Hb]. destruct (decide (r ∈ rids)); [|by right]. left. exists r. by rewrite Hb.
    + intros [(r' & Hin & E)|[_ ?]]; [|done]. apply fmap_Some in E as (b' & Hb & [= <- <-]).
      rewrite Forall_forall in Hr. by destruct (Hr _ Hin).
Qed.

(** The filters an index answers; and of these the two whose bound, the literal
    plus or minus one, is out of range. *)
Definition uses_index (ix : gmap (rstring * rstring) entries) (table : rstring) (filter : option Expr) : bool :=
  match filter with
  | Some x =>
      bool_decide (is_Some (ix !! (table, left x))) &&
      match right x with VInt _ => bool_decide (op x ∈ [OpEq; OpLt; OpLe; OpGt; OpGe]) | _ => false end
  | None => false
  end.

Definition bound_overflows (ix : gmap (rstring * rstring) entries) (table : rstring) (filter : option Expr) : bool :=
  uses_index ix table filter &&
  match filter with
  | Some x =>
      match right x, op x with
      | VInt n, OpGt => n =? I64_MAX
      | VInt n, OpLt => n =? I64_MIN
      | _, _ => false
      end
  | None => false
  end.

(** An integer literal is an [i64], as every value of the program is. *)
Definition literal_ok (filter : option Expr) : Prop :=
  match filter with
  | Some x => match right x with VInt n => in_i64 n | _ => True end
  | None => True
  end.

Lemma find_schema_ok e table s :
  tables (catalog e) !! table = Some s -> find_schema table e = (e, Ok s).
Proof. intros Hs. unfold find_schema, asks, mbind, st_bind, catalog_get. by rewrite Hs. Qed.

Lemma find_meta_ok e table pids :
  table_pages e !! table = Some pids -> find_meta table e = (e, Ok pids).
Proof. intros Hs. unfold find_meta, asks, mbind, st_bind. by rewrite Hs. Qed.

Lemma bounds_answers ix table x n :
  literal_ok (Some x) -> uses_index ix table (Some x) = true -> bound_overflows ix table (Some x) = false ->
  right x = VInt n -> op x ∈ [OpEq; OpLt; OpLe; OpGt; OpGe] ->
  in_i64 n /\ index_answers (op x) n = true.
Proof.
  unfold literal_ok, bound_overflows, index_answers. intros Hb -> Ho Hr Hin. rewrite Hr in *. split; [done|].
  apply in_i64_bounds in Hb.
  destruct (op x); try done;
    try (by repeat (apply elem_of_cons in Hin as [?|Hin]; [done|]); apply elem_of_nil in Hin);
    cbn in Ho; apply Z.eqb_neq in Ho; apply Z.ltb_lt; lia.
Qed.

Lemma overflow_rids ix table x n m :
  bound_overflows ix table (Some x) = true -> right x = VInt n -> index_rids m table (left x) (op x) n = None.
Proof.
  unfold bound_overflows, index_rids, add_i64. intros [_ Ho]%andb_true_iff Hr. rewrite Hr in Ho.
  destruct (op x); try done; apply Z.eqb_eq in Ho as ->; (rewrite decide_False; [done|]); unfold in_i64, I64_MAX, I64_MIN; lia.
Qed.

Lemma index_rids_none m table col o rhs :
  o ∉ [OpEq; OpLt; OpLe; OpGt; OpGe] -> index_rids m table col o rhs = Some None.
Proof. rewrite !not_elem_of_cons. intros (? & ? & ? & ? & ? & _). by destruct o. Qed.

(** The rows an index lookup reads and then what it does not. *)
Definition index_order s σ pids (rids : list Rid) : list Row :=
  (decoded s <$> omap (tuple_at σ) rids) ++
  (decoded s <$> (filter (fun t => t.1 ∉ rids) (heap_tuples σ pids)).*2).

Lemma index_order_perm s σ pids rids :
  table_ok σ s pids -> NoDup rids ->
  Forall (fun r => page_id r ∈ pids /\ is_Some (tuple_at σ r)) rids ->
  index_order s σ pids rids ≡ₚ (table_rows s σ pids).*2.
Proof.
  intros Htb Hnd Hr. pose proof (index_split σ s pids rids Htb Hnd Hr) as Hp.
  apply (fmap_Permutation (fun t : Rid * bytes => decoded s t.2)) in Hp.
  unfold table_rows. rewrite <- list_fmap_compose. unfold compose. cbn [snd].
  rewrite Hp, fmap_app. unfold index_order. rewrite <- list_fmap_compose. apply Permutation_app_tail.
  clear. induction rids as [|r rids IH]; csimpl; [done|]. destruct (tuple_at σ r); csimpl; by rewrite IH.
Qed.

Lemma try_index_ok e σ ix table s pids x cols n :
  exec_ok e σ ix -> tables (catalog e) !! table = Some s -> table_pages e !! table = Some pids ->
  is_Some (ix !! (table, left x)) -> right x = VInt n -> in_i64 n -> index_answers (op x) n = true ->
  exists b rows, idle [] b σ /\ rows ≡ₚ (table_rows s σ pids).*2 /\
    try_index_select table s x cols pids e =
      (set_pool b e, rs ← select_rows s cols (Some x) rows; Ok (Some rs)).
Proof.
  intros [Hi (Htk & Hrel & Hix & _)] Hs Hp [es He] Hr Hn Ho.
  pose proof (tk_table _ _ _ Htk _ _ _ Hs Hp) as Htb.
  destruct (indexed_column _ _ _ _ _ _ _ _ _ Hix He Hs Hp) as (i & cd & Hpk & Hci & Hcd & Hty & Hh).
  destruct (index_rids_ok (index_manager e) ix table (left x) es (op x) n)
    as (rids & Hrids & Hnd & Hin); try done.
  { apply Hh. } { by eapply index_rids_nodup. }
  { intros k r Hkr. apply es_lookup_elem in Hkr; [|apply Hh]. by eapply index_key_i64. }
  assert (Hall : Forall (fun r => 0 <= slot_id r /\ page_id r ∈ pids) rids).
  { apply Forall_forall. intros r (k & Hl & _)%Hin.
    apply (ih_rows _ _ _ _ _ Hh) in Hl as (b & Hpr & Hb & _).
    split; [by eapply table_tuple|done]. }
  destruct (fetch_rids_ok e σ s cols x pids rids Hi (tb_pages _ _ _ Htb) Hall) as (b & Hf & Hi').
  exists b, (index_order s σ pids rids). split; [done|]. split.
  { apply index_order_perm; [done|done|]. apply Forall_forall. intros r (k & Hl & _)%Hin.
    apply (ih_rows _ _ _ _ _ Hh) in Hl as (b' & Hpr & Hb & _). eauto. }
  unfold try_index_select, asks. unfold mbind at 1, st_bind at 1.
  rewrite (has_index_ok _ ix) by done. rewrite bool_decide_eq_true_2 by eauto. cbn [negb].
  rewrite Hr. unfold mbind at 1, st_bind at 1. rewrite Hrids.
  unfold mbind at 1, st_bind at 1, st_lift at 1. cbn [or_panic].
  unfold mbind at 1, st_bind at 1. rewrite Hf. unfold index_order. rewrite select_rows_app.
  rewrite (select_rows_dropped s cols (Some x) (decoded s <$> (filter _ _).*2)).
  { destruct (select_rows _ _ _ _); cbn; by rewrite ?app_nil_r. }
  apply Forall_fmap, Forall_fmap, Forall_forall. intros [r b'] [Hnin Hin']%list_elem_of_filter. cbn in *.
  apply elem_of_heap_tuples in Hin' as [Hpr Hb'].
  destruct (table_tuple _ _ _ _ _ Htb Hpr Hb') as [_ [row Hst]]. rewrite (stored_decoded s row b' Hst).
  destruct (eval_key s row x i cd n) as [(k & Hk & ->)|[_ ->]]; try done; [by eapply stored_matches|].
  destruct (key_in (op x) n k) eqn:Ek; [|done]. destruct Hnin. apply Hin. exists k. split; [|done].
  apply (ih_rows _ _ _ _ _ Hh). exists b'. by rewrite (stored_decoded s row b' Hst).
Qed.

Lemma try_index_unused e σ ix table s pids x cols :
  exec_ok e σ ix -> uses_index ix table (Some x) = false ->
  try_index_select table s x cols pids e = (e, Ok None).
Proof.
  intros [_ (_ & Hrel & _ & _)] Hu. unfold try_index_select, asks. unfold mbind at 1, st_bind at 1.
  rewrite (has_index_ok _ ix) by done. unfold uses_index in Hu.
  destruct (bool_decide (is_Some (ix !! (table, left x)))); [|done]. cbn [negb].
  destruct (right x) as [n| | |]; try done. apply bool_decide_eq_false in Hu.
  unfold mbind at 1, st_bind at 1. by rewrite index_rids_none.
Qed.

Lemma uses_index_true ix table x :
  uses_index ix table (Some x) = true ->
  exists n, is_Some (ix !! (table, left x)) /\ right x = VInt n /\ op x ∈ [OpEq; OpLt; OpLe; OpGt; OpGe].
Proof.
  intros [Hx Hu]%andb_true_iff. apply bool_decide_eq_true in Hx. destruct (right x) as [n| | |]; try done.
  apply bool_decide_eq_true in Hu. by exists n.
Qed.

(** The bound of the index that is out of range panics before anything changes. *)
Lemma exec_select_overflow e σ ix table s pids cols filter order limit :
  exec_ok e σ ix -> tables (catalog e) !! table = Some s -> table_pages e !! table = Some pids ->
  bound_overflows ix table filter = true ->
  exec_select table cols filter order limit e = (e, Panic).
Proof.
  intros [_ (_ & Hrel & _ & _)] Hs Hp Hof. pose proof Hof as [Hu _]%andb_true_iff.
  destruct filter as [x|]; [|done]. destruct (uses_index_true _ _ _ Hu) as (n & Hx & Hr & _).
  unfold exec_select. rewrite (st_bind_ok _ _ _ _ _ (find_schema_ok _ _ _ Hs)).
  rewrite (st_bind_ok _ _ _ _ _ (find_meta_ok _ _ _ Hp)).
  unfold try_index_select, asks, mbind, st_bind. rewrite (has_index_ok _ ix) by done.
  rewrite bool_decide_eq_true_2 by done. cbn [negb]. by rewrite Hr, (overflow_rids ix table x n).
Qed.

Lemma exec_ok_pool e σ ix b : exec_ok e σ ix -> idle [] b σ -> exec_ok (set_pool b e) σ ix.
Proof. intros [_ Hs] Hi. by constructor. Qed.

Lemma exec_select_ok e σ ix table s pids cols filter order limit :
  exec_ok e σ ix -> tables (catalog e) !! table = Some s -> table_pages e !! table = Some pids ->
  literal_ok filter -> bound_overflows ix table filter = false ->
  exists b rows,
    exec_select table cols filter order limit e =
      (set_pool b e, rs ← select_rows s cols filter rows; order_limit s cols order limit rs) /\
    rows ≡ₚ (table_rows s σ pids).*2 /\
    (uses_index ix table filter = false -> rows = (table_rows s σ pids).*2) /\
    ((exists rs, select_rows s cols filter rows = Ok rs) -> exec_ok (set_pool b e) σ ix).
Proof.
  intros Hok Hs Hp Hb Hof. pose proof Hok as [Hi (Htk & Hrel & Hix & Hw)].
  pose proof (tk_table _ _ _ Htk _ _ _ Hs Hp) as Htb.
  unfold exec_select. rewrite (st_bind_ok _ _ _ _ _ (find_schema_ok _ _ _ Hs)).
  rewrite (st_bind_ok _ _ _ _ _ (find_meta_ok _ _ _ Hp)).
  destruct (uses_index ix table filter) eqn:Hu.
  - destruct filter as [x|]; [|done]. destruct (uses_index_true _ _ _ Hu) as (n & Hx & Hr & Hin).
    destruct (bounds_answers ix table x n Hb Hu Hof Hr Hin) as [Hn Ho].
    destruct (try_index_ok e σ ix table s pids x cols n) as (b & rows & Hi' & Hperm & Ht); [done..|].
    exists b, rows. split; [|split; [done|split; [done|intros _; by eapply exec_ok_pool]]].
    unfold mbind at 1, st_bind at 1. rewrite Ht.
    by destruct (select_rows s cols (Some x) rows) as [rs| |].
  - assert (Htry : match filter with
                   | Some x => try_index_select table s x cols pids
                   | None => mret None end e = (e, Ok None)).
    { destruct filter as [x|]; [|done]. by eapply try_index_unused. }
    rewrite (st_bind_ok _ _ _ _ _ Htry).
    destruct (scan_pages_ok e σ s cols filter pids Hi (tb_pages _ _ _ Htb)) as (b & Hscan & Hi').
    exists b, (table_rows s σ pids).*2.
    split; [|split; [done|split; [done|intros Hrs; eapply exec_ok_pool; [done|by apply Hi']]]].
    unfold mbind at 1, st_bind at 1. rewrite Hscan.
    by destruct (select_rows s cols filter _) as [rs| |].
Qed.
End Selecting.
