(* ===== verification/Changes.v ===== *)
(** * One row changes

    INSERT, DELETE and UPDATE change the tables a row at a time: the tuple at
    one place appears, goes or is replaced, the index of the table follows and
    the log gets a record.  A change of one row keeps the invariant of the
    session. *)
From S2P Require Export Session.
Local Open Scope Z_scope.

(** ** Entries *)
Section EntryChanges.
Implicit Types (es : entries) (k : Z) (r : Rid).

Lemma es_lookup_delete k k' es :
  es_sorted es -> es_lookup k' (es_delete k es) = if decide (k' = k) then None else es_lookup k' es.
Proof.
  induction es as [|[k1 r1] es IH]; csimpl; [by case_decide|]. intros [Hg Hs]%es_sorted_cons.
  destruct (Z.eqb_spec k1 k) as [->|Hne]; csimpl.
  - case_decide as Hk; [subst k'|by rewrite (proj2 (Z.eqb_neq k k')) by lia].
    apply es_lookup_None. intros e He. specialize (Hg e He). simpl in Hg. lia.
  - rewrite IH by done. case_decide; [|done]. by rewrite (proj2 (Z.eqb_neq k1 k')) by lia.
Qed.

Lemma es_lookup_insert k k' r es :
  es_lookup k es = None -> es_lookup k' (es_insert k r es) = if decide (k' = k) then Some r else es_lookup k' es.
Proof.
  induction es as [|[k1 r1] es IH]; csimpl.
  - intros _. case_decide; [subst; by rewrite Z.eqb_refl|by rewrite (proj2 (Z.eqb_neq k k')) by lia].
  - destruct (Z.eqb_spec k1 k) as [->|Hne]; [done|]. intros Hk.
    destruct (k1 <? k); csimpl.
    + rewrite IH by done. case_decide; [|done]. by rewrite (proj2 (Z.eqb_neq k1 k')) by lia.
    + case_decide; [subst; by rewrite Z.eqb_refl|]. by rewrite (proj2 (Z.eqb_neq k k')) by lia.
Qed.
End EntryChanges.

(** ** The change of a row in an index *)
Definition row_key (i : nat) (row : Row) : option Z :=
  match row !! i with Some (VInt k) => Some k | _ => None end.

Definition tuple_key (s : Schema) (i : nat) (b : option bytes) : option Z :=
  b ← b; row_key i (decoded s b).

Definition del_key (k : option Z) (es : entries) : entries :=
  match k with Some k => es_delete k es | None => es end.
Definition add_key (k : option Z) (r : Rid) (es : entries) : entries :=
  match k with Some k => es_insert k r es | None => es end.

(** [σ'] is [σ] but for the tuple at [r0]. *)
Definition changes (σ σ' : gmap Z spec_page) (r0 : Rid) (b : option bytes) : Prop :=
  forall r, tuple_at σ' r = if decide (r = r0) then b else tuple_at σ r.

Section IndexChange.
Implicit Types (σ : gmap Z spec_page) (s : Schema).

Lemma index_holds_key σ s pids i es k r :
  index_holds σ s pids i es ->
  es_lookup k es = Some r <-> page_id r ∈ pids /\ tuple_key s i (tuple_at σ r) = Some k.
Proof.
  intros Hh. rewrite (ih_rows _ _ _ _ _ Hh). unfold tuple_key, row_key. split.
  - intros (b & Hp & Hb & Hk). rewrite Hb. cbn. by rewrite Hk.
  - intros [Hp Hk]. destruct (tuple_at σ r) as [b|]; cbn in Hk; [|done].
    exists b. split_and!; [done..|]. destruct (decoded s b !! i) as [[]|]; congruence.
Qed.

Lemma index_holds_change σ σ' s pids i es r0 b :
  index_holds σ s pids i es -> page_id r0 ∈ pids -> changes σ σ' r0 b ->
  let es1 := del_key (tuple_key s i (tuple_at σ r0)) es in
  (forall k, tuple_key s i b = Some k -> es_lookup k es1 = None) ->
  index_holds σ' s pids i (add_key (tuple_key s i b) r0 es1).
Proof.
  intros Hh Hp Hch es1 Hfresh. pose proof (ih_sorted _ _ _ _ _ Hh) as Hs.
  assert (Hs1 : es_sorted es1).
  { unfold es1, del_key. destruct (tuple_key _ _ _); [by apply es_sorted_delete|done]. }
  assert (H1 : forall k r, es_lookup k es1 = Some r <->
    r <> r0 /\ page_id r ∈ pids /\ tuple_key s i (tuple_at σ r) = Some k).
  { intros k r. rewrite <- (index_holds_key _ _ _ _ _ _ _ Hh). unfold es1, del_key.
    destruct (tuple_key s i (tuple_at σ r0)) as [k0|] eqn:E0.
    - rewrite es_lookup_delete by done. case_decide as Hk.
      + subst k. split; [done|]. intros [Hne Hl].
        assert (es_lookup k0 es = Some r0) by (by apply (index_holds_key _ _ _ _ _ _ _ Hh)). congruence.
      + split; [|by intros []]. intros Hl. split; [|done]. intros ->.
        apply (index_holds_key _ _ _ _ _ _ _ Hh) in Hl as [_ Hl]. congruence.
    - split; [|by intros []]. intros Hl. split; [|done]. intros ->.
      apply (index_holds_key _ _ _ _ _ _ _ Hh) in Hl as [_ Hl]. congruence. }
  constructor.
  - unfold add_key. destruct (tuple_key s i b) eqn:E; [apply es_sorted_insert; auto|done].
  - intros k r.
    transitivity (page_id r ∈ pids /\ tuple_key s i (tuple_at σ' r) = Some k).
    2: { unfold tuple_key, row_key. split.
         - intros [Hpr Hk]. destruct (tuple_at σ' r) as [b'|]; cbn in Hk; [|done].
           exists b'. split_and!; [done..|]. destruct (decoded s b' !! i) as [[]|]; congruence.
         - intros (b' & Hpr & Hb & Hk). rewrite Hb. cbn. by rewrite Hk. }
    rewrite Hch. unfold add_key. destruct (tuple_key s i b) as [k1|] eqn:E1.
    + rewrite es_lookup_insert by auto. destruct (decide (k = k1)) as [->|Hk].
      * split; [intros [= <-]; by rewrite decide_True|].
        case_decide as Hr; [by subst|]. intros [Hpr Hkr].
        assert (es_lookup k1 es1 = Some r) by (apply H1; done). rewrite Hfresh in *; done.
      * rewrite H1. case_decide; [|naive_solver]. subst. rewrite E1. naive_solver.
    + rewrite H1. case_decide; [|naive_solver]. subst. rewrite E1. naive_solver.
Qed.

Lemma index_holds_frame σ σ' s pids i es :
  index_holds σ s pids i es -> (forall r, page_id r ∈ pids -> tuple_at σ' r = tuple_at σ r) ->
  index_holds σ' s pids i es.
Proof.
  intros [Hs Hr] Hf. constructor; [done|]. intros k r. rewrite Hr.
  split; intros (b & Hp & Hb & Hk); exists b; (split; [done|]); (split; [|done]); specialize (Hf r Hp); congruence.
Qed.
End IndexChange.

(** ** The change of a row in the tables *)
Definition ix_change (s : Schema) (table : rstring) (f : entries -> entries)
    (ix : gmap (rstring * rstring) entries) : gmap (rstring * rstring) entries :=
  match schema_pk s with Some pk => alter f (table, pk) ix | None => ix end.

Section TableChange.
Implicit Types (σ : gmap Z spec_page) (s : Schema) (c : Catalog).

Lemma table_ok_change σ id a' r0 b s pids :
  table_ok σ s pids -> is_Some (σ !! id) -> page_id r0 = id ->
  changes σ (<[id := a']> σ) r0 b ->
  (id ∈ pids -> forall x, b = Some x -> exists row, stored s row x) ->
  table_ok (<[id := a']> σ) s pids.
Proof.
  intros [Hnd Hpg Hnm] [a0 Ha0] Hr0 Hch Hb. constructor; [done| |done].
  intros id' Hid'. destruct (Hpg id' Hid') as (a & Ha & Hst).
  destruct (decide (id' = id)) as [->|Hne].
  - exists a'. rewrite lookup_insert_eq. split; [done|]. intros i x Hi Hx.
    specialize (Hch (mkRid id i)). rewrite tuple_at_page with (a := a') in Hch by (done || apply lookup_insert_eq).
    rewrite Hx in Hch. case_decide; [by eapply Hb|].
    rewrite (tuple_at_page σ id a) in Hch by done. by eapply (Hst i).
  - exists a. by rewrite lookup_insert_ne.
Qed.

Lemma indexes_change σ c tp ix table s pids id a' r0 b :
  tables_ok σ c tp -> indexes_ok σ c tp ix ->
  tables c !! table = Some s -> tp !! table = Some pids -> id ∈ pids -> page_id r0 = id ->
  changes σ (<[id := a']> σ) r0 b ->
  (forall i pk es, schema_pk s = Some pk -> col_index s pk = Some i -> ix !! (table, pk) = Some es ->
     forall k, tuple_key s i b = Some k ->
     es_lookup k (del_key (tuple_key s i (tuple_at σ r0)) es) = None) ->
  forall f, (forall i pk es, schema_pk s = Some pk -> col_index s pk = Some i ->
     f es = add_key (tuple_key s i b) r0 (del_key (tuple_key s i (tuple_at σ r0)) es)) ->
  indexes_ok (<[id := a']> σ) c tp (ix_change s table f ix).
Proof.
  intros Htk Hix Hs Hp Hid Hr0 Hch Hfresh f Hf. constructor.
  - intros t s' pk Hs' Hpk. pose proof (ix_pk _ _ _ _ Hix t s' pk Hs' Hpk) as Hx.
    unfold ix_change. destruct (schema_pk s) as [pk0|]; [|done].
    by rewrite lookup_alter_is_Some.
  - intros t col es Hx.
    destruct (decide (t = table)) as [->|Hne].
    + assert (Hold : exists es0, ix !! (table, col) = Some es0 /\
        (schema_pk s = Some col -> es = f es0)).
      { unfold ix_change in Hx. destruct (schema_pk s) as [pk|]; [|exists es; split; done].
        destruct (decide (pk = col)) as [->|Hpk].
        - rewrite lookup_alter_eq in Hx. apply fmap_Some in Hx as (es0 & ? & ->). eauto.
        - rewrite lookup_alter_ne in Hx by congruence. exists es. split; [done|]. congruence. }
      destruct Hold as (es0 & Hx0 & Hes).
      destruct (indexed_column _ _ _ _ _ _ _ _ _ Hix Hx0 Hs Hp) as (i & cd & Hpk & Hi & Hcd & Hty & Hh).
      exists s, pids, i, cd. split_and!; try done. rewrite (Hes Hpk), (Hf i col es0 Hpk Hi).
      apply (index_holds_change σ); [done|by subst|done|]. by eapply Hfresh.
    + assert (Hx0 : ix !! (t, col) = Some es).
      { unfold ix_change in Hx. destruct (schema_pk s); [|done]. rewrite lookup_alter_ne in Hx; congruence. }
      destruct (ix_only _ _ _ _ Hix t col es Hx0) as (s' & pids' & i & cd & Hs' & Hp' & Hpk & Hi & Hcd & Hty & Hh).
      exists s', pids', i, cd. split_and!; try done. eapply index_holds_frame; [done|].
      intros r Hr. apply tuple_at_insert_ne. intros <-.
      by eapply (tk_disjoint _ _ _ Htk table t).
Qed.

Lemma tables_change σ c tp table s pids id a' r0 b :
  tables_ok σ c tp -> tables c !! table = Some s -> tp !! table = Some pids -> id ∈ pids ->
  page_id r0 = id -> changes σ (<[id := a']> σ) r0 b ->
  (forall x, b = Some x -> exists row, stored s row x) -> tables_ok (<[id := a']> σ) c tp.
Proof.
  intros Htk Hs Hp Hid Hr0 Hch Hb. constructor.
  - apply (tk_dom _ _ _ Htk).
  - intros t s' pids' Hs' Hp'. pose proof (tk_table _ _ _ Htk _ _ _ Hs' Hp') as Htb.
    eapply table_ok_change; try done.
    + destruct (tb_pages _ _ _ (tk_table _ _ _ Htk _ _ _ Hs Hp) id Hid) as (a & Ha & _). eauto.
    + intros Hin x Hx. destruct (decide (t = table)) as [->|Hne].
      * assert (s' = s) as -> by congruence. by eapply Hb.
      * exfalso. by eapply (tk_disjoint _ _ _ Htk table t).
  - intros t t' p p' id' Hne Hp1 Hp2. by eapply (tk_disjoint _ _ _ Htk).
Qed.
End TableChange.
