(* ===== verification/Writes.v ===== *)
(** * What the write statements share

    A handler [answers] a specification when it returns the specification's
    answer and, on success, reaches a state the postcondition describes.  The
    log has [wal_room] for the records a statement will write; every call on it
    keeps the copy of the pages in step.  The loop over the indexed columns
    does its work on the primary key, and a statement that runs over a table
    changes its tuples one place at a time. *)
From S2P Require Export Changes.
Local Open Scope Z_scope.

(** ** Answers of handlers *)
Definition answers {A B} (m : ex A) (e : Executor) (r : result exec_error B)
    (Q : A -> B -> Executor -> Prop) : Prop :=
  match r with
  | Ok b => exists a e', m e = (e', Ok a) /\ Q a b e'
  | Err x => exists e', m e = (e', Err x)
  | Panic => exists e', m e = (e', Panic)
  end.

Section Answers.
Context {A A' B B' : Type}.
Implicit Types (e : Executor).

Lemma answers_ret (a : A) (b : B) e (Q : A -> B -> Executor -> Prop) : Q a b e -> answers (mret a) e (Ok b) Q.
Proof. intros HQ. by exists a, e. Qed.

Lemma answers_bind (m : ex A) (k : A -> ex A') e (r : result exec_error B) (s : B -> result exec_error B')
    (P : A -> B -> Executor -> Prop) (Q : A' -> B' -> Executor -> Prop) :
  answers m e r P -> (forall a b e', r = Ok b -> P a b e' -> answers (k a) e' (s b) Q) ->
  answers (x ← m; k x) e (x ← r; s x) Q.
Proof.
  intros Hm Hk. destruct r as [b|x|]; cbn [answers mbind result_bind] in *.
  - destruct Hm as (a & e' & E & HP). specialize (Hk a b e' eq_refl HP). unfold answers in *.
    unfold mbind, st_bind. by rewrite E.
  - destruct Hm as [e' E]. exists e'. unfold mbind, st_bind. by rewrite E.
  - destruct Hm as [e' E]. exists e'. unfold mbind, st_bind. by rewrite E.
Qed.

(** A call the specification does not see. *)
Lemma answers_step (m : ex A) (k : A -> ex A') e e' a (r : result exec_error B')
    (Q : A' -> B' -> Executor -> Prop) :
  m e = (e', Ok a) -> answers (k a) e' r Q -> answers (x ← m; k x) e r Q.
Proof. intros E Hk. unfold answers in *. unfold mbind, st_bind. by rewrite E. Qed.

(** A pure check, the same in the specification. *)
Lemma answers_lift (k : B -> ex A') e (r : result exec_error B) (s : B -> result exec_error B')
    (Q : A' -> B' -> Executor -> Prop) :
  (forall b, r = Ok b -> answers (k b) e (s b) Q) ->
  answers (x ← st_lift r; k x) e (x ← r; s x) Q.
Proof.
  intros Hk. destruct r as [b|x|]; cbn [mbind result_bind].
  - exact (Hk b eq_refl).
  - by exists e.
  - by exists e.
Qed.

(** More is known of the state it succeeds in. *)
Lemma answers_also (m : ex A) e (r : result exec_error B) (P : A -> B -> Executor -> Prop) (R : A -> Executor -> Prop) :
  answers m e r P -> (forall e' a, m e = (e', Ok a) -> R a e') -> answers m e r (fun a b e' => P a b e' /\ R a e').
Proof.
  intros Hm HR. unfold answers in *. destruct r as [b|x|]; [|done..]. destruct Hm as (a & e' & E & HP).
  exists a, e'. auto.
Qed.

Lemma answers_mono (m : ex A) e (r : result exec_error B) (P Q : A -> B -> Executor -> Prop) :
  answers m e r P -> (forall a b e', P a b e' -> Q a b e') -> answers m e r Q.
Proof. intros Hm HPQ. destruct r; cbn in *; [|done..]. destruct Hm as (x & e1 & E & HP). eauto 6. Qed.
End Answers.

(** ** The log *)
(** The counters allow [n] more calls. *)
Definition wal_room (w : WalManager) (n : nat) : Prop :=
  0 <= current_lsn w /\ current_lsn w + Z.of_nat n < 2 ^ 64 /\
  0 <= next_txn_id w /\ next_txn_id w + Z.of_nat n < 2 ^ 32.

Section Log.
Implicit Types (w : WalManager) (σ : gmap Z spec_page) (a : spec_page).

Lemma wal_room_less w n k : wal_room w (k + n) -> wal_room w n.
Proof. unfold wal_room. lia. Qed.

(** The log with one more record. *)
Definition appended (r : LogRecord) w : WalManager :=
  mkWal (log_file w ++ LogRecord_to_bytes (with_lsn (current_lsn w) r)) (log_synced w) (current_lsn w + 1)
    (next_txn_id w) (active_txns w) (wal_pages w).

Lemma append_room w r n :
  wal_room w (S n) -> append r w = (appended r w, Ok (current_lsn w)) /\ wal_room (appended r w) n.
Proof.
  intros (H0 & Hn & Ht0 & Htn). unfold append. rewrite decide_True by width. split; [done|].
  unfold wal_room. cbn. lia.
Qed.

Lemma wal_room_lsn w n : wal_room w n -> in_u64 (current_lsn w).
Proof. intros (H0 & Hn & _). width. Qed.

Lemma spec_redo_lsn σ l r : spec_redo σ (with_lsn l r) = spec_redo σ r.
Proof. by destruct r. Qed.

Lemma dpage_found σ id a : σ !! id = Some a -> dpage σ id = a.
Proof. unfold dpage. by intros ->. Qed.

Lemma txns_snoc f rs r t : t ∈ txns_of f (rs ++ [r]) <-> t ∈ txns_of f rs \/ f r = Some t.
Proof.
  unfold txns_of. rewrite !elem_of_list_to_set, omap_app, elem_of_app. csimpl.
  destruct (f r) as [u|]; [rewrite list_elem_of_singleton; naive_solver|].
  split; [intros [|Hn%elem_of_nil]; [by left|done]|naive_solver].
Qed.

Lemma logged_append w rs r :
  logged w rs -> rec_ok (with_lsn (current_lsn w) r) -> (forall t, rec_txn r = Some t -> t ∈ active_txns w) ->
  logged (appended r w) (rs ++ [with_lsn (current_lsn w) r]).
Proof.
  intros [Hf Hr Ht] Hok Hact. constructor.
  - cbn. rewrite Hf, log_of_app, log_of_cons. cbn. by rewrite app_nil_r.
  - apply Forall_app. auto.
  - intros r' t [Hin| ->%list_elem_of_singleton]%elem_of_app Hrt.
    + rewrite txns_snoc. destruct (Ht r' t Hin Hrt); auto.
    + right. apply Hact. by destruct r.
Qed.

Lemma replays_snoc rs σ l r : replays rs σ -> replays (rs ++ [with_lsn l r]) (spec_redo σ r).
Proof.
  intros [Heq Hdom]. unfold replays. rewrite spec_replay_snoc, spec_redo_lsn. split; [by rewrite Heq|].
  intros id. destruct r; cbn [spec_redo]; rewrite ?lookup_insert_is_Some'; naive_solver.
Qed.

(** A record goes out, and the pages of the log follow. *)
Lemma wal_sync_append w σ σ' m r :
  wal_sync w σ -> rec_ok (with_lsn (current_lsn w) r) -> (forall t, rec_txn r = Some t -> t ∈ active_txns w) ->
  (forall id, is_Some (σ' !! id) -> in_u32 id) ->
  (forall id, in_u32 id -> exists aw, page_rep (entry_page m id) aw /\ room aw = room (dpage σ' id)) ->
  spec_redo σ r = σ' -> wal_sync (appended r (set_wal_pages m w)) σ'.
Proof.
  intros [_ _ (rs & Hlg & Hrp)] Hok Hact Hids Hroom <-. constructor; [done..|].
  exists (rs ++ [with_lsn (current_lsn w) r]). split.
  - apply (logged_append (set_wal_pages m w)); [|done..]. destruct Hlg. by constructor.
  - by apply replays_snoc.
Qed.

(** Transactions that are active are few. *)
Lemma wal_sync_active w w' σ :
  log_file w' = log_file w -> wal_pages w' = wal_pages w -> active_txns w ⊆ active_txns w' ->
  wal_sync w σ -> wal_sync w' σ.
Proof.
  intros Hf Hp Ha [Hi Hr (rs & [Hlf Hlr Hlt] & Hrp)]. constructor; [done|by rewrite Hp|].
  exists rs. split; [|done]. constructor; [by rewrite Hf|done|]. intros r t Hin Hrt.
  destruct (Hlt r t Hin Hrt); auto.
Qed.

Lemma set_wal_pages_id w : set_wal_pages (wal_pages w) w = w.
Proof. by destruct w. Qed.

Lemma begin_ok w σ n :
  wal_sync w σ -> active_txns w = ∅ -> wal_room w (S n) ->
  exists w' t, begin_txn w = (w', Ok t) /\ writing t w' /\ wal_sync w' σ /\ wal_room w' n.
Proof.
  intros Hs Hact Hl. pose proof Hl as (H0 & Hn & Ht0 & Htn). unfold begin_txn. rewrite decide_True by width.
  set (t := next_txn_id w). set (w1 := mkWal _ _ _ _ _ _).
  assert (Hu : in_u32 t) by width. assert (Hw1 : wal_room w1 n) by (unfold wal_room; cbn; lia).
  unfold mbind, st_bind, append. rewrite decide_True by (cbn; width).
  exists (appended (LogBegin 0 t) w1), t. split; [done|]. split; [|split].
  - split; [cbn; rewrite Hact; set_solver|done].
  - rewrite <- (set_wal_pages_id w1). eapply wal_sync_append with σ; [|by apply rec_ok_intro; [split; [by eapply wal_room_lsn|]|]|done|apply Hs|apply Hs|done].
    apply (wal_sync_active w); [done..|cbn; set_solver|done].
  - unfold wal_room. cbn. lia.
Qed.

Lemma commit_ok w σ t n :
  wal_sync w σ -> writing t w -> wal_room w (S n) ->
  exists w', commit t w = (w', Ok tt) /\ quiet w' /\ wal_sync w' σ /\ wal_room w' n.
Proof.
  intros Hs [Hact Hu] Hl. destruct (append_room w (LogCommit 0 t) n Hl) as [E Hl'].
  unfold commit. rewrite (st_bind_ok _ _ _ _ _ E). eexists. split; [done|]. split; [|split; [|done]].
  - split; [cbn; rewrite Hact; set_solver|done].
  - assert (Hs' : wal_sync (appended (LogCommit 0 t) w) σ).
    { rewrite <- (set_wal_pages_id w). apply wal_sync_append with σ; [done| |done|apply Hs|apply Hs|done].
      apply rec_ok_intro; [split; [by eapply wal_room_lsn|done]|done]. }
    destruct Hs as [_ _ (rs & Hlg & Hrp)]. constructor; [apply Hs'|apply Hs'|].
    exists (rs ++ [LogCommit (current_lsn w) t]).
    split; [|exact (replays_snoc _ _ (current_lsn w) (LogCommit 0 t) Hrp)].
    destruct (logged_append w rs (LogCommit 0 t) Hlg) as [Hf Hr Ht]; [|done|].
    { apply rec_ok_intro; [split; [by eapply wal_room_lsn|done]|done]. }
    constructor; [done..|]. intros r u Hr' Hu'. left. rewrite txns_snoc.
    destruct (Ht r u Hr' Hu') as [Hc|Ha]; [by apply txns_snoc in Hc|].
    cbn in Ha. rewrite Hact, elem_of_singleton in Ha. subst. by right.
Qed.

Lemma sync_ids σ id a : is_Some (σ !! id) -> (forall i, is_Some (σ !! i) -> in_u32 i) ->
  forall i, is_Some (<[id := a]> σ !! i) -> in_u32 i.
Proof. intros Hid Hall i. rewrite lookup_insert_is_Some'. intros [<-|Hi]; auto. Qed.

(** The room of the pages when one of them changes, here and in the log. *)
Lemma sync_rooms w σ id p aw a :
  wal_sync w σ -> page_rep p aw -> room aw = room a ->
  forall i, in_u32 i -> exists aw, page_rep (entry_page (<[id := p]> (wal_pages w)) i) aw /\
    room aw = room (dpage (<[id := a]> σ) i).
Proof.
  intros Hs Hp Hr i Hi. rewrite entry_page_insert, dpage_insert. case_decide; [by exists aw|].
  by apply (ws_room _ _ Hs).
Qed.

Lemma sync_rooms_keep w σ id a :
  wal_sync w σ -> room a = room (dpage σ id) ->
  forall i, in_u32 i -> exists aw, page_rep (entry_page (wal_pages w) i) aw /\
    room aw = room (dpage (<[id := a]> σ) i).
Proof.
  intros Hs Hr i Hi. rewrite dpage_insert. case_decide; [subst; rewrite Hr|]; by apply (ws_room _ _ Hs).
Qed.

Lemma log_update_ok w σ t id i old new a n :
  wal_sync w σ -> writing t w -> σ !! id = Some a -> wal_room w (S n) ->
  exists w', log_update t id i old new w = (w', Ok tt) /\ writing t w' /\ wal_room w' n /\
    (in_u16 i -> in_u16 (Z.of_nat (length old)) -> in_u16 (Z.of_nat (length new)) ->
     wal_sync w' (<[id := (spec_update a i new).1]> σ)).
Proof.
  intros Hs Hw Ha Hl. destruct (append_room w (LogUpdate 0 t id i old new) n Hl) as [E Hl'].
  unfold log_update. rewrite (st_bind_ok _ _ _ _ _ E). eexists. split; [done|]. split; [done|]. split; [done|].
  intros Hi Ho Hn. destruct Hw as [Hact Hu]. pose proof (ws_ids _ _ Hs id ltac:(eauto)) as Hid.
  rewrite <- (set_wal_pages_id w). apply wal_sync_append with σ; [done| | | | |].
  - apply rec_ok_intro; [|done]. cbn. split_and!; first [done | by eapply wal_room_lsn | by eapply rep_slots | by apply bytes_ok_u16].
  - intros u [= <-]. rewrite Hact. set_solver.
  - apply sync_ids; [eauto|apply Hs].
  - apply sync_rooms_keep; [done|]. rewrite (dpage_found _ _ _ Ha). apply spec_update_shape.
  - cbn. by rewrite (dpage_found _ _ _ Ha).
Qed.

Lemma room_delete a i : room (spec_delete a i).1 = room a.
Proof. apply spec_delete_shape. Qed.

Lemma log_delete_ok w σ t id i a n :
  wal_sync w σ -> writing t w -> σ !! id = Some a -> in_u16 i -> wal_room w (S n) ->
  exists w' b, log_delete t id i w = (w', Ok b) /\ writing t w' /\
    wal_sync w' (<[id := (spec_delete a i).1]> σ) /\ wal_room w' n.
Proof.
  intros Hs [Hact Hu] Ha Hi Hl. pose proof (ws_ids _ _ Hs id ltac:(eauto)) as Hid.
  destruct (ws_room _ _ Hs id Hid) as (aw & Hrep & Hr). rewrite (dpage_found _ _ _ Ha) in Hr.
  assert (Hgo : forall m old, in_u16 (Z.of_nat (length old)) ->
    (forall i', in_u32 i' -> exists aw, page_rep (entry_page m i') aw /\ room aw = room (dpage (<[id := (spec_delete a i).1]> σ) i')) ->
    exists w', append (LogDelete 0 t id i old) (set_wal_pages m w) = (w', Ok (current_lsn w)) /\ writing t w' /\
      wal_sync w' (<[id := (spec_delete a i).1]> σ) /\ wal_room w' n).
  { intros m old Ho Hm. destruct (append_room (set_wal_pages m w) (LogDelete 0 t id i old) n Hl) as [E Hl'].
    eexists. split; [exact E|]. split; [done|]. split; [|done]. apply wal_sync_append with σ; [done| | | |done|].
    - apply rec_ok_intro; [|done]. cbn. split_and!; first [done | by eapply wal_room_lsn | by eapply rep_slots | by apply bytes_ok_u16].
    - intros u [= <-]. rewrite Hact. set_solver.
    - apply sync_ids; [eauto|apply Hs].
    - cbn. by rewrite (dpage_found _ _ _ Ha). }
  assert (H0 : 0 <= i) by width. unfold log_delete. destruct (wal_pages w !! id) as [p|] eqn:Ep.
  - rewrite (entry_page_found _ _ _ Ep) in Hrep. rewrite (get_refines p aw) by done.
    destruct (delete_refines p aw i Hrep H0) as (p' & -> & Hrep' & _). cbn [mbind option_bind].
    destruct (Hgo (<[id := p']> (wal_pages w)) (default [] (spec_get aw i))) as (w' & E & Hpost).
    + destruct (spec_get aw i) as [b|] eqn:Eg; cbn; [by eapply (spec_get_length p aw i)|width].
    + eapply sync_rooms; [done..|]. by rewrite !room_delete.
    + rewrite (st_bind_ok _ _ _ _ _ E). by eexists _, _.
  - destruct (Hgo (wal_pages w) []) as (w' & E & Hpost); [cbn; width| |].
    + apply sync_rooms_keep; [done|]. by rewrite (dpage_found _ _ _ Ha), room_delete.
    + rewrite (st_bind_ok _ _ _ _ _ E). by eexists _, _.
Qed.

(** The number of slots of a page is a 16 bit integer. *)
Lemma rep_slots p a : page_rep p a -> in_u16 (Z.of_nat (length (cells a))).
Proof.
  intros (h & ss & HL & HF & _). pose proof (read_header_ok _ _ (lay_hdr _ _ _ HL)) as (_ & Hh & _).
  pose proof (lay_num _ _ _ HL) as Hn. rewrite (Forall2_length _ _ _ HF) in Hn. by rewrite <- Hn.
Qed.

Lemma log_insert_ok w σ t id x a n :
  wal_sync w (<[id := a]> σ) -> writing t w -> in_u16 (Z.of_nat (length x)) -> Z.of_nat (length x) + 5 <= room a ->
  wal_room w (S n) ->
  exists w' i, log_insert t id x w = (w', Ok i) /\ writing t w' /\
    wal_sync w' (<[id := (spec_insert a x).1]> σ) /\ wal_room w' n.
Proof.
  intros Hs [Hact Hu] Hx Hroom Hl.
  assert (Hid : in_u32 id) by (apply (ws_ids _ _ Hs); rewrite lookup_insert_eq; eauto).
  destruct (ws_room _ _ Hs id Hid) as (aw & Hrep & Hr). rewrite dpage_insert, decide_True in Hr by done.
  unfold log_insert. destruct (insert_refines _ aw x Hrep Hx) as (p' & -> & Hrep' & _).
  assert (Hfit : forall b, room b = room a ->
    spec_insert b x = (mkSpec (cells b ++ [Some x]) (room b - (Z.of_nat (length x) + 5)), Some (Z.of_nat (length (cells b))))).
  { intros b Hb. unfold spec_insert. by rewrite (proj2 (Z.ltb_ge _ _)) by lia. }
  rewrite (Hfit aw Hr) in *. cbn [fst snd] in *.
  edestruct (append_room (set_wal_pages (<[id := p']> (wal_pages w)) w)) as [E Hl']; [exact Hl|].
  eexists _, _. cbn [ok_or]. unfold mbind at 1, st_bind at 1, st_lift at 1.
  rewrite (st_bind_ok _ _ _ _ _ E). split; [done|]. split; [done|]. split; [|exact Hl'].
  rewrite <- (insert_insert_eq σ id _ a). apply wal_sync_append with (<[id := a]> σ); [done| | | | |].
  - apply rec_ok_intro; [|done]. cbn. split_and!; first [done | by eapply wal_room_lsn | by eapply rep_slots | by apply bytes_ok_u16].
  - intros u [= <-]. rewrite Hact. set_solver.
  - apply sync_ids; [rewrite lookup_insert_eq; eauto|apply Hs].
  - eapply sync_rooms; [done..|]. rewrite (Hfit a eq_refl). cbn. lia.
  - cbn. by rewrite dpage_insert, decide_True.
Qed.
End Log.

(** ** The indexed column *)
Lemma set_indexes_id e : set_indexes (index_manager e) e = e.
Proof. by destruct e. Qed.

(** [m'] is an index manager with room for one key less. *)
Definition used_one (m m' : IndexManager BTree) : Prop := forall n, index_room m (S n) -> index_room m' n.

Lemma used_one_refl m : used_one m m.
Proof. intros n. by apply (index_room_less m n 1). Qed.

Section Indexed.
Implicit Types (e : Executor) (ix : gmap (rstring * rstring) entries) (row : Row).

Lemma index_delete_key e ix table col row i :
  index_rel (index_manager e) ix -> is_Some (row !! i) ->
  exists m, with_key row i (fun k => index_op_ex (fun m => index_delete m table col k)) e = (set_indexes m e, Ok tt) /\
    index_rel m (alter (del_key (row_key i row)) (table, col) ix) /\
    forall n, index_room (index_manager e) n -> index_room m n.
Proof.
  intros Hrel [v Hv]. unfold with_key, row_key. rewrite Hv. unfold mbind, st_bind, st_lift. cbn [or_panic].
  destruct v as [k|z|t|]; cbn [del_key].
  1: { destruct (index_delete_ok (index_manager e) ix table col k Hrel) as (m & E & Hm & Hr).
       exists m. unfold index_op_ex. by rewrite E. }
  all: exists (index_manager e); rewrite set_indexes_id; split_and!; [done| |done].
  all: by rewrite alter_id.
Qed.

Lemma index_insert_key e ix table col row i r :
  index_rel (index_manager e) ix -> is_Some (row !! i) -> index_room (index_manager e) 1 ->
  (forall k, row_key i row = Some k -> ix !! (table, col) ≫= es_lookup k = None) ->
  exists m, with_key row i (fun k => index_op_ex (fun m => index_insert m table col k r)) e = (set_indexes m e, Ok tt) /\
    index_rel m (alter (add_key (row_key i row) r) (table, col) ix) /\ used_one (index_manager e) m.
Proof.
  intros Hrel [v Hv] Hroom Hnew. unfold with_key, row_key in *. rewrite Hv in *.
  unfold mbind, st_bind, st_lift. cbn [or_panic].
  destruct v as [k|z|t|]; cbn [add_key].
  1: { destruct (index_insert_ok (index_manager e) ix table col k r 0 Hrel (Hnew k eq_refl) Hroom)
         as (m & E & Hm & _).
       exists m. unfold index_op_ex. rewrite E. split_and!; [done..|]. intros n Hn.
       destruct (index_insert_ok (index_manager e) ix table col k r n Hrel (Hnew k eq_refl) Hn)
         as (m' & E' & _ & Hr'). congruence. }
  all: exists (index_manager e); rewrite set_indexes_id; split_and!; [done| |apply used_one_refl].
  all: by rewrite alter_id.
Qed.

Lemma for_indexed_none e table cols i act :
  Forall (fun c => has_index (index_manager e) table (col_name c) = false) cols ->
  for_indexed table cols i act e = (e, Ok tt).
Proof.
  intros Hn. revert i. induction Hn as [|c cols Hc _ IH]; intros i; [done|]. cbn [for_indexed].
  unfold asks, mbind, st_bind. rewrite Hc. apply IH.
Qed.

(** The work is done once, on the column that is indexed, if the work leaves
    the other columns without an index. *)
Lemma for_indexed_one e e' table cols j act i cd :
  NoDup (col_name <$> cols) -> cols !! i = Some cd ->
  has_index (index_manager e) table (col_name cd) = true ->
  (forall c, c <> col_name cd -> has_index (index_manager e) table c = false /\
     has_index (index_manager e') table c = false) ->
  act (j + i)%nat cd e = (e', Ok tt) -> for_indexed table cols j act e = (e', Ok tt).
Proof.
  revert j i. induction cols as [|c cols IH]; intros j i; [done|]. csimpl.
  intros [Hnin Hnd]%NoDup_cons Hi Hcd Hoth Hact. cbn [for_indexed].
  unfold asks. unfold mbind at 1, st_bind at 1. destruct i as [|i].
  - injection Hi as ->. rewrite Hcd. rewrite Nat.add_0_r in Hact.
    rewrite (st_bind_ok _ _ _ _ _ Hact). apply for_indexed_none. apply Forall_forall.
    intros c' Hc'. apply Hoth. intros Heq. apply Hnin. rewrite <- Heq. by apply list_elem_of_fmap_2.
  - simpl in Hi. rewrite (proj1 (Hoth (col_name c) ltac:(intros Heq; apply Hnin; rewrite Heq;
      apply list_elem_of_fmap_2; by eapply list_elem_of_lookup_2))).
    rewrite (st_bind_ok (mret tt) _ e e tt eq_refl). apply (IH (S j) i); [done..|].
    by rewrite Nat.add_succ_comm.
Qed.

(** The place of the key among the columns. *)
Definition pk_place (s : Schema) : nat := default 0%nat (pk_col_index s).

Lemma indexed_names σ c tp ix m table s col :
  index_rel m ix -> indexes_ok σ c tp ix -> tables c !! table = Some s ->
  has_index m table col = bool_decide (schema_pk s = Some col).
Proof.
  intros Hrel Hix Hs. rewrite (has_index_ok m ix) by done. apply bool_decide_ext. split.
  - intros [es He]. destruct (ix_only _ _ _ _ Hix _ _ _ He) as (s' & ? & ? & ? & Hs' & ? & ? & _). congruence.
  - intros Hpk. by eapply ix_pk.
Qed.

(** A loop over the indexed columns does [act] to the key, which changes its
    entries by [f]. *)
Lemma for_indexed_pk e σ ix table s pids act f :
  index_rel (index_manager e) ix -> indexes_ok σ (catalog e) (table_pages e) ix ->
  tables (catalog e) !! table = Some s -> table_pages e !! table = Some pids ->
  NoDup (col_name <$> columns s) ->
  (forall pk es, schema_pk s = Some pk -> col_index s pk = Some (pk_place s) ->
     ix !! (table, pk) = Some es -> index_holds σ s pids (pk_place s) es -> forall cd, columns s !! pk_place s = Some cd ->
     col_name cd = pk ->
     exists m, act (pk_place s) cd e = (set_indexes m e, Ok tt) /\
       index_rel m (alter f (table, pk) ix) /\ used_one (index_manager e) m) ->
  exists m, for_indexed table (columns s) 0 act e = (set_indexes m e, Ok tt) /\
    index_rel m (ix_change s table f ix) /\ used_one (index_manager e) m.
Proof.
  intros Hrel Hix Hs Hp Hnd Hact. pose proof (indexed_names σ (catalog e) (table_pages e) ix (index_manager e) table s) as Hnames.
  unfold ix_change. destruct (schema_pk s) as [pk|] eqn:Hpk.
  - destruct (ix_pk _ _ _ _ Hix _ _ _ Hs Hpk) as [es He].
    destruct (indexed_column _ _ _ _ _ _ _ _ _ Hix He Hs Hp) as (i & cd & _ & Hi & Hcd & Hty & Hh).
    assert (Hplace : pk_place s = i) by (unfold pk_place, pk_col_index; rewrite Hpk; cbn; by rewrite Hi).
    rewrite Hplace in *.
    destruct (col_index_name _ _ _ Hi) as (cd' & Hcd' & Hname). assert (cd' = cd) as -> by congruence.
    destruct (Hact pk es eq_refl Hi He Hh cd Hcd Hname) as (m & E & Hm & Hu).
    exists m. split; [|done]. eapply (for_indexed_one _ _ _ _ _ _ i cd); [done..| | |done].
    + rewrite (Hnames (col_name cd)) by done. apply bool_decide_eq_true. congruence.
    + intros col Hne. split; [rewrite (Hnames col) by done; apply bool_decide_eq_false; congruence|].
      cbn. rewrite (has_index_ok m (alter f (table, pk) ix)) by done. apply bool_decide_eq_false.
      rewrite lookup_alter_is_Some. rewrite <- (bool_decide_eq_false (is_Some (ix !! (table, col)))).
      rewrite <- (has_index_ok (index_manager e) ix) by done. rewrite (Hnames col) by done.
      apply bool_decide_eq_false. congruence.
  - exists (index_manager e). rewrite set_indexes_id. split_and!; [|done|apply used_one_refl].
    apply for_indexed_none, Forall_forall. intros cd _. by rewrite (Hnames (col_name cd)).
Qed.
End Indexed.

(** ** A row changes *)
(** The entry of the row at [r0], whose tuple was [b0] and becomes [b]. *)
Definition row_change (s : Schema) (r0 : Rid) (b0 b : option bytes) (es : entries) : entries :=
  add_key (tuple_key s (pk_place s) b) r0 (del_key (tuple_key s (pk_place s) b0) es).

(** The key of the new row is not in the index once the old one is out. *)
Definition key_fresh (s : Schema) (table : rstring) (b0 b : option bytes)
    (ix : gmap (rstring * rstring) entries) : Prop :=
  forall pk es k, schema_pk s = Some pk -> ix !! (table, pk) = Some es ->
    tuple_key s (pk_place s) b = Some k ->
    es_lookup k (del_key (tuple_key s (pk_place s) b0) es) = None.

Lemma pk_place_at s pk i : schema_pk s = Some pk -> col_index s pk = Some i -> pk_place s = i.
Proof. intros Hpk Hi. unfold pk_place, pk_col_index. rewrite Hpk. cbn. by rewrite Hi. Qed.

Section RowChanges.
Implicit Types (e : Executor) (σ : gmap Z spec_page) (ix : gmap (rstring * rstring) entries) (row : Row).

Lemma synced_change e e' σ ix table s pids id a' r0 b :
  synced e σ ix -> tables (catalog e) !! table = Some s -> table_pages e !! table = Some pids ->
  id ∈ pids -> page_id r0 = id -> changes σ (<[id := a']> σ) r0 b ->
  (forall x, b = Some x -> exists row, stored s row x) ->
  key_fresh s table (tuple_at σ r0) b ix ->
  catalog e' = catalog e -> table_pages e' = table_pages e -> wal_sync (ex_wal e') (<[id := a']> σ) ->
  index_rel (index_manager e') (ix_change s table (row_change s r0 (tuple_at σ r0) b) ix) ->
  synced e' (<[id := a']> σ) (ix_change s table (row_change s r0 (tuple_at σ r0) b) ix).
Proof.
  intros (Htk & Hrel & Hix & _) Hs Hp Hid Hr0 Hch Hst Hfresh Hc Ht Hw Hrel'. unfold synced.
  rewrite Hc, Ht. split; [by eapply tables_change|]. split; [done|]. split; [|done].
  eapply indexes_change; try done.
  - intros i pk es Hpk Hi He k Hk. rewrite <- (pk_place_at _ _ _ Hpk Hi) in *. by eapply Hfresh.
  - intros i pk es Hpk Hi. by rewrite <- (pk_place_at _ _ _ Hpk Hi).
Qed.

(** The tuple at a place in use is replaced. *)
Definition put σ (r : Rid) (b : option bytes) : gmap Z spec_page :=
  alter (fun a => mkSpec (<[Z.to_nat (slot_id r) := b]> (cells a)) (room a)) (page_id r) σ.

Lemma tuple_at_Some σ r b :
  tuple_at σ r = Some b -> 0 <= slot_id r /\ exists a, σ !! page_id r = Some a /\ spec_get a (slot_id r) = Some b.
Proof.
  unfold tuple_at. case_decide; [|done]. destruct (σ !! page_id r) as [a|]; [|done]. eauto.
Qed.

Lemma put_page σ r b a :
  σ !! page_id r = Some a ->
  put σ r b = <[page_id r := mkSpec (<[Z.to_nat (slot_id r) := b]> (cells a)) (room a)]> σ.
Proof. intros Ha. unfold put. by rewrite (alter_present _ _ _ a). Qed.

Lemma put_changes σ r b b0 : tuple_at σ r = Some b0 -> changes σ (put σ r b) r b.
Proof.
  intros (H0 & a & Ha & Hb)%tuple_at_Some r'. rewrite (put_page _ _ _ _ Ha).
  destruct (decide (page_id r' = page_id r)) as [Hp|Hp].
  - rewrite tuple_at_insert_eq by done. unfold tuple_at. rewrite Hp, Ha.
    destruct (decide (0 <= slot_id r')) as [H0'|]; [|case_decide; [subst; lia|done]].
    cbn. unfold spec_get. cbn. pose proof (spec_get_lt _ _ _ Hb).
    destruct (decide (r' = r)) as [->|Hne]; [by rewrite list_lookup_insert_eq|].
    rewrite list_lookup_insert_ne; [done|]. intros Hs. apply Hne. destruct r, r'. cbn in *.
    f_equal; [done|lia].
  - rewrite tuple_at_insert_ne by done. rewrite decide_False by congruence. done.
Qed.

Lemma put_lookup σ r b id a :
  σ !! id = Some a -> exists a', put σ r b !! id = Some a' /\ length (cells a') = length (cells a) /\ room a' = room a.
Proof.
  intros Ha. unfold put. destruct (decide (page_id r = id)) as [<-|Hne].
  - rewrite lookup_alter_eq, Ha. cbn. eexists. split; [done|]. cbn. by rewrite length_insert.
  - rewrite lookup_alter_ne by done. eauto.
Qed.

Lemma synced_put e e' σ ix table s pids r0 b0 b :
  synced e σ ix -> tables (catalog e) !! table = Some s -> table_pages e !! table = Some pids ->
  page_id r0 ∈ pids -> tuple_at σ r0 = Some b0 ->
  (forall x, b = Some x -> exists row, stored s row x) -> key_fresh s table (Some b0) b ix ->
  catalog e' = catalog e -> table_pages e' = table_pages e -> wal_sync (ex_wal e') (put σ r0 b) ->
  index_rel (index_manager e') (ix_change s table (row_change s r0 (Some b0) b) ix) ->
  synced e' (put σ r0 b) (ix_change s table (row_change s r0 (Some b0) b) ix).
Proof.
  intros Hsy Hs Hp Hid Hb0 Hst Hfresh Hc Ht Hw Hrel. pose proof Hb0 as (H0 & a & Ha & Hb)%tuple_at_Some.
  rewrite <- Hb0 in *. rewrite (put_page _ _ _ _ Ha) in *. eapply synced_change; try done.
  rewrite <- (put_page _ _ _ _ Ha). by eapply put_changes.
Qed.
End RowChanges.

(** ** Steps of the handlers *)
Section Steps.
Context `{Crc32}.
Implicit Types (e : Executor) (σ : gmap Z spec_page) (ix : gmap (rstring * rstring) entries) (row : Row).

Lemma fetch_step {D : list Z} e σ id a :
  idle D (buffer_pool e) σ -> σ !! id = Some a ->
  exists b f, pool (fetch_page id) e = (set_pool b e, Ok f) /\ working D b σ f id false.
Proof.
  intros Hi Ha. destruct (fetch_working _ _ _ _ _ Hi Ha) as (b & f & E & Hw).
  exists b, f. split; [by apply pool_ok_step|done].
Qed.

Lemma fetch_lasting e σ id b f : pool_ok (buffer_pool e) σ -> pool (fetch_page id) e = (set_pool b e, Ok f) -> lasting (buffer_pool e) b.
Proof.
  intros Hok. unfold pool, st_zoom. destruct (fetch_page id (buffer_pool e)) as [b' r] eqn:E. intros E'.
  assert (b' = b) as -> by exact (f_equal (fun p => buffer_pool p.1) E'). destruct r; try done. by eapply fetch_page_lasting.
Qed.

Lemma slots_step {D : list Z} e σ f id dirty a :
  working D (buffer_pool e) σ f id dirty -> σ !! id = Some a ->
  page_slots f e = (e, Ok (seqZ 0 (Z.of_nat (length (cells a))))).
Proof.
  intros Hw Ha. destruct (working_get _ _ _ _ _ _ _ Hw Ha) as (p & Hp & Hr & _).
  unfold page_slots. erewrite st_bind_ok; [done|]. unfold view. rewrite Hp.
  by rewrite (num_slots_refines p a Hr).
Qed.

Lemma tuple_step {D : list Z} e σ f id dirty a i :
  working D (buffer_pool e) σ f id dirty -> σ !! id = Some a -> 0 <= i ->
  view f (fun p => get_tuple p i) None e = (e, Ok (tuple_at σ (mkRid id i))).
Proof.
  intros Hw Ha Hi. destruct (working_get _ _ _ _ _ _ _ Hw Ha) as (p & Hp & Hr & _).
  unfold view. rewrite Hp. rewrite (get_refines p a) by done. by rewrite (tuple_at_page _ _ a).
Qed.

Lemma edit_step {D : list Z} {A} e σ f id dirty a a' (g : Page -> option (Page * A)) d x :
  working D (buffer_pool e) σ f id dirty -> σ !! id = Some a ->
  (forall p, page_rep p a -> exists p', g p = Some (p', x) /\ page_rep p' a' /\ pid p' = pid p) ->
  exists b, edit f g d e = (set_pool b e, Ok x) /\ working D b (<[id := a']> σ) f id true.
Proof.
  intros Hw Ha Hg. destruct (working_get _ _ _ _ _ _ _ Hw Ha) as (p & Hp & Hr & Hid).
  destruct (Hg p Hr) as (p' & Hgp & Hr' & Hid'). exists (set_page f p' (buffer_pool e)).
  unfold edit. rewrite Hp, Hgp. split; [done|]. by eapply working_set.
Qed.

Lemma unpin_step {D : list Z} e σ f id dirty :
  working D (buffer_pool e) σ f id dirty ->
  exists b, pool (unpin f dirty) e = (set_pool b e, Ok tt) /\ idle (dirtied id dirty D) b σ.
Proof.
  intros Hw. destruct (working_unpin _ _ _ _ _ _ Hw) as (b & E & Hi). exists b.
  split; [by apply pool_ok_step|done].
Qed.

Lemma flush_step {D : list Z} e σ ids :
  idle D (buffer_pool e) σ -> D ⊆ ids ->
  exists b, pool (st_iter flush_page ids) e = (set_pool b e, Ok tt) /\ idle [] b σ.
Proof.
  intros Hi Hids. destruct (flush_list_idle D [] _ _ ids Hi) as (b & E & Hi').
  { intros i Hin Hnin. by destruct Hnin; apply Hids. }
  exists b. split; [by apply pool_ok_step|done].
Qed.

(** The entry of a row that goes, and of one that is replaced. *)
Lemma index_old_row_ok e σ ix table s pids row r0 b0 :
  index_rel (index_manager e) ix -> indexes_ok σ (catalog e) (table_pages e) ix ->
  tables (catalog e) !! table = Some s -> table_pages e !! table = Some pids ->
  NoDup (col_name <$> columns s) -> stored s row b0 ->
  exists m, index_old_row table s row e = (set_indexes m e, Ok tt) /\
    index_rel m (ix_change s table (row_change s r0 (Some b0) None) ix) /\ used_one (index_manager e) m.
Proof.
  intros Hrel Hix Hs Hp Hnd Hst. unfold index_old_row.
  eapply (for_indexed_pk e σ ix table s pids); try done.
  intros pk es Hpk Hi He Hh cd Hcd <-.
  destruct (row_matches_cell s row _ cd (stored_matches _ _ _ Hst) Hcd) as (v & Hv & _).
  destruct (index_delete_key e ix table (col_name cd) row (pk_place s) Hrel) as (m & E & Hm & Hr); [eauto|].
  exists m. split; [done|]. split; [|intros n Hn; by apply Hr, (index_room_less _ n 1)].
  unfold row_change, tuple_key. cbn. by rewrite (stored_decoded _ _ _ Hst).
Qed.

Lemma index_changed_row_ok e σ ix table s pids old new r0 b0 b :
  index_rel (index_manager e) ix -> indexes_ok σ (catalog e) (table_pages e) ix ->
  tables (catalog e) !! table = Some s -> table_pages e !! table = Some pids ->
  NoDup (col_name <$> columns s) -> stored s old b0 -> stored s new b ->
  key_fresh s table (Some b0) (Some b) ix -> index_room (index_manager e) 1 ->
  exists m, index_changed_row table s old new r0 e = (set_indexes m e, Ok tt) /\
    index_rel m (ix_change s table (row_change s r0 (Some b0) (Some b)) ix) /\ used_one (index_manager e) m.
Proof.
  intros Hrel Hix Hs Hp Hnd Ho Hn Hfresh Hroom. unfold index_changed_row.
  eapply (for_indexed_pk e σ ix table s pids); try done.
  intros pk es Hpk Hi He Hh cd Hcd <-.
  destruct (row_matches_cell s old _ cd (stored_matches _ _ _ Ho) Hcd) as (v & Hv & _).
  destruct (row_matches_cell s new _ cd (stored_matches _ _ _ Hn) Hcd) as (v' & Hv' & _).
  destruct (index_delete_key e ix table (col_name cd) old (pk_place s) Hrel) as (m & E & Hm & Hr); [eauto|].
  rewrite (st_bind_ok _ _ _ _ _ E).
  destruct (index_insert_key (set_indexes m e) _ table (col_name cd) new (pk_place s) r0 Hm)
    as (m' & E' & Hm' & Hu); [eauto|by apply Hr| |].
  { intros k Hk. rewrite (alter_present _ _ _ es He), lookup_insert_eq. cbn.
    specialize (Hfresh _ es k Hpk He). unfold tuple_key in Hfresh. cbn in Hfresh.
    rewrite (stored_decoded _ _ _ Ho), (stored_decoded _ _ _ Hn) in Hfresh. by apply Hfresh. }
  exists m'. split; [exact E'|]. split; [|intros n Hroom'; by apply Hu, Hr].
  unfold row_change, tuple_key. cbn. rewrite (stored_decoded _ _ _ Ho), (stored_decoded _ _ _ Hn).
  rewrite alter_alter_eq in Hm'. exact Hm'.
Qed.
End Steps.
