(* ===== verification/Recover.v ===== *)
(** * Recovery: the log and the pages

    When the engine opens its directory again, the log gives the pages back:
    every transaction on it has committed, so REDO replays all of it and UNDO
    has nothing to do.  The pages go through the pool into the file. *)
From S2P Require Export Writes.
Local Open Scope Z_scope.

(** The next process finds the files: a crash may cost the end of the log that
    was not yet synced, all but its first [k] bytes. *)
Definition restart (k : nat) (e : Executor) : Executor :=
  Executor_open (catalog_file e) (meta_files e) (file (disk (buffer_pool e)))
    (take (log_synced (ex_wal e) + k) (log_file (ex_wal e))).

(** The pages that the log alone gives back. *)
Definition replayed_pages (log : bytes) : gset Z := dom (wal_pages (recover (WalManager_new log)).1).

(** A crash may also cost writes to [data.db], which is never synced: of the
    pages that the log gives back, it then holds others. *)
Definition lose (old : list Page) (e : Executor) : Executor :=
  let d := disk (buffer_pool e) in
  let ps := filter (fun p => pid p ∈ replayed_pages (log_file (ex_wal e))) old in
  set_pool (set_disk (mkDisk (foldl page_over (file d) ps) (disk_num_pages d)) (buffer_pool e)) e.

(** ** The log *)
Section LogRecovery.
Implicit Types (m : gmap Z Page) (d : gmap Z spec_page) (C : gset Z) (rs : list LogRecord) (w : WalManager).

(** REDO makes no page that the replay does not have. *)
Lemma redo_record_dom C r m n m' n' d :
  redo_record C r (m, n) = Some (m', n') -> (forall id, is_Some (m !! id) -> is_Some (d !! id)) ->
  forall id, is_Some (m' !! id) -> is_Some (spec_redo d r !! id).
Proof.
  intros E Hd id.
  assert (Hput : forall i p (x : spec_page), m' = <[i := p]> m -> is_Some (m' !! id) -> is_Some (<[i := x]> d !! id)).
  { intros i p x ->. rewrite !lookup_insert_is_Some'. naive_solver. }
  assert (Hsame : forall i (x : spec_page), m' = m -> is_Some (m' !! id) -> is_Some (<[i := x]> d !! id)).
  { intros i x ->. rewrite lookup_insert_is_Some'. auto. }
  unfold redo_record in E. destruct r; cbn [spec_redo] in *; repeat case_match; simplify_option_eq; eauto.
  all: match type of E with (let '(_, _) := ?x in _) = _ => destruct x end; simplify_eq; eauto.
Qed.

Lemma redo_pass_dom C rs m n m' n' d :
  pass (redo_record C) rs (m, n) = Some (m', n') -> (forall id, is_Some (m !! id) -> is_Some (d !! id)) ->
  forall id, is_Some (m' !! id) -> is_Some (spec_replay d rs !! id).
Proof.
  revert m n d. induction rs as [|r rs IH]; intros m n d; [by intros [= <- <-]|]. cbn [pass].
  destruct (redo_record C r (m, n)) as [[m1 n1]|] eqn:E; [|done]. cbn [mbind option_bind].
  intros Hp Hd. eapply (IH m1 n1 (spec_redo d r)); [done|]. by eapply redo_record_dom.
Qed.

(** A log whose transactions have all committed. *)
Lemma recover_committed rs :
  Forall rec_ok rs -> (forall r t, r ∈ rs -> rec_txn r = Some t -> t ∈ txns_of committed_by rs) ->
  exists m rep, recover_pages rs ∅ = Some (m, rep) /\ db_rep m (spec_replay ∅ rs) /\
    forall id, is_Some (m !! id) -> is_Some (spec_replay ∅ rs !! id).
Proof.
  intros Hok Ht. unfold recover_pages.
  destruct (redo_pass_rep (txns_of committed_by rs) rs ∅ 0%nat ∅ db_rep_empty Hok Ht) as (m & n & E & Hm).
  rewrite E. cbn [mbind option_bind].
  destruct (undo_pass_skip (incomplete rs) (reverse rs) m 0%nat ∅) as [seen ->].
  { intros r t Hr Hrt. rewrite elem_of_reverse in Hr. unfold incomplete. rewrite elem_of_filter.
    pose proof (Ht r t Hr Hrt). tauto. }
  cbn [mbind option_bind]. do 2 eexists. split; [done|]. split; [done|].
  eapply redo_pass_dom; [done|]. intros id. rewrite lookup_empty. by intros [].
Qed.

Lemma recover_reads log rs :
  read_log log = Some rs ->
  recover (WalManager_new log) =
    (if decide (rs = []) then (WalManager_new log, Ok (mkReport 0 0 ∅)) else
     match recover_pages rs ∅ with
     | Some (m, report) => (set_wal_pages m (WalManager_new log), Ok report)
     | None => (WalManager_new log, Panic)
     end).
Proof.
  intros E. unfold recover, read_all_records, mbind, st_bind. cbn [log_file WalManager_new]. rewrite E.
  cbn [or_panic]. by case_decide.
Qed.

Lemma wal_room_new log m n : Z.of_nat n < 2 ^ 31 -> wal_room (set_wal_pages m (WalManager_new log)) n.
Proof.
  unfold wal_room. cbn. change (2 ^ 31) with 2147483648. change (2 ^ 64) with 18446744073709551616.
  change (2 ^ 32) with 4294967296. lia.
Qed.

(** Recovery of the log of a session between two statements. *)
Lemma recover_quiet w σ n :
  wal_sync w σ -> quiet w -> Z.of_nat n < 2 ^ 31 ->
  exists w' rep, recover (WalManager_new (log_file w)) = (w', Ok rep) /\ wal_sync w' σ /\ quiet w' /\ wal_room w' n /\
    (forall id p, wal_pages w' !! id = Some p -> exists a, σ !! id = Some a /\ page_rep p a) /\
    forall id, is_Some (σ !! id) -> page_rep (entry_page (wal_pages w') id) (dpage σ id).
Proof.
  intros [Hids _ (rs & [Hf Hr Ht] & Heq & Hdom)] [Hact _] Hn.
  assert (Hc : forall r t, r ∈ rs -> rec_txn r = Some t -> t ∈ txns_of committed_by rs).
  { intros r t Hin Hrt. destruct (Ht r t Hin Hrt) as [|Ha]; [done|]. rewrite Hact in Ha. set_solver. }
  rewrite Hf, (recover_reads _ rs) by (apply read_log_of; eapply Forall_impl; [exact Hr|by intros r [? _]]).
  assert (Hrec : exists m rep, (if decide (rs = []) then (WalManager_new (log_of rs), Ok (mkReport 0 0 ∅)) else
      match recover_pages rs ∅ with
      | Some (m, report) => (set_wal_pages m (WalManager_new (log_of rs)), Ok report)
      | None => (WalManager_new (log_of rs), Panic)
      end) = (set_wal_pages m (WalManager_new (log_of rs)), Ok (E:=io_error) rep) /\
    db_rep m (spec_replay ∅ rs) /\ forall id, is_Some (m !! id) -> is_Some (spec_replay ∅ rs !! id)).
  { case_decide as Hrs.
    - subst. exists ∅, (mkReport 0 0 ∅). split; [done|]. split; [apply db_rep_empty|].
      intros id. rewrite lookup_empty. by intros [].
    - destruct (recover_committed rs Hr Hc) as (m & rep & -> & Hm). by exists m, rep. }
  destruct Hrec as (m & rep & E & Hm & Hmd). exists (set_wal_pages m (WalManager_new (log_of rs))), rep.
  split; [exact E|]. split; [|split; [done|split; [by apply wal_room_new|]]].
  - constructor; [done| |].
    + intros id Hid. exists (dpage (spec_replay ∅ rs) id). split; [by apply Hm|by rewrite Heq].
    + exists rs. split; [|done]. constructor; [done..|]. intros r t Hin Hrt. left. by eapply Hc.
  - assert (Hpg : forall id, is_Some (σ !! id) -> page_rep (entry_page m id) (dpage σ id)).
    { intros id Hid. rewrite <- Heq. by apply Hm, Hids. }
    split; [|exact Hpg]. cbn. intros id p Hp. assert (is_Some (σ !! id)) as [a Ha] by eauto. exists a. split; [done|].
    specialize (Hpg id ltac:(eauto)). by rewrite (entry_page_found _ _ _ Hp), (dpage_found _ _ _ Ha) in Hpg.
Qed.

(** A page that the log does not give back has never held a row. *)
Lemma not_replayed_empty w σ id a :
  wal_sync w σ -> quiet w -> σ !! id = Some a -> id ∉ replayed_pages (log_file w) -> a = spec_new.
Proof.
  intros Hw Hq Ha Hid. destruct (recover_quiet w σ 0 Hw Hq eq_refl) as (w' & rep & E & _ & _ & _ & _ & Hpg).
  specialize (Hpg id ltac:(eauto)). unfold replayed_pages in Hid. rewrite E in Hid. cbn [fst] in Hid.
  apply not_elem_of_dom in Hid. unfold entry_page in Hpg. rewrite Hid, (dpage_found _ _ _ Ha) in Hpg.
  apply (page_rep_inj _ _ _ Hpg), page_new_rep. by apply (ws_ids _ _ Hw); eauto.
Qed.
End LogRecovery.

(** ** The pages *)
Section PageRecovery.
Context `{Crc32}.
Implicit Types (e : Executor) (σ : gmap Z spec_page) (D : list Z).

Lemma push_page_ok D e σ id wp a :
  idle D (buffer_pool e) σ -> wal_pages (ex_wal e) !! id = Some wp -> page_rep wp a -> is_Some (σ !! id) ->
  exists b, push_page id e = (set_pool b e, Ok tt) /\ idle (id :: D) b (<[id := a]> σ).
Proof.
  intros Hi Ew Hrep [a0 Ha]. unfold push_page. rewrite Ew.
  destruct (fetch_step e σ id a0 Hi Ha) as (b & f & -> & Hwk).
  destruct (edit_step (set_pool b e) σ f id false a0 a
    (fun p => Some (mkPage (pid p) (data wp) true, tt)) tt tt Hwk Ha) as (b2 & E2 & Hwk2).
  { intros p Hp. eexists. split; [done|]. split; [by apply (page_rep_bytes wp)|done]. }
  rewrite (st_bind_ok _ _ _ _ _ E2).
  destruct (unpin_step (set_pool b2 (set_pool b e)) (<[id := a]> σ) f id true Hwk2) as (b3 & E3 & Hi3).
  exists b3. split; [exact E3|exact Hi3].
Qed.

(** Whatever the file holds under the ids that are pushed, the pages are then
    those of the log. *)
Lemma push_pages_ok D e σ σ' ids :
  idle D (buffer_pool e) σ' -> (forall id, is_Some (σ' !! id) <-> is_Some (σ !! id)) ->
  (forall id, id ∈ ids -> exists p a, wal_pages (ex_wal e) !! id = Some p /\ page_rep p a /\ σ !! id = Some a) ->
  (forall id, id ∉ ids -> σ' !! id = σ !! id) ->
  exists b D', st_iter push_page ids e = (set_pool b e, Ok tt) /\ idle D' b σ.
Proof.
  revert D e σ'. induction ids as [|id ids IH]; intros D e σ' Hi Hdom Hw Hrest.
  { exists (buffer_pool e), D. split; [by destruct e|].
    replace σ with σ'; [done|]. apply map_eq. intros id. apply Hrest, not_elem_of_nil. }
  destruct (Hw id) as (p & a & Hp & Hr & Ha); [left|].
  destruct (push_page_ok D e σ' id p a Hi Hp Hr) as (b & E & Hi1); [apply Hdom; eauto|].
  cbn [st_iter]. rewrite (st_bind_ok _ _ _ _ _ E).
  destruct (IH _ (set_pool b e) _ Hi1) as (b2 & D' & E2 & Hi2).
  - intros i. rewrite lookup_insert_is_Some', Hdom. split; [intros [<-|?]; eauto|by right].
  - intros i Hin. apply Hw. by right.
  - intros i Hnin. destruct (decide (id = i)) as [<-|Hne]; [by rewrite lookup_insert_eq|].
    rewrite lookup_insert_ne by done. apply Hrest. by apply not_elem_of_cons.
  - by exists b2, D'.
Qed.

(** The file after a crash that costs some pages. *)
Lemma lose_file e σ old :
  idle [] (buffer_pool e) σ -> Forall readable old ->
  (forall id, id ∈ replayed_pages (log_file (ex_wal e)) -> is_Some (σ !! id)) ->
  exists σ', on_file (disk (buffer_pool (lose old e))) σ' /\ (forall id, is_Some (σ' !! id) <-> is_Some (σ !! id)) /\
    forall id, id ∉ replayed_pages (log_file (ex_wal e)) -> σ' !! id = σ !! id.
Proof.
  intros Hi Hold Hin. unfold lose. set (ps := filter _ old).
  destruct (pages_over_on_file (disk (buffer_pool e)) σ ps) as (σ' & Hd & Hdom & Hrest).
  - by apply idle_on_file.
  - apply Forall_forall. intros p [_ Hp]%list_elem_of_filter. rewrite Forall_forall in Hold. by apply Hold.
  - apply Forall_forall. intros p [Hp _]%list_elem_of_filter. by apply Hin.
  - exists σ'. split; [exact Hd|]. split; [done|]. intros id Hid. apply Hrest.
    intros (p & -> & [Hp _]%list_elem_of_filter)%list_elem_of_fmap. done.
Qed.

(** The pages that differ from the file are in the pool. *)
Lemma idle_cached D b σ l :
  idle D b σ -> (forall id, is_Some (page_table b !! id) -> id ∈ l) -> idle l b σ.
Proof.
  intros [Hok Hsz Hfree] Hl. constructor; [done..|]. intros g gr q Hg Hgr Hq.
  destruct (Hfree g gr q) as (? & ? & _); [done..|]. split_and!; [done..|]. intros _. apply Hl.
  exists g. apply (pk_table _ _ Hok). eauto.
Qed.

Lemma flush_cached_ok D e σ l :
  idle D (buffer_pool e) σ -> (forall id, id ∈ dom (page_table (buffer_pool e)) -> id ∈ l) ->
  exists b, pool (flush_all l) e = (set_pool b e, Ok tt) /\ idle [] b σ.
Proof.
  intros Hi Hl. apply (flush_step (D:=l)); [|done]. eapply idle_cached; [done|].
  intros id Hid. by apply Hl, elem_of_dom.
Qed.
End PageRecovery.
