(* ===== verification/Scans.v ===== *)
(** * Statements that run over a table

    DELETE and UPDATE visit the places of a table in the order of a scan and
    change the tuples that match.  [visit] is one place on the abstract pages,
    [visits] all of them; the loops of the executor answer it, whatever is done
    to a row that matches. *)
From S2P Require Export Writes Files.
Local Open Scope Z_scope.

(** ** The abstract pages *)
Fixpoint visits {A S} (f : A -> S -> result exec_error S) (l : list A) (x : S) : result exec_error S :=
  match l with [] => Ok x | r :: l => x ← f r x; visits f l x end.

(** The places of a table, in the order of a scan. *)
Definition heap_rids (σ : gmap Z spec_page) (pids : list Z) : list Rid :=
  pids ≫= fun id => mkRid id <$> seqZ 0 (Z.of_nat (from_option (fun a => length (cells a)) 0%nat (σ !! id))).

Notation changer := (gmap Z spec_page -> Rid -> bytes -> result exec_error (option bytes)) (only parsing).

Definition visit (s : Schema) (filter : option Expr) (change : changer) (r : Rid)
    (σ : gmap Z spec_page) : result exec_error (gmap Z spec_page) :=
  match tuple_at σ r with
  | None => Ok σ
  | Some b =>
      hit ← filter_result s filter (decoded s b);
      if (hit : bool) then b' ← change σ r b; Ok (put σ r b') else Ok σ
  end.

Definition shape_kept (σ σ' : gmap Z spec_page) : Prop :=
  forall id, (fun a => (length (cells a), room a)) <$> σ !! id = (fun a => (length (cells a), room a)) <$> σ' !! id.

Section Visits.
Implicit Types (σ : gmap Z spec_page) (s : Schema) (r : Rid) (pids : list Z).

Lemma visits_app {A S} (f : A -> S -> result exec_error S) l1 l2 x :
  visits f (l1 ++ l2) x = (y ← visits f l1 x; visits f l2 y).
Proof.
  revert x. induction l1 as [|r l1 IH]; intros x; [done|]. cbn [visits app].
  destruct (f r x); cbn [mbind result_bind]; [apply IH|done..].
Qed.

Lemma shape_kept_refl σ : shape_kept σ σ.
Proof. done. Qed.

Lemma shape_kept_trans σ1 σ2 σ3 : shape_kept σ1 σ2 -> shape_kept σ2 σ3 -> shape_kept σ1 σ3.
Proof. intros H1 H2 id. by rewrite H1. Qed.

Lemma shape_kept_put σ r b : shape_kept σ (put σ r b).
Proof.
  intros id. unfold put. destruct (decide (page_id r = id)) as [->|Hne].
  - rewrite lookup_alter_eq. destruct (σ !! id); csimpl; [|done]. by rewrite length_insert.
  - by rewrite lookup_alter_ne.
Qed.

Lemma heap_rids_shape σ σ' pids : shape_kept σ σ' -> heap_rids σ' pids = heap_rids σ pids.
Proof.
  intros Hsh. unfold heap_rids. apply list_bind_ext; [|done]. intros id. f_equal. f_equal. f_equal.
  specialize (Hsh id). destruct (σ !! id), (σ' !! id); csimpl in *; by simplify_eq.
Qed.

Lemma visit_none s filter change r σ : tuple_at σ r = None -> visit s filter change r σ = Ok σ.
Proof. unfold visit. by intros ->. Qed.

Lemma visit_some s filter change r σ b :
  tuple_at σ r = Some b ->
  visit s filter change r σ =
    (hit ← filter_result s filter (decoded s b);
     if (hit : bool) then b' ← change σ r b; Ok (put σ r b') else Ok σ).
Proof. unfold visit. by intros ->. Qed.

Lemma visit_shape s filter change r σ σ' : visit s filter change r σ = Ok σ' -> shape_kept σ σ'.
Proof.
  unfold visit. destruct (tuple_at σ r) as [b|]; [|by intros [= <-]].
  intros ([|] & _ & Hc)%result_bind_ok; [|by injection Hc as <-].
  apply result_bind_ok in Hc as (b' & _ & [= <-]). apply shape_kept_put.
Qed.

Lemma visits_shape s filter change rids σ σ' :
  visits (visit s filter change) rids σ = Ok σ' -> shape_kept σ σ'.
Proof.
  revert σ. induction rids as [|r rids IH]; intros σ; [by intros [= <-]|].
  cbn [visits]. intros (σ1 & H1%visit_shape & H2%IH)%result_bind_ok. by eapply shape_kept_trans.
Qed.

Lemma elem_of_heap_rids σ pids r :
  r ∈ heap_rids σ pids <-> page_id r ∈ pids /\ 0 <= slot_id r /\
    exists a, σ !! page_id r = Some a /\ (Z.to_nat (slot_id r) < length (cells a))%nat.
Proof.
  unfold heap_rids. rewrite list_elem_of_bind. split.
  - intros (id & (i & -> & Hi%elem_of_seqZ)%list_elem_of_fmap & Hid). cbn [page_id slot_id].
    destruct (σ !! id) as [a|]; cbn in Hi; [|lia]. split_and!; [done|lia|]. exists a. split; [done|lia].
  - intros (Hid & H0 & a & Ha & Hl). exists (page_id r). split; [|done]. apply list_elem_of_fmap.
    exists (slot_id r). split; [by destruct r|]. apply elem_of_seqZ. rewrite Ha. cbn. lia.
Qed.

Lemma NoDup_heap_places σ pids : NoDup pids -> NoDup (heap_rids σ pids).
Proof.
  induction 1 as [|id pids Hid Hnd IH]; [constructor|]. unfold heap_rids. cbn [mbind list_bind].
  apply NoDup_app. split_and!; [|intros r Hr Hr'|exact IH].
  - apply NoDup_fmap_2; [by intros ? ? [= ->]|]. apply NoDup_seqZ.
  - apply list_elem_of_fmap in Hr as (i & -> & _). by apply elem_of_heap_rids in Hr' as [? _].
Qed.

(** The tuples of a heap, by place. *)
Lemma heap_tuples_rids σ pids :
  heap_tuples σ pids = omap (fun r => pair r <$> tuple_at σ r) (heap_rids σ pids).
Proof.
  unfold heap_tuples, heap_rids. induction pids as [|id pids IH]; csimpl; [done|].
  rewrite omap_app, <- IH. f_equal. destruct (σ !! id) as [a|] eqn:Ha; [|done]. cbn [from_option].
  unfold page_tuples.
  assert (Hall : Forall (fun i => 0 <= i) (seqZ 0 (Z.of_nat (length (cells a))))).
  { apply Forall_forall. intros i Hi%elem_of_seqZ. lia. }
  induction Hall as [|i l Hi _ IHl]; csimpl; [done|]. rewrite (tuple_at_page _ _ a), IHl by done.
  by destruct (spec_get a i).
Qed.

Lemma table_rows_rids s σ pids :
  (table_rows s σ pids).*2 = decoded s <$> omap (tuple_at σ) (heap_rids σ pids).
Proof.
  unfold table_rows. rewrite heap_tuples_rids. induction (heap_rids σ pids) as [|r l IH]; [done|].
  csimpl. destruct (tuple_at σ r); csimpl; [by f_equal|done].
Qed.

(** What a successful run leaves at each place, when what a change makes of a
    tuple depends on the tuple only. *)
Lemma visits_tuple s filter change (g : bytes -> option bytes) rids σ σ' :
  (forall σ1 r b b', change σ1 r b = Ok b' -> b' = g b) -> NoDup rids ->
  visits (visit s filter change) rids σ = Ok σ' ->
  forall r, tuple_at σ' r =
    if decide (r ∈ rids) then
      b ← tuple_at σ r;
      match filter_result s filter (decoded s b) with Ok true => g b | _ => Some b end
    else tuple_at σ r.
Proof.
  intros Hg Hnd. revert σ. induction Hnd as [|r0 rids Hr0 Hnd IH]; intros σ.
  { intros [= <-] r. by rewrite decide_False by apply not_elem_of_nil. }
  cbn [visits]. intros (σ1 & H1 & H2)%result_bind_ok r. rewrite (IH σ1 H2).
  assert (Ht : tuple_at σ1 r = if decide (r = r0) then
      b ← tuple_at σ r0; match filter_result s filter (decoded s b) with Ok true => g b | _ => Some b end
    else tuple_at σ r).
  { unfold visit in H1. destruct (tuple_at σ r0) as [b|] eqn:Eb.
    - apply result_bind_ok in H1 as (hit & Hhit & H1). csimpl. rewrite Hhit. destruct hit.
      + apply result_bind_ok in H1 as (b' & Hb' & [= <-]).
        rewrite (put_changes _ _ _ _ Eb). case_decide; [by eapply Hg|done].
      + injection H1 as <-. case_decide; congruence.
    - injection H1 as <-. case_decide; csimpl; congruence. }
  rewrite Ht. destruct (decide (r = r0)) as [->|Hne].
  - rewrite decide_False, decide_True by (done || left). done.
  - destruct (decide (r ∈ rids)) as [Hin|Hin].
    + rewrite decide_True by (by right). done.
    + rewrite decide_False; [done|]. by intros [|]%elem_of_cons.
Qed.

(** A run that succeeds has decided on every row, and changed those that match. *)
Lemma visits_decided s filter change rids σ σ' r b :
  NoDup rids -> visits (visit s filter change) rids σ = Ok σ' -> r ∈ rids -> tuple_at σ r = Some b ->
  exists hit, filter_result s filter (decoded s b) = Ok hit /\
    (hit = true -> exists σ1 b', change σ1 r b = Ok b').
Proof.
  intros Hnd. revert σ. induction Hnd as [|r0 rids Hr0 _ IH]; intros σ Hv Hr Hb; [by apply elem_of_nil in Hr|].
  cbn [visits] in Hv. apply result_bind_ok in Hv as (σ1 & H1 & H2).
  destruct (decide (r = r0)) as [->|Hne].
  - rewrite (visit_some _ _ _ _ _ b Hb) in H1. apply result_bind_ok in H1 as (hit & Hhit & H1).
    exists hit. split; [done|]. intros ->. apply result_bind_ok in H1 as (b' & Hb' & _). eauto.
  - eapply (IH σ1); [done| |].
    + by apply elem_of_cons in Hr as [|].
    + unfold visit in H1. destruct (tuple_at σ r0) as [b0|] eqn:E0; [|by injection H1 as <-].
      apply result_bind_ok in H1 as ([|] & _ & H1); [|by injection H1 as <-].
      apply result_bind_ok in H1 as (b' & _ & [= <-]). by rewrite (put_changes _ _ _ _ E0), decide_False.
Qed.

(** What becomes of the tuple at a place, in a run that succeeds. *)
Definition visited (s : Schema) (filter : option Expr) (g : bytes -> option bytes) (b : bytes) : option bytes :=
  match filter_result s filter (decoded s b) with Ok true => g b | _ => Some b end.

Lemma visits_heap s filter change (g : bytes -> option bytes) σ σ' pids :
  (forall σ1 r b b', change σ1 r b = Ok b' -> b' = g b) -> NoDup pids ->
  visits (visit s filter change) (heap_rids σ pids) σ = Ok σ' ->
  heap_tuples σ' pids = omap (fun t => pair t.1 <$> visited s filter g t.2) (heap_tuples σ pids).
Proof.
  intros Hg Hnd Hv. pose proof (visits_tuple _ _ _ g _ _ _ Hg (NoDup_heap_places σ pids Hnd) Hv) as Ht.
  rewrite !heap_tuples_rids, (heap_rids_shape σ σ') by (by eapply visits_shape).
  assert (Hl : forall l, Forall (fun r => r ∈ heap_rids σ pids) l ->
    omap (fun r => pair r <$> tuple_at σ' r) l =
    omap (fun t => pair t.1 <$> visited s filter g t.2) (omap (fun r => pair r <$> tuple_at σ r) l)).
  { induction 1 as [|r l Hr _ IH]; [done|]. csimpl. rewrite Ht, decide_True by done. rewrite IH.
    destruct (tuple_at σ r) as [b|]; csimpl; [|done]. unfold visited.
    by destruct (filter_result s filter (decoded s b)) as [[|]| |]. }
  by apply Hl, Forall_forall.
Qed.

(** The other tables. *)
Lemma visits_other s filter change rids σ σ' id :
  visits (visit s filter change) rids σ = Ok σ' -> Forall (fun r => page_id r <> id) rids ->
  σ' !! id = σ !! id.
Proof.
  intros Hv Hr. revert σ Hv. induction Hr as [|r rids Hr _ IH]; intros σ; [by intros [= <-]|].
  cbn [visits]. intros (σ1 & H1 & H2)%result_bind_ok. rewrite (IH σ1 H2). unfold visit in H1.
  destruct (tuple_at σ r) as [b|]; [|by injection H1 as <-].
  apply result_bind_ok in H1 as ([|] & _ & H1); [|by injection H1 as <-].
  apply result_bind_ok in H1 as (b' & _ & [= <-]). unfold put. by rewrite lookup_alter_ne.
Qed.

Lemma visits_other_heap s filter change σ σ' pids pids' :
  visits (visit s filter change) (heap_rids σ pids) σ = Ok σ' -> (forall id, id ∈ pids -> id ∉ pids') ->
  heap_tuples σ' pids' = heap_tuples σ pids'.
Proof.
  intros Hv Hd. apply heap_tuples_frame. intros id Hid. eapply visits_other; [done|].
  apply Forall_forall. intros r [Hr _]%elem_of_heap_rids <-. by eapply Hd.
Qed.
End Visits.

(** A page that has held a row. *)
Definition used (σ : gmap Z spec_page) (id : Z) : Prop := exists a, σ !! id = Some a /\ cells a <> [].

Lemma used_shape σ σ' id : shape_kept σ σ' -> used σ id -> used σ' id.
Proof.
  intros Hsh (a & Ha & Hc). specialize (Hsh id). rewrite Ha in Hsh. destruct (σ' !! id) as [a'|] eqn:Ha'; csimpl in *; [|done].
  injection Hsh as Hl _. exists a'. split; [done|]. intros Hn. rewrite Hn in Hl. destruct (cells a); done.
Qed.

(** ** The loops *)
(** What [n] more steps may use up: log records, keys in an index, pages. *)
Record budget (e : Executor) (σ : gmap Z spec_page) (n : nat) : Prop := {
  bg_wal : wal_room (ex_wal e) n;
  bg_index : index_room (index_manager e) n;
  bg_pages : exists id, next_page σ id /\ 0 <= id /\ id + Z.of_nat n < 2 ^ 32;
}.

Lemma budget_less e σ n k : budget e σ (k + n) -> budget e σ n.
Proof.
  intros [Hw Hi (id & Hn & H0 & Hk)]. constructor.
  - by eapply wal_room_less.
  - by eapply index_room_less.
  - exists id. split_and!; (done || lia).
Qed.

Lemma next_page_shape σ σ' id : shape_kept σ σ' -> next_page σ id -> next_page σ' id.
Proof.
  intros Hsh Hn i. rewrite <- (Hn i). specialize (Hsh i).
  destruct (σ !! i), (σ' !! i); csimpl in *; try done; split; by intros [? ?].
Qed.

Lemma budget_next e e' σ σ' n :
  budget e σ (S n) -> wal_room (ex_wal e') n -> used_one (index_manager e) (index_manager e') ->
  shape_kept σ σ' -> budget e' σ' n.
Proof.
  intros [_ Hi (id & Hn & H0 & Hk)] Hw Hu Hsh. constructor; [done|by apply Hu|].
  exists id. split_and!; [by eapply next_page_shape|done|lia].
Qed.

(** The executor between two rows of a statement on [table], in transaction
    [t]. *)
Record ready `{Crc32} (c : Catalog) (tp : gmap rstring (list Z)) (t : Z) (e : Executor) (σ : gmap Z spec_page)
    (n : nat) : Prop := {
  rd_catalog : catalog e = c;
  rd_pages : table_pages e = tp;
  rd_synced : exists ix, synced e σ ix;
  rd_budget : budget e σ n;
  rd_txn : writing t (ex_wal e);
}.

Section Loops.
Context `{Crc32}.
Implicit Types (e : Executor) (σ : gmap Z spec_page) (row : Row).

(** DELETE and UPDATE are the same loops around different work on a row. *)
Definition row_act : Type := Z -> nat -> bool -> Z -> bytes -> Row -> ex unit.

Fixpoint visit_slots (s : Schema) (filter : option Expr) (act : row_act) (id : Z) (f : nat)
    (dirty : bool) (slots : list Z) : ex bool :=
  match slots with
  | [] => mret dirty
  | i :: slots =>
      b ← view f (fun p => get_tuple p i) None;
      match b with
      | None => visit_slots s filter act id f dirty slots
      | Some b =>
          row ← decode_row s b;
          hit ← filter_row s row filter;
          if (hit : bool) then
            _ ← act id f dirty i b row; visit_slots s filter act id f true slots
          else visit_slots s filter act id f dirty slots
      end
  end.

Fixpoint visit_pages (s : Schema) (filter : option Expr) (act : row_act) (pids : list Z) : ex (list Z) :=
  match pids with
  | [] => mret []
  | id :: pids =>
      f ← pool (fetch_page id);
      slots ← page_slots f;
      dirty ← visit_slots s filter act id f false slots;
      _ ← pool (unpin f dirty);
      rest ← visit_pages s filter act pids;
      mret (if (dirty : bool) then id :: rest else rest)
  end.

Variables (c : Catalog) (tp : gmap rstring (list Z)) (table : rstring) (s : Schema) (pids : list Z) (t : Z).
Variables (filter : option Expr) (act : row_act) (change : changer).
Hypothesis Hs : tables c !! table = Some s.
Hypothesis Hp : tp !! table = Some pids.

(** What is asked of the work on a row. *)
Record row_act_ok : Prop := {
  ra_row D e σ n id f dirty i b row :
    ready c tp t e σ (S (S n)) -> working D (buffer_pool e) σ f id dirty -> id ∈ pids -> 0 <= i ->
    tuple_at σ (mkRid id i) = Some b -> stored s row b ->
    answers (act id f dirty i b row) e (change σ (mkRid id i) b) (fun _ b' e' =>
      ready c tp t e' (put σ (mkRid id i) b') (S n) /\
      working D (buffer_pool e') (put σ (mkRid id i) b') f id true);
  ra_disk id f dirty i b row : keeps same_disk (act id f dirty i b row);
}.

Lemma ready_less e σ n k : ready c tp t e σ (k + n) -> ready c tp t e σ n.
Proof. intros [? ? ? Hb ?]. constructor; [done..|by eapply budget_less|done]. Qed.

Lemma ready_table e σ n : ready c tp t e σ n -> table_ok σ s pids.
Proof. intros [<- <- [ix (Htk & _)] _ _]. by eapply tk_table. Qed.

Lemma visit_slots_ok D slots e σ n id f dirty :
  row_act_ok -> ready c tp t e σ (length slots + S n) -> working D (buffer_pool e) σ f id dirty -> id ∈ pids ->
  Forall (fun i => 0 <= i) slots ->
  answers (visit_slots s filter act id f dirty slots) e (visits (visit s filter change) (mkRid id <$> slots) σ)
    (fun d σ' e' => ready c tp t e' σ' (S n) /\ working D (buffer_pool e') σ' f id d).
Proof.
  intros Hact Hr Hw Hid Hsl. revert e σ dirty Hr Hw.
  induction Hsl as [|i slots Hi _ IH]; intros e σ dirty Hr Hw; [by apply answers_ret|].
  cbn [visit_slots fmap list_fmap visits].
  pose proof (ready_table _ _ _ Hr) as Htb. destruct (tb_pages _ _ _ Htb id Hid) as (a & Ha & Hst).
  eapply answers_step; [by eapply tuple_step|].
  assert (Ht : tuple_at σ (mkRid id i) = spec_get a i) by by rewrite (tuple_at_page _ _ a).
  destruct (spec_get a i) as [b|] eqn:Eb; rewrite Ht.
  2: { rewrite visit_none by done. apply IH; [by apply (ready_less _ _ _ 1)|done]. }
  rewrite (visit_some _ _ _ _ _ b Ht).
  destruct (Hst i b Hi Eb) as [row Hrow].
  eapply answers_step; [by apply (decode_stored s row b)|]. rewrite (stored_decoded _ _ _ Hrow).
  cbn [length] in Hr. rewrite Nat.add_succ_r in Hr.
  destruct (filter_result s filter row) as [[|]|x|] eqn:Ef.
  - eapply (answers_step _ _ _ e true); [by rewrite filter_row_result, Ef|].
    rewrite !result_bind_assoc, result_bind_ret. cbv beta iota. rewrite result_bind_assoc.
    eapply answers_bind; [by eapply (ra_row Hact)|]. intros _ b' e' _ [Hr' Hw']. apply IH; [|done]. by rewrite Nat.add_succ_r.
  - eapply (answers_step _ _ _ e false); [by rewrite filter_row_result, Ef|].
    apply IH; [|done]. rewrite Nat.add_succ_r. by apply (ready_less _ _ _ 1).
  - exists e. erewrite st_bind_err; [done|]. by rewrite filter_row_result, Ef.
  - exists e. unfold mbind, st_bind. by rewrite filter_row_result, Ef.
Qed.

Lemma visit_slots_disk id f dirty slots : row_act_ok -> keeps same_disk (visit_slots s filter act id f dirty slots).
Proof. intros Hact. pose proof (ra_disk Hact). revert dirty. induction slots as [|i slots IH]; intros dirty; cbn [visit_slots]; keeps. Qed.

Lemma ready_pool e σ n b : ready c tp t e σ n -> ready c tp t (set_pool b e) σ n.
Proof. by intros [? ? ? [? ? ?] ?]. Qed.

Lemma heap_rids_cons σ id ids :
  heap_rids σ (id :: ids) =
    (mkRid id <$> seqZ 0 (Z.of_nat (from_option (fun a => length (cells a)) 0%nat (σ !! id)))) ++ heap_rids σ ids.
Proof. done. Qed.

Lemma visit_pages_ok D ids e σ n :
  row_act_ok -> ready c tp t e σ (length (heap_rids σ ids) + S n) -> idle D (buffer_pool e) σ -> ids ⊆ pids ->
  answers (visit_pages s filter act ids) e (visits (visit s filter change) (heap_rids σ ids) σ)
    (fun l σ' e' => ready c tp t e' σ' (S n) /\ idle (l ++ D) (buffer_pool e') σ' /\
      lasting (buffer_pool e) (buffer_pool e') /\ Forall (used σ') l).
Proof.
  intros Hact. revert D e σ. induction ids as [|id ids IH]; intros D e σ Hr Hi Hsub; [by apply answers_ret|].
  assert (Hid : id ∈ pids) by (apply Hsub; left).
  destruct (tb_pages _ _ _ (ready_table _ _ _ Hr) id Hid) as (a & Ha & _).
  rewrite heap_rids_cons, Ha in *. cbn [from_option] in *. rewrite visits_app. rewrite length_app in Hr.
  destruct (fetch_step e σ id a Hi Ha) as (b & f & E & Hw). cbn [visit_pages].
  assert (Hl0 : lasting (buffer_pool e) b) by (eapply fetch_lasting; [apply Hi|exact E]).
  eapply answers_step; [exact E|]. eapply answers_step; [by eapply slots_step|].
  eapply answers_bind.
  { eapply (answers_also _ _ _ _ (fun d e' => same_disk (set_pool b e) e' /\ (d = true -> cells a <> []))).
    - apply (visit_slots_ok D _ _ _ (length (heap_rids σ ids) + n)); [done| |exact Hw|done|].
      + apply ready_pool. rewrite length_fmap in Hr. rewrite <- Nat.add_succ_r. by rewrite Nat.add_assoc.
      + apply Forall_forall. intros i Hin%elem_of_seqZ. lia.
    - intros e' d Ed. split.
      + pose proof (visit_slots_disk id f false (seqZ 0 (Z.of_nat (length (cells a)))) Hact (set_pool b e)) as Hk.
        by rewrite Ed in Hk.
      + intros -> Hn. by rewrite Hn in Ed. }
  intros dirty σ1 e1 Hσ1 [[Hr1 Hw1] [Hd1 Hdirty]].
  destruct (unpin_step _ _ _ _ _ Hw1) as (b2 & E2 & Hi2). eapply answers_step; [exact E2|].
  pose proof (visits_shape _ _ _ _ _ _ Hσ1) as Hsh1.
  rewrite <- (heap_rids_shape _ _ ids Hsh1) in *.
  rewrite <- Nat.add_succ_r in Hr1.
  assert (Hrest := IH _ (set_pool b2 e1) σ1 (ready_pool _ _ _ _ Hr1) Hi2 ltac:(set_solver)).
  unfold answers in *. destruct (visits _ (heap_rids σ1 ids) σ1) as [σ2|x|] eqn:Hσ2.
  - destruct Hrest as (l & e2 & E3 & Hr3 & Hi3 & Hl3 & Hu3). eexists _, _. rewrite (st_bind_ok _ _ _ _ _ E3).
    split; [done|]. split; [done|]. split; [|split].
    + eapply idle_mono; [|exact Hi3]. destruct dirty; cbn; set_solver.
    + pose proof (disk_unpin f dirty e1) as Hd2. rewrite E2 in Hd2. etransitivity; [exact Hl0|].
      etransitivity; [|exact Hl3]. apply lasting_disk. unfold same_disk in *.
      cbn [fst buffer_pool set_pool] in *. congruence.
    + destruct dirty; [|done]. constructor; [|done]. eapply used_shape; [by eapply visits_shape|].
      eapply used_shape; [exact Hsh1|]. exists a. by auto.
  - destruct Hrest as (e2 & E3). exists e2. by rewrite (st_bind_err _ _ _ _ _ E3).
  - destruct Hrest as (e2 & E3). exists e2. unfold mbind, st_bind. by rewrite E3.
Qed.

End Loops.

(** The transaction around the loops, up to its commit. *)
Definition visit_commit `{Crc32} (s : Schema) (filter : option Expr) (act : Z -> row_act) (pids : list Z) : ex (list Z) :=
  t ← walm begin_txn; dirty ← visit_pages s filter (act t) pids; _ ← walm (commit t); mret dirty.

(** A statement that has committed: the pages of the list are not yet written;
    each of them can be read in [data.db] all the same, and has held a row. *)
Record unwritten `{Crc32} (σ : gmap Z spec_page) (ids : list Z) (e : Executor) : Prop := {
  uw_idle : idle ids (buffer_pool e) σ;
  uw_used : Forall (used σ) ids;
  uw_read : Forall (fun id => exists a, on_disk (disk (buffer_pool e)) id a) ids;
}.

(** The same of a statement that may have taken a new page. *)
Definition to_write `{Crc32} (e : Executor) (ids : list Z) (e' : Executor) : Prop :=
  exists σ, idle ids (buffer_pool e') σ /\ (table_pages e' = table_pages e -> unwritten σ ids e').

(** The invariant but for the pages. *)
Record committed `{Crc32} (c : Catalog) (tp : gmap rstring (list Z)) (e : Executor) (σ : gmap Z spec_page) (k : nat) : Prop := {
  cm_catalog : catalog e = c;
  cm_pages : table_pages e = tp;
  cm_synced : exists ix, synced e σ ix;
  cm_quiet : quiet (ex_wal e);
  cm_budget : budget e σ k;
}.

Section Commits.
Context `{Crc32}.
Implicit Types (e : Executor) (σ : gmap Z spec_page).

Lemma commit_step c tp t e σ n :
  ready c tp t e σ (S n) -> exists w, walm (commit t) e = (set_wal w e, Ok tt) /\ committed c tp (set_wal w e) σ n.
Proof.
  intros [Hc Ht [ix (Htk & Hrel & Hix & Hws)] Hbg Htx].
  destruct (commit_ok _ _ t n Hws Htx (bg_wal _ _ _ Hbg)) as (w & E & Hq & Hws' & Hw).
  exists w. split; [by apply walm_ok_step|]. constructor; [done|done|by exists ix|done|].
  eapply budget_next; [exact Hbg|done|apply used_one_refl|done].
Qed.

(** The pages of the start can still be read. *)
Lemma idle_lasting b b' σ id a :
  idle [] b σ -> σ !! id = Some a -> lasting b b' -> exists a', on_disk (disk b') id a'.
Proof. intros Hi Ha Hl. apply Hl; [apply (pk_dom _ _ (id_pool _ _ _ Hi)); eauto|]. exists a. by eapply idle_on_disk. Qed.

Lemma visit_commit_ok table s pids filter (act : Z -> row_act) (change : changer) e σ ix k :
  exec_ok e σ ix -> tables (catalog e) !! table = Some s -> table_pages e !! table = Some pids ->
  budget e σ (length (heap_rids σ pids) + 2 + k) ->
  (forall t, row_act_ok (catalog e) (table_pages e) s pids t (act t) change) ->
  answers (visit_commit s filter act pids) e (visits (visit s filter change) (heap_rids σ pids) σ)
    (fun ids σ' e' => unwritten σ' ids e' /\ committed (catalog e) (table_pages e) e' σ' k).
Proof.
  intros [Hi (Htk & Hrel & Hix & Hws) [Hnone _]] Hs Hp Hbg Hact.
  replace (length (heap_rids σ pids) + 2 + k)%nat with (S (length (heap_rids σ pids) + S k)) in Hbg by lia.
  destruct (begin_ok _ _ _ Hws Hnone (bg_wal _ _ _ Hbg)) as (w & t & E & Htx & Hws' & Hw). unfold visit_commit.
  eapply answers_step; [exact (walm_ok_step begin_txn e w t E)|].
  assert (Hr : ready (catalog e) (table_pages e) t (set_wal w e) σ (length (heap_rids σ pids) + S k)).
  { constructor; [done..|by exists ix| |done]. eapply budget_next; [exact Hbg|done|apply used_one_refl|done]. }
  pose proof (visit_pages_ok _ _ table s pids t filter (act t) change Hs Hp [] pids _ σ k (Hact t) Hr Hi
    (reflexivity pids)) as Hv.
  unfold answers in *. destruct (visits _ _ σ) as [σ'|x|] eqn:Ev.
  - destruct Hv as (ids & e1 & E1 & Hr1 & Hi1 & Hl & Hu). rewrite app_nil_r in Hi1.
    destruct (commit_step _ _ _ _ _ _ Hr1) as (w1 & E2 & Hcm). exists ids, (set_wal w1 e1).
    rewrite (st_bind_ok _ _ _ _ _ E1), (st_bind_ok _ _ _ _ _ E2). split; [done|]. split; [|done].
    constructor; [done..|]. eapply Forall_impl; [exact Hu|]. intros id (a & Ha & _).
    pose proof (visits_shape _ _ _ _ _ _ Ev id) as Hsh. rewrite Ha in Hsh. destruct (σ !! id) as [a0|] eqn:Ha0; [|done].
    by eapply idle_lasting.
  - destruct Hv as [e1 E1]. exists e1. by rewrite (st_bind_err _ _ _ _ _ E1).
  - destruct Hv as [e1 E1]. exists e1. unfold mbind, st_bind. by rewrite E1.
Qed.

(** The pages are written. *)
Lemma flush_commits c tp e1 σ ids k :
  unwritten σ ids e1 -> committed c tp e1 σ k ->
  exists b, pool (st_iter flush_page ids) e1 = (set_pool b e1, Ok tt) /\
    (exists ix, exec_ok (set_pool b e1) σ ix) /\ committed c tp (set_pool b e1) σ k.
Proof.
  intros [Hi _ _] Hcm. destruct (flush_step e1 σ ids Hi (reflexivity ids)) as (b & E & Hi2). exists b. split; [done|].
  destruct Hcm as [Hc Ht [ix Hsy] Hq [? ? ?]]. split; [by exists ix|]. constructor; [done|done|by exists ix|done|done].
Qed.
End Commits.

(** The rows a filter keeps a statement from. *)
Definition matches (s : Schema) (filter : option Expr) (row : Row) : bool :=
  match filter_result s filter row with Ok b => b | _ => false end.

Section Statements.
Context `{Crc32}.
Implicit Types (e : Executor) (σ : gmap Z spec_page).

(** No table has more than [M] places. *)
Definition slots_bound (tp : gmap rstring (list Z)) (σ : gmap Z spec_page) (M : nat) : Prop :=
  forall t p, tp !! t = Some p -> (length (heap_rids σ p) <= M)%nat.

Lemma slots_more σ σ' id p :
  NoDup p -> (forall i, i <> id -> σ' !! i = σ !! i) ->
  (from_option (fun a => length (cells a)) 0 (σ' !! id) <= S (from_option (fun a => length (cells a)) 0 (σ !! id)))%nat ->
  (length (heap_rids σ' p) <= S (length (heap_rids σ p)))%nat.
Proof.
  intros Hnd Hne Hid. unfold heap_rids.
  assert (Hsame : forall l, id ∉ l -> (l ≫= fun id => mkRid id <$> seqZ 0 (Z.of_nat (from_option (fun a => length (cells a)) 0%nat (σ' !! id)))) =
    (l ≫= fun id => mkRid id <$> seqZ 0 (Z.of_nat (from_option (fun a => length (cells a)) 0%nat (σ !! id))))).
  { intros l Hl. induction l as [|i l IH]; [done|]. csimpl. apply not_elem_of_cons in Hl as [? ?].
    rewrite IH, Hne by done. done. }
  induction Hnd as [|i p Hi Hnd IH]; csimpl; [lia|]. rewrite !length_app, !length_fmap, !length_seqZ.
  destruct (decide (i = id)) as [->|Hi']; [rewrite Hsame by done; lia|]. rewrite (Hne i) by done. lia.
Qed.

(** What a statement on [table] leaves when it succeeds: the invariant, with
    the table on [pids], and the other tables as they were. *)
Record settled (e : Executor) (σ : gmap Z spec_page) (table : rstring) (pids : list Z) (k : nat)
    (e' : Executor) (σ' : gmap Z spec_page) : Prop := {
  sl_ok : exists ix', exec_ok e' σ' ix';
  sl_catalog : catalog e' = catalog e;
  sl_pages : table_pages e' = <[table := pids]> (table_pages e);
  sl_budget : budget e' σ' k;
  sl_others table' s' pids' : table' <> table -> table_pages e !! table' = Some pids' ->
    table_rows s' σ' pids' = table_rows s' σ pids';
  sl_slots M : slots_bound (table_pages e) σ M -> slots_bound (table_pages e') σ' (S M);
}.

Lemma visit_statement_ok table s pids filter (stmt : ex (list Row)) (act : Z -> row_act) (change : changer) e σ ix k :
  exec_ok e σ ix -> tables (catalog e) !! table = Some s -> table_pages e !! table = Some pids ->
  budget e σ (length (heap_rids σ pids) + 2 + k) ->
  (forall t, row_act_ok (catalog e) (table_pages e) s pids t (act t) change) ->
  stmt e = (ids ← visit_commit s filter act pids; _ ← pool (st_iter flush_page ids); mret []) e ->
  exists e', stmt e = (e', _ ← visits (visit s filter change) (heap_rids σ pids) σ; Ok []) /\
    forall σ', visits (visit s filter change) (heap_rids σ pids) σ = Ok σ' -> settled e σ table pids k e' σ'.
Proof.
  intros Hok Hs Hp Hbg Hact ->. pose proof (xk_sync _ _ _ Hok) as (Htk & _).
  pose proof (visit_commit_ok table s pids filter act change e σ ix k Hok Hs Hp Hbg Hact) as Hv.
  unfold answers in Hv. destruct (visits _ _ σ) as [σ'|x|] eqn:Ev.
  - destruct Hv as (ids & e1 & E1 & Hu & Hcm). rewrite (st_bind_ok _ _ _ _ _ E1).
    destruct (flush_commits _ _ _ _ _ _ Hu Hcm) as (b & E2 & Hok2 & [Hc2 Ht2 _ _ Hb2]).
    rewrite (st_bind_ok _ _ _ _ _ E2). exists (set_pool b e1). split; [done|]. intros ? [= <-].
    constructor; [done|done|by rewrite insert_id|done| |].
    + intros table' s' pids' Hne Hp'. unfold table_rows. f_equal. eapply visits_other_heap; [done|].
      intros id Hid Hid'. by eapply (tk_disjoint _ _ _ Htk table table').
    + intros M HM t' p. rewrite Ht2, (heap_rids_shape σ σ') by (by eapply visits_shape).
      intros Hp'. specialize (HM t' p Hp'). lia.
  - destruct Hv as [e1 E1]. exists e1. by rewrite (st_bind_err _ _ _ _ _ E1).
  - destruct Hv as [e1 E1]. exists e1. unfold mbind, st_bind. by rewrite E1.
Qed.
End Statements.
