(* ===== verification/Delete.v ===== *)
(** * DELETE

    [exec_delete] removes the rows its filter matches and keeps the rest, in
    their order, in every table; an error in the filter is the answer. *)
From S2P Require Export Scans.
Local Open Scope Z_scope.

Section Delete.
Context `{Crc32}.
Implicit Types (e : Executor) (σ : gmap Z spec_page) (row : Row) (s : Schema).

(** The work on a row, and the change it makes. *)
Definition delete_act (table : rstring) (s : Schema) (t : Z) : row_act := fun id f _ i _ row =>
  _ ← walm (log_delete t id i);
  _ ← edit f (fun p => delete_tuple p i) false;
  index_old_row table s row.

Definition delete_change : changer := fun _ _ _ => Ok None.

Lemma delete_slots_visit table s filter t id f slots dirty e :
  delete_slots table s filter t id f dirty slots e =
  visit_slots s filter (delete_act table s t) id f dirty slots e.
Proof.
  revert dirty e. induction slots as [|i slots IH]; intros dirty e; [done|].
  cbn [delete_slots visit_slots]. unfold delete_act, mbind, st_bind in *.
  repeat first [done | apply IH | case_match].
Qed.

Lemma delete_pages_visit table s filter t pids e :
  delete_pages table s filter t pids e = visit_pages s filter (delete_act table s t) pids e.
Proof.
  revert e. induction pids as [|id pids IH]; intros e; [done|].
  cbn [delete_pages visit_pages]. unfold mbind, st_bind in *.
  destruct (pool (fetch_page id) e) as [e1 [f| |]]; [|done..].
  destruct (page_slots f e1) as [e2 [slots| |]]; [|done..].
  rewrite delete_slots_visit. destruct (visit_slots _ _ _ _ _ _ _ e2) as [e3 [d| |]]; [|done..].
  destruct (pool (unpin f d) e3) as [e4 [[]| |]]; [|done..]. by rewrite IH.
Qed.

Lemma delete_row_ok c tp table s pids t :
  tables c !! table = Some s -> tp !! table = Some pids ->
  row_act_ok c tp s pids t (delete_act table s t) delete_change.
Proof.
  intros Hs Hp. split; [|by intros; unfold delete_act, index_old_row; keeps_rows]. intros D e σ n id f dirty i b row Hr Hw Hid Hi Hb Hrow.
  assert (Htb : table_ok σ s pids) by (by eapply ready_table).
  destruct Hr as [<- <- [ix Hsy] Hbg Htx].
  pose proof (tuple_at_Some _ _ _ Hb) as (_ & a & Ha & Hgb). cbn [page_id slot_id] in *.
  pose proof Hsy as (_ & _ & _ & Hws).
  assert (Hi16 : in_u16 i).
  { destruct (working_get _ _ _ _ _ _ _ Hw Ha) as (p & _ & Hrep%rep_slots & _). pose proof (spec_get_lt _ _ _ Hgb). width. }
  destruct (log_delete_ok _ _ t id i a (S n) Hws Htx Ha Hi16 (bg_wal _ _ _ Hbg)) as (w & x & E1 & Htx1 & Hws1 & Hw1).
  unfold delete_act. eapply answers_step; [by apply walm_ok_step|].
  destruct (edit_step (set_wal w e) σ f id dirty a (spec_delete a i).1 (fun p => delete_tuple p i) false
    (spec_delete a i).2 Hw Ha) as (b2 & E2 & Hwk2).
  { intros p Hrep. by apply delete_refines. }
  eapply answers_step; [exact E2|].
  assert (Hput : put σ (mkRid id i) None = <[id := (spec_delete a i).1]> σ).
  { rewrite (put_page _ _ _ a) by done. unfold spec_delete. by rewrite Hgb. }
  destruct (index_old_row_ok (set_pool b2 (set_wal w e)) σ ix table s pids row (mkRid id i) b)
    as (m & E3 & Hm & Hu); [apply Hsy|apply Hsy|done|done|apply Htb|done|].
  exists tt. eexists. split; [exact E3|]. rewrite Hput. split; [|done]. rewrite <- Hput in *. constructor; [done..| | |done].
  - eexists. by eapply synced_put.
  - eapply budget_next; [exact Hbg|done|done|apply shape_kept_put].
Qed.

(** The answer is the filter's: the first error in the order of the scan. *)
Lemma delete_visits s filter σ rids :
  NoDup rids ->
  (_ ← visits (visit s filter delete_change) rids σ; Ok ([] : list Row)) =
  (_ ← select_rows s Star filter (decoded s <$> omap (tuple_at σ) rids); Ok []).
Proof.
  intros Hnd. revert σ. induction Hnd as [|r rids Hr _ IH]; intros σ; [done|]. cbn [visits].
  rewrite result_bind_assoc. destruct (tuple_at σ r) as [b|] eqn:Eb.
  2: { rewrite visit_none, result_bind_ret, IH by done. csimpl. by rewrite Eb. }
  rewrite (visit_some _ _ _ _ _ b Eb), !result_bind_assoc.
  assert (Ho : decoded s <$> omap (tuple_at σ) (r :: rids) = decoded s b :: (decoded s <$> omap (tuple_at σ) rids))
    by (csimpl; by rewrite Eb).
  rewrite Ho. cbn [select_rows]. rewrite result_bind_assoc.
  destruct (filter_result s filter (decoded s b)) as [[|]|x|]; rewrite ?result_bind_ret; [|by rewrite IH|done..].
  change (delete_change σ r b) with (Ok None : result exec_error (option bytes)).
  rewrite !result_bind_ret, IH. cbn [project].
  rewrite result_bind_ret, result_bind_assoc. f_equal. f_equal. f_equal.
  apply list_omap_ext, Forall_Forall2_diag, Forall_forall. intros r' Hr'.
  rewrite (put_changes _ _ _ _ Eb), decide_False; [done|]. by intros ->.
Qed.

Lemma delete_heap s flt σ σ' pids :
  NoDup pids -> visits (visit s flt delete_change) (heap_rids σ pids) σ = Ok σ' ->
  table_rows s σ' pids = filter (fun t => matches s flt t.2 = false) (table_rows s σ pids).
Proof.
  intros Hnd Hv. unfold table_rows.
  rewrite (visits_heap _ _ delete_change (fun _ => None) σ σ' pids) by (done || by intros ???? [= <-]).
  clear Hv.
  induction (heap_tuples σ pids) as [|[r b] l IH]; [done|].
  rewrite (fmap_cons _ (r, b) l), filter_cons, <- IH. clear IH. csimpl. unfold visited at 1, matches.
  by destruct (filter_result s flt (decoded s b)) as [[|]| |].
Qed.

(** DELETE up to its commit. *)
Definition delete_unflushed (table : rstring) (filter : option Expr) : ex (list Z) :=
  s ← find_schema table;
  meta ← find_meta table;
  t ← walm begin_txn;
  dirty ← delete_pages table s filter t meta;
  _ ← walm (commit t);
  mret dirty.

Lemma exec_delete_flushes table flt e :
  exec_delete table flt e = (ids ← delete_unflushed table flt; _ ← pool (st_iter flush_page ids); mret []) e.
Proof. unfold exec_delete, delete_unflushed. by repeat (rewrite st_bind_assoc; apply st_bind_ext; [done|intros ??]). Qed.

Lemma delete_unflushed_visit table flt e s pids :
  tables (catalog e) !! table = Some s -> table_pages e !! table = Some pids ->
  delete_unflushed table flt e = visit_commit s flt (delete_act table s) pids e.
Proof.
  intros Hs Hp. unfold delete_unflushed, visit_commit.
  rewrite (st_bind_ok _ _ _ _ _ (find_schema_ok _ _ _ Hs)), (st_bind_ok _ _ _ _ _ (find_meta_ok _ _ _ Hp)).
  apply st_bind_ext; [done|]. intros t e1. apply st_bind_ext; [apply delete_pages_visit|done].
Qed.

Lemma exec_delete_ok e σ ix table s pids flt k :
  exec_ok e σ ix -> tables (catalog e) !! table = Some s -> table_pages e !! table = Some pids ->
  budget e σ (length (heap_rids σ pids) + 2 + k) ->
  exists e', exec_delete table flt e = (e', _ ← select_rows s Star flt (table_rows s σ pids).*2; Ok []) /\
    ((exists rs, select_rows s Star flt (table_rows s σ pids).*2 = Ok rs) ->
     exists σ', settled e σ table pids k e' σ' /\
       table_rows s σ' pids = filter (fun t => matches s flt t.2 = false) (table_rows s σ pids)).
Proof.
  intros Hok Hs Hp Hb. pose proof (tk_table _ _ _ (proj1 (xk_sync _ _ _ Hok)) _ _ _ Hs Hp) as Htb.
  destruct (visit_statement_ok table s pids flt (exec_delete table flt) (delete_act table s) delete_change
    e σ ix k) as (e' & E & Hset); [done..|intros t; by apply delete_row_ok| |].
  { rewrite exec_delete_flushes. apply st_bind_ext; [by apply delete_unflushed_visit|done]. }
  pose proof (delete_visits s flt σ _ (NoDup_heap_places σ pids (tb_nodup _ _ _ Htb))) as Hans.
  rewrite <- table_rows_rids in Hans. rewrite Hans in E. exists e'. split; [done|]. intros [rs Hrs].
  rewrite Hrs in Hans. destruct (visits _ _ σ) as [σ'| |] eqn:Ev; [|done..]. exists σ'.
  split; [by apply Hset|]. by apply delete_heap; [apply Htb|].
Qed.
End Delete.
