(* ===== verification/Update.v ===== *)
(** * UPDATE

    [exec_update] assigns to the rows its filter matches, one after the other
    in the order of the scan: the checks of a row see the rows before it
    already changed.  An update that succeeds has assigned to every row that
    matched and to no other. *)
From S2P Require Export Delete.
Local Open Scope Z_scope.

(** ** The rule for one row *)
(** The INT keys of a table. *)
Definition table_keys (s : Schema) (σ : gmap Z spec_page) (pids : list Z) : list Z :=
  omap (fun t => row_key (pk_place s) t.2) (table_rows s σ pids).

Definition key_taken (s : Schema) (σ : gmap Z spec_page) (pids : list Z) (k : Z) : bool :=
  bool_decide (k ∈ table_keys s σ pids).

(** An assignment to the key is not NULL, and keeps the row's key or takes one
    that is free. *)
Fixpoint new_keys (taken : Z -> bool) (s : Schema) (pk : rstring) (old : Row) (xs : list Assignment)
    : result exec_error unit :=
  match xs with
  | [] => Ok tt
  | a :: xs =>
      _ ← (if decide (column a = pk) then
             match value a with
             | VNull => Err (PrimaryKeyNull pk)
             | VInt k =>
                 if decide (row_key (pk_place s) old = Some k) then Ok tt
                 else if taken k then Err (DuplicateKey pk k) else Ok tt
             | _ => Ok tt
             end
           else Ok tt);
      new_keys taken s pk old xs
  end.

Definition encoded (s : Schema) (row : Row) : result exec_error bytes :=
  match serialize_row s row with Ok b => Ok b | Err x => Err (CatalogError x) | Panic => Panic end.

Definition update_change (s : Schema) (pids : list Z) (xs : list Assignment) : changer := fun σ _ b =>
  _ ← match schema_pk s with
      | Some pk => new_keys (key_taken s σ pids) s pk (decoded s b) xs
      | None => Ok tt
      end;
  row ← apply_assignments s xs (decoded s b);
  enc ← encoded s row;
  if (length enc <=? length b)%nat then Ok (Some (enc ++ drop (length enc) b)) else Err UpdateTooLarge.

Section Update.
Context `{Crc32}.
Implicit Types (e : Executor) (σ : gmap Z spec_page) (row : Row) (s : Schema).

Lemma encode_row_result s row e : encode_row s row e = (e, encoded s row).
Proof. done. Qed.

Lemma key_taken_index σ s pids es k :
  index_holds σ s pids (pk_place s) es -> key_taken s σ pids k = bool_decide (is_Some (es_lookup k es)).
Proof.
  intros Hh. apply bool_decide_ext. unfold table_keys, table_rows. rewrite list_elem_of_omap. split.
  - intros ([r row] & ([r' b] & [= -> ->] & [Hr Hb]%elem_of_heap_tuples)%list_elem_of_fmap & Hk). exists r'.
    apply (index_holds_key _ _ _ _ _ _ _ Hh). split; [done|]. unfold tuple_key. by rewrite Hb.
  - intros [r [Hr Hk]%(index_holds_key _ _ _ _ _ _ _ Hh)]. unfold tuple_key in Hk.
    destruct (tuple_at σ r) as [b|] eqn:Eb; [|done]. exists (r, decoded s b). split; [|done].
    apply list_elem_of_fmap. exists (r, b). split; [done|]. by apply elem_of_heap_tuples.
Qed.

Lemma index_has_ok e σ ix table s pids pk k :
  synced e σ ix -> tables (catalog e) !! table = Some s -> table_pages e !! table = Some pids ->
  schema_pk s = Some pk -> index_has table pk k e = (e, Ok (key_taken s σ pids k)).
Proof.
  intros (Htk & Hrel & Hix & _) Hs Hp Hpk. destruct (ix_pk _ _ _ _ Hix _ _ _ Hs Hpk) as [es He].
  destruct (indexed_column _ _ _ _ _ _ _ _ _ Hix He Hs Hp) as (i & cd & _ & Hi & _ & _ & Hh).
  rewrite <- (pk_place_at _ _ _ Hpk Hi) in Hh. rewrite (key_taken_index _ _ _ es) by done.
  unfold index_has, asks, mbind, st_bind, st_lift. rewrite (index_search_ok _ ix) by done.
  rewrite He. done.
Qed.

(** The key column of a schema with a key. *)
Lemma key_column e σ ix table s pids pk :
  synced e σ ix -> tables (catalog e) !! table = Some s -> table_pages e !! table = Some pids ->
  schema_pk s = Some pk -> pk_col_index s = Some (pk_place s) /\
    exists cd, columns s !! pk_place s = Some cd /\ col_name cd = pk /\ ty cd = DInt.
Proof.
  intros (Htk & Hrel & Hix & _) Hs Hp Hpk. destruct (ix_pk _ _ _ _ Hix _ _ _ Hs Hpk) as [es He].
  destruct (indexed_column _ _ _ _ _ _ _ _ _ Hix He Hs Hp) as (i & cd & _ & Hi & Hcd & Hty & Hh).
  rewrite (pk_place_at _ _ _ Hpk Hi). split; [unfold pk_col_index; rewrite Hpk; cbn; done|].
  destruct (col_index_name _ _ _ Hi) as (cd' & Hcd' & Hn). exists cd. by assert (cd' = cd) as -> by congruence.
Qed.

Lemma check_new_keys_ok e σ ix table s pids pk old xs :
  synced e σ ix -> tables (catalog e) !! table = Some s -> table_pages e !! table = Some pids ->
  schema_pk s = Some pk -> row_matches s old ->
  check_new_keys table s pk old xs e = (e, new_keys (key_taken s σ pids) s pk old xs).
Proof.
  intros Hsy Hs Hp Hpk Hm. destruct (key_column _ _ _ _ _ _ _ Hsy Hs Hp Hpk) as (Hi & cd & Hcd & _).
  destruct (row_matches_cell s old _ cd Hm Hcd) as (v & Hv & _).
  induction xs as [|a xs IH]; [done|]. cbn [check_new_keys new_keys].
  apply st_bind_reads; [|done]. destruct (decide (column a = pk)); [|done].
  destruct (value a) as [k|z|t|]; try done. rewrite Hi.
  rewrite (st_bind_ok (st_lift _) _ e e (pk_place s)) by done.
  rewrite (st_bind_ok (st_lift _) _ e e v) by (unfold st_lift; by rewrite Hv).
  assert (Hdec : row_key (pk_place s) old = Some k <-> v = VInt k).
  { unfold row_key. rewrite Hv. destruct v; naive_solver. }
  destruct (decide (v = VInt k)); [by rewrite decide_True by tauto|]. rewrite decide_False by tauto.
  rewrite (st_bind_ok _ _ _ _ _ (index_has_ok e σ ix table s pids pk k Hsy Hs Hp Hpk)).
  by destruct (key_taken s σ pids k).
Qed.

(** The keys an update can leave in a row: its own, or one that was free. *)
Lemma apply_keys taken s pk old xs row row' :
  schema_pk s = Some pk -> col_index s pk = Some (pk_place s) -> NoDup (col_name <$> columns s) ->
  new_keys taken s pk old xs = Ok tt -> apply_assignments s xs row = Ok row' ->
  (forall k, row_key (pk_place s) row = Some k -> row_key (pk_place s) old = Some k \/ taken k = false) ->
  forall k, row_key (pk_place s) row' = Some k -> row_key (pk_place s) old = Some k \/ taken k = false.
Proof.
  intros Hpk Hi Hnd. revert row. induction xs as [|a xs IH]; intros row; [by intros _ [= <-]|].
  cbn [new_keys apply_assignments]. intros ([] & Ha & Hk)%result_bind_ok.
  intros (j & Hj & (cd & Hcd & Hx)%result_bind_ok)%result_bind_ok Hrow.
  destruct (assignable (value a) (ty cd)); [|done]. apply result_bind_ok in Hx as (v & Hv & Hx).
  eapply IH; [done..|]. intros k. unfold row_key.
  destruct (decide (j = pk_place s)) as [->|Hne]; [|rewrite list_lookup_insert_ne by done; apply Hrow].
  destruct (row !! pk_place s) eqn:Er; [|done]. rewrite list_lookup_insert_eq by (by eapply lookup_lt_Some).
  destruct (value a) as [k'|z|t|] eqn:Eva; try done. intros [= ->].
  destruct (col_index s (column a)) eqn:Ec; [|done]. injection Hj as ->.
  destruct (col_index_name _ _ _ Ec) as (c1 & Hc1 & Hn1).
  destruct (col_index_name _ _ _ Hi) as (c2 & Hc2 & Hn2). assert (c1 = c2) as -> by congruence.
  rewrite decide_True in Ha by congruence. unfold row_key in Ha.
  case_decide; [by left|]. destruct (taken k); [done|by right].
Qed.

(** A key stays an INT. *)
Lemma apply_keys_some taken s pk old xs row row' cd :
  schema_pk s = Some pk -> col_index s pk = Some (pk_place s) -> columns s !! pk_place s = Some cd -> ty cd = DInt ->
  new_keys taken s pk old xs = Ok tt -> apply_assignments s xs row = Ok row' ->
  is_Some (row_key (pk_place s) row) -> is_Some (row_key (pk_place s) row').
Proof.
  intros Hpk Hi Hcd Hty. revert row. induction xs as [|a xs IH]; intros row; [by intros _ [= <-]|].
  cbn [new_keys apply_assignments]. intros ([] & Ha & Hk)%result_bind_ok.
  intros (j & Hj & (cd' & Hcd' & Hx)%result_bind_ok)%result_bind_ok Hrow.
  destruct (assignable (value a) (ty cd')) eqn:Eas; [|done]. apply result_bind_ok in Hx as (v & Hv & Hx).
  eapply IH; [done..|]. unfold row_key.
  destruct (decide (j = pk_place s)) as [->|Hne]; [|by rewrite list_lookup_insert_ne].
  destruct (row !! pk_place s) eqn:Er; [|done]. rewrite list_lookup_insert_eq by (by eapply lookup_lt_Some).
  rewrite Hcd in Hcd'. injection Hcd' as <-. rewrite Hty in Eas.
  destruct (value a) as [k| | |] eqn:Eva; try done.
  destruct (col_index s (column a)) eqn:Ec; [|done]. injection Hj as ->.
  destruct (col_index_name _ _ _ Ec) as (c1 & Hc1 & Hn1).
  destruct (col_index_name _ _ _ Hi) as (c2 & Hc2 & Hn2). assert (c1 = c2) as -> by congruence.
  by rewrite decide_True in Ha by congruence.
Qed.

Lemma apply_value_ok s xs row row' :
  Forall (fun a => value_ok (value a)) xs -> apply_assignments s xs row = Ok row' ->
  Forall value_ok row -> Forall value_ok row'.
Proof.
  intros Hxs. revert row. induction Hxs as [|a xs Ha _ IH]; intros row; [by intros [= <-]|].
  cbn [apply_assignments]. intros (j & Hj & (cd & Hcd & Hx)%result_bind_ok)%result_bind_ok Hrow.
  destruct (assignable (value a) (ty cd)); [|done]. apply result_bind_ok in Hx as (v & Hv & Hx).
  eapply IH; [done|]. by apply Forall_insert.
Qed.

Lemma free_key_fresh e σ ix table s pids b0 b :
  synced e σ ix -> tables (catalog e) !! table = Some s -> table_pages e !! table = Some pids ->
  (forall k, is_Some (schema_pk s) -> tuple_key s (pk_place s) b = Some k ->
     tuple_key s (pk_place s) b0 = Some k \/ key_taken s σ pids k = false) ->
  key_fresh s table b0 b ix.
Proof.
  intros (Htk & Hrel & Hix & _) Hs Hp Hfree pk es k Hpk He Hk.
  destruct (indexed_column _ _ _ _ _ _ _ _ _ Hix He Hs Hp) as (i & cd & _ & Hi & _ & _ & Hh).
  rewrite <- (pk_place_at _ _ _ Hpk Hi) in Hh. pose proof (ih_sorted _ _ _ _ _ Hh) as Hso.
  destruct (Hfree k) as [->|Hk']; [by eauto|done| |].
  - cbn [del_key]. by rewrite es_lookup_delete, decide_True.
  - rewrite (key_taken_index _ _ _ es) in Hk' by done. apply bool_decide_eq_false, eq_None_not_Some in Hk'.
    destruct (tuple_key s (pk_place s) b0); cbn [del_key]; [|done].
    rewrite es_lookup_delete by done. by case_decide.
Qed.

Lemma update_fresh e σ ix table s pids xs old row b0 b :
  synced e σ ix -> tables (catalog e) !! table = Some s -> table_pages e !! table = Some pids ->
  match schema_pk s with Some pk => new_keys (key_taken s σ pids) s pk old xs | None => Ok tt end = Ok tt ->
  apply_assignments s xs old = Ok row -> stored s old b0 -> stored s row b ->
  key_fresh s table (Some b0) (Some b) ix.
Proof.
  intros Hsy Hs Hp Hnk Hrow Ho Hn. eapply free_key_fresh; [done..|]. intros k [pk Hpk].
  rewrite Hpk in Hnk. destruct (key_column _ _ _ _ _ _ _ Hsy Hs Hp Hpk) as [Hi _].
  unfold pk_col_index in Hi. rewrite Hpk in Hi. cbn in Hi. unfold tuple_key. cbn.
  rewrite (stored_decoded _ _ _ Ho), (stored_decoded _ _ _ Hn).
  eapply apply_keys; try done; [|by left].
  destruct Hsy as (Htk & _). by eapply tb_names, tk_table.
Qed.

Definition update_act (table : rstring) (s : Schema) (xs : list Assignment) (t : Z) : row_act :=
  fun id f dirty i b row => update_row table s xs t id f dirty i b row.

Lemma abort_ok w t n : wal_room w (S n) -> exists w', abort t w = (w', Ok tt).
Proof.
  intros Hl. destruct (append_room w (LogAbort 0 t) n Hl) as [E _].
  unfold abort. rewrite (st_bind_ok _ _ _ _ _ E). by eexists.
Qed.

Lemma unpin_any {D : list Z} b σ f id dirty d : working D b σ f id dirty -> exists b', unpin f d b = (b', Ok tt).
Proof.
  intros (σ0 & p & a & -> & (b0 & p0 & a0 & Hh & -> & _) & _). destruct Hh as [_ _ _ (d0 & Hf & _) _ _ _].
  unfold set_page, unpin. rewrite Hf. cbn. rewrite list_lookup_insert_eq by (by eapply lookup_lt_Some).
  cbn. by eexists.
Qed.

Lemma update_fits a i b new :
  spec_get a i = Some b -> (length new <=? length b)%nat = true ->
  spec_update a i new = (mkSpec (<[Z.to_nat i := Some (new ++ drop (length new) b)]> (cells a)) (room a), true).
Proof. intros Hb Hl. unfold spec_update. by rewrite Hb, Hl. Qed.

Lemma stored_prefix s row enc b :
  encoded s row = Ok enc -> Forall value_ok row -> stored s row (enc ++ drop (length enc) b).
Proof.
  unfold encoded. intros He Hv. destruct (serialize_row s row) eqn:E; try done. injection He as <-.
  by exists a, (drop (length a) b).
Qed.

Lemma update_row_ok c tp table s pids xs t :
  tables c !! table = Some s -> tp !! table = Some pids -> Forall (fun a => value_ok (value a)) xs ->
  row_act_ok c tp s pids t (update_act table s xs t) (update_change s pids xs).
Proof.
  intros Hs Hp Hxs. split; [|by intros; unfold update_act, update_row, index_changed_row; keeps_rows].
  intros D e σ n id f dirty i b old Hr Hw Hid Hi Hb Hold.
  assert (Htb : table_ok σ s pids) by (by eapply ready_table).
  destruct Hr as [<- <- [ix Hsy] Hbg Htx]. pose proof Hsy as (_ & _ & _ & Hws).
  pose proof (tuple_at_Some _ _ _ Hb) as (_ & a & Ha & Hgb). cbn [page_id slot_id] in *.
  unfold update_act, update_row, update_change. rewrite (stored_decoded _ _ _ Hold).
  (* the checks *)
  set (nk := match schema_pk s with Some pk => new_keys _ s pk old xs | None => Ok tt end).
  assert (Hnk : match schema_pk s with Some pk => check_new_keys table s pk old xs | None => mret tt end e = (e, nk)).
  { unfold nk. destruct (schema_pk s) eqn:Hpk; [|done].
    eapply check_new_keys_ok; try done. by eapply stored_matches. }
  destruct nk as [[]|x|] eqn:Enk; cbn [mbind result_bind].
  2: { exists e. by rewrite (st_bind_err _ _ _ _ _ Hnk). }
  2: { exists e. unfold mbind, st_bind. by rewrite Hnk. }
  eapply answers_step; [exact Hnk|]. apply answers_lift. intros row Hrow.
  destruct (encoded s row) as [enc|x|] eqn:Eenc; cbn [mbind result_bind].
  2: { exists e. erewrite st_bind_err; [done|]. by rewrite encode_row_result, Eenc. }
  2: { exists e. unfold mbind, st_bind. by rewrite encode_row_result, Eenc. }
  eapply (answers_step _ _ e e enc); [by rewrite encode_row_result, Eenc|].
  destruct (log_update_ok _ _ t id i b enc a (S n) Hws Htx Ha (bg_wal _ _ _ Hbg)) as (w & E1 & Htx1 & Hw1 & Hws1).
  eapply answers_step; [by apply walm_ok_step|].
  (* the page *)
  destruct (edit_step (set_wal w e) σ f id dirty a (spec_update a i enc).1 (fun p => update_tuple p i enc) false
    (spec_update a i enc).2 Hw Ha) as (b2 & E2 & Hwk2).
  { intros p Hrep. by apply update_refines. }
  eapply answers_step; [exact E2|].
  destruct (length enc <=? length b)%nat eqn:El.
  - rewrite (update_fits _ _ _ _ Hgb El) in *. cbn [fst snd] in *.
    assert (Hst : stored s row (enc ++ drop (length enc) b)).
    { apply stored_prefix; [done|]. eapply apply_value_ok; [done..|]. by destruct Hold as (? & ? & ? & ? & ?). }
    assert (Hfresh : key_fresh s table (Some b) (Some (enc ++ drop (length enc) b)) ix) by (by eapply update_fresh).
    assert (Hws' : wal_sync w (<[id := mkSpec (<[Z.to_nat i := Some (enc ++ drop (length enc) b)]> (cells a)) (room a)]> σ)).
    { destruct (working_get _ _ _ _ _ _ _ Hw Ha) as (p & _ & Hrep & _).
      pose proof (spec_get_length _ _ _ _ Hrep Hi Hgb). pose proof (spec_get_lt _ _ _ Hgb).
      pose proof (rep_slots _ _ Hrep). apply Nat.leb_le in El. apply Hws1; width. }
    destruct (index_changed_row_ok (set_pool b2 (set_wal w e)) σ ix table s pids old row (mkRid id i) b
      (enc ++ drop (length enc) b)) as (m & E3 & Hm & Hu); [apply Hsy|apply Hsy|done|done|apply Htb|done|done|done| |].
    { cbn. apply (index_room_less _ 1 (S n)). rewrite Nat.add_1_r. apply Hbg. }
    exists tt. eexists. split; [exact E3|].
    pose proof (put_page σ (mkRid id i) (Some (enc ++ drop (length enc) b)) a Ha) as Hput.
    cbn [page_id slot_id] in Hput. rewrite <- Hput in Hwk2, Hws'. split; [|done].
    constructor; [done..| | |done].
    + eexists. eapply synced_put; try done. by intros x [= <-]; eauto.
    + eapply budget_next; [exact Hbg|done|done|apply shape_kept_put].
  - assert (Hno : spec_update a i enc = (a, false)) by (unfold spec_update; by rewrite Hgb, El).
    rewrite Hno in *. cbn [fst snd] in *. destruct (unpin_any b2 _ f id true dirty Hwk2) as (b3 & E3).
    destruct (abort_ok w t n Hw1) as (w2 & E4).
    unfold answers. eexists.
    rewrite (st_bind_ok _ _ _ _ _ (pool_ok_step (unpin f dirty) (set_pool b2 (set_wal w e)) b3 tt E3)).
    rewrite (st_bind_ok _ _ _ _ _ (walm_ok_step (abort t) (set_pool b3 (set_pool b2 (set_wal w e))) w2 tt E4)).
    done.
Qed.

Lemma update_slots_visit table s xs flt t id f slots dirty e :
  update_slots table s xs flt t id f dirty slots e =
  visit_slots s flt (update_act table s xs t) id f dirty slots e.
Proof.
  revert dirty e. induction slots as [|i slots IH]; intros dirty e; [done|].
  cbn [update_slots visit_slots]. unfold update_act, mbind, st_bind in *.
  repeat first [done | apply IH | case_match].
Qed.

Lemma update_pages_visit table s xs flt t pids e :
  update_pages table s xs flt t pids e = visit_pages s flt (update_act table s xs t) pids e.
Proof.
  revert e. induction pids as [|id pids IH]; intros e; [done|]. cbn [update_pages visit_pages].
  repeat (apply st_bind_ext; [done || apply update_slots_visit || apply IH|intros ??]). done.
Qed.

(** The row an update makes of a row. *)
Definition assigned (s : Schema) (xs : list Assignment) (row : Row) : Row :=
  match apply_assignments s xs row with Ok row' => row' | _ => row end.

Definition updated (s : Schema) (flt : option Expr) (xs : list Assignment) (row : Row) : Row :=
  if matches s flt row then assigned s xs row else row.

(** The tuple it makes of a tuple. *)
Definition updated_tuple (s : Schema) (xs : list Assignment) (b : bytes) : option bytes :=
  match encoded s (assigned s xs (decoded s b)) with
  | Ok enc => Some (enc ++ drop (length enc) b) | _ => None
  end.

Lemma update_change_ok s pids xs σ r b b' :
  update_change s pids xs σ r b = Ok b' ->
  apply_assignments s xs (decoded s b) = Ok (assigned s xs (decoded s b)) /\
  is_Some (updated_tuple s xs b) /\ b' = updated_tuple s xs b.
Proof.
  unfold update_change. intros (x & _ & (row & Hrow & Hx)%result_bind_ok)%result_bind_ok.
  unfold updated_tuple, assigned. rewrite Hrow.
  apply result_bind_ok in Hx as (enc & -> & Hx). destruct (_ <=? _)%nat; [|done].
  injection Hx as <-. split_and!; [done|by eauto|done].
Qed.

(** What an update that succeeds has found at every place. *)
Definition update_seen (s : Schema) (pids : list Z) (flt : option Expr) (xs : list Assignment) (t : Rid * bytes) : Prop :=
  exists row, stored s row t.2 /\ exists hit, filter_result s flt row = Ok hit /\
    (hit = true -> exists σ1 b', update_change s pids xs σ1 t.1 t.2 = Ok b').

Lemma update_decided s flt xs σ σ' pids :
  table_ok σ s pids -> visits (visit s flt (update_change s pids xs)) (heap_rids σ pids) σ = Ok σ' ->
  Forall (update_seen s pids flt xs) (heap_tuples σ pids).
Proof.
  intros Htb Hv. pose proof (NoDup_heap_places σ pids (tb_nodup _ _ _ Htb)) as Hnd.
  apply Forall_forall. intros [r b] Hin. pose proof Hin as [Hr Hb]%elem_of_heap_tuples.
  destruct (table_tuple _ _ _ _ _ Htb Hr Hb) as [H0 [row Hst]]. exists row. split; [done|].
  rewrite <- (stored_decoded _ _ _ Hst). cbn. eapply visits_decided; [exact Hnd|exact Hv| |done].
  apply elem_of_heap_rids. apply tuple_at_Some in Hb as (_ & a & Ha & Hg). split_and!; [done..|].
  exists a. split; [done|]. by eapply spec_get_lt.
Qed.

Lemma update_heap s flt xs σ σ' pids :
  table_ok σ s pids -> Forall (fun a => value_ok (value a)) xs ->
  visits (visit s flt (update_change s pids xs)) (heap_rids σ pids) σ = Ok σ' ->
  table_rows s σ' pids = prod_map id (updated s flt xs) <$> table_rows s σ pids.
Proof.
  intros Htb Hxs Hv. unfold table_rows. pose proof (update_decided _ _ _ _ _ _ Htb Hv) as Hall.
  rewrite (visits_heap s flt (update_change s pids xs) (updated_tuple s xs) σ σ' pids);
    [|by intros ???? ?%update_change_ok; tauto|apply Htb|done].
  clear Hv. induction Hall as [|[r b] l (row & Hst & hit & Hf & Hhit) _ IH]; [done|].
  rewrite !fmap_cons, <- IH. clear IH. csimpl. unfold visited at 1, updated, matches.
  cbn in Hst, Hhit. rewrite (stored_decoded _ _ _ Hst), Hf. destruct hit; csimpl.
  2: { by rewrite (stored_decoded _ _ _ Hst). }
  destruct (Hhit eq_refl) as (σ1 & b' & Hc%update_change_ok). destruct Hc as (Hap & [x Hx] & _).
  rewrite Hx. csimpl. f_equal. f_equal. rewrite (stored_decoded _ _ _ Hst) in Hap.
  unfold updated_tuple in Hx. rewrite (stored_decoded _ _ _ Hst) in Hx.
  destruct (encoded s (assigned s xs row)) as [enc| |] eqn:Ee; try done. injection Hx as <-.
  apply stored_decoded, stored_prefix; [done|]. eapply apply_value_ok; [done..|].
  by destruct Hst as (? & ? & ? & ? & ?).
Qed.

(** UPDATE up to its commit. *)
Definition update_unflushed (table : rstring) (xs : list Assignment) (filter : option Expr) : ex (list Z) :=
  s ← find_schema table;
  meta ← find_meta table;
  t ← walm begin_txn;
  dirty ← update_pages table s xs filter t meta;
  _ ← walm (commit t);
  mret dirty.

Lemma exec_update_flushes table xs flt e :
  exec_update table xs flt e = (ids ← update_unflushed table xs flt; _ ← pool (st_iter flush_page ids); mret []) e.
Proof. unfold exec_update, update_unflushed. by repeat (rewrite st_bind_assoc; apply st_bind_ext; [done|intros ??]). Qed.

Lemma update_unflushed_visit table xs flt e s pids :
  tables (catalog e) !! table = Some s -> table_pages e !! table = Some pids ->
  update_unflushed table xs flt e = visit_commit s flt (update_act table s xs) pids e.
Proof.
  intros Hs Hp. unfold update_unflushed, visit_commit.
  rewrite (st_bind_ok _ _ _ _ _ (find_schema_ok _ _ _ Hs)), (st_bind_ok _ _ _ _ _ (find_meta_ok _ _ _ Hp)).
  apply st_bind_ext; [done|]. intros t e1. apply st_bind_ext; [apply update_pages_visit|done].
Qed.

Lemma exec_update_ok e σ ix table s pids xs flt k :
  exec_ok e σ ix -> tables (catalog e) !! table = Some s -> table_pages e !! table = Some pids ->
  Forall (fun a => value_ok (value a)) xs -> budget e σ (length (heap_rids σ pids) + 2 + k) ->
  exists e', exec_update table xs flt e =
      (e', _ ← visits (visit s flt (update_change s pids xs)) (heap_rids σ pids) σ; Ok []) /\
    forall σ', visits (visit s flt (update_change s pids xs)) (heap_rids σ pids) σ = Ok σ' ->
      settled e σ table pids k e' σ' /\
      table_rows s σ' pids = prod_map id (updated s flt xs) <$> table_rows s σ pids.
Proof.
  intros Hok Hs Hp Hxs Hb. pose proof (tk_table _ _ _ (proj1 (xk_sync _ _ _ Hok)) _ _ _ Hs Hp) as Htb.
  destruct (visit_statement_ok table s pids flt (exec_update table xs flt) (update_act table s xs)
    (update_change s pids xs) e σ ix k) as (e' & E & Hset); [done..|intros t; by eapply update_row_ok| |].
  { rewrite exec_update_flushes. apply st_bind_ext; [by apply update_unflushed_visit|done]. }
  exists e'. split; [done|]. intros σ' Hv. split; [by apply Hset|by apply update_heap].
Qed.
End Update.
