(* ===== verification/Errors.v ===== *)
(** * The errors of rows

    An error that a row causes, in a filter, a projection or an assignment, is
    none of those that a statement ends with before or after it visits rows: a
    table that does not exist, an order by a column that is not there. *)
From S2P Require Export Update.
Local Open Scope Z_scope.

Definition row_error (x : exec_error) : bool :=
  match x with TableNotFound _ | OrderNotFound _ | OrderNotSelected _ => false | _ => true end.

Definition row_errors {A} (r : result exec_error A) : Prop := forall x, r = Err x -> row_error x = true.

Lemma row_errors_bind {A B} (r : result exec_error A) (k : A -> result exec_error B) :
  row_errors r -> (forall a, row_errors (k a)) -> row_errors (a ← r; k a).
Proof. intros Hr Hk x. destruct r as [a|y|]; cbn; [by apply Hk|intros [= <-]; by apply Hr|done]. Qed.

Lemma row_errors_ok_or {A} (o : option A) x : row_error x = true -> row_errors (ok_or x o).
Proof. intros Hx y. destruct o; [done|]. by intros [= <-]. Qed.

Lemma row_errors_panic {A} (o : option A) : row_errors (or_panic o).
Proof. intros y. by destruct o. Qed.

Create HintDb errors.
#[export] Hint Resolve row_errors_ok_or row_errors_panic : errors.

Ltac row_errors := repeat first
  [ progress intros
  | solve [auto with errors]
  | apply row_errors_bind
  | case_match
  | progress (unfold row_errors; intros; simplify_eq/=; try done) ].

Section Errors.
Implicit Types (s : Schema) (row : Row) (flt : option Expr) (σ : gmap Z spec_page).

Lemma filter_errors s flt row : row_errors (filter_result s flt row).
Proof. destruct flt as [x|]; [|done]. cbn [filter_result]. unfold eval_filter. row_errors. Qed.

Lemma project_errors s row cols : row_errors (project s row cols).
Proof.
  destruct cols as [|ns]; [done|]. cbn [project]. induction ns as [|n ns IH]; [done|]. cbn [project_named]. row_errors.
Qed.

Lemma select_errors s cols flt rows : row_errors (select_rows s cols flt rows).
Proof.
  pose proof filter_errors. pose proof project_errors.
  induction rows as [|row rows IH]; [done|]. cbn [select_rows]. row_errors.
Qed.

Lemma new_keys_errors taken s pk old xs : row_errors (new_keys taken s pk old xs).
Proof. induction xs as [|a xs IH]; [done|]. cbn [new_keys]. row_errors. Qed.

Lemma assignments_errors s xs row : row_errors (apply_assignments s xs row).
Proof. revert row. induction xs as [|a xs IH]; intros row; [done|]. cbn [apply_assignments]. row_errors. Qed.

Lemma update_change_errors s pids xs σ r b : row_errors (update_change s pids xs σ r b).
Proof.
  pose proof new_keys_errors. pose proof assignments_errors. unfold update_change, encoded. row_errors.
Qed.

Lemma visits_errors s flt (change : changer) rids σ :
  (forall σ r b, row_errors (change σ r b)) -> row_errors (visits (visit s flt change) rids σ).
Proof.
  intros Hc. pose proof filter_errors. revert σ. induction rids as [|r rids IH]; intros σ; [done|].
  cbn [visits]. unfold visit. row_errors.
Qed.
End Errors.
