(* ===== verification/Insert.v ===== *)
(** * INSERT

    [exec_insert] checks the key, encodes the row, puts it on the first page of
    the table with room or on a new one, and enters it in the index. *)
From S2P Require Export Update.
Local Open Scope Z_scope.

(** ** The abstract pages *)
(** A new tuple on a page. *)
Definition page_append (a : spec_page) (x : bytes) : spec_page :=
  mkSpec (cells a ++ [Some x]) (room a - (Z.of_nat (length x) + 5)).

Definition next_slot (id : Z) (a : spec_page) : Rid := mkRid id (Z.of_nat (length (cells a))).

Section Append.
Implicit Types (σ : gmap Z spec_page) (a : spec_page) (x : bytes).

Lemma insert_fits a x :
  Z.of_nat (length x) + 5 <= room a ->
  spec_insert a x = (page_append a x, Some (Z.of_nat (length (cells a)))).
Proof. intros Hr. unfold spec_insert. by rewrite (proj2 (Z.ltb_ge _ _)) by lia. Qed.

Lemma append_get a x i :
  0 <= i -> spec_get (page_append a x) i = if decide (i = Z.of_nat (length (cells a))) then Some x else spec_get a i.
Proof.
  intros Hi. unfold spec_get. cbn. case_decide as Heq.
  - rewrite lookup_app_r by lia. by replace (Z.to_nat i - length (cells a))%nat with 0%nat by lia.
  - destruct (decide (Z.to_nat i < length (cells a))%nat); [by rewrite lookup_app_l|].
    rewrite lookup_app_r by lia. rewrite (lookup_ge_None_2 (cells a)) by lia.
    by rewrite lookup_ge_None_2 by (cbn; lia).
Qed.

Lemma append_changes σ id a x :
  σ !! id = Some a -> tuple_at σ (next_slot id a) = None /\
  changes σ (<[id := page_append a x]> σ) (next_slot id a) (Some x).
Proof.
  intros Ha. split.
  - unfold next_slot. rewrite (tuple_at_page _ _ a) by (done || lia). unfold spec_get.
    by rewrite lookup_ge_None_2 by lia.
  - intros [id' i]. destruct (decide (id' = id)) as [->|Hne].
    + rewrite tuple_at_insert_eq by done. cbn. unfold next_slot.
      destruct (decide (0 <= i)) as [Hi|Hi]; [|case_decide; [simplify_eq; lia|unfold tuple_at; by rewrite decide_False]].
      rewrite append_get by done. rewrite (tuple_at_page _ _ a) by done.
      destruct (decide (i = _)) as [->|Hne]; [by rewrite decide_True|]. rewrite decide_False; [done|congruence].
    + rewrite tuple_at_insert_ne by done. unfold next_slot. rewrite decide_False; congruence.
Qed.

Lemma page_tuples_append id a x : page_tuples id (page_append a x) = page_tuples id a ++ [(next_slot id a, x)].
Proof.
  unfold page_tuples. cbn [cells page_append]. rewrite length_app. cbn [length].
  rewrite Nat2Z.inj_add, seqZ_app, omap_app by lia. f_equal.
  - assert (Hall : Forall (fun i => 0 <= i < Z.of_nat (length (cells a))) (seqZ 0 (Z.of_nat (length (cells a))))).
    { apply Forall_forall. intros i Hi%elem_of_seqZ. lia. }
    apply list_omap_ext, Forall_Forall2_diag. eapply Forall_impl; [exact Hall|]. intros i Hi. cbv beta in Hi.
    rewrite append_get, decide_False by lia. done.
  - replace (seqZ (0 + Z.of_nat (length (cells a))) (Z.of_nat 1)) with [Z.of_nat (length (cells a))]
      by (cbn; f_equal; lia).
    cbn [omap list_omap]. by rewrite append_get, decide_True by lia.
Qed.

(** The new row is somewhere among the rows of the table, which keep their
    order. *)
Lemma heap_append σ pids id a x :
  NoDup pids -> id ∈ pids -> σ !! id = Some a ->
  exists l1 l2, heap_tuples σ pids = l1 ++ l2 /\
    heap_tuples (<[id := page_append a x]> σ) pids = l1 ++ (next_slot id a, x) :: l2.
Proof.
  intros Hnd Hin Ha. apply list_elem_of_split in Hin as (p1 & p2 & ->).
  apply NoDup_app in Hnd as (Hn1 & Hd & [Hn2 _]%NoDup_cons).
  exists (heap_tuples σ p1 ++ page_tuples id a), (heap_tuples σ p2).
  rewrite !heap_tuples_app, !heap_tuples_cons, lookup_insert_eq, Ha. cbn [from_option].
  rewrite page_tuples_append. rewrite <- !app_assoc. split; [done|].
  assert (Hfr : forall p, id ∉ p -> heap_tuples (<[id := page_append a x]> σ) p = heap_tuples σ p).
  { intros p Hp. apply heap_tuples_frame. intros i Hi. rewrite lookup_insert_ne; [done|]. by intros ->. }
  rewrite !Hfr; [done|done|]. intros Hp1. apply (Hd id Hp1). left.
Qed.
End Append.

(** ** Placing the row *)
Section Placing.
Context `{Crc32}.
Implicit Types (e : Executor) (σ : gmap Z spec_page) (row : bytes).

Lemma page_room w σ id a : wal_sync w σ -> σ !! id = Some a -> in_u32 id /\ room a <= PAGE_ROOM.
Proof.
  intros Hs Ha. pose proof (ws_ids _ _ Hs id ltac:(eauto)) as Hu. split; [done|].
  destruct (ws_room _ _ Hs id Hu) as (aw & Hr%room_bound & Heq). rewrite (dpage_found _ _ _ Ha) in Heq. lia.
Qed.

Lemma place_row_ok {D : list Z} e σ f id dirty a t row n :
  working D (buffer_pool e) σ f id dirty -> σ !! id = Some a -> wal_sync (ex_wal e) σ -> writing t (ex_wal e) ->
  Z.of_nat (length row) + 5 <= room a -> wal_room (ex_wal e) (S n) ->
  exists b w, place_row t id f row e = (set_pool b (set_wal w e), Ok (next_slot id a)) /\
    idle (id :: D) b (<[id := page_append a row]> σ) /\ wal_sync w (<[id := page_append a row]> σ) /\ writing t w /\ wal_room w n.
Proof.
  intros Hw Ha Hs Htx Hroom Hl. destruct (page_room _ _ _ _ Hs Ha) as [Hu Hb]. unfold PAGE_ROOM in Hb.
  assert (Hlen : in_u16 (Z.of_nat (length row))) by width.
  destruct (log_insert_ok (ex_wal e) σ t id row a n) as (w & i & E1 & Htx1 & Hs1 & Hl1);
    [by rewrite insert_id|done..|].
  rewrite insert_fits in Hs1 by done. unfold place_row.
  rewrite (st_bind_ok _ _ _ _ _ (walm_ok_step (log_insert t id row) e w i E1)).
  destruct (edit_step (set_wal w e) σ f id dirty a (page_append a row)
    (fun p => '(p, r) ← insert_tuple p row; Some (p, default 0 r)) 0 (Z.of_nat (length (cells a))) Hw Ha)
    as (b & E2 & Hw2).
  { intros p Hrep. destruct (insert_refines p a row Hrep Hlen) as (p' & E & Hr' & Hp').
    rewrite insert_fits in E, Hr' by done. exists p'. rewrite E. done. }
  rewrite (st_bind_ok _ _ _ _ _ E2).
  destruct (unpin_step (set_pool b (set_wal w e)) _ f id true Hw2) as (b3 & E3 & Hi).
  rewrite (st_bind_ok _ _ _ _ _ E3). by exists b3, w.
Qed.

Lemma disk_place_row t id f row : keeps same_disk (place_row t id f row).
Proof. unfold place_row. keeps. Qed.

Lemma try_pages_ok {D : list Z} e σ t row pids n :
  idle D (buffer_pool e) σ -> wal_sync (ex_wal e) σ -> writing t (ex_wal e) -> wal_room (ex_wal e) (S n) ->
  (forall id, id ∈ pids -> is_Some (σ !! id)) ->
  (exists b, try_pages t row pids e = (set_pool b e, Ok None) /\ idle D b σ /\
     forall id a, id ∈ pids -> σ !! id = Some a -> room a < Z.of_nat (length row) + 5) \/
  (exists id a b w, id ∈ pids /\ σ !! id = Some a /\ Z.of_nat (length row) + 5 <= room a /\
     try_pages t row pids e = (set_pool b (set_wal w e), Ok (Some (next_slot id a))) /\ lasting (buffer_pool e) b /\
     idle (id :: D) b (<[id := page_append a row]> σ) /\ wal_sync w (<[id := page_append a row]> σ) /\ writing t w /\ wal_room w n).
Proof.
  revert e. induction pids as [|id pids IH]; intros e Hi Hs Htx Hl Hall.
  { left. exists (buffer_pool e). split_and!; [by destruct e|done|]. by intros id a Hin%elem_of_nil. }
  destruct (Hall id) as [a Ha]; [left|]. destruct (fetch_step e σ id a Hi Ha) as (b & f & E & Hw).
  assert (Hl0 : lasting (buffer_pool e) b) by (eapply fetch_lasting; [apply Hi|exact E]).
  destruct (working_get _ _ _ _ _ _ _ Hw Ha) as (p & Hp & Hr & _).
  assert (Hv : view f (fun p => n ← free_space p; Some (bool_decide (Z.of_nat (length row) + 5 <= n))) false
    (set_pool b e) = (set_pool b e, Ok (bool_decide (Z.of_nat (length row) + 5 <= room a)))).
  { unfold view. cbn [buffer_pool set_pool]. rewrite Hp. by rewrite (free_space_refines p a). }
  cbn [try_pages]. rewrite (st_bind_ok _ _ _ _ _ E), (st_bind_ok _ _ _ _ _ Hv).
  case_bool_decide as Hroom.
  - right. destruct (place_row_ok (D:=D) (set_pool b e) σ f id false a t row n) as (b2 & w & E2 & Hi2 & Hs2 & Htx2 & Hl2); [done..|].
    exists id, a, b2, w. rewrite (st_bind_ok _ _ _ _ _ E2). split_and!; try done; [left|].
    etransitivity; [exact Hl0|]. apply lasting_disk. pose proof (disk_place_row t id f row (set_pool b e)) as Hd.
    by rewrite E2 in Hd.
  - destruct (unpin_step (set_pool b e) σ f id false Hw) as (b2 & E2 & Hi2). rewrite (st_bind_ok _ _ _ _ _ E2).
    destruct (IH (set_pool b2 (set_pool b e))) as [(b3 & E3 & Hi3 & Hno)|(id' & a' & b3 & w & Hin & Hx)];
      [done..|intros i Hin; apply Hall; by right| |].
    + left. exists b3. split_and!; [done..|]. intros i a' [->|Hin]%elem_of_cons Ha'; [|by eapply Hno].
      assert (a' = a) as -> by congruence. lia.
    + destruct Hx as (Ha' & Hr' & E3 & Hl3 & Hx). right. exists id', a', b3, w. split; [by right|]. split_and!; try done; try apply Hx.
      etransitivity; [exact Hl0|]. etransitivity; [|exact Hl3]. apply lasting_disk.
      pose proof (disk_unpin f false (set_pool b e)) as Hd. by rewrite E2 in Hd.
Qed.
End Placing.

(** ** A page more *)
Section NewPage.
Context `{Crc32}.
Implicit Types (e : Executor) (σ : gmap Z spec_page).

Lemma wal_sync_new w σ id :
  wal_sync w σ -> in_u32 id -> σ !! id = None -> wal_sync w (<[id := spec_new]> σ).
Proof.
  intros [Hids Hr (rs & Hlg & Heq & Hdom)] Hu Hid.
  assert (Hsame : db_eq (<[id := spec_new]> σ) σ).
  { intros i. rewrite dpage_insert. case_decide; [|done]. subst. unfold dpage. by rewrite Hid. }
  constructor.
  - intros i. rewrite lookup_insert_is_Some'. intros [<-|]; auto.
  - intros i Hi. rewrite Hsame. by apply Hr.
  - exists rs. split; [done|]. split; [by rewrite Hsame|]. intros i Hi%Hdom. rewrite lookup_insert_is_Some'. by right.
Qed.

Lemma tuple_at_new σ id r : σ !! id = None -> tuple_at (<[id := spec_new]> σ) r = tuple_at σ r.
Proof.
  intros Hid. destruct (decide (page_id r = id)) as [Heq|Hne]; [|by apply tuple_at_insert_ne].
  rewrite tuple_at_insert_eq by done. unfold tuple_at. rewrite Heq, Hid. by case_decide.
Qed.

Lemma heap_tuples_new σ id pids :
  σ !! id = None -> heap_tuples (<[id := spec_new]> σ) (pids ++ [id]) = heap_tuples σ pids.
Proof.
  intros Hid. rewrite heap_tuples_app, heap_tuples_cons, lookup_insert_eq. cbn. rewrite app_nil_r.
  induction pids as [|i pids IH]; [done|]. rewrite !heap_tuples_cons, IH. f_equal.
  destruct (decide (id = i)) as [->|Hne]; [by rewrite lookup_insert_eq, Hid|by rewrite lookup_insert_ne].
Qed.

Lemma page_used σ s pids id : table_ok σ s pids -> id ∈ pids -> σ !! id = None -> False.
Proof. intros Htb Hin Hn. destruct (tb_pages _ _ _ Htb id Hin) as (a & Ha & _). congruence. Qed.

Lemma table_ok_new σ id s pids :
  table_ok σ s pids -> σ !! id = None ->
  table_ok (<[id := spec_new]> σ) s pids /\ table_ok (<[id := spec_new]> σ) s (pids ++ [id]).
Proof.
  intros Htb Hid. pose proof Htb as [Hnd Hpg Hnm].
  assert (Hold : forall i, i ∈ pids -> exists a, <[id := spec_new]> σ !! i = Some a /\ page_stored s a).
  { intros i Hi. rewrite lookup_insert_ne; [by apply Hpg|]. intros ->. by eapply page_used. }
  split; constructor; try done.
  - apply NoDup_app. split_and!; [done| |apply NoDup_singleton]. intros i Hi ->%list_elem_of_singleton.
    by eapply page_used.
  - intros i [Hi| ->%list_elem_of_singleton]%elem_of_app; [by apply Hold|].
    rewrite lookup_insert_eq. exists spec_new. split; [done|]. by intros i b _.
Qed.

(** A table gets an empty page. *)
Lemma synced_new_page e σ ix table s pids id :
  synced e σ ix -> tables (catalog e) !! table = Some s -> table_pages e !! table = Some pids ->
  σ !! id = None -> in_u32 id ->
  synced (set_table_pages (<[table := pids ++ [id]]> (table_pages e)) e) (<[id := spec_new]> σ) ix.
Proof.
  intros (Htk & Hrel & Hix & Hws) Hs Hp Hid Hu. unfold synced. cbn.
  assert (Hfresh : forall t p, table_pages e !! t = Some p -> id ∉ p).
  { intros t p Hp' Hin. assert (is_Some (tables (catalog e) !! t)) as [s' Hs'] by (apply (tk_dom _ _ _ Htk); eauto).
    eapply page_used; [by eapply (tk_table _ _ _ Htk t)|done..]. }
  split; [|split; [done|split; [|by apply wal_sync_new]]].
  - constructor.
    + intros t. rewrite (tk_dom _ _ _ Htk t). destruct (decide (table = t)) as [->|Hne].
      * rewrite lookup_insert_eq, Hp. split; by eexists.
      * by rewrite lookup_insert_ne.
    + intros t s' p Hs' Hp'. destruct (decide (table = t)) as [->|Hne].
      * rewrite lookup_insert_eq in Hp'. injection Hp' as <-. assert (s' = s) as -> by congruence.
        eapply table_ok_new; [by eapply (tk_table _ _ _ Htk t)|done].
      * rewrite lookup_insert_ne in Hp' by done. eapply table_ok_new; [by eapply (tk_table _ _ _ Htk t)|done].
    + intros t t' p p' i Hne Hp1 Hp2 Hi.
      destruct (decide (t = table)) as [->|H1], (decide (t' = table)) as [->|H2]; try done.
      * rewrite lookup_insert_eq in Hp1. rewrite lookup_insert_ne in Hp2 by done. injection Hp1 as <-. apply elem_of_app in Hi as [Hi| ->%list_elem_of_singleton]; [|by eapply Hfresh].
        by eapply (tk_disjoint _ _ _ Htk table t').
      * rewrite lookup_insert_ne in Hp1 by done. rewrite lookup_insert_eq in Hp2. injection Hp2 as <-. intros [Hi'| ->%list_elem_of_singleton]%elem_of_app; [|by eapply Hfresh].
        by eapply (tk_disjoint _ _ _ Htk t table).
      * rewrite lookup_insert_ne in Hp1, Hp2 by done. by eapply (tk_disjoint _ _ _ Htk t t').
  - constructor; [apply (ix_pk _ _ _ _ Hix)|]. intros t col es He.
    destruct (ix_only _ _ _ _ Hix t col es He) as (s' & pids' & i & cd & Hs' & Hp' & Hpk & Hi & Hcd & Hty & [Hso Hr]).
    exists s', (if decide (table = t) then pids ++ [id] else pids'), i, cd. split_and!; try done.
    + case_decide as Ht; [subst; by rewrite lookup_insert_eq|by rewrite lookup_insert_ne].
    + constructor; [done|]. intros k r. rewrite Hr. setoid_rewrite tuple_at_new; [|done].
      assert (Hpg : forall b, tuple_at σ r = Some b -> page_id r <> id).
      { intros b (_ & a & Ha & _)%tuple_at_Some Heq. congruence. }
      case_decide as Ht; [|done]. subst t. assert (pids' = pids) as -> by congruence.
      split; intros (b & Hin & Hb & Hk); exists b; split_and!; try done.
      * apply elem_of_app. by left.
      * apply elem_of_app in Hin as [|Hin%list_elem_of_singleton]; [done|]. by destruct (Hpg b).
Qed.
End NewPage.

(** ** The statement *)
(** The key of a new row: not NULL and, for an INT, free. *)
Definition insert_check (s : Schema) (σ : gmap Z spec_page) (pids : list Z) (values : Row)
    : result exec_error unit :=
  match schema_pk s with
  | None => Ok tt
  | Some pk =>
      v ← or_panic (values !! pk_place s);
      match v with
      | VNull => Err (PrimaryKeyNull pk)
      | VInt k => if key_taken s σ pids k then Err (DuplicateKey pk k) else Ok tt
      | _ => Ok tt
      end
  end.

(** How a row of [n] bytes is placed: what is compared with the room of a page
    is [n] cut to 16 bits, so that a row too long for that panics or is refused. *)
Definition placed (n : Z) : result exec_error unit :=
  if n + 5 <=? PAGE_ROOM then Ok tt
  else if n mod 65536 + 5 <=? PAGE_ROOM then Panic else Err (IoError OutOfMemory).

(** What INSERT answers. *)
Definition insert_answer (s : Schema) (σ : gmap Z spec_page) (pids : list Z) (values : Row)
    : result exec_error (list Row) :=
  _ ← insert_check s σ pids values;
  enc ← encoded s values;
  _ ← placed (Z.of_nat (length enc)); Ok [].

Lemma placed_fits n : n + 5 <= PAGE_ROOM -> placed n = Ok tt.
Proof. intros Hn. unfold placed. by rewrite (proj2 (Z.leb_le _ _)). Qed.

Lemma not_placed n : PAGE_ROOM < n + 5 -> placed n = Panic \/ placed n = Err (IoError OutOfMemory).
Proof. intros Hn. unfold placed. rewrite (proj2 (Z.leb_gt _ _)) by done. case_match; auto. Qed.

Section Insert.
Context `{Crc32}.
Implicit Types (e : Executor) (σ : gmap Z spec_page) (s : Schema) (values : Row).

Lemma check_primary_key_ok e σ ix table s pids values :
  synced e σ ix -> tables (catalog e) !! table = Some s -> table_pages e !! table = Some pids ->
  check_primary_key table s values e = (e, insert_check s σ pids values).
Proof.
  intros Hsy Hs Hp. unfold check_primary_key, insert_check. destruct (schema_pk s) as [pk|] eqn:Hpk.
  - destruct (key_column _ _ _ _ _ _ _ Hsy Hs Hp Hpk) as [-> _]. apply st_bind_reads; [done|]. intros v.
    rewrite (st_bind_ok (st_lift _) _ e e pk) by done. destruct v as [k|z|t|]; try done.
    rewrite (st_bind_ok _ _ _ _ _ (index_has_ok e σ ix table s pids pk k Hsy Hs Hp Hpk)).
    by destruct (key_taken s σ pids k).
  - unfold pk_col_index. by rewrite Hpk.
Qed.

Lemma encoded_stored s values enc : encoded s values = Ok enc -> Forall value_ok values -> stored s values enc.
Proof.
  intros He Hv. pose proof (stored_prefix s values enc [] He Hv) as Hst. by rewrite drop_nil, app_nil_r in Hst.
Qed.

Lemma insert_fresh e σ ix table s pids values enc :
  synced e σ ix -> tables (catalog e) !! table = Some s -> table_pages e !! table = Some pids ->
  insert_check s σ pids values = Ok tt -> stored s values enc -> key_fresh s table None (Some enc) ix.
Proof.
  intros Hsy Hs Hp Hc Hst. eapply free_key_fresh; [done..|]. intros k [pk Hpk]. unfold insert_check in Hc.
  rewrite Hpk in Hc. unfold tuple_key at 1, row_key. cbn. rewrite (stored_decoded _ _ _ Hst).
  destruct (values !! pk_place s) as [[k'| | |]|]; try done. intros [= ->]. right.
  cbn in Hc. by destruct (key_taken s σ pids k).
Qed.

Lemma index_new_row_ok e σ ix table s pids values r0 b :
  index_rel (index_manager e) ix -> indexes_ok σ (catalog e) (table_pages e) ix ->
  tables (catalog e) !! table = Some s -> table_pages e !! table = Some pids ->
  NoDup (col_name <$> columns s) -> stored s values b ->
  key_fresh s table None (Some b) ix -> index_room (index_manager e) 1 ->
  exists m, index_new_row table s values r0 e = (set_indexes m e, Ok tt) /\
    index_rel m (ix_change s table (row_change s r0 None (Some b)) ix) /\ used_one (index_manager e) m.
Proof.
  intros Hrel Hix Hs Hp Hnd Hst Hfresh Hroom. unfold index_new_row.
  eapply (for_indexed_pk e σ ix table s pids); try done.
  intros pk es Hpk Hi He Hh cd Hcd <-.
  destruct (row_matches_cell s values _ cd (stored_matches _ _ _ Hst) Hcd) as (v & Hv & _).
  destruct (index_insert_key e ix table (col_name cd) values (pk_place s) r0 Hrel) as (m & E & Hm & Hu);
    [eauto|done| |].
  { intros k Hk. rewrite He. cbn. specialize (Hfresh _ es k Hpk He). apply Hfresh. unfold tuple_key. cbn.
    by rewrite (stored_decoded _ _ _ Hst). }
  exists m. split; [exact E|]. split; [|done]. unfold row_change, tuple_key. cbn.
  by rewrite (stored_decoded _ _ _ Hst).
Qed.

(** From the row on its page to the commit. *)
Definition insert_commit (table : rstring) (s : Schema) (values : Row) (t : Z) (rid : Rid) : ex (list Z) :=
  _ ← index_new_row table s values rid; _ ← walm (commit t); mret [page_id rid].

Lemma insert_commit_ok e1 e2 σ ix table s pids id a values enc t k :
  synced e1 σ ix -> tables (catalog e1) !! table = Some s -> table_pages e1 !! table = Some pids ->
  id ∈ pids -> σ !! id = Some a -> stored s values enc -> key_fresh s table None (Some enc) ix ->
  catalog e2 = catalog e1 -> table_pages e2 = table_pages e1 -> index_manager e2 = index_manager e1 ->
  wal_sync (ex_wal e2) (<[id := page_append a enc]> σ) -> writing t (ex_wal e2) ->
  wal_room (ex_wal e2) (S k) -> index_room (index_manager e2) (S k) ->
  exists m w, let e3 := set_wal w (set_indexes m e2) in
    insert_commit table s values t (next_slot id a) e2 = (e3, Ok [id]) /\
    (exists ix', synced e3 (<[id := page_append a enc]> σ) ix') /\ quiet w /\ wal_room w k /\ index_room m k.
Proof.
  intros Hsy Hs Hp Hid Ha Hst Hfresh Hc2 Ht2 Hm2 Hw2 Htx2 Hl2 Hr2. pose proof Hsy as (Htk & Hrel & Hix & _).
  destruct (index_new_row_ok e2 σ ix table s pids values (next_slot id a) enc) as (m & E & Hm & Hu).
  { by rewrite Hm2. } { by rewrite Hc2, Ht2. } { by rewrite Hc2. } { by rewrite Ht2. }
  { by eapply tb_names, tk_table. } { done. } { done. } { apply (index_room_less _ 1 k). by rewrite Nat.add_1_r. }
  unfold insert_commit. rewrite (st_bind_ok _ _ _ _ _ E).
  destruct (commit_ok _ _ t k Hw2 Htx2 Hl2) as (w & E3 & Hq3 & Hw3 & Hl3).
  rewrite (st_bind_ok _ _ _ _ _ (walm_ok_step (commit t) (set_indexes m e2) w tt E3)).
  exists m, w. split; [done|]. destruct (append_changes σ id a enc Ha) as [Hnone Hch]. split_and!; try done.
  - eexists. rewrite <- Hnone in Hm. eapply (synced_change e1); try done; [done| |].
    + by intros x [= <-]; eauto.
    + by rewrite Hnone.
  - by apply Hu.
Qed.

(** From the row on its page to the end of the statement. *)
Lemma insert_finish e1 e2 σ ix table s pids id a values enc t k :
  synced e1 σ ix -> tables (catalog e1) !! table = Some s -> table_pages e1 !! table = Some pids ->
  id ∈ pids -> σ !! id = Some a -> stored s values enc -> key_fresh s table None (Some enc) ix ->
  catalog e2 = catalog e1 -> table_pages e2 = table_pages e1 -> index_manager e2 = index_manager e1 ->
  idle [id] (buffer_pool e2) (<[id := page_append a enc]> σ) -> wal_sync (ex_wal e2) (<[id := page_append a enc]> σ) -> writing t (ex_wal e2) ->
  wal_room (ex_wal e2) (S k) -> index_room (index_manager e2) (S k) ->
  exists e', (ids ← insert_commit table s values t (next_slot id a);
              _ ← pool (st_iter flush_page ids); mret ([] : list Row)) e2 = (e', Ok []) /\
    (exists ix', exec_ok e' (<[id := page_append a enc]> σ) ix') /\ catalog e' = catalog e1 /\
    table_pages e' = table_pages e1 /\ wal_room (ex_wal e') k /\ index_room (index_manager e') k.
Proof.
  intros Hsy Hs Hp Hid Ha Hst Hfresh Hc2 Ht2 Hm2 Hi2 Hw2 Htx2 Hl2 Hr2.
  destruct (insert_commit_ok e1 e2 σ ix table s pids id a values enc t k) as (m & w & E & [ix' Hsy'] & Hq & Hl & Hr); [done..|].
  rewrite (st_bind_ok _ _ _ _ _ E).
  destruct (flush_step (set_wal w (set_indexes m e2)) _ [id] Hi2 (reflexivity [id])) as (b & E4 & Hi4).
  rewrite (st_bind_ok _ _ _ _ _ E4). eexists. split; [done|]. split_and!; try done. by exists ix'.
Qed.

Lemma next_page_same σ id a n : is_Some (σ !! id) -> next_page σ n -> next_page (<[id := a]> σ) n.
Proof. intros Hid Hn i. rewrite lookup_insert_is_Some'. rewrite <- (Hn i). naive_solver. Qed.

Lemma next_page_more σ a n : 0 <= n -> next_page σ n -> next_page (<[n := a]> σ) (n + 1).
Proof. intros H0 Hn i. rewrite lookup_insert_is_Some'. rewrite (Hn i). lia. Qed.

Lemma rows_of_heap s σ σ' pids pids' l1 l2 rid values enc :
  heap_tuples σ pids = l1 ++ l2 -> heap_tuples σ' pids' = l1 ++ (rid, enc) :: l2 -> stored s values enc ->
  exists r1 r2 rid, table_rows s σ pids = r1 ++ r2 /\ table_rows s σ' pids' = r1 ++ (rid, values) :: r2.
Proof.
  intros E E' Hst. unfold table_rows. rewrite E, E'. rewrite !fmap_app, fmap_cons. cbn [fst snd].
  rewrite (stored_decoded _ _ _ Hst). eauto 6.
Qed.

(** The new row, on a page that has room for it. *)
Lemma insert_settled e e' σ ix' table s pids id a values enc k n :
  tables_ok σ (catalog e) (table_pages e) -> tables (catalog e) !! table = Some s ->
  table_pages e !! table = Some pids -> id ∈ pids -> σ !! id = Some a -> stored s values enc ->
  exec_ok e' (<[id := page_append a enc]> σ) ix' -> catalog e' = catalog e -> table_pages e' = table_pages e ->
  wal_room (ex_wal e') k -> index_room (index_manager e') k ->
  next_page σ n -> 0 <= n -> n + Z.of_nat k < 2 ^ 32 ->
  settled e σ table pids k e' (<[id := page_append a enc]> σ) /\
  exists r1 r2 rid, table_rows s σ pids = r1 ++ r2 /\
    table_rows s (<[id := page_append a enc]> σ) pids = r1 ++ (rid, values) :: r2.
Proof.
  intros Htk Hs Hp Hid Ha Hst Hok' Hc Ht Hw Hr Hn H0 Hk. split.
  - constructor; [by exists ix'|done|by rewrite insert_id|constructor; [done..|]| |].
    + exists n. split_and!; [|done..]. by apply next_page_same; eauto.
    + intros table' s' pids' Hne Hp'. unfold table_rows. f_equal. apply heap_tuples_frame. intros i Hi.
      rewrite lookup_insert_ne; [done|]. intros <-. by eapply (tk_disjoint _ _ _ Htk table table').
    + intros M HM t p Hp'. rewrite Ht in Hp'. specialize (HM t p Hp').
      assert (is_Some (tables (catalog e) !! t)) as [s' Hs'] by (apply (tk_dom _ _ _ Htk); eauto).
      pose proof (slots_more σ (<[id := page_append a enc]> σ) id p) as Hle. rewrite lookup_insert_eq, Ha in Hle.
      cbn [from_option page_append cells] in Hle. rewrite length_app in Hle. cbn [length] in Hle.
      etransitivity; [apply Hle|lia]; [by eapply tb_nodup, tk_table| |lia].
      intros i Hi. by rewrite lookup_insert_ne.
  - destruct (heap_append σ pids id a enc) as (l1 & l2 & E & E'); [by eapply tb_nodup, tk_table|done..|].
    by eapply rows_of_heap.
Qed.

(** The same on a page that was new. *)
Lemma insert_settled_new e e' σ ix ix' table s pids id values enc k :
  synced e σ ix -> tables (catalog e) !! table = Some s ->
  table_pages e !! table = Some pids -> σ !! id = None -> in_u32 id -> stored s values enc ->
  let σ1 := <[id := spec_new]> σ in
  exec_ok e' (<[id := page_append spec_new enc]> σ1) ix' -> catalog e' = catalog e ->
  table_pages e' = <[table := pids ++ [id]]> (table_pages e) ->
  wal_room (ex_wal e') k -> index_room (index_manager e') k ->
  next_page σ id -> id + 1 + Z.of_nat k < 2 ^ 32 ->
  settled e σ table (pids ++ [id]) k e' (<[id := page_append spec_new enc]> σ1) /\
  exists r1 r2 rid, table_rows s σ pids = r1 ++ r2 /\
    table_rows s (<[id := page_append spec_new enc]> σ1) (pids ++ [id]) = r1 ++ (rid, values) :: r2.
Proof.
  intros Hsy Hs Hp Hid Hu Hst σ1 Hok' Hc Ht Hw Hr Hn Hk.
  pose proof (synced_new_page e σ ix table s pids id Hsy Hs Hp Hid Hu) as (Htk1 & _).
  destruct (insert_settled (set_table_pages (<[table := pids ++ [id]]> (table_pages e)) e) e' σ1 ix' table s
    (pids ++ [id]) id spec_new values enc k (id + 1)) as [[Hsl1 Hsl2 Hsl3 Hsl4 Hsl5 Hsl6] Hrows];
    try done; [apply lookup_insert_eq|apply elem_of_app; right; by apply list_elem_of_singleton|apply lookup_insert_eq
      |by apply next_page_more; [width|]|width|].
  split.
  - constructor; [done..| |done| |].
    + cbn in Hsl3. by rewrite Hsl3, insert_insert_eq.
    + intros table' s' pids' Hne Hp'. rewrite (Hsl5 table' s' pids');
        [|done|cbn; by rewrite lookup_insert_ne].
      unfold table_rows. f_equal. apply heap_tuples_frame. intros i Hi. unfold σ1.
      rewrite lookup_insert_ne; [done|]. intros <-. destruct Hsy as (Htk & _).
      assert (is_Some (tables (catalog e) !! table')) as [s2 Hs2] by (apply (tk_dom _ _ _ Htk); eauto).
      eapply page_used; [by eapply (tk_table _ _ _ Htk table')|done..].
    + intros M HM. apply Hsl6. intros t p Hp'. cbn in Hp'. destruct Hsy as (Htk & _).
      assert (Hnew : forall l, heap_rids σ1 l = heap_rids σ l).
      { intros l. unfold heap_rids. apply list_bind_ext; [|done]. intros i. unfold σ1.
        destruct (decide (id = i)) as [->|Hne]; [by rewrite lookup_insert_eq, Hid|by rewrite lookup_insert_ne]. }
      rewrite Hnew. destruct (decide (table = t)) as [->|Hne].
      * rewrite lookup_insert_eq in Hp'. injection Hp' as <-. specialize (HM t pids Hp).
        unfold heap_rids in *. rewrite bind_app. cbn. rewrite Hid. by rewrite app_nil_r.
      * rewrite lookup_insert_ne in Hp' by done. by eapply HM.
  - destruct Hrows as (r1 & r2 & rid & E & E'). exists r1, r2, rid. split; [|done].
    rewrite <- E. unfold table_rows. f_equal. symmetry. by apply heap_tuples_new.
Qed.

(** A new page and the row on it, or the answer to a row that no page holds. *)
Lemma new_row_page_ok e σ table pids t row n id :
  idle [] (buffer_pool e) σ -> wal_sync (ex_wal e) σ -> writing t (ex_wal e) -> wal_room (ex_wal e) (S n) ->
  table_pages e !! table = Some pids -> next_page σ id -> 0 <= id -> id + 1 < 2 ^ 32 ->
  σ !! id = None /\
  if Z.of_nat (length row) + 5 <=? PAGE_ROOM then
    exists b w f, let σ' := <[id := page_append spec_new row]> (<[id := spec_new]> σ) in
      new_row_page table t row e =
        (set_meta_files f (set_table_pages (<[table := pids ++ [id]]> (table_pages e)) (set_pool b (set_wal w e))),
         Ok (next_slot id spec_new)) /\
      f = <[table := meta_bytes (pids ++ [id])]> (meta_files e) /\
      idle [id] b σ' /\ wal_sync w σ' /\ writing t w /\ wal_room w n
  else exists b w f, new_row_page table t row e = (set_pool b (set_wal w e), _ ← placed (Z.of_nat (length row)); Ok (next_slot id spec_new)) /\
    working [id] b (<[id := spec_new]> σ) f id false /\ writing t w.
Proof.
  intros Hi Hs Htx Hl Hp Hn H0 Hmax.
  destruct (new_page_idle _ _ _ _ Hi Hn H0 Hmax) as (b & f & p & E & Hid & Hh). split; [done|].
  assert (Hw : working [id] b (<[id := spec_new]> σ) f id false) by by eapply held_working.
  assert (Hs1 : wal_sync (ex_wal e) (<[id := spec_new]> σ)) by (apply wal_sync_new; [done|width|done]).
  unfold new_row_page. rewrite (st_bind_ok _ _ _ _ _ (pool_ok_step new_page e b (id, f) E)). cbv beta iota.
  assert (Hnew : room spec_new = PAGE_ROOM) by done.
  destruct (Z.leb_spec (Z.of_nat (length row) + 5) PAGE_ROOM) as [Hfit|Hbig].
  - destruct (place_row_ok (D:=[id]) (set_pool b e) _ f id false spec_new t row n Hw (lookup_insert_eq _ _ _) Hs1)
      as (b2 & w & E2 & Hi2 & Hs2 & Htx2 & Hl2); [done|lia|done|].
    rewrite (st_bind_ok _ _ _ _ _ E2).
    rewrite (st_bind_ok _ _ _ _ _ (find_meta_ok (set_pool b2 (set_wal w (set_pool b e))) table pids Hp)).
    eexists b2, w, _. split; [|split_and!; [done| |done..]; eapply idle_mono; [|exact Hi2]; set_solver].
    unfold save_table_meta, st_modify, mbind, st_bind. cbn.
    by rewrite lookup_insert_eq.
  - destruct (ws_room _ _ Hs1 id ltac:(width)) as (aw & Hrep & Hr). rewrite dpage_insert, decide_True in Hr by done.
    assert (Haw : room aw = PAGE_ROOM) by (by rewrite Hr).
    pose proof (insert_too_big _ aw row Hrep ltac:(lia)) as E2. rewrite Haw in E2.
    unfold placed. rewrite (proj2 (Z.leb_gt _ _)) by lia.
    destruct (Z.ltb_spec PAGE_ROOM (Z.of_nat (length row) mod 65536 + 5)) as [Hr1|Hr1].
    + rewrite (proj2 (Z.leb_gt _ _)) by lia. eexists b, _, f. split; [|split; [exact Hw|]].
      { apply st_bind_err, st_bind_err. unfold walm, st_zoom. cbn [ex_wal set_pool]. unfold log_insert. by rewrite E2. }
      exact Htx.
    + rewrite (proj2 (Z.leb_le _ _)) by lia. eexists b, _, f. split; [|split; [exact Hw|]].
      { unfold place_row, walm, st_zoom, log_insert, mbind, st_bind. cbn [ex_wal set_pool]. by rewrite E2. }
      exact Htx.
Qed.

(** From the row that is checked and encoded to the commit, and to the end of
    the statement. *)
Definition store_commit (table : rstring) (s : Schema) (values : Row) (row : bytes) : ex (list Z) :=
  t ← walm begin_txn;
  m ← find_meta table;
  found ← try_pages t row m;
  rid ← match found with Some rid => mret rid | None => new_row_page table t row end;
  insert_commit table s values t rid.

Definition store_row (table : rstring) (s : Schema) (values : Row) (row : bytes) : ex (list Row) :=
  ids ← store_commit table s values row; _ ← pool (st_iter flush_page ids); mret [].

(** INSERT up to its commit. *)
Definition insert_unflushed (table : rstring) (values : Row) : ex (list Z) :=
  s ← find_schema table;
  _ ← check_primary_key table s values;
  row ← encode_row s values;
  store_commit table s values row.

Lemma exec_insert_flushes table values e :
  exec_insert table values e = (ids ← insert_unflushed table values; _ ← pool (st_iter flush_page ids); mret []) e.
Proof.
  unfold exec_insert, insert_unflushed, store_commit, insert_commit.
  repeat (rewrite st_bind_assoc; apply st_bind_ext; [done|intros ??]). rewrite (st_bind_ok (mret _) _ _ _ _ eq_refl).
  cbn [st_iter]. unfold pool, st_zoom, mbind, st_bind. by destruct (flush_page _ _) as [b [[]| |]].
Qed.

Definition inserted e σ table s pids values k e' : Prop := exists σ' pids',
  settled e σ table pids' k e' σ' /\
  exists r1 r2 rid, table_rows s σ pids = r1 ++ r2 /\ table_rows s σ' pids' = r1 ++ (rid, values) :: r2.

(** Of a row that no page holds: a transaction has begun and is not over, and a
    new page, which no table has, is in the pool and stays pinned. Nothing else
    has changed. *)
Definition row_not_placed e σ e' : Prop := exists b w t id f,
  e' = set_pool b (set_wal w e) /\ σ !! id = None /\
  working [id] b (<[id := spec_new]> σ) f id false /\ writing t w.

Lemma store_row_ok e σ ix table s pids values enc k :
  exec_ok e σ ix -> tables (catalog e) !! table = Some s -> table_pages e !! table = Some pids ->
  budget e σ (3 + k) -> stored s values enc -> key_fresh s table None (Some enc) ix ->
  exists e', store_row table s values enc e =
      (e', _ ← placed (Z.of_nat (length enc)); Ok []) /\
    if Z.of_nat (length enc) + 5 <=? PAGE_ROOM then inserted e σ table s pids values k e'
    else row_not_placed e σ e'.
Proof.
  intros [Hi Hsy [Hact _]] Hs Hp [Hwr Hir (n & Hn & H0 & Hmax)] Hst Hfresh.
  pose proof Hsy as (Htk & Hrel & Hix & Hws). pose proof (tk_table _ _ _ Htk _ _ _ Hs Hp) as Htb.
  destruct (begin_ok _ _ (S (S k)) Hws Hact Hwr) as (w & t & E & Htx1 & Hws1 & Hl1). unfold store_row, store_commit.
  rewrite st_bind_assoc, (st_bind_ok _ _ _ _ _ (walm_ok_step begin_txn e w t E)).
  rewrite st_bind_assoc, (st_bind_ok _ _ _ _ _ (find_meta_ok (set_wal w e) table pids Hp)).
  assert (Hir1 : index_room (index_manager e) (S k)) by (by apply (index_room_less _ _ 2)).
  destruct (try_pages_ok (D:=[]) (set_wal w e) σ t enc pids (S k) Hi Hws1 Htx1 Hl1)
    as [(b & E2 & Hi2 & Hno)|(id & a & b & w2 & Hid & Ha & Hroom & E2 & Hl & Hi2 & Hws2 & Htx2 & Hl2)].
  { intros i Hin. destruct (tb_pages _ _ _ Htb i Hin) as (a & Ha & _). eauto. }
  - rewrite st_bind_assoc, (st_bind_ok _ _ _ _ _ E2), st_bind_assoc.
    destruct (new_row_page_ok (set_pool b (set_wal w e)) σ table pids t enc (S k) n) as [Hnone Hnew];
      [done..|lia|].
    destruct (Z.leb_spec (Z.of_nat (length enc) + 5) PAGE_ROOM) as [Hfit|Hbig].
    + destruct Hnew as (b3 & w3 & f & E3 & _ & Hi3 & Hws3 & Htx3 & Hl3). rewrite (st_bind_ok _ _ _ _ _ E3), placed_fits by done.
      pose proof (synced_new_page e σ ix table s pids n Hsy Hs Hp Hnone ltac:(width)) as Hsy1.
      destruct (insert_finish (set_table_pages (<[table := pids ++ [n]]> (table_pages e)) e)
        (set_meta_files f (set_table_pages (<[table := pids ++ [n]]> (table_pages e))
          (set_pool b3 (set_wal w3 (set_pool b (set_wal w e)))))) (<[n := spec_new]> σ) ix table s
        (pids ++ [n]) n spec_new values enc t k Hsy1 Hs)
        as (e' & E4 & [ix' Hok'] & Hc' & Ht' & Hw' & Hr'); try done.
      { apply lookup_insert_eq. } { apply elem_of_app. right. by apply list_elem_of_singleton. }
      { apply lookup_insert_eq. }
      exists e'. split; [exact E4|]. eexists _, _.
      eapply insert_settled_new; try done; [width|lia].
    + destruct Hnew as (b3 & w3 & f & E3 & Hw3 & Htx3). eexists. split; [|by exists b3, w3, t, n, f].
      unfold mbind at 1, st_bind at 1. rewrite E3. by destruct (not_placed _ Hbig) as [-> | ->].
  - destruct (page_room _ _ _ _ Hws Ha) as [_ Hb]. rewrite placed_fits, (proj2 (Z.leb_le _ _)) by lia.
    rewrite st_bind_assoc, (st_bind_ok _ _ _ _ _ E2), st_bind_assoc, (st_bind_ok (mret _) _ _ _ _ eq_refl).
    destruct (insert_finish e (set_pool b (set_wal w2 (set_wal w e))) σ ix table s pids id a values enc t k)
      as (e' & E4 & [ix' Hok'] & Hc' & Ht' & Hw' & Hr'); try done.
    exists e'. split; [exact E4|]. eexists _, _.
    eapply (insert_settled e e' σ ix' table s pids id a values enc k n); try done; lia.
Qed.

(** Up to the commit, the page of the row is the one to write. *)
Lemma store_commit_to_write e σ ix table s pids values enc k e1 ids :
  exec_ok e σ ix -> tables (catalog e) !! table = Some s -> table_pages e !! table = Some pids ->
  budget e σ (3 + k) -> stored s values enc -> key_fresh s table None (Some enc) ix ->
  store_commit table s values enc e = (e1, Ok ids) -> to_write e ids e1.
Proof.
  intros [Hi Hsy [Hact _]] Hs Hp [Hwr Hir (n & Hn & H0 & Hmax)] Hst Hfresh.
  pose proof Hsy as (Htk & Hrel & Hix & Hws). pose proof (tk_table _ _ _ Htk _ _ _ Hs Hp) as Htb.
  destruct (begin_ok _ _ (S (S k)) Hws Hact Hwr) as (w & t & E & Htx1 & Hws1 & Hl1). unfold store_commit.
  rewrite (st_bind_ok _ _ _ _ _ (walm_ok_step begin_txn e w t E)), (st_bind_ok _ _ _ _ _ (find_meta_ok (set_wal w e) table pids Hp)).
  assert (Hir1 : index_room (index_manager e) (S k)) by (by apply (index_room_less _ _ 2)).
  destruct (try_pages_ok (D:=[]) (set_wal w e) σ t enc pids (S k) Hi Hws1 Htx1 Hl1)
    as [(b & E2 & Hi2 & Hno)|(id & a & b & w2 & Hid & Ha & Hroom & E2 & Hl & Hi2 & Hws2 & Htx2 & Hl2)].
  { intros i Hin. destruct (tb_pages _ _ _ Htb i Hin) as (a & Ha & _). eauto. }
  - rewrite (st_bind_ok _ _ _ _ _ E2).
    destruct (new_row_page_ok (set_pool b (set_wal w e)) σ table pids t enc (S k) n) as [Hnone Hnew]; [done..|lia|].
    destruct (Z.leb_spec (Z.of_nat (length enc) + 5) PAGE_ROOM) as [Hfit|Hbig].
    + destruct Hnew as (b3 & w3 & f & E3 & _ & Hi3 & Hws3 & Htx3 & Hl3). rewrite (st_bind_ok _ _ _ _ _ E3).
      pose proof (synced_new_page e σ ix table s pids n Hsy Hs Hp Hnone ltac:(width)) as Hsy1.
      destruct (insert_commit_ok (set_table_pages (<[table := pids ++ [n]]> (table_pages e)) e)
        (set_meta_files f (set_table_pages (<[table := pids ++ [n]]> (table_pages e))
          (set_pool b3 (set_wal w3 (set_pool b (set_wal w e)))))) (<[n := spec_new]> σ) ix table s
        (pids ++ [n]) n spec_new values enc t k Hsy1 Hs) as (m & w4 & E4 & _); try done.
      { apply lookup_insert_eq. } { apply elem_of_app. right. by apply list_elem_of_singleton. } { apply lookup_insert_eq. }
      intros E5. pose proof (eq_trans (eq_sym E4) E5) as E6. injection E6 as <- <-.
      eexists. split; [exact Hi3|]. intros Htp. apply (f_equal (lookup table)) in Htp.
      cbn [table_pages set_wal set_indexes set_meta_files set_table_pages] in Htp. rewrite lookup_insert_eq, Hp in Htp.
      apply (f_equal (option_map length)) in Htp. cbn [option_map] in Htp. rewrite length_app in Htp. cbn in Htp. injection Htp. lia.
    + destruct Hnew as (b3 & w3 & f & E3 & _). unfold mbind at 1, st_bind at 1. rewrite E3.
      by destruct (not_placed _ Hbig) as [-> | ->].
  - rewrite (st_bind_ok _ _ _ _ _ E2), (st_bind_ok (mret _) _ _ _ _ eq_refl).
    destruct (insert_commit_ok e (set_pool b (set_wal w2 (set_wal w e))) σ ix table s pids id a values enc t k)
      as (m & w4 & E4 & _); try done.
    intros E5. pose proof (eq_trans (eq_sym E4) E5) as E6. injection E6 as <- <-.
    eexists. split; [exact Hi2|]. intros _. constructor; [exact Hi2| |].
    + constructor; [|constructor]. eexists. split; [apply lookup_insert_eq|]. cbn. by destruct (cells a).
    + constructor; [|constructor]. by eapply (idle_lasting _ _ σ id a Hi).
Qed.

Lemma insert_unflushed_ok e σ ix table s pids values k e1 ids :
  exec_ok e σ ix -> tables (catalog e) !! table = Some s -> table_pages e !! table = Some pids ->
  Forall value_ok values -> budget e σ (3 + k) ->
  insert_unflushed table values e = (e1, Ok ids) -> to_write e ids e1.
Proof.
  intros Hok Hs Hp Hv Hb. pose proof Hok as [_ Hsy _]. unfold insert_unflushed.
  rewrite (st_bind_ok _ _ _ _ _ (find_schema_ok _ _ _ Hs)).
  pose proof (check_primary_key_ok _ _ _ _ _ _ values Hsy Hs Hp) as Hc.
  destruct (insert_check s σ pids values) as [[]|x|] eqn:Ec.
  2: { by rewrite (st_bind_err _ _ _ _ _ Hc). } 2: { unfold mbind, st_bind. by rewrite Hc. }
  rewrite (st_bind_ok _ _ _ _ _ Hc). pose proof (encode_row_result s values e) as Hen.
  destruct (encoded s values) as [enc|x|] eqn:Ee.
  2: { by rewrite (st_bind_err _ _ _ _ _ Hen). } 2: { unfold mbind, st_bind. by rewrite Hen. }
  rewrite (st_bind_ok _ _ _ _ _ Hen). apply (store_commit_to_write e σ ix table s pids values enc k); try done.
  - by apply encoded_stored. - eapply insert_fresh; [done..|]. by apply encoded_stored.
Qed.

Lemma exec_insert_ok e σ ix table s pids values k :
  exec_ok e σ ix -> tables (catalog e) !! table = Some s -> table_pages e !! table = Some pids ->
  Forall value_ok values -> budget e σ (3 + k) ->
  exists e', exec_insert table values e = (e', insert_answer s σ pids values) /\
    match insert_check s σ pids values ≫= fun _ => encoded s values with
    | Ok enc => if Z.of_nat (length enc) + 5 <=? PAGE_ROOM then inserted e σ table s pids values k e'
                else row_not_placed e σ e'
    | Err _ | Panic => e' = e
    end.
Proof.
  intros Hok Hs Hp Hv Hb. pose proof Hok as [_ Hsy _]. rewrite exec_insert_flushes. unfold insert_unflushed.
  rewrite st_bind_assoc, (st_bind_ok _ _ _ _ _ (find_schema_ok _ _ _ Hs)).
  pose proof (check_primary_key_ok _ _ _ _ _ _ values Hsy Hs Hp) as Hc. unfold insert_answer.
  destruct (insert_check s σ pids values) as [[]|x|] eqn:Ec; rewrite st_bind_assoc; cbn [mbind result_bind].
  2: { exists e. rewrite (st_bind_err _ _ _ _ _ Hc). done. }
  2: { exists e. unfold mbind, st_bind. by rewrite Hc. }
  rewrite (st_bind_ok _ _ _ _ _ Hc). pose proof (encode_row_result s values e) as Hen. rewrite st_bind_assoc.
  destruct (encoded s values) as [enc|x|] eqn:Ee.
  2: { exists e. rewrite (st_bind_err _ _ _ _ _ Hen). done. }
  2: { exists e. unfold mbind, st_bind. by rewrite Hen. }
  rewrite (st_bind_ok _ _ _ _ _ Hen).
  destruct (store_row_ok e σ ix table s pids values enc k) as (e' & E & Hdone); [done..| | |].
  { by apply encoded_stored. } { eapply insert_fresh; [done..|]. by apply encoded_stored. }
  by exists e'.
Qed.

Lemma insert_refused_same e σ ix table s pids values k e' x :
  exec_ok e σ ix -> tables (catalog e) !! table = Some s -> table_pages e !! table = Some pids ->
  Forall value_ok values -> budget e σ (3 + k) ->
  exec_insert table values e = (e', Err x) -> x <> IoError OutOfMemory -> e' = e.
Proof.
  intros Hok Hs Hp Hv Hb E Hx. destruct (exec_insert_ok e σ ix table s pids values k) as (e1 & E1 & Hres); [done..|].
  rewrite E1 in E. injection E as -> Ea. unfold insert_answer in Ea.
  destruct (insert_check s σ pids values) as [u|?|]; cbn [mbind result_bind] in *; [|done..].
  destruct (encoded s values) as [enc|?|]; cbn [mbind result_bind] in *; [|done..].
  destruct (Z.leb_spec (Z.of_nat (length enc) + 5) PAGE_ROOM) as [Hle|Hgt]; [by rewrite placed_fits in Ea|].
  destruct (not_placed _ Hgt) as [Hn|Hn]; rewrite Hn in Ea; cbn [mbind result_bind] in Ea; [done|congruence].
Qed.
End Insert.
