(* ===== verification/Reindex.v ===== *)
(** * Recovery: the indexes

    The indexes are not on disk.  When the engine opens its directory again it
    makes those of the catalog, empty, and runs over the tables to fill them: a
    run over some of the places of a table leaves the keys of the rows there. *)
From S2P Require Export Insert Recover.
Local Open Scope Z_scope.

(** The key column of a schema that has one. *)
Definition key_ok (s : Schema) : Prop := forall pk, schema_pk s = Some pk ->
  col_index s pk = Some (pk_place s) /\
  exists cd, columns s !! pk_place s = Some cd /\ col_name cd = pk /\ ty cd = DInt.

(** The keys of the rows at the places [dn]. *)
Definition index_upto (σ : gmap Z spec_page) (s : Schema) (dn : list Rid) (es : entries) : Prop :=
  es_sorted es /\ forall k r, es_lookup k es = Some r <-> r ∈ dn /\ tuple_key s (pk_place s) (tuple_at σ r) = Some k.

(** No two rows share a key. *)
Definition keys_apart (σ : gmap Z spec_page) (s : Schema) (pids : list Z) : Prop := is_Some (schema_pk s) ->
  forall r r' k, page_id r ∈ pids -> page_id r' ∈ pids -> tuple_key s (pk_place s) (tuple_at σ r) = Some k ->
    tuple_key s (pk_place s) (tuple_at σ r') = Some k -> r = r'.

Section Upto.
Implicit Types (σ : gmap Z spec_page) (s : Schema) (dn : list Rid) (es : entries) (r : Rid).

Lemma index_upto_nil σ s : index_upto σ s [] [].
Proof. split; [constructor|]. intros k r. split; [done|]. by intros [?%elem_of_nil _]. Qed.

Lemma index_upto_snoc σ s dn es r :
  index_upto σ s dn es ->
  (forall k, tuple_key s (pk_place s) (tuple_at σ r) = Some k -> es_lookup k es = None) ->
  index_upto σ s (dn ++ [r]) (add_key (tuple_key s (pk_place s) (tuple_at σ r)) r es).
Proof.
  intros [Hs Hl] Hnew. destruct (tuple_key s (pk_place s) (tuple_at σ r)) as [k0|] eqn:Ek; cbn [add_key].
  - specialize (Hnew k0 eq_refl). split; [by apply es_sorted_insert|]. intros k r'.
    rewrite es_lookup_insert by done. rewrite elem_of_app, list_elem_of_singleton. case_decide as Hk.
    + subst k. split; [intros [= <-]; auto|]. intros [[Hr'| ->] Hk']; [|done].
      assert (es_lookup k0 es = Some r') by (by apply Hl). congruence.
    + rewrite Hl. split; [by intros [? ?]; auto|]. intros [[Hr'| ->] Hk']; [done|congruence].
  - split; [done|]. intros k r'. rewrite Hl, elem_of_app, list_elem_of_singleton.
    split; [intros [? ?]; auto|]. intros [[Hr'| ->] Hk']; [done|congruence].
Qed.

Lemma index_upto_none σ s dn es r :
  index_upto σ s dn es -> tuple_at σ r = None -> index_upto σ s (dn ++ [r]) es.
Proof.
  intros Hu Hr. pose proof (index_upto_snoc σ s dn es r Hu) as Hsn. unfold tuple_key in Hsn.
  rewrite Hr in Hsn. by apply Hsn.
Qed.

(** All the places of a table: the index of the table. *)
Lemma index_upto_holds σ s pids es :
  index_upto σ s (heap_rids σ pids) es -> index_holds σ s pids (pk_place s) es.
Proof.
  intros [Hs Hl]. constructor; [done|]. intros k r. rewrite Hl. unfold tuple_key, row_key. split.
  - intros [(Hp & _)%elem_of_heap_rids Hk]. destruct (tuple_at σ r) as [b|]; cbn in Hk; [|done].
    exists b. split_and!; [done..|]. destruct (decoded s b !! pk_place s) as [[]|]; congruence.
  - intros (b & Hp & Hb & Hk). rewrite Hb. cbn. rewrite Hk. split; [|done].
    pose proof Hb as (H0 & a & Ha & Hg)%tuple_at_Some. apply elem_of_heap_rids. split_and!; [done..|].
    exists a. split; [done|]. by eapply spec_get_lt.
Qed.

Lemma keys_apart_holds σ s pids es : index_holds σ s pids (pk_place s) es -> keys_apart σ s pids.
Proof.
  intros Hh _ r r' k Hr Hr' Hk Hk'.
  assert (es_lookup k es = Some r) by (by apply (index_holds_key _ _ _ _ _ _ _ Hh)).
  assert (es_lookup k es = Some r') by (by apply (index_holds_key _ _ _ _ _ _ _ Hh)). congruence.
Qed.
End Upto.

(** ** One table *)
Section Fill.
Context `{Crc32}.
Implicit Types (e : Executor) (m : IndexManager BTree) (ix : gmap (rstring * rstring) entries) (D : list Z).
Variables (σ : gmap Z spec_page) (table : rstring) (s : Schema) (pids : list Z).
Variable ix0 : gmap (rstring * rstring) entries.
Hypothesis Htb : table_ok σ s pids.
Hypothesis Hkey : key_ok s.
Hypothesis Hapart : keys_apart σ s pids.

(** The indexes, with that of the table filled from the places [dn]. *)
Record filled (dn : list Rid) m (n : nat) ix : Prop := {
  fl_rel : index_rel m ix;
  fl_keys c : is_Some (ix !! (table, c)) <-> schema_pk s = Some c;
  fl_upto c es : ix !! (table, c) = Some es -> index_upto σ s dn es;
  fl_others t c : t <> table -> ix !! (t, c) = ix0 !! (t, c);
  fl_room : index_room m n;
}.

Definition on_pages (dn : list Rid) : Prop := Forall (fun r => page_id r ∈ pids) dn.

Lemma filled_none dn m n ix r : filled dn m (S n) ix -> tuple_at σ r = None -> filled (dn ++ [r]) m n ix.
Proof.
  intros [Hrel Hk Hu Ho Hr] Hn. constructor; [done..| |done|by apply (index_room_less m n 1)].
  intros c es He. apply index_upto_none; [by eapply Hu|done].
Qed.

Lemma filled_key dn m n ix r c es k :
  filled dn m n ix -> on_pages dn -> r ∉ dn -> page_id r ∈ pids -> ix !! (table, c) = Some es ->
  tuple_key s (pk_place s) (tuple_at σ r) = Some k -> es_lookup k es = None.
Proof.
  intros Hf Hdn Hr Hp He Hk. destruct (es_lookup k es) as [r'|] eqn:El; [|done].
  apply (fl_upto _ _ _ _ Hf c es He) in El as [Hr' Hk']. unfold on_pages in Hdn. rewrite Forall_forall in Hdn.
  destruct Hr. rewrite (Hapart ltac:(exists c; apply (fl_keys _ _ _ _ Hf); eauto) r r' k); [done|done|by apply Hdn|done..].
Qed.

Lemma has_filled dn m n ix c : filled dn m n ix -> has_index m table c = bool_decide (schema_pk s = Some c).
Proof.
  intros Hf. rewrite (has_index_ok m ix) by apply Hf. apply bool_decide_ext, (fl_keys _ _ _ _ Hf).
Qed.

(** A row goes into the index of its table. *)
Lemma reindex_row_ok e ix dn n r b row :
  filled dn (index_manager e) (S n) ix -> on_pages dn -> r ∉ dn -> page_id r ∈ pids ->
  tuple_at σ r = Some b -> stored s row b ->
  exists m ix', reindex_row table s row r e = (set_indexes m e, Ok tt) /\ filled (dn ++ [r]) m n ix'.
Proof.
  intros Hf Hdn Hr Hp Hb Hst. unfold reindex_row. destruct (schema_pk s) as [pk|] eqn:Epk.
  2: { exists (index_manager e), ix. rewrite set_indexes_id. split.
       - apply for_indexed_none, Forall_forall. intros c _. rewrite (has_filled _ _ _ _ _ Hf), Epk. done.
       - destruct Hf as [Hrel Hk Hu Ho Hroom].
         constructor; [done..| |done|by apply (index_room_less _ n 1)]. intros c es He.
         assert (Hc : schema_pk s = Some c) by (apply Hk; eauto). congruence. }
  destruct (Hkey pk Epk) as (Hi & cd & Hcd & Hn & Hty).
  assert (is_Some (ix !! (table, pk))) as [es He] by (by apply (fl_keys _ _ _ _ Hf)).
  assert (Htk : tuple_key s (pk_place s) (tuple_at σ r) = row_key (pk_place s) row).
  { rewrite Hb. unfold tuple_key. cbn. by rewrite (stored_decoded _ _ _ Hst). }
  destruct (row_matches_cell s row _ cd (stored_matches _ _ _ Hst) Hcd) as (v & Hv & _).
  pose proof Hf as [Hrel Hk Hu Ho Hroom].
  destruct (index_insert_key e ix table (col_name cd) row (pk_place s) r Hrel) as (m & E & Hm & Hused);
    [eauto|by apply (index_room_less _ 1 n); rewrite Nat.add_1_r| |].
  { intros k Hrow. rewrite Hn, He. cbn. rewrite <- Htk in Hrow. by eapply filled_key. }
  rewrite Hn in E, Hm. exists m, (alter (add_key (row_key (pk_place s) row) r) (table, pk) ix).
  assert (Hf' : filled (dn ++ [r]) m n (alter (add_key (row_key (pk_place s) row) r) (table, pk) ix)).
  { constructor; [done| | | |by apply Hused].
    - intros c. by rewrite lookup_alter_is_Some.
    - intros c es'. destruct (decide (c = pk)) as [->|Hne].
      + rewrite lookup_alter_eq, He. intros [= <-]. rewrite <- Htk. apply index_upto_snoc; [by eapply Hu|].
        intros k Hk'. by eapply filled_key.
      + rewrite lookup_alter_ne by congruence. intros He'.
        assert (schema_pk s = Some c) by (apply Hk; eauto). congruence.
    - intros t c Ht. rewrite lookup_alter_ne by congruence. by apply Ho. }
  split; [|done]. eapply (for_indexed_one _ _ _ _ _ _ _ cd); [apply Htb|exact Hcd| | |].
  - rewrite (has_filled _ _ _ _ _ Hf), Hn. by apply bool_decide_eq_true.
  - intros c Hc. cbn [index_manager set_indexes]. rewrite (has_filled _ _ _ _ _ Hf), (has_filled _ _ _ _ _ Hf').
    split; apply bool_decide_eq_false; congruence.
  - cbn beta. rewrite Hn, Hi. exact E.
Qed.

Lemma reindex_slots_ok D slots e ix dn id f n :
  working D (buffer_pool e) σ f id false -> id ∈ pids -> Forall (fun i => 0 <= i) slots ->
  NoDup (dn ++ (mkRid id <$> slots)) -> on_pages dn -> filled dn (index_manager e) (length slots + n) ix ->
  exists m ix', reindex_slots table s id f slots e = (set_indexes m e, Ok tt) /\
    filled (dn ++ (mkRid id <$> slots)) m n ix'.
Proof.
  intros Hw Hid Hsl. revert e ix dn Hw. induction Hsl as [|i slots Hi _ IH]; intros e ix dn Hw Hnd Hdn Hf.
  { exists (index_manager e), ix. rewrite set_indexes_id, app_nil_r. done. }
  cbn [reindex_slots fmap list_fmap length] in *. destruct (tb_pages _ _ _ Htb id Hid) as (a & Ha & Hst).
  rewrite (st_bind_ok _ _ _ _ _ (tuple_step e σ f id false a i Hw Ha Hi)).
  assert (Hr : mkRid id i ∉ dn).
  { intros Hin. apply NoDup_app in Hnd as (_ & Hd & _). apply (Hd _ Hin). left. }
  rewrite (cons_middle (mkRid id i)), app_assoc in Hnd |- *.
  assert (Hdn' : on_pages (dn ++ [mkRid id i])) by (apply Forall_app; split; [done|by constructor]).
  assert (Hstep : exists m ix', match tuple_at σ (mkRid id i) with
      | None => mret tt
      | Some b => match deserialize_row s b with
                  | Ok row => reindex_row table s row (mkRid id i)
                  | Err _ => mret tt
                  | Panic => st_lift Panic
                  end
      end e = (set_indexes m e, Ok tt) /\ filled (dn ++ [mkRid id i]) m (length slots + n) ix').
  { destruct (tuple_at σ (mkRid id i)) as [b|] eqn:Eb.
    - assert (Hg : spec_get a i = Some b) by (by rewrite <- Eb, (tuple_at_page _ _ a)).
      destruct (Hst i b Hi Hg) as [row Hrow]. rewrite (stored_decode s row b Hrow).
      by apply (reindex_row_ok e ix dn (length slots + n) _ b).
    - exists (index_manager e), ix. rewrite set_indexes_id. split; [done|]. by apply filled_none. }
  destruct Hstep as (m & ix' & E & Hf'). rewrite (st_bind_ok _ _ _ _ _ E).
  destruct (IH (set_indexes m e) ix' (dn ++ [mkRid id i])) as (m2 & ix2 & E2 & Hf2); [done..|].
  exists m2, ix2. split; [exact E2|done].
Qed.

Lemma reindex_pages_ok D ids e ix dn n :
  idle D (buffer_pool e) σ -> ids ⊆ pids -> NoDup (dn ++ heap_rids σ ids) -> on_pages dn ->
  filled dn (index_manager e) (length (heap_rids σ ids) + n) ix ->
  exists b m ix', reindex_pages table s ids e = (set_pool b (set_indexes m e), Ok tt) /\ idle D b σ /\
    filled (dn ++ heap_rids σ ids) m n ix'.
Proof.
  revert e ix dn. induction ids as [|id ids IH]; intros e ix dn Hi Hsub Hnd Hdn Hf.
  { exists (buffer_pool e), (index_manager e), ix. rewrite app_nil_r. split; [by destruct e|done]. }
  assert (Hid : id ∈ pids) by (apply Hsub; left). destruct (tb_pages _ _ _ Htb id Hid) as (a & Ha & _).
  rewrite heap_rids_cons, Ha in *. cbn [from_option] in *. rewrite length_app, length_fmap, <- Nat.add_assoc in Hf.
  destruct (fetch_step e σ id a Hi Ha) as (b & f & E & Hw). cbn [reindex_pages].
  set (slots := seqZ 0 (Z.of_nat (length (cells a)))) in *. rewrite app_assoc in Hnd.
  destruct (reindex_slots_ok D slots (set_pool b e) ix dn id f (length (heap_rids σ ids) + n) Hw Hid)
    as (m & ix1 & E1 & Hf1); [| |done|done|].
  { apply Forall_forall. intros i [? _]%elem_of_seqZ. done. }
  { by apply NoDup_app in Hnd as (? & _ & _). }
  destruct (unpin_step (set_indexes m (set_pool b e)) σ f id false Hw) as (b2 & E2 & Hi2).
  assert (Hpage : (match pool (fetch_page id) e with
     | (e, Ok f) => (slots ← page_slots f; _ ← reindex_slots table s id f slots; pool (unpin f false)) e
     | (e, Err _) => (e, Ok tt)
     | (e, Panic) => (e, Panic)
     end) = (set_pool b2 (set_indexes m e), Ok tt)).
  { rewrite E. rewrite (st_bind_ok _ _ _ _ _ (slots_step (set_pool b e) σ f id false a Hw Ha)).
    fold slots. rewrite (st_bind_ok _ _ _ _ _ E1). exact E2. }
  destruct (IH (set_pool b2 (set_indexes m e)) ix1 (dn ++ (mkRid id <$> slots))) as (b3 & m3 & ix3 & E3 & Hi3 & Hf3);
    [done|set_solver|done| |done|].
  { apply Forall_app. split; [done|]. by apply Forall_fmap, Forall_forall. }
  exists b3, m3, ix3. split; [|by rewrite <- app_assoc in Hf3].
  transitivity (reindex_pages table s ids (set_pool b2 (set_indexes m e))); [|exact E3].
  exact (st_bind_ok _ (fun _ => reindex_pages table s ids) e _ tt Hpage).
Qed.
End Fill.

(** ** All the tables *)
(** The indexes of the catalog, filled for the tables [dn]. *)
Record rebuilt (σ : gmap Z spec_page) (c : Catalog) (tp : gmap rstring (list Z)) (dn : list rstring)
    (ix : gmap (rstring * rstring) entries) : Prop := {
  rb_pk t s pk : tables c !! t = Some s -> schema_pk s = Some pk -> is_Some (ix !! (t, pk));
  rb_only t col es : ix !! (t, col) = Some es ->
    exists s pids, tables c !! t = Some s /\ tp !! t = Some pids /\ schema_pk s = Some col /\
      index_upto σ s (if decide (t ∈ dn) then heap_rids σ pids else []) es;
}.

(** The number of places in these tables. *)
Definition places (σ : gmap Z spec_page) (tp : gmap rstring (list Z)) (names : list rstring) : nat :=
  sum_list ((fun t => length (heap_rids σ (default [] (tp !! t)))) <$> names).

Section Rebuild.
Context `{Crc32}.
Implicit Types (e : Executor) (σ : gmap Z spec_page) (ix : gmap (rstring * rstring) entries) (D : list Z).

Lemma places_bound σ tp names M :
  (forall t p, tp !! t = Some p -> (length (heap_rids σ p) <= M)%nat) -> (places σ tp names <= length names * M)%nat.
Proof.
  intros HM. unfold places. induction names as [|t names IH]; [done|]. csimpl.
  assert (length (heap_rids σ (default [] (tp !! t))) <= M)%nat; [|lia].
  destruct (tp !! t) as [p|] eqn:E; [by eapply HM|]. cbn. lia.
Qed.

Lemma create_indexes_ok defs dn e ix n :
  index_rel (index_manager e) ix -> index_room (index_manager e) n ->
  (forall k, ix !! k = if decide (k ∈ dn) then Some [] else None) ->
  exists m ix', st_iter (fun d => st_modify (fun e => set_indexes (create_index (index_manager e) d.1 d.2) e)) defs e =
      (set_indexes m e, Ok (E:=exec_error) tt) /\
    index_rel m ix' /\ index_room m n /\ forall k, ix' !! k = if decide (k ∈ dn ++ defs) then Some [] else None.
Proof.
  revert dn e ix. induction defs as [|[t c] defs IH]; intros dn e ix Hrel Hroom Hk.
  { exists (index_manager e), ix. rewrite set_indexes_id, app_nil_r. done. }
  pose proof (index_create_ok _ _ t c Hrel) as Hrel1. rewrite Hk in Hrel1.
  edestruct (IH (dn ++ [(t, c)]) (set_indexes (create_index (index_manager e) t c) e)) as (m & ix' & E & Hm);
    [exact Hrel1| | |].
  - cbn. unfold create_index. destruct (indexes (index_manager e) !! (t, c)); [done|].
    by apply index_room_insert; [|apply Hroom].
  - intros k. case_decide as Hd; [rewrite Hk|destruct (decide (k = (t, c))) as [->|Hne];
      [rewrite lookup_insert_eq|rewrite lookup_insert_ne by done; rewrite Hk]]; repeat case_decide; set_solver.
  - rewrite <- app_assoc in Hm. exists m, ix'. split; [exact E|exact Hm].
Qed.

Lemma rebuilt_filled σ c tp dn ix table s pids m n :
  tables c !! table = Some s -> tp !! table = Some pids -> table ∉ dn -> rebuilt σ c tp dn ix ->
  index_rel m ix -> index_room m n -> filled σ table s ix [] m n ix.
Proof.
  intros Hs Hp Hn [Hpk Hon] Hrel Hroom.
  assert (Hsame : forall col es, ix !! (table, col) = Some es -> schema_pk s = Some col /\ index_upto σ s [] es).
  { intros col es He. destruct (Hon _ _ _ He) as (s' & pids' & Hs' & _ & Hc & Hu).
    assert (s' = s) as -> by congruence. by rewrite decide_False in Hu. }
  constructor; [done| | |done|done].
  - intros col. split; [intros [es He]; by apply (Hsame col es)|]. by apply Hpk.
  - intros col es He. by apply Hsame in He as [_ ?].
Qed.

Lemma filled_rebuilt σ c tp dn ix ix' table s pids m n :
  tables c !! table = Some s -> tp !! table = Some pids -> rebuilt σ c tp dn ix ->
  filled σ table s ix (heap_rids σ pids) m n ix' -> rebuilt σ c tp (dn ++ [table]) ix'.
Proof.
  intros Hs Hp [Hpk Hon] Hf. constructor.
  - intros t s' pk Hs' Hpk'. destruct (decide (t = table)) as [->|Hne].
    + apply (fl_keys _ _ _ _ _ _ _ _ Hf). congruence.
    + rewrite (fl_others _ _ _ _ _ _ _ _ Hf) by done. by eapply Hpk.
  - intros t col es He. destruct (decide (t = table)) as [->|Hne].
    + exists s, pids. split_and!; [done..|apply (fl_keys _ _ _ _ _ _ _ _ Hf); eauto|].
      rewrite decide_True by set_solver. by eapply (fl_upto _ _ _ _ _ _ _ _ Hf).
    + rewrite (fl_others _ _ _ _ _ _ _ _ Hf) in He by done.
      destruct (Hon _ _ _ He) as (s' & pids' & ? & ? & ? & Hu). exists s', pids'. split_and!; [done..|].
      destruct (decide (t ∈ dn)); [rewrite decide_True by set_solver|rewrite decide_False by set_solver]; done.
Qed.

Lemma reindex_tables_ok D names dn e σ ix n :
  idle D (buffer_pool e) σ -> tables_ok σ (catalog e) (table_pages e) ->
  (forall t s, tables (catalog e) !! t = Some s -> key_ok s) ->
  (forall t s pids, tables (catalog e) !! t = Some s -> table_pages e !! t = Some pids -> keys_apart σ s pids) ->
  NoDup (dn ++ names) -> index_rel (index_manager e) ix -> rebuilt σ (catalog e) (table_pages e) dn ix ->
  index_room (index_manager e) (places σ (table_pages e) names + n) ->
  exists b m ix', st_iter reindex_table names e = (set_pool b (set_indexes m e), Ok tt) /\ idle D b σ /\
    index_rel m ix' /\ rebuilt σ (catalog e) (table_pages e) (dn ++ names) ix' /\ index_room m n.
Proof.
  revert dn e ix. induction names as [|t names IH]; intros dn e ix Hi Htk Hkey Hap Hnd Hrel Hrb Hroom.
  { exists (buffer_pool e), (index_manager e), ix. rewrite app_nil_r. split; [by destruct e|done]. }
  unfold places in Hroom. cbn [fmap list_fmap sum_list foldr] in Hroom. fold (sum_list) in Hroom.
  rewrite (cons_middle t), app_assoc in Hnd |- *. cbn [st_iter].
  destruct (tables (catalog e) !! t) as [s|] eqn:Es.
  - assert (is_Some (table_pages e !! t)) as [pids Ep] by (apply (tk_dom _ _ _ Htk); eauto).
    rewrite Ep in Hroom. cbn [default] in Hroom. rewrite <- Nat.add_assoc in Hroom.
    pose proof (tk_table _ _ _ Htk _ _ _ Es Ep) as Htb. pose proof (tb_nodup _ _ _ Htb) as Hp.
    assert (Hnin : t ∉ dn).
    { apply NoDup_app in Hnd as (Hnd & _ & _). apply NoDup_app in Hnd as (_ & Hd & _).
      intros Hin. apply (Hd t Hin). by apply list_elem_of_singleton. }
    destruct (reindex_pages_ok σ t s pids ix Htb (Hkey _ _ Es) (Hap _ _ _ Es Ep) D pids e ix [] (places σ (table_pages e) names + n))
      as (b & m & ix1 & E1 & Hi1 & Hf1); [done|done|by apply NoDup_heap_places|constructor| |].
    { by eapply rebuilt_filled. }
    assert (E : reindex_table t e = (set_pool b (set_indexes m e), Ok tt)).
    { unfold reindex_table, asks, mbind, st_bind, catalog_get. by rewrite Es, Ep. }
    rewrite (st_bind_ok _ _ _ _ _ E).
    destruct (IH (dn ++ [t]) (set_pool b (set_indexes m e)) ix1) as (b2 & m2 & ix2 & E2 & Hpost);
      [done..|apply Hf1|by eapply filled_rebuilt|apply Hf1|].
    exists b2, m2, ix2. split; [exact E2|exact Hpost].
  - assert (E : reindex_table t e = (e, Ok tt)).
    { unfold reindex_table, asks, mbind, st_bind, catalog_get. by rewrite Es. }
    rewrite (st_bind_ok _ _ _ _ _ E). apply (IH (dn ++ [t]) e ix); try done.
    + constructor; [apply Hrb|]. intros t' col es He. destruct (rb_only _ _ _ _ _ Hrb _ _ _ He) as (s' & pids' & Hs' & ? & ? & Hu).
      exists s', pids'. split_and!; [done..|]. assert (t' <> t) by congruence.
      destruct (decide (t' ∈ dn)); [rewrite decide_True by set_solver|rewrite decide_False by set_solver]; done.
    + eapply index_room_less. by rewrite <- Nat.add_assoc in Hroom.
Qed.

(** All the tables: the invariant of the indexes. *)
Lemma rebuilt_all σ c tp dn ix :
  rebuilt σ c tp dn ix -> (forall t s, tables c !! t = Some s -> key_ok s /\ t ∈ dn) -> indexes_ok σ c tp ix.
Proof.
  intros [Hpk Hon] Hall. constructor; [done|]. intros t col es He.
  destruct (Hon _ _ _ He) as (s & pids & Hs & Hp & Hc & Hu). destruct (Hall _ _ Hs) as [Hk Hin].
  destruct (Hk col Hc) as (Hi & cd & Hcd & _ & Hty). exists s, pids, (pk_place s), cd. split_and!; [done..|].
  apply index_upto_holds. by rewrite decide_True in Hu.
Qed.
End Rebuild.
