(* ===== verification/Create.v ===== *)
(** * CREATE TABLE

    A new table has the columns asked for, no rows, an index on its primary
    key, and is in the catalog file and the page list file when the statement
    returns. *)
From S2P Require Export Insert.
Local Open Scope Z_scope.

(** The schemas the invariant is about: distinct column names, and a primary
    key that is an INT. *)
Definition schema_ok (s : Schema) : Prop :=
  NoDup (col_name <$> columns s) /\
  forall pk, schema_pk s = Some pk -> exists i cd, col_index s pk = Some i /\ columns s !! i = Some cd /\ ty cd = DInt.

(** The indexes with the key of the new table. *)
Definition ix_create (s : Schema) (table : rstring) (ix : gmap (rstring * rstring) entries)
    : gmap (rstring * rstring) entries :=
  match schema_pk s with Some pk => <[(table, pk) := []]> ix | None => ix end.

Section Create.
Context `{Crc32}.
Implicit Types (e : Executor) (σ : gmap Z spec_page) (s : Schema).

Definition created (order : gmap rstring Schema -> list Schema) e (table : rstring) (cols : list ColumnDef) : Executor :=
  let s := Schema_new table cols in
  let c := mkCatalog (<[table := s]> (tables (catalog e)))
             (index_defs (catalog e) ++ match schema_pk s with Some pk => [(table, pk)] | None => [] end) in
  mkExec c (<[table := []]> (table_pages e)) (buffer_pool e) (ex_wal e)
    match schema_pk s with Some pk => create_index (index_manager e) table pk | None => index_manager e end
    (Some (save_bytes (order (tables c)) c)) (<[table := meta_bytes []]> (meta_files e)).

Lemma exec_create_answer order e table cols :
  tables (catalog e) !! table = None ->
  exec_create_table order table cols e = (created order e table cols, Ok []).
Proof.
  intros Hn. unfold exec_create_table, created, catalog_op, st_zoom, create_table, save_table_meta, st_modify, mbind, st_bind.
  cbn [schema_pk Schema_new]. destruct (first_pk cols) as [pk|]; cbn.
  all: rewrite Hn; cbn; rewrite lookup_insert_eq; cbn; rewrite ?app_nil_r; done.
Qed.

Lemma tables_create σ c tp table s :
  tables_ok σ c tp -> tables c !! table = None -> NoDup (col_name <$> columns s) ->
  forall defs, tables_ok σ (mkCatalog (<[table := s]> (tables c)) defs) (<[table := []]> tp).
Proof.
  intros Htk Hn Hnd defs. constructor; cbn.
  - intros t. destruct (decide (table = t)) as [->|Hne].
    + rewrite !lookup_insert_eq. split; by eexists.
    + rewrite !lookup_insert_ne by done. apply Htk.
  - intros t s' pids. destruct (decide (table = t)) as [->|Hne].
    + rewrite !lookup_insert_eq. intros [= <-] [= <-]. constructor; [constructor| |done].
      by intros id ?%elem_of_nil.
    + rewrite !lookup_insert_ne by done. apply Htk.
  - intros t t' p p' id Hne Hp1 Hp2 Hin Hin'.
    destruct (decide (table = t)) as [->|H1]; [rewrite lookup_insert_eq in Hp1|rewrite lookup_insert_ne in Hp1 by done].
    { injection Hp1 as <-. by apply elem_of_nil in Hin. }
    destruct (decide (table = t')) as [->|H2]; [rewrite lookup_insert_eq in Hp2|rewrite lookup_insert_ne in Hp2 by done].
    { injection Hp2 as <-. by apply elem_of_nil in Hin'. }
    by eapply (tk_disjoint _ _ _ Htk t t').
Qed.

Lemma no_index σ c tp ix table col : indexes_ok σ c tp ix -> tables c !! table = None -> ix !! (table, col) = None.
Proof.
  intros Hix Hn. destruct (ix !! (table, col)) as [es|] eqn:E; [|done].
  destruct (ix_only _ _ _ _ Hix _ _ _ E) as (s & ? & ? & ? & Hs & _). congruence.
Qed.

Lemma indexes_create σ c tp ix table s :
  indexes_ok σ c tp ix -> tables c !! table = None -> schema_ok s ->
  forall defs, indexes_ok σ (mkCatalog (<[table := s]> (tables c)) defs) (<[table := []]> tp) (ix_create s table ix).
Proof.
  intros Hix Hn [Hnd Hpk] defs. unfold ix_create. constructor; cbn.
  - intros t s' pk. destruct (decide (table = t)) as [->|Hne].
    + rewrite lookup_insert_eq. intros [= <-] ->. rewrite lookup_insert_eq. by eexists.
    + rewrite lookup_insert_ne by done. intros Hs' Hpk'. pose proof (ix_pk _ _ _ _ Hix _ _ _ Hs' Hpk').
      destruct (schema_pk s); [|done]. rewrite lookup_insert_ne; congruence.
  - intros t col es He.
    assert (Hcase : (t = table /\ schema_pk s = Some col /\ es = []) \/ (t <> table /\ ix !! (t, col) = Some es)).
    { destruct (schema_pk s) as [pk|] eqn:Epk.
      - destruct (decide ((table, pk) = (t, col))) as [[= <- <-]|Hne].
        + rewrite lookup_insert_eq in He. left. naive_solver.
        + rewrite lookup_insert_ne in He by done. right. split; [|done]. intros ->.
          by rewrite (no_index _ _ _ _ table col Hix Hn) in He.
      - right. split; [|done]. intros ->. by rewrite (no_index _ _ _ _ table col Hix Hn) in He. }
    destruct Hcase as [(-> & Hs & ->)|[Hne He']].
    + destruct (Hpk col Hs) as (i & cd & Hi & Hcd & Hty). exists s, [], i, cd.
      rewrite !lookup_insert_eq. split_and!; try done. constructor; [constructor|]. intros k r. split; [done|].
      by intros (b & ?%elem_of_nil & _).
    + destruct (ix_only _ _ _ _ Hix _ _ _ He') as (s' & p & i & cd & Hs' & Hp' & Hrest).
      exists s', p, i, cd. rewrite !lookup_insert_ne by done. done.
Qed.

Lemma exec_create_ok order e σ ix table cols k :
  exec_ok e σ ix -> tables (catalog e) !! table = None -> schema_ok (Schema_new table cols) -> budget e σ k ->
  exec_ok (created order e table cols) σ (ix_create (Schema_new table cols) table ix) /\
  budget (created order e table cols) σ k.
Proof.
  intros [Hi (Htk & Hrel & Hix & Hws) Hq] Hn Hs [Hw Hr Hp]. split.
  - constructor; [done| |done]. split_and!; [| | |done].
    + by apply tables_create; [| |apply Hs].
    + unfold ix_create, created. cbn [index_manager]. destruct (schema_pk _) as [pk|]; [|done].
      pose proof (index_create_ok _ _ table pk Hrel) as Hc. by rewrite (no_index _ _ _ _ table pk Hix Hn) in Hc.
    + by apply indexes_create.
  - constructor; [done| |done]. unfold created. cbn [index_manager].
    destruct (schema_pk _) as [pk|]; [|done]. unfold create_index.
    destruct (indexes (index_manager e) !! (table, pk)); [done|]. by apply index_room_insert; [|apply Hr].
Qed.

(** A table that exists: nothing changes but the indexes, where an index on
    the column named as primary key appears if there was none. *)
Lemma exec_create_exists order e table cols s :
  tables (catalog e) !! table = Some s ->
  exec_create_table order table cols e =
    (match first_pk cols with
     | Some pk => set_indexes (create_index (index_manager e) table pk) e | None => e
     end, Err (CatalogError (TableExists table))).
Proof.
  intros Hs. unfold exec_create_table, catalog_op, st_zoom, create_table, st_modify, mbind, st_bind.
  cbn [schema_pk Schema_new]. destruct (first_pk cols) as [pk|]; cbn; rewrite Hs; cbn; [done|by destruct e].
Qed.
End Create.
