(* ===== verification/Database.v ===== *)
(** * The database as tables of rows

    [contents] is what an executor holds as SQL sees it: a map from table
    names to a schema and a list of rows.  [sql_step] says what a statement may
    do to it and answer, without pages, log or indexes, and a session of the
    executor is one of [sql_step]s. *)
From S2P Require Export Errors Create.
Local Open Scope Z_scope.

Notation database := (gmap rstring (Schema * list Row)) (only parsing).

Definition contents (e : Executor) (σ : gmap Z spec_page) : gmap rstring (Schema * list Row) :=
  map_imap (fun t s => Some (s, (table_rows s σ (default [] (table_pages e !! t))).*2)) (tables (catalog e)).

(** ** What statements mean *)
Definition row_keys (s : Schema) (rows : list Row) : list Z := omap (row_key (pk_place s)) rows.

(** A primary key is unique and not NULL. *)
Definition keys_ok (s : Schema) (rows : list Row) : Prop :=
  is_Some (schema_pk s) -> NoDup (row_keys s rows) /\ Forall (fun r => is_Some (row_key (pk_place s) r)) rows.

(** A new row is checked against the rows there are; the answer is its
    encoding. *)
Definition row_check (s : Schema) (rows : list Row) (values : Row) : result exec_error bytes :=
  _ ← match schema_pk s with
      | None => Ok tt
      | Some pk =>
          v ← or_panic (values !! pk_place s);
          match v with
          | VNull => Err (PrimaryKeyNull pk)
          | VInt k => if bool_decide (k ∈ row_keys s rows) then Err (DuplicateKey pk k) else Ok tt
          | _ => Ok tt
          end
      end;
  encoded s values.

(** The table a statement needs. *)
Definition of_table (x : Statement) : option rstring :=
  match x with
  | CreateTable _ _ => None
  | InsertInto t _ | UpdateSet t _ _ | Select t _ _ _ _ | DeleteFrom t _ => Some t
  end.

Inductive sql_step (d : database) : Statement -> database -> result exec_error (list Row) -> Prop :=
  | sql_create t cols :
      d !! t = None -> schema_ok (Schema_new t cols) ->
      sql_step d (CreateTable t cols) (<[t := (Schema_new t cols, [])]> d) (Ok [])
  | sql_insert t s rows1 rows2 values enc :
      d !! t = Some (s, rows1 ++ rows2) -> row_check s (rows1 ++ rows2) values = Ok enc ->
      sql_step d (InsertInto t values) (<[t := (s, rows1 ++ values :: rows2)]> d) (Ok [])
  | sql_insert_refused t s rows values x :
      d !! t = Some (s, rows) -> row_check s rows values = Err x ->
      sql_step d (InsertInto t values) d (Err x)
  | sql_unknown x t :
      of_table x = Some t -> d !! t = None -> sql_step d x d (Err (TableNotFound t))
  | sql_create_exists t cols :
      is_Some (d !! t) -> sql_step d (CreateTable t cols) d (Err (CatalogError (TableExists t)))
  | sql_select_unordered t s rows rows' cols filter order limit found x :
      d !! t = Some (s, rows) -> rows' ≡ₚ rows -> select_rows s cols filter rows' = Ok found ->
      order_limit s cols order limit found = Err x ->
      sql_step d (Select t cols filter order limit) d (Err x)
  | sql_select t s rows rows' cols filter order limit found answer :
      d !! t = Some (s, rows) -> rows' ≡ₚ rows -> select_rows s cols filter rows' = Ok found ->
      order_limit s cols order limit found = Ok answer ->
      sql_step d (Select t cols filter order limit) d (Ok answer)
  | sql_delete t s rows filter found :
      d !! t = Some (s, rows) -> select_rows s Star filter rows = Ok found ->
      sql_step d (DeleteFrom t filter) (<[t := (s, base.filter (fun r => matches s filter r = false) rows)]> d) (Ok [])
  | sql_update t s rows xs filter found :
      d !! t = Some (s, rows) -> select_rows s Star filter rows = Ok found ->
      Forall (fun r => matches s filter r = true -> exists r', apply_assignments s xs r = Ok r' /\ row_matches s r') rows ->
      (keys_ok s rows -> keys_ok s (updated s filter xs <$> rows)) ->
      sql_step d (UpdateSet t xs filter) (<[t := (s, updated s filter xs <$> rows)]> d) (Ok []).

Inductive sql_run : database -> list Statement -> database -> list (result exec_error (list Row)) -> Prop :=
  | sql_run_nil d : sql_run d [] d []
  | sql_run_cons d d1 d2 x xs r rs :
      sql_step d x d1 r -> sql_run d1 xs d2 rs -> sql_run d (x :: xs) d2 (r :: rs).

(** Every table of a database has a good key. *)
Definition db_keys_ok (d : database) : Prop := forall t s rows, d !! t = Some (s, rows) -> keys_ok s rows.

(** ** What a session gives *)
(** The values a parser gives: in range, and rows that can be encoded. *)
Definition value_size (v : Value) : Z :=
  match v with VInt _ | VFloat _ => 9 | VText s => 5 + Z.of_nat (length s) | VNull => 1 end.

Definition row_size (r : Row) : Z := foldr (fun v n => value_size v + n) 0 r.

Definition statement_ok (x : Statement) : Prop :=
  match x with
  | CreateTable t cols => schema_ok (Schema_new t cols)
  | InsertInto _ values => Forall value_ok values
  | Select _ _ filter _ _ => literal_ok filter
  | DeleteFrom _ _ => True
  | UpdateSet _ xs _ => Forall (fun a => value_ok (value a)) xs
  end.

(** Errors that leave the engine as it was: an INSERT is refused, the table does
    not exist, or exists and has no key, or the rows cannot be ordered. *)
Definition harmless (x : Statement) (err : exec_error) : Prop :=
  match x, err with
  | InsertInto _ _, _ => err <> IoError OutOfMemory
  | CreateTable _ cols, CatalogError (TableExists _) => first_pk cols = None
  | CreateTable _ _, _ => False
  | _, TableNotFound _ => True
  | Select _ _ _ _ _, (OrderNotFound _ | OrderNotSelected _) => True
  | _, _ => False
  end.

(** Answers a session goes on after: those of statements that succeed or fail
    without harm. *)
Definition clean (x : Statement) (r : result exec_error (list Row)) : Prop :=
  match r with Ok _ => True | Err err => harmless x err | Panic => False end.

(** No error of a row is one of these. *)
Lemma harmless_rows x err : harmless x err -> row_error err = true -> match x with InsertInto _ _ | CreateTable _ _ => True | _ => False end.
Proof. by destruct x, err. Qed.

Section Contents.
Context `{Crc32}.
Implicit Types (e : Executor) (σ : gmap Z spec_page) (s : Schema) (d : database).

Lemma contents_lookup e σ t :
  contents e σ !! t = (fun s => (s, (table_rows s σ (default [] (table_pages e !! t))).*2)) <$> tables (catalog e) !! t.
Proof. unfold contents. rewrite map_lookup_imap. by destruct (tables (catalog e) !! t). Qed.

Lemma contents_table e σ t s pids :
  tables (catalog e) !! t = Some s -> table_pages e !! t = Some pids ->
  contents e σ !! t = Some (s, (table_rows s σ pids).*2).
Proof. intros Hs Hp. by rewrite contents_lookup, Hs, Hp. Qed.

Lemma contents_settled e σ table s pids k e' σ' :
  tables_ok σ (catalog e) (table_pages e) -> tables (catalog e) !! table = Some s ->
  settled e σ table pids k e' σ' ->
  contents e' σ' = <[table := (s, (table_rows s σ' pids).*2)]> (contents e σ).
Proof.
  intros Htk Hs Hst. apply map_eq. intros t. rewrite contents_lookup, (sl_catalog _ _ _ _ _ _ _ Hst), (sl_pages _ _ _ _ _ _ _ Hst).
  destruct (decide (table = t)) as [->|Hne]; [by rewrite !lookup_insert_eq, Hs|].
  rewrite !lookup_insert_ne, contents_lookup by done. destruct (tables (catalog e) !! t) as [s'|] eqn:Hs'; [|done].
  assert (is_Some (table_pages e !! t)) as [p Hp] by (apply (tk_dom _ _ _ Htk); eauto).
  rewrite Hp. unfold fmap, option_fmap, option_map. f_equal. f_equal. f_equal. by eapply sl_others.
Qed.

Lemma contents_created order e σ table cols :
  tables_ok σ (catalog e) (table_pages e) -> tables (catalog e) !! table = None ->
  contents (created order e table cols) σ = <[table := (Schema_new table cols, [])]> (contents e σ).
Proof.
  intros Htk Hn. apply map_eq. intros t. rewrite contents_lookup. cbn.
  destruct (decide (table = t)) as [->|Hne]; [by rewrite !lookup_insert_eq|].
  by rewrite !lookup_insert_ne, contents_lookup.
Qed.

Lemma table_keys_rows s σ pids : table_keys s σ pids = row_keys s (table_rows s σ pids).*2.
Proof. unfold table_keys, row_keys. by rewrite omap_over_fmap. Qed.

Lemma row_check_answer s σ pids values :
  (_ ← insert_check s σ pids values; encoded s values) = row_check s (table_rows s σ pids).*2 values.
Proof. unfold row_check, insert_check, key_taken. by rewrite table_keys_rows. Qed.

Lemma encoded_size s values enc : encoded s values = Ok enc -> Z.of_nat (length enc) = row_size values.
Proof.
  unfold encoded, serialize_row. case_decide as Hl; [|done]. revert enc Hl. generalize (columns s). intros cols.
  revert cols. induction values as [|v vs IH]; intros [|c cols] enc Hl; try done; [by intros [= <-]|].
  cbn [serialize_fields]. destruct (serialize_field (ty c) v) as [b|] eqn:Ef; [|done].
  destruct (serialize_fields cols vs) as [bs| |] eqn:Es; cbn [mbind result_bind]; try done. intros [= <-].
  rewrite length_app, Nat2Z.inj_add. cbn [row_size foldr]. fold (row_size vs).
  rewrite (IH cols bs); [|cbn in Hl; lia|by rewrite Es]. f_equal.
  destruct (ty c), v; cbn in Ef; try done; injection Ef as <-; cbn [length value_size];
    rewrite ?length_app, ?length_to_le; lia.
Qed.

(** Two rows of a table do not share a key. *)
Lemma keys_distinct e σ ix table s pids pk :
  synced e σ ix -> tables (catalog e) !! table = Some s -> table_pages e !! table = Some pids ->
  schema_pk s = Some pk -> NoDup (row_keys s (table_rows s σ pids).*2).
Proof.
  intros (Htk & Hrel & Hix & _) Hs Hp Hpk. destruct (ix_pk _ _ _ _ Hix _ _ _ Hs Hpk) as [es He].
  destruct (indexed_column _ _ _ _ _ _ _ _ _ Hix He Hs Hp) as (i & cd & _ & Hi & _ & _ & Hh).
  rewrite <- (pk_place_at _ _ _ Hpk Hi) in Hh.
  pose proof (NoDup_heap_rids σ pids (tb_nodup _ _ _ (tk_table _ _ _ Htk _ _ _ Hs Hp))) as Hnd.
  unfold row_keys, table_rows. rewrite <- list_fmap_compose, omap_over_fmap.
  assert (Hin : Forall (fun t => page_id t.1 ∈ pids /\ tuple_at σ t.1 = Some t.2) (heap_tuples σ pids)).
  { apply Forall_forall. intros [r b] Hin. by apply elem_of_heap_tuples in Hin. }
  revert Hnd. induction Hin as [|[r b] l [Hr Hb] Hin IH]; [constructor|]. rewrite fmap_cons. cbn in Hr, Hb.
  intros [Hnin Hnd]%NoDup_cons. specialize (IH Hnd). csimpl.
  destruct (row_key (pk_place s) (decoded s b)) as [k|] eqn:Ek; [|exact IH].
  constructor; [|exact IH]. intros ([r' b'] & Hin' & Hk')%list_elem_of_omap. cbn in Hk'.
  rewrite Forall_forall in Hin. destruct (Hin _ Hin') as [Hr' Hb']. cbn in Hr', Hb'.
  assert (Hl : es_lookup k es = Some r).
  { apply (index_holds_key _ _ _ _ _ _ _ Hh). split; [done|]. unfold tuple_key. by rewrite Hb. }
  assert (Hl' : es_lookup k es = Some r').
  { apply (index_holds_key _ _ _ _ _ _ _ Hh). split; [done|]. unfold tuple_key. by rewrite Hb'. }
  apply Hnin. assert (r = r') as -> by congruence. apply list_elem_of_fmap. by exists (r', b').
Qed.
End Contents.

(** ** Statements are steps *)
Section Steps.
Context `{Crc32}.
Implicit Types (e : Executor) (σ : gmap Z spec_page) (s : Schema) (d : database).

(** What is known after a statement. *)
Definition stepped e σ (x : Statement) (r : result exec_error (list Row)) M k e' : Prop :=
  exists σ' ix', exec_ok e' σ' ix' /\ budget e' σ' k /\ slots_bound (table_pages e') σ' (S M) /\
    sql_step (contents e σ) x (contents e' σ') r.

Lemma settled_stepped e σ ix table s pids pids' x r M k e' σ' :
  exec_ok e σ ix -> tables (catalog e) !! table = Some s -> table_pages e !! table = Some pids ->
  slots_bound (table_pages e) σ M -> settled e σ table pids' k e' σ' ->
  sql_step (contents e σ) x (<[table := (s, (table_rows s σ' pids').*2)]> (contents e σ)) r ->
  stepped e σ x r M k e'.
Proof.
  intros [_ (Htk & _) _] Hs Hp HM Hst Hstep. destruct (sl_ok _ _ _ _ _ _ _ Hst) as [ix' Hok'].
  exists σ', ix'. split_and!; [done|apply Hst|by eapply sl_slots|].
  by rewrite (contents_settled e σ table s pids' k e' σ').
Qed.

Lemma table_of e σ ix t s :
  exec_ok e σ ix -> tables (catalog e) !! t = Some s -> exists pids, table_pages e !! t = Some pids.
Proof. intros [_ (Htk & _) _] Hs. apply (tk_dom _ _ _ Htk). eauto. Qed.

Lemma slots_weaken tp σ M M' : slots_bound tp σ M -> (M <= M')%nat -> slots_bound tp σ M'.
Proof. intros HM Hle t p Hp. specialize (HM t p Hp). lia. Qed.

(** A statement that leaves the tables alone. *)
Lemma same_stepped e σ ix x r M k e' :
  exec_ok e' σ ix -> budget e' σ k -> slots_bound (table_pages e') σ M -> contents e' σ = contents e σ ->
  sql_step (contents e σ) x (contents e σ) r -> stepped e σ x r M k e'.
Proof.
  intros Hok Hb HM Hc Hstep. exists σ, ix. split_and!; [done..|eapply slots_weaken; [exact HM|lia]|by rewrite Hc].
Qed.

Lemma unknown_schema {A} e t (k : Schema -> ex A) :
  tables (catalog e) !! t = None -> (s ← find_schema t; k s) e = (e, Err (TableNotFound t)).
Proof. intros Hn. unfold find_schema, asks, catalog_get, mbind, st_bind. by rewrite Hn. Qed.

Lemma unknown_stepped e σ ix x t M k :
  exec_ok e σ ix -> slots_bound (table_pages e) σ M -> budget e σ k -> tables (catalog e) !! t = None ->
  of_table x = Some t -> stepped e σ x (Err (TableNotFound t)) M k e.
Proof.
  intros Hok HM Hb Ht Hx. eapply same_stepped; [done..|]. apply sql_unknown; [done|]. by rewrite contents_lookup, Ht.
Qed.

Lemma create_stepped order e σ ix t cols M k :
  exec_ok e σ ix -> schema_ok (Schema_new t cols) -> slots_bound (table_pages e) σ M -> budget e σ k ->
  exists e' r, exec_create_table order t cols e = (e', r) /\
    (clean (CreateTable t cols) r -> stepped e σ (CreateTable t cols) r M k e').
Proof.
  intros Hok Hs HM Hb. destruct (tables (catalog e) !! t) as [s|] eqn:Et.
  { eexists _, _. split; [by eapply exec_create_exists|]. cbn [clean harmless]. intros ->.
    eapply same_stepped; [done..|]. apply sql_create_exists. rewrite contents_lookup, Et. by eexists. }
  eexists _, _. split; [by apply exec_create_answer|]. intros _.
  destruct (exec_create_ok order e σ ix t cols k) as [Hok' Hb']; [done..|].
  eexists σ, _. split_and!; [done|done| |].
  - intros t' p. cbn. destruct (decide (t = t')) as [->|Hne].
    + rewrite lookup_insert_eq. intros [= <-]. cbn. lia.
    + rewrite lookup_insert_ne by done. intros Hp. specialize (HM t' p Hp). lia.
  - rewrite contents_created by (done || by destruct Hok as [_ (? & _) _]).
    apply sql_create; [|done]. by rewrite contents_lookup, Et.
Qed.

Lemma insert_stepped e σ ix t values M k :
  exec_ok e σ ix -> statement_ok (InsertInto t values) -> slots_bound (table_pages e) σ M -> budget e σ (3 + k) ->
  exists e' r, exec_insert t values e = (e', r) /\
    (clean (InsertInto t values) r -> stepped e σ (InsertInto t values) r M k e').
Proof.
  intros Hok Hv HM Hb. assert (Hbk : budget e σ k) by (by apply (budget_less _ _ _ 3)).
  destruct (tables (catalog e) !! t) as [s|] eqn:Et.
  2: { eexists _, _. split; [by apply unknown_schema|]. intros _.
       by eapply unknown_stepped. }
  destruct (table_of _ _ _ _ _ Hok Et) as [pids Hp]. pose proof (contents_table e σ t s pids Et Hp) as Hct.
  destruct (exec_insert_ok e σ ix t s pids values k) as (e' & E & Hdone); [done..|].
  eexists _, _. split; [exact E|]. unfold insert_answer.
  pose proof (row_check_answer s σ pids values) as Hrc. rewrite <- result_bind_assoc, Hrc in *.
  destruct (row_check s _ values) as [enc|x|] eqn:Echk; cbn [mbind result_bind]; [| |done].
  - destruct (Z.leb_spec (Z.of_nat (length enc) + 5) PAGE_ROOM) as [Hle|Hgt].
    2: { by destruct (not_placed _ Hgt) as [-> | ->]. }
    rewrite placed_fits by done. intros _. destruct Hdone as (σ' & pids' & Hst & r1 & r2 & rid & Er & Er').
    eapply settled_stepped; [done..|]. rewrite Er', fmap_app. cbn [fmap list_fmap snd].
    rewrite Er, fmap_app in Hct, Echk. by eapply sql_insert.
  - intros Hx. subst e'. eapply same_stepped; [done..|]. by eapply sql_insert_refused.
Qed.

Lemma delete_stepped e σ ix t flt M k :
  exec_ok e σ ix -> slots_bound (table_pages e) σ M -> budget e σ (M + 3 + k) ->
  exists e' r, exec_delete t flt e = (e', r) /\
    (clean (DeleteFrom t flt) r -> stepped e σ (DeleteFrom t flt) r M k e').
Proof.
  intros Hok HM Hb. destruct (tables (catalog e) !! t) as [s|] eqn:Et.
  2: { eexists _, _. split; [by apply unknown_schema|]. intros _. eapply unknown_stepped; [done..| | |done]; [|done].
       by apply (budget_less _ _ _ (M + 3)). }
  destruct (table_of _ _ _ _ _ Hok Et) as [pids Hp]. pose proof (contents_table e σ t s pids Et Hp) as Hct.
  destruct (exec_delete_ok e σ ix t s pids flt k) as (e' & E & Hdone); [done..| |].
  { specialize (HM t pids Hp). apply (budget_less _ _ _ (M + 1 - length (heap_rids σ pids))).
    by replace (M + 1 - length (heap_rids σ pids) + (length (heap_rids σ pids) + 2 + k))%nat with (M + 3 + k)%nat by lia. }
  eexists _, _. split; [exact E|]. destruct (select_rows s Star flt _) as [found|x|] eqn:Ef; [| |done].
  2: { intros Hx. by destruct (harmless_rows (DeleteFrom t flt) x Hx (select_errors _ _ _ _ _ Ef)). }
  intros _. destruct Hdone as (σ' & Hst & Hrows); [eauto|]. eapply settled_stepped; [done..|].
  rewrite Hrows.
  assert (Hff : (filter (fun t => matches s flt t.2 = false) (table_rows s σ pids)).*2 =
    filter (fun r => matches s flt r = false) (table_rows s σ pids).*2) by (symmetry; apply filter_over_fmap).
  rewrite Hff. by eapply sql_delete.
Qed.

Lemma rows_seen s σ pids flt xs :
  Forall (update_seen s pids flt xs) (heap_tuples σ pids) ->
  Forall (fun row => exists r b, stored s row b /\ exists hit, filter_result s flt row = Ok hit /\
    (hit = true -> exists σ1 b', update_change s pids xs σ1 r b = Ok b')) (table_rows s σ pids).*2.
Proof.
  intros Hall. unfold table_rows. apply Forall_fmap, Forall_fmap. eapply Forall_impl; [exact Hall|].
  intros [r b] (row & Hst & Hhit). cbn in *. rewrite (stored_decoded _ _ _ Hst). eauto.
Qed.

Lemma select_star s flt rows :
  Forall (fun row => exists hit, filter_result s flt row = Ok hit) rows ->
  exists found, select_rows s Star flt rows = Ok found.
Proof.
  induction 1 as [|row rows [hit Hhit] _ [found IH]]; [by eexists|]. cbn [select_rows]. rewrite Hhit, IH.
  destruct hit; by eexists.
Qed.

(** What the change of one row says of the row. *)
Lemma change_row_ok s pids xs σ r b row b' :
  update_change s pids xs σ r b = Ok b' -> stored s row b ->
  apply_assignments s xs row = Ok (assigned s xs row) /\ row_matches s (assigned s xs row) /\
  forall pk, schema_pk s = Some pk -> exists taken, new_keys taken s pk row xs = Ok tt.
Proof.
  intros Hc Hst. pose proof (update_change_ok _ _ _ _ _ _ _ Hc) as (Hap & [x Hx] & _).
  unfold updated_tuple in Hx. rewrite (stored_decoded _ _ _ Hst) in *. split_and!; [done| |].
  - unfold encoded in Hx. destruct (serialize_row s (assigned s xs row)) as [enc| |] eqn:Ee; try done.
    by eapply serialize_row_types.
  - intros pk Hpk. unfold update_change in Hc. rewrite Hpk, (stored_decoded _ _ _ Hst) in Hc.
    apply result_bind_ok in Hc as ([] & Hnk & _). eauto.
Qed.

Lemma updated_keys_some s flt xs rows pids pk cd :
  schema_pk s = Some pk -> col_index s pk = Some (pk_place s) -> columns s !! pk_place s = Some cd -> ty cd = DInt ->
  Forall (fun row => exists r b, stored s row b /\ exists hit, filter_result s flt row = Ok hit /\
    (hit = true -> exists σ1 b', update_change s pids xs σ1 r b = Ok b')) rows ->
  Forall (fun r => is_Some (row_key (pk_place s) r)) rows ->
  Forall (fun r => is_Some (row_key (pk_place s) r)) (updated s flt xs <$> rows).
Proof.
  intros Hpk Hi Hcd Hty Hall Hsome. apply Forall_fmap. rewrite Forall_forall in *. intros row Hrow. cbn.
  destruct (Hall row Hrow) as (r & b & Hst & hit & Hf & Hhit). unfold updated, matches. rewrite Hf.
  destruct hit; [|by apply Hsome]. destruct (Hhit eq_refl) as (σ1 & b' & Hc).
  destruct (change_row_ok _ _ _ _ _ _ _ _ Hc Hst) as (Hap & _ & Hnk). destruct (Hnk pk Hpk) as [taken Ht].
  eapply apply_keys_some; try done. by apply Hsome.
Qed.

Lemma update_stepped e σ ix t xs flt M k :
  exec_ok e σ ix -> statement_ok (UpdateSet t xs flt) -> slots_bound (table_pages e) σ M -> budget e σ (M + 3 + k) ->
  exists e' r, exec_update t xs flt e = (e', r) /\
    (clean (UpdateSet t xs flt) r -> stepped e σ (UpdateSet t xs flt) r M k e').
Proof.
  intros Hok Hv HM Hb. destruct (tables (catalog e) !! t) as [s|] eqn:Et.
  2: { eexists _, _. split; [by apply unknown_schema|]. intros _. eapply unknown_stepped; [done..| | |done]; [|done].
       by apply (budget_less _ _ _ (M + 3)). }
  destruct (table_of _ _ _ _ _ Hok Et) as [pids Hp]. pose proof (contents_table e σ t s pids Et Hp) as Hct.
  destruct (exec_update_ok e σ ix t s pids xs flt k) as (e' & E & Hdone); [done..| |].
  { specialize (HM t pids Hp). apply (budget_less _ _ _ (M + 1 - length (heap_rids σ pids))).
    by replace (M + 1 - length (heap_rids σ pids) + (length (heap_rids σ pids) + 2 + k))%nat with (M + 3 + k)%nat by lia. }
  eexists _, _. split; [exact E|]. destruct (visits _ _ σ) as [σ'|x|] eqn:Ef; [| |done].
  2: { intros Hx. pose proof (visits_errors s flt _ _ σ (update_change_errors s pids xs) x Ef).
       by destruct (harmless_rows (UpdateSet t xs flt) x Hx). }
  intros _. destruct (Hdone σ' eq_refl) as [Hst Hrows]. eapply settled_stepped; [done..|].
  pose proof Hok as [_ Hsy _]. pose proof (tk_table _ _ _ (proj1 Hsy) _ _ _ Et Hp) as Htb.
  pose proof (rows_seen _ _ _ _ _ (update_decided _ _ _ _ _ _ Htb Ef)) as Hall.
  assert (Hsnd : (prod_map id (updated s flt xs) <$> table_rows s σ pids).*2 = updated s flt xs <$> (table_rows s σ pids).*2).
  { rewrite <- !list_fmap_compose. done. }
  destruct (select_star s flt (table_rows s σ pids).*2) as [found Hfound].
  { eapply Forall_impl; [exact Hall|]. intros row (r & b & _ & hit & Hf & _). eauto. }
  rewrite Hrows, Hsnd. eapply sql_update; [done..| |].
  - eapply Forall_impl; [exact Hall|]. intros row (r & b & Hrow & hit & Hf & Hhit) Hm.
    unfold matches in Hm. rewrite Hf in Hm. destruct (Hhit Hm) as (σ1 & b' & Hc).
    destruct (change_row_ok _ _ _ _ _ _ _ _ Hc Hrow) as (Hap & Hmt & _). eauto.
  - intros Hk [pk Hpk]. destruct (Hk ltac:(eauto)) as [_ Hsome].
    destruct (key_column _ _ _ _ _ _ _ Hsy Et Hp Hpk) as (Hi & cd & Hcd & _ & Hty).
    unfold pk_col_index in Hi. rewrite Hpk in Hi. split; [|by eapply updated_keys_some].
    rewrite <- Hsnd, <- Hrows. destruct (sl_ok _ _ _ _ _ _ _ Hst) as [ix' [_ Hsy' _]].
    eapply (keys_distinct e' σ' ix' t s pids pk); try done.
    + by rewrite (sl_catalog _ _ _ _ _ _ _ Hst).
    + by rewrite (sl_pages _ _ _ _ _ _ _ Hst), lookup_insert_eq.
Qed.

Lemma select_stepped e σ ix t cols flt order limit M k :
  exec_ok e σ ix -> literal_ok flt -> slots_bound (table_pages e) σ M -> budget e σ k ->
  exists e' r, exec_select t cols flt order limit e = (e', r) /\
    (clean (Select t cols flt order limit) r -> stepped e σ (Select t cols flt order limit) r M k e').
Proof.
  intros Hok Hv HM Hb. destruct (tables (catalog e) !! t) as [s|] eqn:Et.
  2: { eexists _, _. split; [by apply unknown_schema|]. intros _. by eapply unknown_stepped. }
  destruct (table_of _ _ _ _ _ Hok Et) as [pids Hp]. pose proof (contents_table e σ t s pids Et Hp) as Hct.
  destruct (bound_overflows ix t flt) eqn:Hof.
  { eexists _, _. split; [by eapply exec_select_overflow|done]. }
  destruct (exec_select_ok e σ ix t s pids cols flt order limit) as (b & rows & E & Hperm & _ & Hok'); [done..|].
  eexists _, _. split; [exact E|]. destruct (select_rows s cols flt rows) as [found|x|] eqn:Ef; [| |done].
  2: { intros Hx. by destruct (harmless_rows (Select t cols flt order limit) x Hx (select_errors _ _ _ _ _ Ef)). }
  rewrite result_bind_ret. destruct (order_limit s cols order limit found) as [ans|x|] eqn:Eo; [| |done].
  all: intros _; eapply same_stepped; [by apply Hok'; eauto|by destruct Hb|done..|].
  - by eapply sql_select.
  - by eapply sql_select_unordered.
Qed.

Lemma execute_stepped order e σ ix x M k :
  exec_ok e σ ix -> statement_ok x -> slots_bound (table_pages e) σ M -> budget e σ (M + 3 + k) ->
  exists e' r, execute order x e = (e', r) /\ (clean x r -> stepped e σ x r M k e').
Proof.
  intros Hok Hx HM Hb.
  assert (Hbk : budget e σ k) by (by apply (budget_less _ _ _ (M + 3))).
  destruct x as [t cols|t values|t xs flt|t cols flt ord lim|t flt]; cbn [execute].
  - by eapply create_stepped.
  - eapply insert_stepped; try done. apply (budget_less _ _ _ M). by rewrite Nat.add_assoc.
  - by eapply update_stepped.
  - by eapply select_stepped.
  - by eapply delete_stepped.
Qed.
End Steps.

(** ** Sessions *)
(** The statements of a session one after the other, whatever they answer, as
    the REPL runs them. *)
Fixpoint run_session `{Crc32} (order : gmap rstring Schema -> list Schema) (xs : list Statement) (e : Executor)
    : Executor * list (result exec_error (list Row)) :=
  match xs with
  | [] => (e, [])
  | x :: xs =>
      let '(e, r) := execute order x e in
      let '(e, rs) := run_session order xs e in (e, r :: rs)
  end.

(** What a session may use up when a table has at most [M] places. *)
Fixpoint session_cost (M n : nat) : nat :=
  match n with O => O | S n => (M + 3) + session_cost (S M) n end.

Section Sessions.
Context `{Crc32}.
Implicit Types (e : Executor) (σ : gmap Z spec_page) (s : Schema) (d : database).

Lemma session_cost_le M n : (session_cost M n <= n * (M + n + 3))%nat.
Proof. revert M. induction n as [|n IH]; intros M; cbn [session_cost]; [lia|]. specialize (IH (S M)). lia. Qed.

Lemma run_session_ok order xs e σ ix M k :
  Forall statement_ok xs -> exec_ok e σ ix -> slots_bound (table_pages e) σ M ->
  budget e σ (session_cost M (length xs) + k) ->
  let '(e', rs) := run_session order xs e in
  Forall2 clean xs rs ->
  exists σ' ix', exec_ok e' σ' ix' /\ budget e' σ' k /\
    slots_bound (table_pages e') σ' (M + length xs) /\ sql_run (contents e σ) xs (contents e' σ') rs.
Proof.
  intros Hxs. revert e σ ix M. induction Hxs as [|x xs Hx _ IH]; intros e σ ix M Hok HM Hb.
  { cbn. intros _. exists σ, ix. rewrite Nat.add_0_r. split_and!; [done..|constructor]. }
  cbn [run_session length session_cost] in *. rewrite <- Nat.add_assoc in Hb.
  destruct (execute_stepped order e σ ix x M (session_cost (S M) (length xs) + k)) as (e1 & r & E & Hst); [done..|].
  rewrite E. destruct (run_session order xs e1) as [e2 rs] eqn:E2. intros Hc. inversion Hc as [|? ? ? ? Hr Hrs]; subst.
  destruct (Hst Hr) as (σ1 & ix1 & Hok1 & Hb1 & HM1 & Hstep).
  specialize (IH e1 σ1 ix1 (S M) Hok1 HM1 Hb1). rewrite E2 in IH. destruct (IH Hrs) as (σ2 & ix2 & Hok2 & Hb2 & HM2 & Hrun).
  exists σ2, ix2. rewrite <- Nat.add_succ_comm. split_and!; [done..|]. by econstructor.
Qed.

(** ** Good databases *)
(** Rows fit their schema, and keys are unique and not NULL. *)
Definition db_ok (d : gmap rstring (Schema * list Row)) : Prop :=
  forall t s rows, d !! t = Some (s, rows) -> schema_ok s /\ Forall (row_matches s) rows /\ keys_ok s rows.

Lemma db_ok_insert d t s rows :
  db_ok d -> schema_ok s -> Forall (row_matches s) rows -> keys_ok s rows -> db_ok (<[t := (s, rows)]> d).
Proof.
  intros Hd Hs Hr Hk t' s' rows'. destruct (decide (t = t')) as [->|Hne].
  - rewrite lookup_insert_eq. by intros [= <- <-].
  - rewrite lookup_insert_ne by done. apply Hd.
Qed.

Lemma row_keys_app s rows1 rows2 : row_keys s (rows1 ++ rows2) = row_keys s rows1 ++ row_keys s rows2.
Proof. apply omap_app. Qed.

Lemma row_check_ok s rows values enc :
  schema_ok s -> row_check s rows values = Ok enc ->
  row_matches s values /\
  (is_Some (schema_pk s) -> exists k, row_key (pk_place s) values = Some k /\ k ∉ row_keys s rows).
Proof.
  intros [_ Hpk] Hc. unfold row_check in Hc. apply result_bind_ok in Hc as ([] & Hkey & Henc).
  assert (Hm : row_matches s values).
  { unfold encoded in Henc. destruct (serialize_row s values) as [b| |] eqn:Es; try done. by eapply serialize_row_types. }
  split; [done|]. intros [pk Epk]. rewrite Epk in Hkey. apply result_bind_ok in Hkey as (v & Hv & Hkey).
  destruct (values !! pk_place s) as [v'|] eqn:Ev; [|done]. injection Hv as ->.
  destruct (Hpk pk Epk) as (i & cd & Hi & Hcd & Hty). rewrite <- (pk_place_at _ _ _ Epk Hi) in Hcd.
  destruct (row_matches_cell _ _ _ _ Hm Hcd) as (v' & Hv' & Ht). rewrite Hty in Ht.
  assert (v' = v) as -> by congruence. unfold row_key. rewrite Ev.
  destruct v as [k| | |]; try done. exists k. split; [done|]. by case_bool_decide.
Qed.

Lemma keys_insert s rows1 rows2 values k :
  row_key (pk_place s) values = Some k -> k ∉ row_keys s (rows1 ++ rows2) ->
  keys_ok s (rows1 ++ rows2) -> keys_ok s (rows1 ++ values :: rows2).
Proof.
  intros Hk Hnin Hok Hpk. destruct (Hok Hpk) as [Hnd Hsome]. rewrite Forall_app in Hsome. destruct Hsome as [H1 H2].
  split.
  - assert (Hcons : row_keys s (values :: rows2) = k :: row_keys s rows2) by (unfold row_keys; csimpl; by rewrite Hk).
    rewrite row_keys_app in *. rewrite Hcons, <- Permutation_middle. by constructor.
  - apply Forall_app. split; [done|]. constructor; [by eexists|done].
Qed.

Lemma keys_sublist s rows rows' : rows' `sublist_of` rows -> keys_ok s rows -> keys_ok s rows'.
Proof.
  intros Hsub Hok Hpk. destruct (Hok Hpk) as [Hnd Hsome]. split.
  2: { rewrite Forall_forall in *. intros r Hr. apply Hsome. by eapply sublist_subseteq. }
  eapply sublist_NoDup; [exact Hnd|]. unfold row_keys. clear Hnd Hsome Hok.
  induction Hsub as [|x l1 l2 _ IH|x l1 l2 _ IH]; csimpl; [constructor| |];
    destruct (row_key (pk_place s) x); try done; by constructor.
Qed.

Lemma sql_step_ok d x d' r : sql_step d x d' r -> db_ok d -> db_ok d'.
Proof.
  intros Hst Hd. destruct Hst as [t cols Hn Hs|t s r1 r2 values enc Ht Hc|t s rows values x Ht Hc|x t Hx Ht|t cols Ht
    |t s rows rows' cols flt order limit found x Ht|t s rows rows' cols flt order limit found ans Ht|t s rows flt found Ht|t s rows xs flt found Ht Hf Hap Hk]; try done.
  - apply db_ok_insert; [done|done|constructor|]. intros _. split; constructor.
  - destruct (Hd _ _ _ Ht) as (Hs & Hm & Hk). destruct (row_check_ok _ _ _ _ Hs Hc) as [Hv Hkey].
    apply db_ok_insert; [done|done| |].
    + rewrite Forall_app in *. destruct Hm. by repeat constructor.
    + intros Hpk. destruct (Hkey Hpk) as (k & Hk1 & Hk2). by eapply keys_insert.
  - destruct (Hd _ _ _ Ht) as (Hs & Hm & Hk). apply db_ok_insert; [done|done| |].
    + rewrite Forall_forall in *. intros row [_ Hrow]%list_elem_of_filter. by apply Hm.
    + eapply keys_sublist; [apply sublist_filter|done].
  - destruct (Hd _ _ _ Ht) as (Hs & Hm & Hk'). apply db_ok_insert; [done|done| |by apply Hk].
    apply Forall_fmap. rewrite Forall_forall in *. intros row Hrow. cbn. unfold updated, assigned.
    destruct (matches s flt row) eqn:Em; [|by apply Hm].
    destruct (Hap row Hrow Em) as (row' & -> & Hm'). done.
Qed.

Lemma sql_run_ok d xs d' rs : sql_run d xs d' rs -> db_ok d -> db_ok d'.
Proof. induction 1 as [|d d1 d2 x xs r rs Hst _ IH]; [done|]. intros Hd. by eapply IH, sql_step_ok. Qed.
End Sessions.

(** ** From an empty directory *)
Section Fresh.
Context `{Crc32}.

Definition fresh : Executor := Executor_open None ∅ [] [].

Lemma fresh_ok : exec_ok fresh ∅ ∅.
Proof.
  constructor.
  - apply new_pool_idle. lia.
  - split_and!.
    + constructor; cbn; intros; rewrite ?lookup_empty in *; done.
    + intros k. cbn. rewrite !lookup_empty. constructor.
    + constructor; cbn; intros; rewrite ?lookup_empty in *; done.
    + constructor; cbn.
      * intros id. rewrite lookup_empty. by intros [].
      * intros id Hid. exists spec_new. split; [|done]. by apply page_new_rep.
      * exists []. split; [|done]. constructor; [done|constructor|]. by intros r t ?%elem_of_nil.
  - done.
Qed.

Lemma fresh_budget n : Z.of_nat n <= 2 ^ 25 -> budget fresh ∅ n.
Proof.
  change (2 ^ 25) with 33554432. intros Hn. constructor.
  - unfold wal_room, fresh, Executor_open, WalManager_new. cbn [ex_wal current_lsn next_txn_id].
    change (2 ^ 64) with 18446744073709551616. change (2 ^ 32) with 4294967296. lia.
  - split; [|by intros k t; cbn; rewrite lookup_empty].
    change ((next_page_id BTree_new + 33 * Z.of_nat n <? 2147483648) = true).
    replace (next_page_id BTree_new) with 1 by done. apply Z.ltb_lt. lia.
  - exists 0. change (2 ^ 32) with 4294967296. split_and!; [|lia|lia]. intros i. rewrite lookup_empty.
    split; [by intros []|lia].
Qed.
End Fresh.

Lemma session_fresh `{Crc32} (order : gmap rstring Schema -> list Schema) (xs : list Statement) :
  Forall statement_ok xs -> Z.of_nat (length xs * (length xs + 3)) <= 2 ^ 25 ->
  let '(e', rs) := run_session order xs fresh in
  Forall2 clean xs rs ->
  exists σ ix, exec_ok e' σ ix /\ sql_run ∅ xs (contents e' σ) rs /\ db_ok (contents e' σ).
Proof.
  intros Hxs Hn. pose proof (session_cost_le 0 (length xs)) as Hc.
  assert (Hrun := run_session_ok order xs fresh ∅ ∅ 0 0 Hxs fresh_ok).
  destruct (run_session order xs fresh) as [e' rs]. intros Hcl.
  destruct Hrun as (σ & ix & Hok & _ & _ & Hr); [|by apply fresh_budget; lia|done|].
  { intros t p. cbn. by rewrite lookup_empty. }
  assert (Hempty : contents fresh ∅ = ∅) by (apply map_eq; intros t; by rewrite contents_lookup).
  rewrite Hempty in Hr. exists σ, ix. split_and!; [done..|]. eapply sql_run_ok; [done|].
  intros t s rows. by rewrite lookup_empty.
Qed.

(** C2: the executor is a SQL database, as far as its answers are clean. Take at
    most 5,791 statements, each [statement_ok] (the column names of a new table
    differ and its key, if it has one, is an INT; integers are in range and
    texts are UTF-8 that a [u32] counts), run one after the other from an empty
    directory, and answered by nothing but [clean] answers: no panic, and no
    error but the harmless ones, which are a refused INSERT, an unknown table,
    CREATE without a key of a table that exists, and an order by a column that
    is not there. (Of a longer session this is said of the part before the first
    answer that is not clean.) Then the session is a run of the abstract machine
    whose state is a map from table names to a schema and a list of rows: CREATE
    adds an empty table, INSERT adds a row or is refused for the reason the
    machine gives, DELETE and UPDATE change the rows that match, SELECT answers
    a query on some order of the rows, whether an index or a scan finds them,
    and rows of other tables never change. In the state reached every row fits
    its schema, primary keys are unique and not NULL, and the invariant of the
    engine holds: the pool, the log and the B-trees agree with the rows. *)
Theorem session_refines `{Crc32} (order : gmap rstring Schema -> list Schema) (xs : list Statement) :
  Forall statement_ok xs -> Z.of_nat (length xs * (length xs + 3)) <= 2 ^ 25 ->
  let '(e', rs) := run_session order xs fresh in
  Forall2 clean xs rs ->
  exists σ ix, exec_ok e' σ ix /\ sql_run ∅ xs (contents e' σ) rs /\ db_ok (contents e' σ).
Proof. apply session_fresh. Qed.

(** ** A session *)
Definition demo_order (m : gmap rstring Schema) : list Schema := (map_to_list m).*2.

Definition demo_table : rstring := [x74].

Definition demo_session : list Statement :=
  [CreateTable demo_table [mkCol [x61] DInt true; mkCol [x62] DText false];
   InsertInto demo_table [VInt 7; VText [x78]];
   InsertInto demo_table [VInt 3; VNull];
   InsertInto demo_table [VInt 7; VNull];
   InsertInto [x75] [VInt 1];
   UpdateSet demo_table [mkAssign [x61] (VInt 9)] (Some (mkExpr [x61] OpEq (VInt 3)));
   DeleteFrom demo_table (Some (mkExpr [x61] OpLt (VInt 8)));
   Select demo_table Star (Some (mkExpr [x61] OpGe (VInt 0))) (Some ([x61], Desc)) (Some 5)].

Definition demo_answers : list (result exec_error (list Row)) :=
  [Ok []; Ok []; Ok []; Err (DuplicateKey [x61] 7); Err (TableNotFound [x75]); Ok []; Ok []; Ok [[VInt 9; VNull]]].

Lemma demo_session_ok : Forall statement_ok demo_session.
Proof.
  assert (Hu : utf8 [x78]) by (unfold utf8; vm_compute; by eexists).
  repeat constructor; cbn; try done; try (unfold in_i64; lia); try set_solver.
Qed.

Lemma session_refines_witness :
  exists e' σ ix, @run_session sum_crc demo_order demo_session fresh = (e', demo_answers) /\
    @exec_ok sum_crc e' σ ix /\ sql_run ∅ demo_session (contents e' σ) demo_answers /\ db_ok (contents e' σ).
Proof.
  assert (Hrs : (@run_session sum_crc demo_order demo_session fresh).2 = demo_answers) by (by vm_compute).
  pose proof (@session_refines sum_crc demo_order demo_session demo_session_ok) as Hr.
  destruct (@run_session sum_crc demo_order demo_session fresh) as [e' rs]. cbn in Hrs. subst rs.
  destruct Hr as (σ & ix & Hok & Hrun & Hdb); [cbn; lia| |].
  - repeat constructor; done.
  - exists e', σ, ix. done.
Defined.

(** The table of the session after its two rows. *)
Definition demo_db : Executor := (@run_session sum_crc demo_order (take 3 demo_session) fresh).1.

Definition demo_schema_t : Schema := Schema_new demo_table [mkCol [x61] DInt true; mkCol [x62] DText false].

Lemma demo_db_ok : exists σ ix, @exec_ok sum_crc demo_db σ ix /\ budget demo_db σ 1000 /\
  slots_bound (table_pages demo_db) σ 3.
Proof.
  pose proof (@run_session_ok sum_crc demo_order (take 3 demo_session) fresh ∅ ∅ 0 1000
    (Forall_take _ _ _ demo_session_ok) fresh_ok) as Hr.
  assert (Hrs : (@run_session sum_crc demo_order (take 3 demo_session) fresh).2 = [Ok []; Ok []; Ok []]) by (by vm_compute).
  unfold demo_db. destruct (@run_session sum_crc demo_order (take 3 demo_session) fresh) as [e' rs].
  cbn in Hrs. subst rs. destruct Hr as (σ & ix & Hok & Hb & HM & _).
  - intros t p. cbn. by rewrite lookup_empty.
  - apply fresh_budget. cbn. lia.
  - repeat constructor.
  - exists σ, ix. done.
Qed.

Lemma demo_db_table :
  tables (catalog demo_db) !! demo_table = Some demo_schema_t /\ table_pages demo_db !! demo_table = Some [0].
Proof. by vm_compute. Qed.
