(* ===== verification/Durable.v ===== *)
(** * Restarts

    A database outlives the process.  Between two statements the files hold it
    all: the catalog and the page lists are saved, the pages written, and every
    transaction of the log has committed.  The engine that opens them and
    recovers is in a state that stands for the same tables, and goes on. *)
From S2P Require Export Database Reindex Files.
Local Open Scope Z_scope.

(** ** What the files hold *)
Record durable (e : Executor) : Prop := {
  du_catalog : catalog_ok (catalog e);
  du_file : load (catalog_file e) = Ok (catalog e);
  du_metas : metas_saved e;
  du_defs t pk : (t, pk) ∈ index_defs (catalog e) <->
    exists s, tables (catalog e) !! t = Some s /\ schema_pk s = Some pk;
}.

(** A hash set is iterated in some order. *)
Definition iteration `{Countable A} (f : gset A -> list A) : Prop := forall X, f X ≡ₚ elements X.

Record iterations_ok (it : iterations) : Prop := {
  ik_wal : iteration (it_wal it);
  ik_pool : iteration (it_pool it);
  ik_tables : iteration (it_tables it);
}.

Section Restart.
Context `{Crc32}.
Implicit Types (e : Executor) (σ : gmap Z spec_page) (ix : gmap (rstring * rstring) entries).

Lemma NoDup_below (l : list Z) n : NoDup l -> Forall (fun i => 0 <= i < n) l -> Z.of_nat (length l) <= Z.max 0 n.
Proof.
  intros Hnd Hl. assert (Hsub : l ⊆ seqZ 0 n).
  { intros i Hi. rewrite Forall_forall in Hl. apply elem_of_seqZ. specialize (Hl i Hi). lia. }
  apply (NoDup_submseteq _ _ Hnd), submseteq_length in Hsub. rewrite length_seqZ in Hsub. lia.
Qed.

Lemma page_list_ok e σ ix k t s pids :
  exec_ok e σ ix -> budget e σ k -> tables (catalog e) !! t = Some s -> table_pages e !! t = Some pids -> pids_ok pids.
Proof.
  intros [_ (Htk & _ & _ & Hws) _] [_ _ (n & Hn & H0 & Hk)] Hs Hp. pose proof (tk_table _ _ _ Htk _ _ _ Hs Hp) as Htb.
  assert (Hall : Forall (fun i => is_Some (σ !! i)) pids).
  { apply Forall_forall. intros i Hi. destruct (tb_pages _ _ _ Htb i Hi) as (a & Ha & _). eauto. }
  split.
  - eapply Forall_impl; [exact Hall|]. apply (ws_ids _ _ Hws).
  - pose proof (NoDup_below pids n (tb_nodup _ _ _ Htb)) as Hl.
    assert (Z.of_nat (length pids) <= Z.max 0 n); [|lia]. apply Hl. eapply Forall_impl; [exact Hall|]. intros i. apply Hn.
Qed.

Lemma load_metas_ok e σ ix k e1 :
  exec_ok e σ ix -> budget e σ k -> durable e -> catalog e1 = catalog e -> meta_files e1 = meta_files e ->
  load_all_table_metas e1 = (set_table_pages (table_pages e) e1, Ok tt).
Proof.
  intros Hok Hb Hd Hc Hm. pose proof Hok as [_ (Htk & _) _].
  unfold load_all_table_metas, st_modify. f_equal. f_equal. apply map_eq. intros t. rewrite map_lookup_imap, Hc, Hm.
  destruct (tables (catalog e) !! t) as [s|] eqn:Es.
  - assert (is_Some (table_pages e !! t)) as [pids Ep] by (apply (tk_dom _ _ _ Htk); eauto).
    pose proof (du_metas _ Hd t) as Hm'. rewrite Ep in Hm'.
    cbn. rewrite Ep. f_equal. apply load_meta_saved; [done|by eapply page_list_ok].
  - symmetry. apply eq_None_not_Some. intros Hp%(tk_dom _ _ _ Htk). rewrite Es in Hp. by destruct Hp.
Qed.

(** The tables of a good state. *)
Lemma tables_keys e σ ix t s pids :
  exec_ok e σ ix -> tables (catalog e) !! t = Some s -> table_pages e !! t = Some pids ->
  key_ok s /\ keys_apart σ s pids.
Proof.
  intros [_ Hsy _] Hs Hp. pose proof Hsy as (_ & _ & Hix & _). split.
  - intros pk Hpk. destruct (key_column _ _ _ _ _ _ _ Hsy Hs Hp Hpk) as [Hi Hcd].
    unfold pk_col_index in Hi. rewrite Hpk in Hi. split; [exact Hi|exact Hcd].
  - intros [pk Hpk]. destruct (ix_pk _ _ _ _ Hix _ _ _ Hs Hpk) as [es He].
    destruct (indexed_column _ _ _ _ _ _ _ _ _ Hix He Hs Hp) as (i & cd & _ & Hi & _ & _ & Hh).
    rewrite <- (pk_place_at _ _ _ Hpk Hi) in Hh. apply (keys_apart_holds _ _ _ _ Hh). eauto.
Qed.

Lemma create_rebuilt e σ ix ix0 :
  exec_ok e σ ix -> durable e -> (forall k, ix0 !! k = if decide (k ∈ index_defs (catalog e)) then Some [] else None) ->
  rebuilt σ (catalog e) (table_pages e) [] ix0.
Proof.
  intros [_ (Htk & _) _] Hd Hk. constructor.
  - intros t s pk Hs Hpk. rewrite Hk, decide_True; [by eexists|]. apply (du_defs _ Hd). eauto.
  - intros t col es. rewrite Hk. case_decide as Hin; [|done]. intros [= <-].
    apply (du_defs _ Hd) in Hin as (s & Hs & Hpk).
    assert (is_Some (table_pages e !! t)) as [pids Hp] by (apply (tk_dom _ _ _ Htk); eauto).
    exists s, pids. split_and!; [done..|]. rewrite decide_False by apply not_elem_of_nil. apply index_upto_nil.
Qed.

(** The indexes are made and filled. *)
Lemma reindex_all e σ ix e1 names k M :
  exec_ok e σ ix -> durable e -> catalog e1 = catalog e -> table_pages e1 = table_pages e ->
  index_manager e1 = IndexManager_new -> idle [] (buffer_pool e1) σ -> wal_sync (ex_wal e1) σ -> quiet (ex_wal e1) ->
  names ≡ₚ elements (dom (table_pages e)) -> slots_bound (table_pages e) σ M ->
  index_room (IndexManager_new (T:=BTree)) (size (tables (catalog e)) * M + k) ->
  exists m0 b m ix2,
    st_iter (fun d => st_modify (fun e => set_indexes (create_index (index_manager e) d.1 d.2) e))
      (index_defs (catalog e)) e1 = (set_indexes m0 e1, Ok (E:=exec_error) tt) /\
    st_iter reindex_table names (set_indexes m0 e1) = (set_pool b (set_indexes m e1), Ok tt) /\
    exec_ok (set_pool b (set_indexes m e1)) σ ix2 /\ index_room m k.
Proof.
  intros Hok Hd Hc Ht Hm Hi Hws Hq Hnames HM Hroom. pose proof Hok as [_ (Htk & _) _].
  assert (Hnew : index_rel (IndexManager_new (T:=BTree)) ∅) by (intros x; cbn; rewrite !lookup_empty; constructor).
  destruct (create_indexes_ok (index_defs (catalog e)) [] e1 ∅ _ ltac:(by rewrite Hm) ltac:(by rewrite Hm))
    as (m & ix0 & E & Hrel0 & Hroom0 & Hk0).
  { intros x. rewrite lookup_empty, decide_False by apply not_elem_of_nil. done. }
  assert (Hlen : (places σ (table_pages e) names <= size (tables (catalog e)) * M)%nat).
  { etransitivity; [by apply places_bound|]. rewrite Hnames.
    assert (Hdom : dom (table_pages e) = dom (tables (catalog e))).
    { apply set_eq. intros t. rewrite !elem_of_dom. symmetry. apply (tk_dom _ _ _ Htk). }
    rewrite Hdom. change (length (elements (dom (tables (catalog e))))) with (size (dom (tables (catalog e)))).
    by rewrite size_dom. }
  destruct (reindex_tables_ok [] names [] (set_indexes m e1) σ ix0 k) as (b & m2 & ix2 & E2 & Hi2 & Hrel2 & Hrb2 & Hroom2);
    cbn [catalog table_pages buffer_pool index_manager set_indexes]; rewrite ?Hc, ?Ht; try done.
  { intros t s Hs. assert (is_Some (table_pages e !! t)) as [pids Hp] by (apply (tk_dom _ _ _ Htk); eauto).
    by destruct (tables_keys e σ ix t s pids). }
  { intros t s pids Hs Hp. by destruct (tables_keys e σ ix t s pids). }
  { cbn. rewrite Hnames. apply NoDup_elements. }
  { by eapply create_rebuilt. }
  { apply (index_room_less _ _ (size (tables (catalog e)) * M - places σ (table_pages e) names)).
    replace (_ + _)%nat with (size (tables (catalog e)) * M + k)%nat by lia. done. }
  exists m, b, m2, ix2. split; [exact E|]. split; [exact E2|]. split; [|done]. constructor; [done| |done].
  unfold synced. cbn [catalog table_pages index_manager ex_wal set_pool set_indexes]. rewrite Hc, Ht.
  cbn [catalog table_pages set_indexes] in Hrb2. rewrite Hc, Ht in Hrb2.
  split; [done|]. split; [done|]. split; [|done]. eapply rebuilt_all; [done|].
  intros t s Hs. assert (is_Some (table_pages e !! t)) as [pids Hp] by (apply (tk_dom _ _ _ Htk); eauto).
  split; [by destruct (tables_keys e σ ix t s pids)|]. cbn. rewrite Hnames, elem_of_elements, elem_of_dom. eauto.
Qed.

(** Recovery, whatever the state the process stopped in between statements, and
    whatever the file then holds in the place of pages the log gives back. *)
Lemma ex_recover_ok e σ ix it old j k M :
  exec_ok e σ ix -> durable e -> iterations_ok it -> Forall readable old -> budget e σ k -> slots_bound (table_pages e) σ M ->
  index_room (IndexManager_new (T:=BTree)) (size (tables (catalog e)) * M + k) -> Z.of_nat k < 2 ^ 31 ->
  exists e' rep ix', ex_recover it (restart j (lose old e)) = (e', Ok rep) /\ exec_ok e' σ ix' /\ budget e' σ k /\
    durable e' /\ catalog e' = catalog e /\ table_pages e' = table_pages e.
Proof.
  intros Hok Hd Hit Hold Hb HM Hroom Hk. pose proof Hok as [Hi (Htk & _ & _ & Hws) Hq]. unfold ex_recover.
  set (e0 := restart j (lose old e)). set (e1 := set_catalog (catalog e) e0).
  assert (E1 : load_catalog e0 = (e1, Ok tt)).
  { unfold load_catalog. cbn [catalog_file restart lose set_pool Executor_open e0]. by rewrite (du_file _ Hd). }
  rewrite (st_bind_ok _ _ _ _ _ E1). set (e2 := set_table_pages (table_pages e) e1).
  rewrite (st_bind_ok _ _ _ _ _ (load_metas_ok e σ ix k e1 Hok Hb Hd eq_refl eq_refl)). fold e2.
  destruct (recover_quiet (ex_wal e) σ k Hws Hq Hk) as (w & rep & E3 & Hws3 & Hq3 & Hw3 & Hpg & _).
  assert (E3' : walm recover e2 = (set_wal w e2, Ok rep)).
  { apply walm_ok_step. cbn. rewrite take_ge by (rewrite (proj2 Hq); lia). exact E3. }
  rewrite (st_bind_ok _ _ _ _ _ E3'). set (e3 := set_wal w e2).
  assert (Hdom : forall id, id ∈ replayed_pages (log_file (ex_wal e)) <-> is_Some (wal_pages w !! id)).
  { intros id. unfold replayed_pages. by rewrite E3, elem_of_dom. }
  destruct (lose_file e σ old Hi Hold) as (σ' & Hfile & Hdom' & Hrest).
  { intros id [p Hp]%Hdom. destruct (Hpg _ _ Hp) as (a & Ha & _). eauto. }
  destruct (push_pages_ok [] e3 σ σ' (it_wal it (dom (wal_pages (ex_wal e3))))) as (b & D & E4 & Hi4).
  { apply (reopen_idle _ (disk (buffer_pool (lose old e))) σ'); [lia|exact Hfile]. }
  { done. }
  { intros id. rewrite (ik_wal _ Hit), elem_of_elements, elem_of_dom. intros [p Hp].
    destruct (Hpg _ _ Hp) as (a & Ha & Hr). by exists p, a. }
  { intros id. rewrite (ik_wal _ Hit), elem_of_elements, elem_of_dom. intros Hn. apply Hrest. by rewrite Hdom. }
  rewrite asks_step. rewrite (st_bind_ok _ _ _ _ _ E4). set (e4 := set_pool b e3).
  destruct (flush_cached_ok D e4 σ (it_pool it (dom (page_table (buffer_pool e4)))) Hi4) as (b5 & E5 & Hi5).
  { intros id. by rewrite (ik_pool _ Hit), elem_of_elements. }
  rewrite asks_step. rewrite (st_bind_ok _ _ _ _ _ E5). set (e5 := set_pool b5 e4).
  destruct (reindex_all e σ ix e5 (it_tables it (dom (table_pages e))) k M) as (m0 & b6 & m & ix2 & E6 & E7 & Hok7 & Hroom7);
    [done..|by rewrite (ik_tables _ Hit)|done|done|].
  rewrite asks_step. rewrite (st_bind_ok _ _ _ _ _ E6).
  rewrite asks_step. rewrite (st_bind_ok _ _ _ _ _ E7).
  eexists _, _, ix2. split; [done|]. split; [exact Hok7|]. split; [|split; [|done]].
  - constructor; [done|done|apply Hb].
  - destruct Hd. constructor; done.
Qed.
End Restart.

(** ** Statements keep the files *)
Lemma pages_of_tables `{Crc32} e σ ix : exec_ok e σ ix -> forall t, is_Some (table_pages e !! t) -> is_Some (tables (catalog e) !! t).
Proof. intros [_ (Htk & _) _] t. apply (tk_dom _ _ _ Htk). Qed.

(** Names the catalog file can hold. *)
Definition storable (x : Statement) : Prop :=
  match x with CreateTable t cols => CatalogStore.schema_ok (Schema_new t cols) | _ => True end.

(** The counts of the catalog. *)
Definition catalog_counts (c : Catalog) (n : nat) : Prop :=
  (size (tables c) <= n)%nat /\ (length (index_defs c) <= n)%nat.

Section Statements.
Context `{Crc32}.
Variable order : gmap rstring Schema -> list Schema.
Hypothesis Horder : forall m, order m ≡ₚ (map_to_list m).*2.
Implicit Types (e : Executor) (σ : gmap Z spec_page).

Lemma durable_same e e' :
  catalog e' = catalog e -> catalog_file e' = catalog_file e -> metas_saved e' -> durable e -> durable e'.
Proof. intros Hc Hf Hm []. by constructor; rewrite ?Hc, ?Hf. Qed.

Lemma first_pk_in cols pk : first_pk cols = Some pk -> exists c, c ∈ cols /\ col_name c = pk.
Proof.
  unfold first_pk. intros (i & _ & (c & Hc & ->)%fmap_Some)%bind_Some. exists c. split; [|done].
  by eapply list_elem_of_lookup_2.
Qed.

(** After CREATE TABLE, with or without the page list of the new table. *)
Lemma durable_created e t cols n metas :
  metas = meta_files e \/ metas = <[t := meta_bytes []]> (meta_files e) -> durable e -> tables (catalog e) !! t = None ->
  (forall t, is_Some (table_pages e !! t) -> is_Some (tables (catalog e) !! t)) -> storable (CreateTable t cols) -> catalog_counts (catalog e) n ->
  Z.of_nat (S n) < 2 ^ 32 ->
  durable (set_meta_files metas (created order e t cols)) /\ catalog_counts (catalog (created order e t cols)) (S n).
Proof.
  intros Hmetas [(Hn & Hd & Hsz & Hln) Hf Hm Hdefs] Ht Hdom Hst [Hc1 Hc2] Hmax.
  set (s := Schema_new t cols) in *.
  assert (Hcounts : catalog_counts (catalog (created order e t cols)) (S n)).
  { split; cbn [created catalog tables index_defs].
    - rewrite map_size_insert_None by done. lia.
    - rewrite length_app. destruct (schema_pk _); cbn [length]; lia. }
  assert (Hok : catalog_ok (catalog (created order e t cols))).
  { destruct Hcounts as [Hs1 Hs2]. split; [|split; [|split; lia]]; cbn [created catalog tables index_defs].
    - intros n' s'. destruct (decide (t = n')) as [->|Hne].
      + rewrite lookup_insert_eq. by intros [= <-].
      + rewrite lookup_insert_ne by done. apply Hn.
    - apply Forall_app. split; [done|]. fold s. destruct (schema_pk s) as [pk|] eqn:Epk; [|constructor].
      constructor; [|constructor]. destruct Hst as (Hnm & Hcols & _ & _). split; [exact Hnm|].
      destruct (first_pk_in cols pk Epk) as (c & Hin & <-). rewrite Forall_forall in Hcols. by apply Hcols. }
  split; [|done]. constructor; [done| | |].
  - cbn [created catalog_file]. apply load_save; [exact Hok|]. unfold table_order. apply Horder.
  - intros t'. cbn. destruct (decide (t = t')) as [->|Hne].
    + rewrite lookup_insert_eq. destruct Hmetas as [-> | ->]; [right|left; by rewrite lookup_insert_eq].
      split; [|done]. specialize (Hm t'). destruct (table_pages e !! t') eqn:Ep; [|done].
      assert (is_Some (tables (catalog e) !! t')) as [? ?] by (apply Hdom; eauto). congruence.
    + rewrite lookup_insert_ne by done. destruct Hmetas as [-> | ->]; [apply Hm|]. rewrite lookup_insert_ne by done. apply Hm.
  - intros t' pk. cbn [set_meta_files created catalog tables index_defs]. rewrite elem_of_app, Hdefs. fold s.
    destruct (decide (t = t')) as [<-|Hne].
    + rewrite lookup_insert_eq, Ht. destruct (schema_pk s) as [pk'|] eqn:Epk.
      * rewrite list_elem_of_singleton. split; [intros [(? & ? & _)|[= ->]]; [done|by exists s]|].
        intros (? & [= <-] & Hpk). right. congruence.
      * split; [intros [(? & ? & _)|?%elem_of_nil]; done|]. intros (? & [= <-] & Hpk). congruence.
    + rewrite lookup_insert_ne by done. split; [|by left]. intros [|Hin]; [done|].
      destruct (schema_pk s); [|by apply elem_of_nil in Hin]. apply list_elem_of_singleton in Hin. congruence.
Qed.

Lemma counts_more c n : catalog_counts c n -> catalog_counts c (S n).
Proof. unfold catalog_counts. lia. Qed.

(** A statement that succeeds, or fails without harm, leaves the files up to
    date. *)
Lemma execute_durable e σ ix x e' r n k :
  exec_ok e σ ix -> durable e -> catalog_counts (catalog e) n -> Z.of_nat (S n) < 2 ^ 32 -> statement_ok x -> storable x ->
  budget e σ (3 + k) -> execute order x e = (e', r) -> clean x r -> durable e' /\ catalog_counts (catalog e') (S n).
Proof.
  intros Hok Hd Hc Hn Hx Hst Hb E Hcl.
  assert (Hsame : forall e', catalog e' = catalog e /\ catalog_file e' = catalog_file e /\ metas_saved e' ->
    durable e' /\ catalog_counts (catalog e') (S n)).
  { intros e1 (Hc1 & Hf1 & Hm1). split; [by eapply durable_same|]. rewrite Hc1. by apply counts_more. }
  assert (Hkeep : forall m, keeps_files m -> m e = (e', r) -> durable e' /\ catalog_counts (catalog e') (S n)).
  { intros m Hm E1. specialize (Hm e). rewrite E1 in Hm. cbn in Hm. destruct Hm as (Hc1 & Hf1 & Ht1 & Hm1). apply Hsame.
    split_and!; [done..|]. unfold metas_saved. rewrite Ht1, Hm1. apply Hd. }
  destruct x as [t cols|t values|t xs flt|t cols flt ord lim|t flt]; cbn [execute] in E.
  - destruct (tables (catalog e) !! t) as [s|] eqn:Et.
    { rewrite (exec_create_exists order e t cols s Et) in E. injection E as <- <-. cbn [clean harmless] in Hcl.
      rewrite Hcl. apply Hsame. split_and!; [done..|apply Hd]. }
    rewrite exec_create_answer in E by done. injection E as <- <-.
    apply (durable_created e t cols n (<[t := meta_bytes []]> (meta_files e))); try done.
    + by right.
    + apply (pages_of_tables _ _ _ Hok).
  - destruct r as [rs|x|]; [| |done].
    + apply Hsame. eapply saves_exec_insert; [exact E|apply Hd].
    + assert (e' = e) as ->; [|apply Hsame; split_and!; [done..|apply Hd]].
      destruct (tables (catalog e) !! t) as [s|] eqn:Et.
      2: { pose proof (unknown_schema (A:=list Row) e t) as Hu. unfold exec_insert in E. rewrite Hu in E by done. by injection E. }
      destruct (table_of _ _ _ _ _ Hok Et) as [pids Hp].
      by eapply insert_refused_same.
  - by eapply Hkeep; [apply keeps_exec_update|].
  - destruct (tables (catalog e) !! t) as [s|] eqn:Et.
    2: { pose proof (unknown_schema (A:=list Row) e t) as Hu. unfold exec_select in E. rewrite Hu in E by done. injection E as <- <-.
         apply Hsame. split_and!; [done..|apply Hd]. }
    destruct (table_of _ _ _ _ _ Hok Et) as [pids Hp].
    destruct (bound_overflows ix t flt) eqn:Hof.
    { rewrite (exec_select_overflow e σ ix t s pids) in E by done. by injection E as <- <-. }
    destruct (exec_select_ok e σ ix t s pids cols flt ord lim) as (b & rows & E1 & _); [done..|].
    rewrite E1 in E. injection E as <- _. apply Hsame. split_and!; [done..|apply Hd].
  - by eapply Hkeep; [apply keeps_exec_delete|].
Qed.
End Statements.
