(* ===== verification/Commits.v ===== *)
(** * From the commit to the pages

    INSERT, UPDATE and DELETE commit, which forces the log, and then write the
    pages they have changed.  [unflushed] is the statement up to its commit.
    The files it leaves are those of the finished statement but for pages of
    [data.db] that are still the old ones; and those the log gives back. *)
From S2P Require Export Durable.
Local Open Scope Z_scope.

(** ** The statements up to their commits *)
(** The statements that change rows. *)
Definition writes (x : Statement) : bool :=
  match x with InsertInto _ _ | UpdateSet _ _ _ | DeleteFrom _ _ => true | _ => false end.

Section Unflushed.
Context `{Crc32}.
Implicit Types (e : Executor) (σ : gmap Z spec_page).

(** The answer is the pages that are left to write. *)
Definition unflushed (x : Statement) : ex (list Z) :=
  match x with
  | InsertInto table values => insert_unflushed table values
  | UpdateSet table xs filter => update_unflushed table xs filter
  | DeleteFrom table filter => delete_unflushed table filter
  | _ => mret []
  end.

Lemma execute_flushes order x e :
  writes x -> execute order x e = (ids ← unflushed x; _ ← pool (st_iter flush_page ids); mret []) e.
Proof.
  destruct x; intros Hw; try done; cbn [execute unflushed].
  - apply exec_insert_flushes. - apply exec_update_flushes. - apply exec_delete_flushes.
Qed.

Lemma visit_commit_to_write e σ ix table s pids filter (act : Z -> row_act) change k e1 ids :
  exec_ok e σ ix -> tables (catalog e) !! table = Some s -> table_pages e !! table = Some pids ->
  budget e σ (length (heap_rids σ pids) + 2 + k) ->
  (forall t, row_act_ok (catalog e) (table_pages e) s pids t (act t) change) ->
  visit_commit s filter act pids e = (e1, Ok ids) -> to_write e ids e1.
Proof.
  intros Hok Hs Hp Hb Hact E.
  pose proof (visit_commit_ok table s pids filter act change e σ ix k Hok Hs Hp Hb Hact) as Hv. unfold answers in Hv.
  rewrite E in Hv. destruct (visits _ _ σ) as [σ1|x|]; [|by destruct Hv..].
  destruct Hv as (ids' & e' & [= <- <-] & Hu & _). exists σ1. split; [apply Hu|done].
Qed.

Lemma unflushed_ok e σ ix x M k e1 ids :
  exec_ok e σ ix -> statement_ok x -> slots_bound (table_pages e) σ M -> budget e σ (M + 3 + k) -> writes x ->
  unflushed x e = (e1, Ok ids) -> to_write e ids e1.
Proof.
  intros Hok Hx HM Hb Hw.
  assert (Hbs : forall t pids, table_pages e !! t = Some pids -> budget e σ (length (heap_rids σ pids) + 2 + (1 + k))).
  { intros t pids Hp. apply (budget_less _ _ _ (M - length (heap_rids σ pids))). specialize (HM t pids Hp).
    by replace (_ + (_ + 2 + (1 + k)))%nat with (M + 3 + k)%nat by lia. }
  destruct x as [t cols|t values|t xs flt|t cols flt ord lim|t flt]; try done; cbn [unflushed].
  all: destruct (tables (catalog e) !! t) as [s|] eqn:Et;
    [|pose proof (unknown_schema (A:=list Z) e t) as Hu;
      unfold insert_unflushed, update_unflushed, delete_unflushed; by rewrite Hu].
  all: destruct (table_of _ _ _ _ _ Hok Et) as [pids Hp].
  - eapply (insert_unflushed_ok e σ ix t s pids values k); [done..|].
    apply (budget_less _ _ _ M). by rewrite Nat.add_assoc.
  - rewrite (update_unflushed_visit _ _ _ _ _ _ Et Hp). eapply visit_commit_to_write; [done..|by eapply Hbs|].
    intros t'. by eapply update_row_ok.
  - rewrite (delete_unflushed_visit _ _ _ _ _ Et Hp). eapply visit_commit_to_write; [done..|by eapply Hbs|].
    intros t'. by apply delete_row_ok.
Qed.
End Unflushed.

(** ** The file that is not yet written *)
Section Lost.
Context `{Crc32}.
Implicit Types (e : Executor) (σ : gmap Z spec_page) (b : BufferPool).

(** [data.db] without the writes to some pages is [data.db] with other pages in
    the place of those. *)
Definition without_writes (ids : list Z) (d d' : DiskManager) : Prop :=
  disk_num_pages d' = disk_num_pages d /\
  exists olds, Forall readable olds /\ pid <$> olds ⊆ ids /\ file d = foldl page_over (file d') olds.

Lemma without_writes_refl ids d : without_writes ids d d.
Proof. split; [done|]. exists []. split_and!; [constructor|apply list_subseteq_nil|done]. Qed.

Lemma flush_page_without b σ id b' :
  pool_ok b σ -> flush_page id b = (b', Ok tt) -> 0 <= id -> (exists a, on_disk (disk b) id a) ->
  lasting b b' /\ without_writes [id] (disk b) (disk b').
Proof.
  intros Hok E Hid (a0 & p0 & Hread & Hr0). unfold flush_page in E.
  destruct (page_table b !! id) as [f|] eqn:Et; [|injection E as <-; split; [reflexivity|apply without_writes_refl]].
  apply (pk_table _ _ Hok) in Et as (fr & p & Hf & Hp & Hpid). rewrite Hf in E.
  destruct (is_dirty fr); [|injection E as <-; split; [reflexivity|apply without_writes_refl]].
  unfold write_frame in E. rewrite Hp in E.
  destruct (write_cached _ _ _ _ _ Hok Hf Hp) as (d' & q & a & Hw & _ & Hrq & Hpq & Hn & _ & Hd & Ho).
  rewrite Hw in E. cbn in E. injection E as <-. rewrite Hpid in *. split.
  - intros i Hi [a' Ha']. cbn [disk set_frames set_disk]. destruct (decide (i = id)) as [->|Hne]; [by eauto|]. exists a'. by apply Ho.
  - cbn [disk set_frames set_disk]. split; [done|]. exists [p0]. unfold read_page in Hread.
    destruct (slice (file (disk b)) (page_offset id) PAGE_SIZE) as [c|] eqn:Ec; [|done].
    destruct (verify_checksum (Page_from_bytes id c)) as [[|]|] eqn:Ev; try done. injection Hread as <-.
    split_and!; [constructor; [split; [done|by exists a0]|constructor]|done|]. cbn [foldl]. unfold page_over. cbn [pid data Page_from_bytes].
    unfold write_page in Hw. apply bind_Some in Hw as (q' & Hfin & [= <- <-]). cbn [file].
    rewrite Hpq. symmetry. apply file_write_undo. by rewrite (page_rep_length _ _ Hrq).
Qed.

Lemma without_writes_trans ids1 ids2 d1 d2 d3 :
  without_writes ids1 d1 d2 -> without_writes ids2 d2 d3 -> without_writes (ids1 ++ ids2) d1 d3.
Proof.
  intros (Hn1 & olds1 & Hr1 & Hi1 & Hf1) (Hn2 & olds2 & Hr2 & Hi2 & Hf2). split; [congruence|].
  exists (olds2 ++ olds1). split_and!.
  - by apply Forall_app.
  - rewrite fmap_app. set_solver.
  - by rewrite foldl_app, <- Hf2.
Qed.

Lemma flush_without ids b σ b' :
  pool_ok b σ -> st_iter flush_page ids b = (b', Ok tt) ->
  Forall (fun id => 0 <= id /\ exists a, on_disk (disk b) id a) ids -> without_writes ids (disk b) (disk b').
Proof.
  revert b. induction ids as [|id ids IH]; intros b Hok; [intros [= <-] _; apply without_writes_refl|].
  cbn [st_iter]. destruct (flush_page_ok b σ id Hok) as (b1 & E1 & Hok1 & _). rewrite (st_bind_ok _ _ _ _ _ E1).
  intros E [[H0 Ha] Hids]%Forall_cons. destruct (flush_page_without _ _ _ _ Hok E1 H0 Ha) as [Hl Hw].
  apply (without_writes_trans [id] ids _ (disk b1)); [done|]. apply IH; [done..|].
  eapply Forall_impl; [exact Hids|]. intros i [Hi Hai]. split; [done|]. by apply Hl.
Qed.

(** The process that ends before the pages are written leaves what it would
    have left with them, but for pages that the log gives back. *)
Lemma restart_unwritten σ σ' ix ids e b :
  unwritten σ ids e -> pool (st_iter flush_page ids) e = (set_pool b e, Ok tt) -> exec_ok (set_pool b e) σ' ix ->
  exists olds, Forall readable olds /\ forall old j, restart j (lose old e) = restart j (lose (olds ++ old) (set_pool b e)).
Proof.
  intros [Hi Hu Hr] E [Hi' (_ & _ & _ & Hws) Hq]. destruct (flush_step e σ ids Hi (reflexivity ids)) as (b1 & E1 & Hi1).
  rewrite E in E1. assert (b1 = b) as -> by exact (f_equal (fun p => buffer_pool p.1) (eq_sym E1)).
  assert (σ' = σ) as -> by exact (pool_ok_inj _ _ _ (id_pool _ _ _ Hi') (id_pool _ _ _ Hi1)).
  destruct (flush_without ids (buffer_pool e) σ b) as (_ & olds & Holds & Hids & Hf).
  - apply Hi.
  - unfold pool, st_zoom in E. destruct (st_iter flush_page ids (buffer_pool e)) as [b2 r] eqn:E2.
    assert (b2 = b) as -> by exact (f_equal (fun p => buffer_pool p.1) E). by destruct r as [[]| |].
  - rewrite Forall_forall in *. intros id Hid. split; [|by apply Hr].
    destruct (Hu id Hid) as (a & Ha & _). apply (pk_dom _ _ (id_pool _ _ _ Hi)). eauto.
  - exists olds. split; [done|]. intros old j. unfold restart, lose. cbn. rewrite filter_app, foldl_app.
    f_equal. rewrite (filter_all _ olds), Hf; [done|].
    intros p Hp. rewrite Forall_forall in Hu.
    destruct (Hu (pid p)) as (a & Ha & Hc); [apply Hids; by apply list_elem_of_fmap_2|].
    destruct (decide (pid p ∈ replayed_pages (log_file (ex_wal e)))) as [|Hno]; [done|]. destruct Hc.
    by rewrite (not_replayed_empty _ _ _ _ Hws Hq Ha Hno).
Qed.
End Lost.
