(* ===== verification/Lives.v ===== *)
(** * The life of a database

    Statements and crashes, one after the other.  A crash ends the process
    between two statements, in CREATE TABLE between the two files it saves, or
    in INSERT, UPDATE and DELETE between the commit and the pages: the next
    process opens the files, with what the crash has left of the log and of
    [data.db], and recovers; the catalog and the page lists are those that were
    last renamed into place.  To SQL a crash is nothing. *)
From S2P Require Export Commits Directory.
Local Open Scope Z_scope.

(** ** Events *)
Inductive event :=
  | Exec (x : Statement)
  | Crash (j : nat) (old : list Page) (it : iterations)
  | CrashInCreate (t : rstring) (cols : list ColumnDef) (j : nat) (old : list Page) (it : iterations)
  | CrashCommitted (x : Statement) (j : nat) (old : list Page) (it : iterations).

Section Events.
Context `{Crc32}.
Variable order : gmap rstring Schema -> list Schema.

(** CREATE TABLE up to the catalog file: the page list is not yet saved. *)
Definition create_half (table : rstring) (cols : list ColumnDef) : ex unit :=
  let s := Schema_new table cols in
  _ ← match schema_pk s with
      | Some pk => st_modify (fun e => set_indexes (create_index (index_manager e) table pk) e)
      | None => mret tt
      end;
  _ ← catalog_op (fun c => create_table c s);
  _ ← match schema_pk s with
      | Some pk => st_modify (fun e =>
          set_catalog (mkCatalog (tables (catalog e)) (index_defs (catalog e) ++ [(table, pk)])) e)
      | None => mret tt
      end;
  _ ← st_modify (fun e => set_table_pages (<[table := []]> (table_pages e)) e);
  st_modify (fun e => set_catalog_file (save_bytes (order (tables (catalog e))) (catalog e)) e).

(** The next process, after a crash in [e]. *)
Definition reborn (j : nat) (old : list Page) (it : iterations) (e : Executor) : Executor * result exec_error (list Row) :=
  (_ ← ex_recover it; mret []) (restart j (lose old e)).

(** A statement that fails has nothing to commit. One that has put a row on a
    new page ends with its page written. *)
Definition crash_committed (x : Statement) (j : nat) (old : list Page) (it : iterations) (e : Executor)
    : Executor * result exec_error (list Row) :=
  match unflushed x e with
  | (e1, Ok ids) =>
      reborn j old it
        (if decide (table_pages e1 = table_pages e) then e1 else (pool (st_iter flush_page ids) e1).1)
  | (e1, Err err) => (e1, Err err)
  | (e1, Panic) => (e1, Panic)
  end.

Definition happen (ev : event) (e : Executor) : Executor * result exec_error (list Row) :=
  match ev with
  | Exec x => execute order x e
  | Crash j old it => reborn j old it e
  | CrashInCreate t cols j old it => reborn j old it (create_half t cols e).1
  | CrashCommitted x j old it => crash_committed x j old it e
  end.

Fixpoint run_events (evs : list event) (e : Executor) : Executor * list (result exec_error (list Row)) :=
  match evs with
  | [] => (e, [])
  | ev :: evs =>
      let '(e, r) := happen ev e in
      let '(e, rs) := run_events evs e in (e, r :: rs)
  end.
End Events.

(** To SQL only the statements happen; recovery always succeeds. A table whose
    creation a crash cut short is there. *)
Inductive sql_life : database -> list event -> database -> list (result exec_error (list Row)) -> Prop :=
  | life_nil d : sql_life d [] d []
  | life_exec d d1 d2 x evs r rs :
      sql_step d x d1 r -> sql_life d1 evs d2 rs -> sql_life d (Exec x :: evs) d2 (r :: rs)
  | life_crash d d2 j old it evs rs :
      sql_life d evs d2 rs -> sql_life d (Crash j old it :: evs) d2 (Ok [] :: rs)
  | life_crash_create d d1 d2 t cols j old it evs rs :
      sql_step d (CreateTable t cols) d1 (Ok []) -> sql_life d1 evs d2 rs ->
      sql_life d (CrashInCreate t cols j old it :: evs) d2 (Ok [] :: rs)
  | life_crash_committed d d1 d2 x j old it evs r rs :
      sql_step d x d1 r -> sql_life d1 evs d2 rs -> sql_life d (CrashCommitted x j old it :: evs) d2 (r :: rs)
  | life_crash_exists d d2 t cols j old it evs rs :
      is_Some (d !! t) -> sql_life d evs d2 rs -> sql_life d (CrashInCreate t cols j old it :: evs) d2 (Ok [] :: rs).

Definition event_ok `{Crc32} (ev : event) : Prop :=
  match ev with
  | Exec x => statement_ok x /\ storable x
  | Crash _ old it => Forall readable old /\ iterations_ok it
  | CrashInCreate t cols _ old it =>
      statement_ok (CreateTable t cols) /\ storable (CreateTable t cols) /\ Forall readable old /\ iterations_ok it
  | CrashCommitted x _ old it => (writes x /\ statement_ok x) /\ Forall readable old /\ iterations_ok it
  end.

Definition event_clean (ev : event) (r : result exec_error (list Row)) : Prop :=
  match ev with Exec x | CrashCommitted x _ _ _ => clean x r | _ => True end.

Lemma sql_life_ok d evs d' rs : sql_life d evs d' rs -> db_ok d -> db_ok d'.
Proof. induction 1 as [|d d1 d2 x evs r rs Hst _ IH| |d d1 d2 t cols j old it evs rs Hst _ IH|d d1 d2 x j old it evs r rs Hst _ IH|];
  [done| |done| | |done].
  all: intros Hd; by eapply IH, sql_step_ok.
Qed.

(** A life without a crash is a session. *)
Lemma sql_life_run d xs d' rs : sql_life d (Exec <$> xs) d' rs -> sql_run d xs d' rs.
Proof.
  revert d rs. induction xs as [|x xs IH]; intros d rs Hl; inversion Hl; subst; [constructor|].
  econstructor; [done|by apply IH].
Qed.

(** ** The crashes in CREATE TABLE

    Wherever a crash comes while CREATE TABLE saves its two files, the next
    process finds those of the state before, between or after, on a file system
    that keeps the renames in their order. *)
Definition saved_of (e : Executor) : saved := (catalog_file e, meta_files e).

Lemma create_half_new order e t cols :
  tables (catalog e) !! t = None -> create_half order t cols e = (set_meta_files (meta_files e) (created order e t cols), Ok tt).
Proof.
  intros Hn. unfold create_half, created, catalog_op, st_zoom, create_table, st_modify, mbind, st_bind.
  cbn [schema_pk Schema_new]. destruct (first_pk cols) as [pk|]; cbn.
  all: rewrite Hn; cbn; rewrite ?app_nil_r; done.
Qed.

Lemma create_crash_points order e t cols dir d d' pieces pieces' k :
  tables (catalog e) !! t = None -> in_directory dir d (saved_of e) ->
  catalog_file (created order e t cols) = Some (mjoin pieces) -> mjoin pieces' = meta_bytes [] ->
  crashed_in_order d (take k (save_calls dir [(CatalogFile, pieces); (PageList t, pieces')])) d' ->
  exists e', (e' = e \/ e' = (create_half order t cols e).1 \/ e' = (exec_create_table order t cols e).1) /\
    in_directory dir d' (saved_of e').
Proof.
  intros Hn Hd Hp Hp' Hc. rewrite create_half_new, exec_create_answer by done. cbn [fst].
  destruct (crashed_in_order_saves _ _ _ (saved_of e) _ _ Hd Hc) as ([|[|n]] & Hd').
  - by exists e; split; [left|].
  - eexists. split; [right; by left|]. unfold saved_of. cbn in *. by rewrite Hp.
  - eexists. split; [right; by right|]. unfold saved_of in *. cbn in *. by rewrite take_nil, Hp, <- Hp' in *.
Qed.

(** ** Lives are lives of SQL *)
Section Lives.
Context `{Crc32}.
Variable order : gmap rstring Schema -> list Schema.
Hypothesis Horder : forall m, order m ≡ₚ (map_to_list m).*2.
Implicit Types (e : Executor) (σ : gmap Z spec_page).

(** A state to go on from: [n] bounds the tables, [M] their places, and [c] is
    what may be used up. *)
Record good e σ (n M c : nat) : Prop := {
  gd_ok : exists ix, exec_ok e σ ix;
  gd_durable : durable e;
  gd_counts : catalog_counts (catalog e) n;
  gd_slots : slots_bound (table_pages e) σ M;
  gd_budget : budget e σ c;
}.

Lemma contents_same e e' σ : catalog e' = catalog e -> table_pages e' = table_pages e -> contents e' σ = contents e σ.
Proof. intros Hc Ht. apply map_eq. intros t. by rewrite !contents_lookup, Hc, Ht. Qed.

Lemma crash_good e σ n M c j old it :
  good e σ n M c -> Forall readable old -> iterations_ok it -> index_room (IndexManager_new (T:=BTree)) (n * M + c) -> Z.of_nat c < 2 ^ 31 ->
  exists e', happen order (Crash j old it) e = (e', Ok []) /\ good e' σ n M c /\ contents e' σ = contents e σ.
Proof.
  intros [[ix Hok] Hd Hc HM Hb] Hold Hit Hroom Hmax.
  destruct (ex_recover_ok e σ ix it old j c M) as (e' & rep & ix' & E & Hok' & Hb' & Hd' & Hcat & Htp); [done..| |done|].
  { apply (index_room_less _ _ (n * M - size (tables (catalog e)) * M)).
    assert (size (tables (catalog e)) * M <= n * M)%nat by (apply Nat.mul_le_mono_r, Hc).
    replace (_ + _)%nat with (n * M + c)%nat by lia. done. }
  exists e'. split; [cbn [happen]; unfold reborn; by rewrite (st_bind_ok _ _ _ _ _ E)|]. split; [|by apply contents_same].
  constructor; [by exists ix'|done|by rewrite Hcat|by rewrite Htp|done].
Qed.

Lemma exec_good e σ n M c x :
  good e σ n M (M + 3 + c) -> statement_ok x -> storable x -> Z.of_nat (S n) < 2 ^ 32 ->
  exists e' r, happen order (Exec x) e = (e', r) /\
    (clean x r -> exists σ', good e' σ' (S n) (S M) c /\ sql_step (contents e σ) x (contents e' σ') r).
Proof.
  intros [[ix Hok] Hd Hc HM Hb] Hx Hst Hn.
  destruct (execute_stepped order e σ ix x M c) as (e' & r & E & Hstep); [done..|].
  exists e', r. split; [exact E|]. intros Hcl. destruct (Hstep Hcl) as (σ' & ix' & Hok' & Hb' & HM' & Hsql).
  destruct (execute_durable order Horder e σ ix x e' r n c) as [Hd' Hc']; [done..| |done|done|].
  { apply (budget_less _ _ _ M). by rewrite Nat.add_assoc. }
  exists σ'. split; [|done]. constructor; [by exists ix'|done..].
Qed.

(** ** A crash in CREATE TABLE *)
Lemma exec_create_halves e t cols :
  exec_create_table order t cols e = (_ ← create_half order t cols; _ ← save_table_meta t; mret []) e.
Proof.
  unfold exec_create_table, create_half. unfold mbind, st_bind.
  repeat match goal with |- context [match ?m with pair _ _ => _ end] =>
    let e' := fresh "e'" in destruct m as [e' [?|?|]]; [|done..] end; done.
Qed.

Lemma create_half_exists e t cols s j old :
  tables (catalog e) !! t = Some s -> restart j (lose old (create_half order t cols e).1) = restart j (lose old e).
Proof.
  intros Hs. unfold create_half, catalog_op, st_zoom, create_table, st_modify, mbind, st_bind.
  cbn [schema_pk Schema_new]. destruct (first_pk cols) as [pk|]; cbn; by rewrite Hs.
Qed.

Lemma crash_create_good e σ n M c t cols j old it :
  good e σ n M (M + 3 + c) -> event_ok (CrashInCreate t cols j old it) -> Z.of_nat (S n) < 2 ^ 32 ->
  index_room (IndexManager_new (T:=BTree)) (S n * S M + (M + 3 + c)) -> Z.of_nat (M + 3 + c) < 2 ^ 31 ->
  exists e', happen order (CrashInCreate t cols j old it) e = (e', Ok []) /\
    exists σ', good e' σ' (S n) (S M) c /\ forall evs d rs, sql_life (contents e' σ') evs d rs ->
      sql_life (contents e σ) (CrashInCreate t cols j old it :: evs) d (Ok [] :: rs).
Proof.
  intros Hg (Hx & Hst & Hold & Hit) Hn Hroom Hmax. cbn [happen]. unfold reborn. destruct (tables (catalog e) !! t) as [s|] eqn:Et.
  - rewrite (create_half_exists _ _ _ _ _ _ Et).
    destruct (crash_good e σ n M (M + 3 + c) j old it) as (e' & E & Hg' & Hcont); [done..| |done|].
    { apply (index_room_less _ _ (n + M + 1)). by replace (_ + _)%nat with (S n * S M + (M + 3 + c))%nat by lia. }
    exists e'. split; [exact E|]. exists σ. split.
    { destruct Hg' as [Hok Hd [Hc1 Hc2] HM Hb]. constructor; [done|done|split; lia|eapply slots_weaken; [done|lia]|].
      by apply (budget_less _ _ _ (M + 3)). }
    intros evs d rs Hl. rewrite <- Hcont. apply life_crash_exists; [|done]. rewrite Hcont, contents_lookup, Et. by eexists.
  - rewrite (create_half_new _ _ _ _ Et). cbn [fst].
    destruct (exec_good e σ n M c (CreateTable t cols)) as (e1 & r & E1 & Hpost); [done..|].
    cbn [happen execute] in E1. rewrite exec_create_answer in E1 by done. injection E1 as <- <-.
    destruct (Hpost I) as (σ1 & [Hok Hd Hc HM Hb] & Hstep). set (e2 := set_meta_files (meta_files e) (created order e t cols)).
    assert (Hg2 : good e2 σ1 (S n) (S M) c).
    { destruct Hg as [[ix0 Hok0] Hd0 Hc0 _ _]. constructor; [| |exact Hc|exact HM|].
      3: { destruct Hb. by constructor. }
      - destruct Hok as [ix [? ? ?]]. by exists ix.
      - apply (durable_created order Horder e t cols n); [by left|done|done|apply (pages_of_tables _ _ _ Hok0)|exact Hst|done|done]. }
    destruct (crash_good e2 σ1 (S n) (S M) c j old it) as (e' & E & Hg' & Hcont); [done..| |lia|].
    { apply (index_room_less _ _ (M + 3)). by replace (_ + _)%nat with (S n * S M + (M + 3 + c))%nat by lia. }
    exists e'. split; [exact E|]. exists σ1. split; [done|]. intros evs d rs Hl. eapply life_crash_create; [exact Hstep|].
    by rewrite Hcont in Hl.
Qed.

(** ** A crash after the commit *)
Lemma crash_committed_good e σ n M c x j old it :
  good e σ n M (M + 3 + c) -> event_ok (CrashCommitted x j old it) -> Z.of_nat (S n) < 2 ^ 32 ->
  index_room (IndexManager_new (T:=BTree)) (S n * S M + (M + 3 + c)) -> Z.of_nat (M + 3 + c) < 2 ^ 31 ->
  exists e' r, happen order (CrashCommitted x j old it) e = (e', r) /\
    (clean x r -> exists σ', good e' σ' (S n) (S M) c /\ sql_step (contents e σ) x (contents e' σ') r).
Proof.
  intros Hg ([Hwr Hx] & Hold & Hit) Hn Hroom Hmax. cbn [happen]. unfold crash_committed.
  destruct (exec_good e σ n M c x) as (e' & r & E & Hpost); [done..|by destruct x|done|]. cbn [happen] in E.
  rewrite execute_flushes in E by done. destruct (unflushed x e) as [e1 [ids|err|]] eqn:E1.
  2: { rewrite (st_bind_err _ _ _ _ _ E1) in E. injection E as <- <-. eauto. }
  2: { unfold mbind, st_bind in E. rewrite E1 in E. injection E as <- <-. eauto. }
  rewrite (st_bind_ok _ _ _ _ _ E1) in E.
  pose proof Hg as [[ix Hok] _ _ HM Hb].
  destruct (unflushed_ok e σ ix x M c e1 ids Hok Hx HM Hb Hwr E1) as (σ1 & Hi1 & Hun).
  destruct (flush_step e1 σ1 ids Hi1 (reflexivity ids)) as (b & E2 & _). rewrite (st_bind_ok _ _ _ _ _ E2) in E.
  injection E as <- <-. destruct (Hpost I) as (σ' & Hg' & Hsql).
  assert (Hborn : forall old', Forall readable old' -> exists e', reborn j old' it (set_pool b e1) = (e', Ok []) /\
    good e' σ' (S n) (S M) c /\ contents e' σ' = contents (set_pool b e1) σ').
  { intros old' Hold'. apply (crash_good (set_pool b e1) σ' (S n) (S M) c j old' it); [done..| |lia].
    apply (index_room_less _ _ (M + 3)). by replace (_ + _)%nat with (S n * S M + (M + 3 + c))%nat by lia. }
  case_decide as Htp.
  - pose proof Hg' as [[ix' Hok'] _ _ _ _].
    destruct (restart_unwritten σ1 σ' ix' ids e1 b (Hun Htp) E2 Hok') as (olds & Holds & Hre).
    destruct (Hborn (olds ++ old)) as (e' & Er & Hge & Hc); [by apply Forall_app|].
    exists e', (Ok []). unfold reborn in *. rewrite Hre. split; [done|]. intros _. exists σ'. by rewrite Hc.
  - rewrite E2. cbn [fst]. destruct (Hborn old Hold) as (e' & Er & Hge & Hc).
    exists e', (Ok []). split; [done|]. intros _. exists σ'. by rewrite Hc.
Qed.

Lemma good_less e σ n M c n' M' c' :
  good e σ n M c -> (n <= n')%nat -> (M <= M')%nat -> (c' <= c)%nat -> good e σ n' M' c'.
Proof.
  intros [Hok Hd [Hc1 Hc2] HM Hb] Hn HMM Hcc. constructor; [done|done|split; lia|by eapply slots_weaken|].
  apply (budget_less _ _ _ (c - c')). by replace (c - c' + c')%nat with c by lia.
Qed.

Lemma run_events_ok evs e σ n M L C :
  Forall event_ok evs -> good e σ n M (session_cost M (length evs)) ->
  (n + length evs <= L)%nat -> (M + length evs <= L)%nat -> (session_cost M (length evs) <= C)%nat ->
  index_room (IndexManager_new (T:=BTree)) (L * L + C) -> Z.of_nat C < 2 ^ 31 -> Z.of_nat L < 2 ^ 32 ->
  let '(e', rs) := run_events order evs e in
  Forall2 event_clean evs rs ->
  exists σ' n' M', good e' σ' n' M' 0 /\ sql_life (contents e σ) evs (contents e' σ') rs.
Proof.
  intros Hevs. revert e σ n M. induction Hevs as [|ev evs Hev _ IH]; intros e σ n M Hg Hn HM Hcost Hroom HC HL.
  { cbn. intros _. exists σ, n, M. split; [done|constructor]. }
  cbn [run_events length session_cost] in *. destruct ev as [x|j old it|t cols j old it|x j old it]; cbn [event_ok] in Hev.
  - destruct Hev as [Hx Hst]. destruct (exec_good e σ n M (session_cost (S M) (length evs)) x) as (e1 & r & E & Hpost);
      [done..|lia|]. rewrite E. destruct (run_events order evs e1) as [e2 rs] eqn:E2. intros Hc.
    inversion Hc as [|? ? ? ? Hr Hrs]; subst. destruct (Hpost Hr) as (σ1 & Hg1 & Hstep).
    specialize (IH e1 σ1 (S n) (S M) Hg1 ltac:(lia) ltac:(lia) ltac:(lia) Hroom HC HL). rewrite E2 in IH.
    destruct (IH Hrs) as (σ2 & n2 & M2 & Hg2 & Hlife). exists σ2, n2, M2. split; [done|]. by econstructor.
  - destruct Hev as [Hold Hit].
    destruct (crash_good e σ n M (M + 3 + session_cost (S M) (length evs)) j old it) as (e1 & E & Hg1 & Hcont); [done..| |lia|].
    { apply (index_room_less _ _ (L * L + C - (n * M + (M + 3 + session_cost (S M) (length evs))))).
      assert (n * M <= L * L)%nat by (apply Nat.mul_le_mono; lia).
      by replace (_ + _)%nat with (L * L + C)%nat by lia. }
    rewrite E. destruct (run_events order evs e1) as [e2 rs] eqn:E2. intros Hc.
    inversion Hc as [|? ? ? ? Hr Hrs]; subst.
    assert (Hg1' : good e1 σ (S n) (S M) (session_cost (S M) (length evs))) by (eapply good_less; [done|lia..]).
    specialize (IH e1 σ (S n) (S M) Hg1' ltac:(lia) ltac:(lia) ltac:(lia) Hroom HC HL). rewrite E2 in IH.
    destruct (IH Hrs) as (σ2 & n2 & M2 & Hg2 & Hlife). exists σ2, n2, M2. split; [done|].
    rewrite <- Hcont. by constructor.
  - destruct (crash_create_good e σ n M (session_cost (S M) (length evs)) t cols j old it) as (e1 & E & σ1 & Hg1 & Hlife1);
      [done..|lia| |lia|].
    { apply (index_room_less _ _ (L * L + C - (S n * S M + (M + 3 + session_cost (S M) (length evs))))).
      assert (S n * S M <= L * L)%nat by (apply Nat.mul_le_mono; lia).
      by replace (_ + _)%nat with (L * L + C)%nat by lia. }
    rewrite E. destruct (run_events order evs e1) as [e2 rs] eqn:E2. intros Hc.
    inversion Hc as [|? ? ? ? Hr Hrs]; subst.
    specialize (IH e1 σ1 (S n) (S M) Hg1 ltac:(lia) ltac:(lia) ltac:(lia) Hroom HC HL). rewrite E2 in IH.
    destruct (IH Hrs) as (σ2 & n2 & M2 & Hg2 & Hlife). exists σ2, n2, M2. split; [done|]. by apply Hlife1.
  - destruct (crash_committed_good e σ n M (session_cost (S M) (length evs)) x j old it) as (e1 & r & E & Hpost);
      [done..|lia| |lia|].
    { apply (index_room_less _ _ (L * L + C - (S n * S M + (M + 3 + session_cost (S M) (length evs))))).
      assert (S n * S M <= L * L)%nat by (apply Nat.mul_le_mono; lia).
      by replace (_ + _)%nat with (L * L + C)%nat by lia. }
    rewrite E. destruct (run_events order evs e1) as [e2 rs] eqn:E2. intros Hc.
    inversion Hc as [|? ? ? ? Hr Hrs]; subst. destruct (Hpost Hr) as (σ1 & Hg1 & Hstep).
    specialize (IH e1 σ1 (S n) (S M) Hg1 ltac:(lia) ltac:(lia) ltac:(lia) Hroom HC HL). rewrite E2 in IH.
    destruct (IH Hrs) as (σ2 & n2 & M2 & Hg2 & Hlife). exists σ2, n2, M2. split; [done|]. by econstructor.
Qed.

Lemma fresh_good n : Z.of_nat n <= 2 ^ 25 -> good Database.fresh ∅ 0 0 n.
Proof.
  intros Hn. constructor; [exists ∅; apply fresh_ok| |done| |by apply fresh_budget].
  - constructor.
    + split; [|split; [constructor|done]]. intros t s. cbn. by rewrite lookup_empty.
    + done.
    + intros t. cbn. by rewrite lookup_empty.
    + intros t pk. cbn. split; [by intros ?%elem_of_nil|]. intros (s & Hs & _). by rewrite lookup_empty in Hs.
  - intros t p. cbn. by rewrite lookup_empty.
Qed.
End Lives.

(** C1: the database is durable, as far as its answers are clean. From an empty
    directory, up to 4,094 events happen: statements, and crashes that end the
    process between two statements, in CREATE TABLE when the catalog is saved
    and the page list is not, or in INSERT, UPDATE and DELETE when the commit is
    on the log and no page is written (unless an INSERT takes a new page, which
    is then written first). The statements are [statement_ok] (the column names
    of a new table differ and its key, if it has one, is an INT; integers are in
    range and texts are UTF-8 that a [u32] counts) and [storable] (names and
    counts that the catalog file holds), and no answer but those of [clean] is
    given on the way: no panic, and no error but the harmless ones, which are a
    refused INSERT, an unknown table, CREATE without a key of a table that
    exists, and an order by a column that is not there. A crash keeps the files:
    the log perhaps without what was not synced, data.db perhaps with older or
    other readable pages in the place of any that the log gives back, which are
    all those with rows, and the catalog and page lists as they were last
    renamed into place (the directory is never synced: a file system that loses
    renames is not covered). The next process opens them and recovers. Then
    recovery always succeeds, and the answers and the tables are those of the
    abstract SQL machine that runs the statements alone and does not notice the
    crashes, a table half created being created and what has committed being
    done; whatever order the hash maps are iterated in. The keys are unique and
    the invariant of the engine holds at the end. *)
Theorem lives_refine `{Crc32} (order : gmap rstring Schema -> list Schema) (evs : list event) :
  (forall m, order m ≡ₚ (map_to_list m).*2) -> Forall event_ok evs ->
  Z.of_nat (length evs * (length evs + 3)) <= 2 ^ 24 ->
  let '(e', rs) := run_events order evs Database.fresh in
  Forall2 event_clean evs rs ->
  exists σ ix, exec_ok e' σ ix /\ sql_life ∅ evs (contents e' σ) rs /\ db_ok (contents e' σ).
Proof.
  intros Horder Hevs Hn. pose proof (session_cost_le 0 (length evs)) as Hc.
  change (2 ^ 24) with 16777216 in Hn.
  pose proof (run_events_ok order Horder evs Database.fresh ∅ 0 0 (length evs) (session_cost 0 (length evs)) Hevs) as Hrun.
  destruct (run_events order evs Database.fresh) as [e' rs]. intros Hcl.
  destruct Hrun as (σ & n & M & [[ix Hok] _ _ _ _] & Hlife); try done; [|lia..| | | |].
  { apply fresh_good. change (2 ^ 25) with 33554432. lia. }
  { apply (bg_index Database.fresh ∅). apply fresh_budget. change (2 ^ 25) with 33554432. nia. }
  { change (2 ^ 31) with 2147483648. lia. }
  { change (2 ^ 32) with 4294967296. nia. }
  assert (Hempty : contents Database.fresh ∅ = ∅) by (apply map_eq; intros t; by rewrite contents_lookup).
  rewrite Hempty in Hlife. exists σ, ix. split_and!; [done..|]. eapply sql_life_ok; [done|].
  intros t s rows. by rewrite lookup_empty.
Qed.

(** ** A life *)
Definition demo_it : iterations := mkIter elements elements elements.

Lemma demo_it_ok : iterations_ok demo_it.
Proof. by constructor; intros X. Qed.

(** A page without rows, as it is written when nothing else was. *)
Definition blank_page : Page := default (Page_new 0) (@finalize_checksum sum_crc (Page_new 0)).

Lemma blank_readable : @readable sum_crc blank_page.
Proof.
  destruct (@finalize_checksum_spec sum_crc (Page_new 0) spec_new (page_new_rep 0 ltac:(width))) as (p & E & Hr & Hv & _).
  unfold blank_page. rewrite E. split; [exact Hv|by exists spec_new].
Qed.

(** The session of [Database.v] with crashes: when the table is made, after the
    commit of three statements and of one that fails, and in between; after two
    of them the page of the table has lost every write. *)
Definition demo_life : list event :=
  match demo_session with
  | [CreateTable t cols; row1; row2; again; other; change; remove; query] =>
      [CrashInCreate t cols 0 [] demo_it; Exec row1; CrashCommitted row2 0 [] demo_it; Crash 0 [] demo_it;
       CrashCommitted again 0 [] demo_it; Exec other; CrashCommitted change 2 [blank_page] demo_it;
       Crash 5 [blank_page] demo_it; CrashCommitted remove 0 [] demo_it; Exec query]
  | _ => []
  end.

Definition demo_life_answers : list (result exec_error (list Row)) :=
  take 3 demo_answers ++ [Ok []] ++ take 3 (drop 3 demo_answers) ++ [Ok []] ++ drop 6 demo_answers.

Lemma demo_life_ok : Forall (@event_ok sum_crc) demo_life.
Proof.
  pose proof demo_session_ok as Hs. unfold demo_session in Hs. cbn [demo_life demo_session].
  repeat (apply Forall_cons in Hs as [? Hs]).
  assert (Hno : Forall (@readable sum_crc) []) by constructor.
  assert (Hold : Forall (@readable sum_crc) [blank_page]) by (constructor; [apply blank_readable|constructor]).
  pose proof demo_it_ok. repeat (apply Forall_cons_2; [cbn [event_ok]; split_and!; try done|]); [..|constructor].
  all: by apply (bool_decide_unpack _); vm_compute.
Qed.

Lemma lives_refine_witness :
  exists e' σ ix, @run_events sum_crc demo_order demo_life Database.fresh = (e', demo_life_answers) /\
    @exec_ok sum_crc e' σ ix /\ sql_life ∅ demo_life (contents e' σ) demo_life_answers /\ db_ok (contents e' σ).
Proof.
  assert (Hrs : (@run_events sum_crc demo_order demo_life Database.fresh).2 = demo_life_answers) by (by vm_compute).
  pose proof (@lives_refine sum_crc demo_order demo_life (fun m => reflexivity _) demo_life_ok) as Hr.
  destruct (@run_events sum_crc demo_order demo_life Database.fresh) as [e' rs]. cbn in Hrs. subst rs.
  destruct Hr as (σ & ix & Hok & Hrun & Hdb); [cbn; lia| |].
  - repeat constructor; done.
  - exists e', σ, ix. done.
Defined.
