(* ===== verification/Statements.v ===== *)
(** * The statements, one by one

    From any state in which the engine's invariant holds: what SELECT, INSERT,
    DELETE, UPDATE and CREATE TABLE answer, on every branch, and what they
    leave. *)
From S2P Require Export Database.
Local Open Scope Z_scope.

(** ** SELECT on an order of the rows *)
(** What a query makes of one row. *)
Definition row_answer (s : Schema) (cols : SelectColumns) (flt : option Expr) (row : Row)
    : result exec_error (option Row) :=
  keep ← filter_result s flt row;
  if (keep : bool) then r ← project s row cols; Ok (Some r) else Ok None.

Section SelectRows.
Implicit Types (s : Schema) (cols : SelectColumns) (flt : option Expr) (rows : list Row).

Definition answer_of (r : result exec_error (option Row)) : option Row :=
  match r with Ok o => o | _ => None end.

Lemma select_rows_Ok s cols flt rows rs :
  select_rows s cols flt rows = Ok rs <->
  Forall (fun row => exists o, row_answer s cols flt row = Ok o) rows /\
  rs = omap (fun row => answer_of (row_answer s cols flt row)) rows.
Proof.
  revert rs. induction rows as [|row rows IH]; intros rs; csimpl.
  - split; [by intros [= <-]|by intros [_ ->]].
  - rewrite Forall_cons. unfold row_answer at 1 3.
    destruct (filter_result s flt row) as [[|]|x|]; cbn [mbind result_bind answer_of].
    + destruct (project s row cols) as [r|x|]; cbn [mbind result_bind answer_of].
      * split.
        -- intros (rs' & [Hall ->]%IH & [= <-])%result_bind_ok. split_and!; [by eexists|done..].
        -- intros [[_ Hall] ->]. by rewrite (proj2 (IH _) (conj Hall eq_refl)).
      * split; [done|]. by intros [[[? ?] _] _].
      * split; [done|]. by intros [[[? ?] _] _].
    + rewrite IH. split; [intros [Hall ->]; split_and!; [by eexists|done..]|by intros [[_ Hall] ->]].
    + split; [done|]. by intros [[[? ?] _] _].
    + split; [done|]. by intros [[[? ?] _] _].
Qed.

(** Two answers that are the same up to order, or both not answers. *)
Definition same_answer (r r' : result exec_error (list Row)) : Prop :=
  match r, r' with
  | Ok rs, Ok rs' => rs ≡ₚ rs'
  | Ok _, _ | _, Ok _ => False
  | _, _ => True
  end.

Lemma select_rows_perm s cols flt rows rows' :
  rows ≡ₚ rows' -> same_answer (select_rows s cols flt rows) (select_rows s cols flt rows').
Proof.
  intros Hp.
  assert (Hone : forall l l' rs, l ≡ₚ l' -> select_rows s cols flt l = Ok rs ->
    exists rs', select_rows s cols flt l' = Ok rs' /\ rs ≡ₚ rs').
  { intros l l' rs Hl [Hall ->]%select_rows_Ok. eexists. split; [apply select_rows_Ok; split; [|done]|].
    - by rewrite <- Hl.
    - by rewrite Hl. }
  destruct (select_rows s cols flt rows) as [rs| |] eqn:E.
  - destruct (Hone _ _ _ Hp E) as (rs' & -> & Hr). done.
  - destruct (select_rows s cols flt rows') as [rs'| |] eqn:E'; try done.
    destruct (Hone _ _ _ (symmetry Hp) E') as (rs & ? & _). congruence.
  - destruct (select_rows s cols flt rows') as [rs'| |] eqn:E'; try done.
    destruct (Hone _ _ _ (symmetry Hp) E') as (rs & ? & _). congruence.
Qed.
End SelectRows.

(** ** The statements *)
Section Statements.
Context `{Crc32}.
Implicit Types (e : Executor) (σ : gmap Z spec_page) (s : Schema).

(** C5: SELECT by an index is SELECT by a scan, from a state of the invariant, on
    a table there is, whose filter's literal, if an INT, is in its range. The
    rows found are those a scan of the table selects, up to order, and in that
    order when no index is used, and an error in a filter or a projection occurs
    in the one case iff it does in the other; ORDER BY and LIMIT are then applied
    to them. A SELECT that finds its rows keeps the invariant of the engine: it
    changes nothing but the pages in the pool. The one exception is a filter that
    the index answers whose bound is out of range, [> i64::MAX] or [< i64::MIN]:
    it panics, and has changed nothing. *)
Theorem select_correct e σ ix table s pids cols flt order limit :
  exec_ok e σ ix -> tables (catalog e) !! table = Some s -> table_pages e !! table = Some pids ->
  literal_ok flt ->
  if bound_overflows ix table flt then exec_select table cols flt order limit e = (e, Panic)
  else exists b found,
    exec_select table cols flt order limit e = (set_pool b e, rs ← found; order_limit s cols order limit rs) /\
    same_answer found (select_rows s cols flt (table_rows s σ pids).*2) /\
    (uses_index ix table flt = false -> found = select_rows s cols flt (table_rows s σ pids).*2) /\
    ((exists rs, found = Ok rs) -> exec_ok (set_pool b e) σ ix).
Proof.
  intros Hok Hs Hp Hf. destruct (bound_overflows ix table flt) eqn:Ho; [by eapply exec_select_overflow|].
  destruct (exec_select_ok e σ ix table s pids cols flt order limit Hok Hs Hp Hf Ho) as (b & rows & E & Hperm & Hscan & Hk).
  exists b, (select_rows s cols flt rows). split_and!; [done|by apply select_rows_perm| |done].
  intros Hu. by rewrite (Hscan Hu).
Qed.


(** C9: DELETE removes the rows its filter matches. The answer is that of a scan
    with the filter: an error of the filter on any row is the answer. Otherwise
    the table keeps exactly the rows that do not match, where they were and in
    their order; the other tables are as they were, and the pool, the log and
    the indexes agree with the tables again. *)
Theorem delete_correct e σ ix table s pids flt k :
  exec_ok e σ ix -> tables (catalog e) !! table = Some s -> table_pages e !! table = Some pids ->
  budget e σ (length (heap_rids σ pids) + 2 + k) ->
  exists e', exec_delete table flt e = (e', _ ← select_rows s Star flt (table_rows s σ pids).*2; Ok []) /\
    ((exists rs, select_rows s Star flt (table_rows s σ pids).*2 = Ok rs) ->
     exists σ', settled e σ table pids k e' σ' /\
       table_rows s σ' pids = filter (fun t => matches s flt t.2 = false) (table_rows s σ pids)).
Proof. apply exec_delete_ok. Qed.

(** C8: UPDATE assigns to the rows its filter matches. The rows are visited in the
    order of a scan; the first that fails ends the statement with its error: the
    filter, a key that is NULL or taken by a row as it is by then, an unknown
    column, a value of the wrong type, a row that outgrows its place. An update
    that succeeds leaves every row that matched with the assigned values and
    every other row as it was, each where it was; the other tables are as they
    were, and the pool, the log and the indexes agree with the tables again. *)
Theorem update_correct e σ ix table s pids xs flt k :
  exec_ok e σ ix -> tables (catalog e) !! table = Some s -> table_pages e !! table = Some pids ->
  Forall (fun a => value_ok (value a)) xs -> budget e σ (length (heap_rids σ pids) + 2 + k) ->
  exists e', exec_update table xs flt e =
      (e', _ ← visits (visit s flt (update_change s pids xs)) (heap_rids σ pids) σ; Ok []) /\
    forall σ', visits (visit s flt (update_change s pids xs)) (heap_rids σ pids) σ = Ok σ' ->
      settled e σ table pids k e' σ' /\
      table_rows s σ' pids = prod_map id (updated s flt xs) <$> table_rows s σ pids.
Proof. apply exec_update_ok. Qed.
End Statements.

(** ** Witnesses: on the table of the demo session *)
Lemma select_correct_witness :
  exists σ ix b found,
    @exec_ok sum_crc demo_db σ ix /\ literal_ok (Some (mkExpr [x61] OpLe (VInt 5))) /\
    @exec_select sum_crc demo_table (Named [[x62]]) (Some (mkExpr [x61] OpLe (VInt 5))) None None demo_db =
      (set_pool b demo_db, rs ← found; order_limit demo_schema_t (Named [[x62]]) None None rs) /\
    same_answer found (select_rows demo_schema_t (Named [[x62]]) (Some (mkExpr [x61] OpLe (VInt 5)))
      (table_rows demo_schema_t σ [0]).*2) /\
    (@exec_select sum_crc demo_table (Named [[x62]]) (Some (mkExpr [x61] OpLe (VInt 5))) None None demo_db).2 = Ok [[VNull]].
Proof.
  destruct demo_db_ok as (σ & ix & Hok & _). destruct demo_db_table as [Hs Hp].
  assert (Hb : literal_ok (Some (mkExpr [x61] OpLe (VInt 5)))) by (unfold literal_ok, in_i64; cbn; lia).
  pose proof (@select_correct sum_crc demo_db σ ix demo_table demo_schema_t [0] (Named [[x62]])
    (Some (mkExpr [x61] OpLe (VInt 5))) None None Hok Hs Hp Hb) as Hc.
  unfold bound_overflows in Hc. rewrite andb_false_r in Hc. destruct Hc as (b & found & E & Ha & _).
  exists σ, ix, b, found. split_and!; [done..|by vm_compute].
Defined.


Lemma delete_correct_witness :
  exists σ σ' e',
    @exec_delete sum_crc demo_table (Some (mkExpr [x61] OpEq (VInt 7))) demo_db = (e', Ok []) /\
    @settled sum_crc demo_db σ demo_table [0] 7 e' σ' /\
    table_rows demo_schema_t σ' [0] =
      filter (fun t => matches demo_schema_t (Some (mkExpr [x61] OpEq (VInt 7))) t.2 = false)
        (table_rows demo_schema_t σ [0]).
Proof.
  destruct demo_db_ok as (σ & ix & Hok & Hb & HM). destruct demo_db_table as [Hs Hp]. specialize (HM _ _ Hp).
  destruct (@delete_correct sum_crc demo_db σ ix demo_table demo_schema_t [0]
    (Some (mkExpr [x61] OpEq (VInt 7))) 7 Hok Hs Hp) as (e' & E & Hdone).
  - apply (budget_less _ _ _ (991 - length (heap_rids σ [0]))).
    by replace (991 - length (heap_rids σ [0%Z]) + (length (heap_rids σ [0%Z]) + 2 + 7))%nat with 1000%nat by lia.
  - assert (Hok' : (@exec_delete sum_crc demo_table (Some (mkExpr [x61] OpEq (VInt 7))) demo_db).2 = Ok []) by (by vm_compute).
    rewrite E in Hok'. cbn [snd] in Hok'. rewrite Hok' in E.
    apply result_bind_ok in Hok' as (rs & Hrs & _). destruct (Hdone (ex_intro _ rs Hrs)) as (σ' & Hst & Hrows). exists σ, σ', e'. exact (conj E (conj Hst Hrows)).
Defined.

Lemma update_correct_witness :
  exists σ σ' e',
    @exec_update sum_crc demo_table [mkAssign [x61] (VInt 8)] (Some (mkExpr [x61] OpEq (VInt 7))) demo_db = (e', Ok []) /\
    @settled sum_crc demo_db σ demo_table [0] 7 e' σ' /\
    table_rows demo_schema_t σ' [0] =
      prod_map id (updated demo_schema_t (Some (mkExpr [x61] OpEq (VInt 7))) [mkAssign [x61] (VInt 8)]) <$>
        table_rows demo_schema_t σ [0].
Proof.
  destruct demo_db_ok as (σ & ix & Hok & Hb & HM). destruct demo_db_table as [Hs Hp]. specialize (HM _ _ Hp).
  destruct (@update_correct sum_crc demo_db σ ix demo_table demo_schema_t [0] [mkAssign [x61] (VInt 8)]
    (Some (mkExpr [x61] OpEq (VInt 7))) 7 Hok Hs Hp) as (e' & E & Hdone).
  - repeat constructor; cbn; unfold in_i64; lia.
  - apply (budget_less _ _ _ (991 - length (heap_rids σ [0]))).
    by replace (991 - length (heap_rids σ [0%Z]) + (length (heap_rids σ [0%Z]) + 2 + 7))%nat with 1000%nat by lia.
  - assert (Hok' : (@exec_update sum_crc demo_table [mkAssign [x61] (VInt 8)]
      (Some (mkExpr [x61] OpEq (VInt 7))) demo_db).2 = Ok []) by (by vm_compute).
    rewrite E in Hok'. cbn [snd] in Hok'. rewrite Hok' in E.
    apply result_bind_ok in Hok' as (σ' & Hv & _). exists σ, σ', e'. split; [exact E|]. by apply Hdone.
Defined.
