(* ===== verification/Typing.v ===== *)
(** * Typed queries

    The types of the columns of an answer, and type soundness: a SELECT answers
    with rows of these types or with an error that says what is wrong with the
    query; with a query that is well typed, it answers. *)
From S2P Require Export Statements.
Local Open Scope Z_scope.

(** ** Types of queries *)
Definition column_type (s : Schema) (n : rstring) : option DataType :=
  i ← col_index s n; ty <$> columns s !! i.

Definition answer_types (s : Schema) (cols : SelectColumns) : option (list DataType) :=
  match cols with Star => Some (ty <$> columns s) | Named ns => mapM (column_type s) ns end.

(** A filter that compares an INT column with an INT or a TEXT column with a
    text, or asks for NULL. Two floats may be incomparable. *)
Definition filter_typed (s : Schema) (x : Expr) : bool :=
  match column_type s (left x) with
  | None => false
  | Some t =>
      match op x, right x, t with
      | OpIsNull, _, _ | OpIsNotNull, _, _ | _, VNull, _ | _, VInt _, DInt | _, VText _, DText => true
      | _, _, _ => false
      end
  end.

Definition order_typed (s : Schema) (cols : SelectColumns) (order : option (rstring * OrderDir)) : bool :=
  match order, cols with
  | None, _ => true
  | Some (c, _), Star => bool_decide (is_Some (column_type s c))
  | Some (c, _), Named ns => bool_decide (c ∈ ns)
  end.

Definition query_typed (s : Schema) (cols : SelectColumns) (flt : option Expr) (order : option (rstring * OrderDir)) : bool :=
  bool_decide (is_Some (answer_types s cols)) && from_option (filter_typed s) true flt && order_typed s cols order.

(** What an error says of the query. *)
Definition query_error (s : Schema) (cols : SelectColumns) (flt : option Expr) (order : option (rstring * OrderDir))
    (x : exec_error) : Prop :=
  match x with
  | ColumnNotFound n => column_type s n = None /\
      ((exists f, flt = Some f /\ left f = n) \/ exists ns, cols = Named ns /\ n ∈ ns)
  | WhereMismatch v o rhs => exists f t, flt = Some f /\ op f = o /\ right f = rhs /\
      column_type s (left f) = Some t /\ type_matches t v /\ sql_truth v o rhs = None /\ is_null v = false /\ is_null rhs = false
  | OrderNotFound c => cols = Star /\ column_type s c = None /\ exists d, order = Some (c, d)
  | OrderNotSelected c => exists ns d, cols = Named ns /\ c ∉ ns /\ order = Some (c, d)
  | _ => False
  end.

Section Typing.
Implicit Types (s : Schema) (cols : SelectColumns) (flt : option Expr) (row : Row) (rows : list Row) (x : exec_error).

Lemma query_typed_no_error s cols flt order x : query_typed s cols flt order = true -> ~ query_error s cols flt order x.
Proof.
  unfold query_typed. rewrite !andb_true_iff, bool_decide_eq_true. intros [[[ts Hts] Hf] Ho].
  destruct x; cbn [query_error]; try (by intros []).
  - intros [Hn [(f & -> & Hl)|(ns & -> & Hin)]].
    + cbn [from_option] in Hf. unfold filter_typed in Hf. by rewrite Hl, Hn in Hf.
    + cbn [answer_types] in Hts. apply list_elem_of_lookup in Hin as [i Hi].
      apply mapM_Some in Hts. destruct (Forall2_lookup_l _ _ _ _ _ Hts Hi) as (t & _ & Ht). congruence.
  - intros (f & t & -> & <- & <- & Ht & Hv & Hs & Hn1 & Hn2). cbn [from_option] in Hf. unfold filter_typed in Hf.
    rewrite Ht in Hf. unfold sql_truth in Hs. rewrite Hn1, Hn2 in Hs.
    by destruct (op f), (right f), t, cell.
  - intros (-> & Hn & d & ->). cbn in Ho. apply bool_decide_eq_true in Ho as [? ?]. congruence.
  - intros (ns & d & -> & Hn & ->). cbn in Ho. by apply bool_decide_eq_true in Ho.
Qed.

(** ** Rows *)
Lemma column_cell s row n :
  row_matches s row ->
  match col_index s n with
  | Some i => exists t v, column_type s n = Some t /\ row !! i = Some v /\ type_matches t v
  | None => column_type s n = None
  end.
Proof.
  intros Hm. unfold column_type. destruct (col_index s n) as [i|] eqn:Ei; [|done].
  destruct (col_index_name _ _ _ Ei) as (c & Hc & _). destruct (row_matches_cell _ _ _ _ Hm Hc) as (v & Hv & Ht).
  exists (ty c), v. split_and!; [|done..]. cbn. by rewrite Hc.
Qed.

Lemma filter_sound s cols flt order row :
  row_matches s row ->
  match filter_result s flt row with Ok _ => True | Err x => query_error s cols flt order x | Panic => False end.
Proof.
  intros Hm. destruct flt as [f|]; [|done]. cbn [filter_result]. pose proof (column_cell s row (left f) Hm) as Hc.
  destruct (col_index s (left f)) as [i|] eqn:Ei.
  - destruct Hc as (t & v & Ht & Hv & Htv). rewrite (eval_filter_truth s row f i v) by done.
    destruct (sql_truth _ _ _) eqn:Es; [done|]. destruct (is_null v) eqn:E1; [done|]. destruct (is_null (right f)) eqn:E2; [done|].
    cbn. exists f, t. done.
  - unfold eval_filter. rewrite Ei. cbn. eauto.
Qed.

Lemma project_named_sound s row ns :
  row_matches s row ->
  match project_named s row ns with
  | Ok r => exists ts, mapM (column_type s) ns = Some ts /\ Forall2 type_matches ts r
  | Err x => exists n, x = ColumnNotFound n /\ n ∈ ns /\ column_type s n = None
  | Panic => False
  end.
Proof.
  intros Hm. induction ns as [|n ns IH]; cbn [project_named]; [by exists []|].
  pose proof (column_cell s row n Hm) as Hc. destruct (col_index s n) as [i|]; csimpl.
  - destruct Hc as (t & v & Ht & -> & Htv). csimpl. destruct (project_named s row ns) as [r|x|]; csimpl; [|set_solver|done].
    destruct IH as (ts & Hts%mapM_Some & Hr). exists (t :: ts). split; [apply (mapM_Some_2 (column_type s) (n :: ns))|]; by constructor.
  - exists n. split_and!; [done|left|done].
Qed.

Lemma project_sound s cols flt order row :
  row_matches s row ->
  match project s row cols with
  | Ok r => exists ts, answer_types s cols = Some ts /\ Forall2 type_matches ts r
  | Err x => query_error s cols flt order x
  | Panic => False
  end.
Proof.
  intros Hm. destruct cols as [|ns]; cbn [project].
  - exists (ty <$> columns s). split; [done|]. by apply Forall2_fmap_l.
  - pose proof (project_named_sound s row ns Hm) as Hp. destruct (project_named s row ns) as [r|x|]; [done| |done].
    destruct Hp as (n & -> & Hin & Hn). cbn. eauto.
Qed.

(** The rows of an answer. *)
Definition answers (s : Schema) (cols : SelectColumns) (rs : list Row) : Prop :=
  Forall (fun r => exists ts, answer_types s cols = Some ts /\ Forall2 type_matches ts r) rs.

Lemma select_rows_sound s cols flt order rows :
  Forall (row_matches s) rows ->
  match select_rows s cols flt rows with Ok rs => answers s cols rs | Err x => query_error s cols flt order x | Panic => False end.
Proof.
  induction 1 as [|row rows Hm _ IH]; [constructor|]. cbn [select_rows].
  pose proof (filter_sound s cols flt order row Hm) as Hf. destruct (filter_result s flt row) as [[|]|x|]; csimpl; [|done..].
  pose proof (project_sound s cols flt order row Hm) as Hp. destruct (project s row cols) as [r|x|]; csimpl; [|done..].
  destruct (select_rows s cols flt rows) as [rs|x|]; csimpl; [|done..]. by constructor.
Qed.

(** The column of the order is one of the answer's. *)
Lemma sort_index_sound s cols c :
  match sort_index s cols c with
  | Ok i => forall ts, answer_types s cols = Some ts -> (i < length ts)%nat
  | Err (OrderNotFound c') => c' = c /\ cols = Star /\ column_type s c = None
  | Err (OrderNotSelected c') => c' = c /\ exists ns, cols = Named ns /\ c ∉ ns
  | _ => False
  end.
Proof.
  destruct cols as [|ns]; cbn [sort_index].
  - unfold column_type. destruct (col_index s c) as [i|] eqn:Ei; cbn; [|done].
    destruct (col_index_name _ _ _ Ei) as (cd & Hc & _). intros ts [= <-]. rewrite length_fmap. by eapply lookup_lt_Some.
  - assert (Hpos : match position (fun n => bool_decide (n = c)) ns with Some i => (i < length ns)%nat | None => c ∉ ns end).
    { induction ns as [|n ns IH]; cbn [position]; [by apply not_elem_of_nil|]. case_bool_decide as Hc; [cbn; lia|].
      destruct (position _ ns); cbn; [lia|]. apply not_elem_of_cons. auto. }
    destruct (position _ ns) as [i|]; cbn; [|eauto]. intros ts Hts%mapM_Some%Forall2_length. lia.
Qed.

Lemma order_pass_sound s cols flt order rs :
  answers s cols rs ->
  match order_pass s cols order rs with Ok rs' => answers s cols rs' | Err x => query_error s cols flt order x | Panic => False end.
Proof.
  intros Hrs. destruct order as [[c d]|]; cbn [order_pass]; [|done].
  pose proof (sort_index_sound s cols c) as Hi. destruct (sort_index s cols c) as [i|x|]; csimpl; [| |done].
  - rewrite decide_True; [by apply sort_by_Forall|]. left. eapply Forall_impl; [exact Hrs|].
    intros r (ts & Hts & Hr%Forall2_length). rewrite <- Hr. by apply Hi.
  - destruct x; try done; destruct Hi as [-> Hi]; [|destruct Hi as (ns & ? & ?)]; cbn; naive_solver.
Qed.

Lemma order_limit_sound s cols flt order limit rs :
  answers s cols rs ->
  match order_limit s cols order limit rs with
  | Ok rs' => answers s cols rs' /\ (forall n, limit = Some n -> (length rs' <= Z.to_nat n)%nat)
  | Err x => query_error s cols flt order x
  | Panic => False
  end.
Proof.
  intros Hrs. unfold order_limit. assert (Hlim : forall rs, answers s cols rs -> answers s cols (limit_pass limit rs)).
  { intros rs1 H1. destruct limit; [by apply Forall_take|done]. }
  pose proof (order_pass_sound s cols flt order rs Hrs) as H1. destruct (order_pass s cols order rs) as [rs1|x|]; csimpl; [|done..].
  pose proof (order_pass_sound s cols flt order _ (Hlim _ H1)) as H2.
  destruct (order_pass s cols order (limit_pass limit rs1)) as [rs2|x|]; csimpl; [|done..]. split; [by apply Hlim|].
  intros n ->. cbn [limit_pass]. rewrite length_take. lia.
Qed.
End Typing.

Lemma table_rows_match σ s pids : table_ok σ s pids -> Forall (row_matches s) (table_rows s σ pids).*2.
Proof.
  intros Htb. unfold table_rows. apply Forall_fmap, Forall_fmap, Forall_forall. intros [r b] [Hr Hb]%elem_of_heap_tuples. cbn.
  destruct (table_tuple _ _ _ _ _ Htb Hr Hb) as [_ [row Hst]]. rewrite (stored_decoded s row b Hst). by eapply stored_matches.
Qed.

(** C6: SELECT is type sound, from a state of the engine's invariant, on a table
    there is, whose filter's literal, if an INT, is in its range. It panics only
    on a filter that the index answers whose bound is out of range
    ([> i64::MAX] or [< i64::MIN]). When it answers, every cell has the type of
    its column, the columns are the ones selected, and there are no more rows
    than the limit. When it fails, the error names a column that does not exist
    or is not selected, or a cell of the filter's column that does not compare
    with its literal. A well-typed query answers, unless it is one that panics,
    and leaves the invariant. *)
Theorem select_type_sound `{Crc32} e σ ix table s pids cols flt order limit :
  exec_ok e σ ix -> tables (catalog e) !! table = Some s -> table_pages e !! table = Some pids -> literal_ok flt ->
  exists b r, exec_select table cols flt order limit e = (set_pool b e, r) /\
    match r with
    | Ok rs => answers s cols rs /\ (forall n, limit = Some n -> (length rs <= Z.to_nat n)%nat)
    | Err x => query_error s cols flt order x
    | Panic => bound_overflows ix table flt = true
    end /\
    (query_typed s cols flt order = true -> bound_overflows ix table flt = false ->
     (exists rs, r = Ok rs) /\ exec_ok (set_pool b e) σ ix).
Proof.
  intros Hok Hs Hp Hf. pose proof Hok as [_ (Htk & _) _].
  destruct (bound_overflows ix table flt) eqn:Ho.
  { exists (buffer_pool e), Panic. rewrite (exec_select_overflow e σ ix table s pids) by done. by destruct e. }
  destruct (exec_select_ok e σ ix table s pids cols flt order limit Hok Hs Hp Hf Ho) as (b & rows & E & Hperm & _ & Hk).
  assert (Hm : Forall (row_matches s) rows) by (rewrite Hperm; by eapply table_rows_match, tk_table).
  exists b, (rs ← select_rows s cols flt rows; order_limit s cols order limit rs). split; [done|].
  pose proof (select_rows_sound s cols flt order rows Hm) as H1.
  destruct (select_rows s cols flt rows) as [rs|x|]; csimpl; [|split; [done|]; by intros ?%(query_typed_no_error _ _ _ _ x)|done].
  pose proof (order_limit_sound s cols flt order limit rs H1) as H2.
  destruct (order_limit s cols order limit rs) as [rs'|x|]; csimpl; [split; [done|]|split; [done|]; by intros ?%(query_typed_no_error _ _ _ _ x)|done].
  intros _ _. split; [by eexists|]. apply Hk. by eexists.
Qed.

(** SELECT b FROM t WHERE a <= 5 ORDER BY b LIMIT 1, on the demo table. *)
Lemma select_type_sound_witness :
  let q := Some (mkExpr [x61] OpLe (VInt 5)) in
  exists b rs σ ix, @exec_select sum_crc demo_table (Named [[x62]]) q (Some ([x62], Asc)) (Some 1) demo_db = (set_pool b demo_db, Ok rs) /\
    answers demo_schema_t (Named [[x62]]) rs /\ (length rs <= 1)%nat /\ @exec_ok sum_crc (set_pool b demo_db) σ ix.
Proof.
  intros q. destruct demo_db_ok as (σ & ix & Hok & _). destruct demo_db_table as [Hs Hp].
  destruct (@select_type_sound sum_crc demo_db σ ix demo_table demo_schema_t [0] (Named [[x62]]) q (Some ([x62], Asc)) (Some 1) Hok Hs Hp)
    as (b & r & E & Hr & Hq); [unfold literal_ok, in_i64; cbn; lia|].
  destruct Hq as [[rs ->] Hk]; [by vm_compute|by apply andb_false_r|]. destruct Hr as [Ha Hl].
  exists b, rs, σ, ix. split_and!; [exact E|exact Ha|exact (Hl 1 eq_refl)|exact Hk].
Defined.
