(* ===== verification/Repl.v ===== *)
(** * The shell: main.rs

    [run] takes a text through lexer, parser and executor; the loop is a step
    on a line.  A line is its characters.  What is printed is a list of events;
    Printing has their wording and the prompts.  [None] is a panic.  [u32] counters
    panic on overflow. *)
From Stdlib Require Import Strings.String.
From S2P Require Export Database Parser Locks.
Local Open Scope Z_scope.

Abbreviation text := (list Z).

Section Text.
Context `{Unicode}.

Fixpoint drop_while (p : Z -> bool) (s : text) : text :=
  match s with [] => [] | c :: s' => if p c then drop_while p s' else s end.

Fixpoint take_while (p : Z -> bool) (s : text) : text :=
  match s with [] => [] | c :: s' => if p c then c :: take_while p s' else [] end.

(** [str::trim] and [str::trim_end_matches] of a character. *)
Definition trim_end_by (p : Z -> bool) (s : text) : text := reverse (drop_while p (reverse s)).
Definition trim (s : text) : text := trim_end_by is_whitespace (drop_while is_whitespace s).
Definition trim_end_matches (c : Z) (s : text) : text := trim_end_by (Z.eqb c) s.

(** [str::to_uppercase], [starts_with], [ends_with]. *)
Definition upper (s : text) : text := s ≫= to_uppercase.
Definition starts_with (p s : text) : bool := bool_decide (take (length p) s = p).
Definition ends_with_char (c : Z) (s : text) : bool := bool_decide (last s = Some c).

Definition SEMICOLON : Z := 59.

(** ** [extract_table]

    Positions are those of bytes: the keyword is found in the upper case text
    and the slice is taken from the text. *)
Fixpoint find_bytes (p s : bytes) : option nat :=
  if decide (take (length p) s = p) then Some 0%nat
  else match s with [] => None | _ :: s => S <$> find_bytes p s end.

(** [&s[n..]] panics past the end and inside a character. *)
Definition is_char_boundary (s : bytes) (n : nat) : bool :=
  match s !! n with
  | Some b => bool_decide (continuation b = None)
  | None => bool_decide (n = length s)
  end.

Definition str_from (s : bytes) (n : nat) : option bytes :=
  if is_char_boundary s n then Some (drop n s) else None.

Definition is_name_char (c : Z) : bool := is_alphabetic c || is_numeric c || (c =? 95).

Definition table_keywords : list text := [codes "FROM "; codes "INTO "; codes "TABLE "]%string.

(** The table named after the first keyword that is there. *)
Fixpoint extract_after (kws : list text) (sql : text) : option (option text) :=
  match kws with
  | [] => Some None
  | kw :: kws =>
      match find_bytes (encode_utf8 kw) (encode_utf8 (upper sql)) with
      | Some pos =>
          rest ← str_from (encode_utf8 sql) (pos + length (encode_utf8 kw));
          Some (Some (take_while is_name_char (chars rest)))
      | None => extract_after kws sql
      end
  end.

Definition extract_table (sql : text) : option (option text) := extract_after table_keywords sql.

Definition statement_words : list text :=
  [codes "SELECT"; codes "INSERT"; codes "DELETE"; codes "CREATE"; codes "BEGIN"; codes "COMMIT";
   codes "ROLLBACK"]%string.

Definition looks_complete (line : text) : bool :=
  let u := upper (trim line) in existsb (fun w => starts_with w u) statement_words.
End Text.

(** ** [run] *)
Inductive run_error :=
  | RunLex (e : lex_error)
  | RunParse (e : parse_error)
  | RunExec (e : exec_error).

Definition map_err {E F A} (f : E -> F) (r : result E A) : result F A :=
  match r with Ok a => Ok a | Err e => Err (f e) | Panic => Panic end.

Section Run.
Context `{Unicode, Crc32}.
(** The order in which [CatalogStore::save] meets the tables. *)
Variable order : gmap rstring Schema -> list Schema.

(** The statement a text spells, [None] for an empty one. *)
Definition read_statement (sql : text) : result run_error (option Statement) :=
  let trimmed := trim_end_matches SEMICOLON (trim sql) in
  match trimmed with
  | [] => Ok None
  | _ =>
      tokens ← map_err RunLex (tokenize_chars trimmed);
      stmt ← map_err RunParse (parse tokens);
      Ok (Some stmt)
  end.

Definition run (sql : text) : st Executor run_error (list Row) := fun e =>
  match read_statement sql with
  | Ok None => (e, Ok [])
  | Ok (Some stmt) => let '(e, r) := execute order stmt e in (e, map_err RunExec r)
  | Err err => (e, Err err)
  | Panic => (e, Panic)
  end.
End Run.

(** ** The loop *)
Inductive output :=
  | Bye
  | Help
  | NoTables
  | TableNames (names : list rstring)
  | HitRate
  | AlreadyInTransaction
  | TxnStarted (id : Z)
  | TxnCommitted (id : Z)
  | TxnRolledBack (id : Z)
  | NoTransaction
  | WaitingForLock
  | LockRefused (e : lock_error)
  | TableCreated
  | RowInserted
  | RowsDeleted
  | Rows (headers : option (list rstring)) (rows : list Row)
  | RunFailed (e : run_error).

Record Shell := mkShell {
  sh_exec : Executor;
  sh_lm : LockManager;
  current_txn : option Z;
  next_txn : Z;
  input_buf : text;
}.

Definition set_buf (b : text) (s : Shell) : Shell :=
  mkShell (sh_exec s) (sh_lm s) (current_txn s) (next_txn s) b.
Definition set_txn (t : option Z) (n : Z) (lm : LockManager) (s : Shell) : Shell :=
  mkShell (sh_exec s) lm t n (input_buf s).
Definition set_exec (e : Executor) (s : Shell) : Shell :=
  mkShell e (sh_lm s) (current_txn s) (next_txn s) (input_buf s).
Definition set_locks (lm : LockManager) (s : Shell) : Shell :=
  mkShell (sh_exec s) lm (current_txn s) (next_txn s) (input_buf s).

(** The one row every table lock is taken on: [u32::MAX], 0. *)
Definition table_rid : LockRid := mkLockRid (2 ^ 32 - 1) 0.

Section Loop.
Context `{Unicode, Crc32}.
(** The iteration orders of the hash containers: the tables as they are saved,
    their names as they are listed, the waiting transactions. *)
Variables (order : gmap rstring Schema -> list Schema) (names : gmap rstring Schema -> list rstring)
  (iter : gset Z -> list Z).

Definition list_tables (e : Executor) : output :=
  match names (tables (catalog e)) with [] => NoTables | l => TableNames l end.

Definition one_of (u : text) (ws : list string) : bool := existsb (fun w => bool_decide (u = codes w)) ws.

Definition shell_begin (s : Shell) : option (Shell * output) :=
  match current_txn s with
  | Some _ => Some (s, AlreadyInTransaction)
  | None =>
      if next_txn s + 1 <? 2 ^ 32
      then Some (set_txn (Some (next_txn s)) (next_txn s + 1) (sh_lm s) s, TxnStarted (next_txn s))
      else None
  end.

Definition shell_end (say : Z -> output) (s : Shell) : Shell * output :=
  match current_txn s with
  | Some t => (set_txn None (next_txn s) (release_all (sh_lm s) t) s, say t)
  | None => (s, NoTransaction)
  end.

(** What the answer of a statement prints. *)
Definition report (e : Executor) (sql : text) (hint : option text) (r : result run_error (list Row))
    : option (list output) :=
  match r with
  | Ok [] =>
      let u := upper sql in
      Some (if starts_with (codes "CREATE") u then [TableCreated]
            else if starts_with (codes "INSERT") u then [RowInserted]
            else if starts_with (codes "DELETE") u then [RowsDeleted] else [])
  | Ok rows =>
      let headers := t ← hint; s ← catalog_get (catalog e) (encode_utf8 t);
        Some (col_name <$> columns s) in
      Some [Rows headers rows]
  | Err err => Some [RunFailed err]
  | Panic => None
  end.

(** The lock on the table, when a transaction is open: [true] to go on. *)
Definition lock_for (sql : text) (s : Shell) : option (Shell * list output * bool) :=
  match current_txn s with
  | None => Some (s, [], true)
  | Some t =>
      let u := upper sql in
      let is_write := starts_with (codes "INSERT") u || starts_with (codes "DELETE") u in
      match acquire iter (sh_lm s) t table_rid (if is_write then Exclusive else Shared) with
      | (lm, Ok true) => Some (set_locks lm s, [], true)
      | (lm, Ok false) => Some (set_locks lm s, [WaitingForLock], true)
      | (lm, Err e) => Some (set_locks lm s, [LockRefused e], false)
      | (_, Panic) => None
      end
  end.

(** A text that is complete. *)
Definition shell_sql (sql : text) (s : Shell) : option (Shell * list output) :=
  hint ← extract_table sql;
  '(s, out, go) ← lock_for sql s;
  if (go : bool) then
    let '(e, r) := run order sql (sh_exec s) in
    out' ← report e sql hint r;
    Some (set_exec e s, out ++ out')
  else Some (s, out).

(** One turn of the loop on a line that was read; [false] is [break]. *)
Definition shell_step (line : text) (s : Shell) : option (Shell * list output * bool) :=
  let trimmed := trim line in
  let u := upper trimmed in
  if one_of u ["\QUIT"; "\Q"; "EXIT"; "QUIT"]%string then Some (s, [Bye], false)
  else if one_of u ["\HELP"; "\H"]%string then Some (s, [Help], true)
  else if one_of u ["\TABLES"]%string then Some (s, [list_tables (sh_exec s)], true)
  else if one_of u ["\STATS"]%string then Some (s, [HitRate], true)
  else if one_of u ["BEGIN"; "BEGIN;"]%string then '(s, o) ← shell_begin s; Some (s, [o], true)
  else if one_of u ["COMMIT"; "COMMIT;"]%string then let '(s, o) := shell_end TxnCommitted s in Some (s, [o], true)
  else if one_of u ["ROLLBACK"; "ROLLBACK;"]%string then let '(s, o) := shell_end TxnRolledBack s in Some (s, [o], true)
  else
    let buf := input_buf s ++ trimmed ++ [32] in
    if negb (ends_with_char SEMICOLON trimmed) && negb (looks_complete trimmed)
    then Some (set_buf buf s, [], true)
    else
      let sql := trim (trim_end_matches SEMICOLON (trim buf)) in
      let s := set_buf [] s in
      match sql with
      | [] => Some (s, [], true)
      | _ => '(s, out) ← shell_sql sql s; Some (s, out, true)
      end.

(** The loop over the lines of the input, until one ends it. *)
Fixpoint shell_run (lines : list text) (s : Shell) : option (Shell * list output) :=
  match lines with
  | [] => Some (s, [])
  | line :: lines =>
      '(s, out, go) ← shell_step line s;
      if (go : bool) then '(s, out') ← shell_run lines s; Some (s, out ++ out')
      else Some (s, out)
  end.

Definition Shell_new (e : Executor) : Shell := mkShell e LockManager_new None 1 [].

(** [main] up to the loop: the database is opened and recovered; [inr] is the
    exit when recovery fails. *)
Definition shell_start (it : iterations) (cat : option bytes) (metas : gmap rstring bytes) (db log : bytes)
    : option (Shell * (nat * nat * nat) + exec_error) :=
  match ex_recover it (Executor_open cat metas db log) with
  | (e, Ok info) => Some (inl (Shell_new e, info))
  | (_, Err err) => Some (inr err)
  | (_, Panic) => None
  end.
End Loop.

(** ** Texts of ASCII characters *)
Section Ascii.
Context `{Unicode}.









End Ascii.








(** ** Sessions of lines *)
Section Session.
Context `{Unicode, Crc32}.
Variables (order : gmap rstring Schema -> list Schema) (names : gmap rstring Schema -> list rstring)
  (iter : gset Z -> list Z).



























End Session.

Section Shell.
Context `{Unicode, Crc32}.


End Shell.



Definition demo_names (m : gmap rstring Schema) : list rstring := (map_to_list m).*1.







(** Opening an empty directory gives the database the sessions start from. *)
Example start_fresh :
  @shell_start sum_crc (mkIter elements elements elements) None ∅ [] [] =
  Some (inl (Shell_new Database.fresh, (0, 0, 0)%nat)).
Proof. vm_compute. reflexivity. Qed.

(** ** Where the shell surprises *)
Definition demo_run (lines : list string) : option (list output) :=
  snd <$> @shell_run ascii_unicode sum_crc demo_order demo_names elements (codes <$> lines) (Shell_new Database.fresh).

(** The first line of a statement is run on its own when it starts with one of
    the words, whether or not it is finished. *)
Example statement_over_two_lines :
  demo_run ["CREATE TABLE t (a INT);"; "INSERT INTO t"; "VALUES (1);"]%string =
  Some [TableCreated; RunFailed (RunParse (ExpectedToken KValues Eof)); RunFailed (RunParse (UnexpectedToken KValues))].
Proof. vm_compute. reflexivity. Qed.

(** ROLLBACK says that the transaction is rolled back; its rows stay. *)
Example rollback_keeps_rows :
  demo_run ["CREATE TABLE t (a INT);"; "BEGIN"; "INSERT INTO t VALUES (1);"; "ROLLBACK"; "SELECT * FROM t;"]%string =
  Some [TableCreated; TxnStarted 1; RowInserted; TxnRolledBack 1; Rows (Some [[x61]]) [[VInt 1]]].
Proof. vm_compute. reflexivity. Qed.

(** A SELECT that finds nothing prints nothing. *)
Example empty_answer_is_silent :
  demo_run ["CREATE TABLE t (a INT);"; "SELECT * FROM t;"]%string = Some [TableCreated].
Proof. vm_compute. reflexivity. Qed.

(** What follows the first statement on a line is dropped without a word. *)
Example second_statement_is_dropped :
  demo_run ["CREATE TABLE t (a INT);"; "INSERT INTO t VALUES (1); INSERT INTO t VALUES (2);"; "SELECT * FROM t;"]%string =
  Some [TableCreated; RowInserted; Rows (Some [[x61]]) [[VInt 1]]].
Proof. vm_compute. reflexivity. Qed.

(** An UPDATE takes a shared lock: only INSERT and DELETE count as writes. *)
Example update_locks_shared :
  let s := mkShell Database.fresh LockManager_new (Some 1) 2 [] in
  ('(s, _, _) ← @lock_for ascii_unicode elements (codes "UPDATE t SET a = 1"%string) s;
   Some (lock_table (sh_lm s) !! table_rid)) = Some (Some [mkReq 1 Shared true]).
Proof. vm_compute. reflexivity. Qed.

(** Upper case can be longer: U+0149 is two bytes and becomes three.  The
    position found in the upper case text is past the end of the text. *)
Definition wide_unicode : Unicode.
Proof.
  refine (@Build_Unicode ascii_space (fun c => ascii_upper c || ascii_lower c)
    is_ascii_digit (fun c => if c =? 0x149 then [0x2BC; 0x4E] else [ascii_to_upper c]) _ _ _ _ _); try done.
  - intros c Hc. by rewrite (proj2 (Z.eqb_neq _ _)) by lia.
  - intros c. unfold ascii_space, ascii_upper, ascii_lower. lia.
Defined.

Example longer_upper_case_panics :
  @shell_run wide_unicode sum_crc demo_order demo_names elements
    [[0x149; 0x149] ++ codes " FROM x;"%string] (Shell_new Database.fresh) = None.
Proof. vm_compute. reflexivity. Qed.
