(* ===== verification/Results.v ===== *)
(** * Printed results: main.rs, sql/ast.rs

    The lines of the table that a SELECT prints.  A line is its characters; a
    value is printed by its [Display], a [String].  How an [f64] is written is
    the Standard Library's, a parameter. *)
From Stdlib Require Import Strings.String.
From S2P Require Export Repl Typing.
Local Open Scope Z_scope.

(** ** Values as text *)
(** The decimal digits of a number that has at most [fuel] of them. *)
Fixpoint digits (fuel : nat) (n : Z) : text :=
  match fuel with
  | O => []
  | S fuel => if n <? 10 then [48 + n] else digits fuel (n / 10) ++ [48 + n mod 10]
  end.

(** [format!("{}", n)] of an [i64] or a [usize]: at most 20 digits. *)
Definition int_text (n : Z) : text := if n <? 0 then 45 :: digits 20 (- n) else digits 20 n.

Class FloatText := float_text : Z -> rstring.

Section Results.
Context `{FloatText}.

Definition value_string (v : Value) : rstring :=
  match v with
  | VInt n => encode_utf8 (int_text n)
  | VFloat f => float_text f
  | VText s => s
  | VNull => encode_utf8 (codes "NULL")
  end.

(** ** The layout *)
(** [format!("{:width$}", s)] counts characters and pads on the right. *)
Definition pad (width : nat) (s : rstring) : text :=
  chars s ++ replicate (width - length (chars s)) 32.

(** [join] of a slice of strings. *)
Fixpoint join (sep : text) (l : list text) : text :=
  match l with
  | [] => []
  | [x] => x
  | x :: l => x ++ sep ++ join sep l
  end.

Definition BAR : Z := 0x2502.
Definition DASH : Z := 0x2500.
Definition CROSS : Z := 0x253C.

(** The width of a column, in bytes: of its name or of its longest value. *)
Definition column_width (rows : list Row) (i : nat) (col : rstring) : nat :=
  Nat.max (length col)
    (foldr Nat.max 0%nat ((fun r => from_option (fun v => length (value_string v)) 0%nat (r !! i)) <$> rows)).

Definition column_widths (cols : list rstring) (rows : list Row) : list nat := imap (column_width rows) cols.

Definition bar_line (cells : list text) : text := [32] ++ join [32; BAR; 32] cells ++ [32].

Definition header_line (ws : list nat) (cols : list rstring) : text :=
  bar_line (imap (fun i c => pad (default 0%nat (ws !! i)) c) cols).

Definition divider_line (ws : list nat) : text :=
  [DASH] ++ join [DASH; CROSS; DASH] ((fun w => replicate w DASH) <$> ws) ++ [DASH].

Definition row_line (ws : list nat) (r : Row) : text :=
  bar_line (imap (fun i v => pad (default 0%nat (ws !! i)) (value_string v)) r).

Definition count_line (n : nat) : text :=
  codes "(" ++ int_text (Z.of_nat n) ++ codes " row" ++ (if decide (n = 1%nat) then [] else codes "s") ++ codes ")".

Definition print_results (headers : option (list rstring)) (rows : list Row) : list text :=
  match rows with
  | [] => [codes "(no rows)"]
  | _ =>
      match headers with
      | Some cols =>
          let ws := column_widths cols rows in
          header_line ws cols :: divider_line ws :: (row_line ws <$> rows)
      | None => (fun r => bar_line ((fun v => chars (value_string v)) <$> r)) <$> rows
      end ++ [count_line (length rows)]
  end.

(** Where column [i] starts, and how long a line is. *)
Definition column_start (ws : list nat) (i : nat) : nat := (1 + sum_list (take i ws) + 3 * i)%nat.
Definition line_width (ws : list nat) : nat := (2 + sum_list ws + 3 * (length ws - 1))%nat.

(** What stands in column [i] of a line. *)
Definition field (ws : list nat) (i : nat) (line : text) : text :=
  take (default 0%nat (ws !! i)) (drop (column_start ws i) line).

(** ** Digits *)
Lemma digits_read fuel n : 0 <= n < 10 ^ Z.of_nat fuel -> digits_value (digits fuel n) = n.
Proof.
  revert n. induction fuel as [|fuel IH]; intros n Hn; [change (10 ^ Z.of_nat 0) with 1 in Hn; cbn; lia|]. cbn [digits].
  destruct (Z.ltb_spec n 10); [unfold digits_value, digit; cbn; lia|].
  unfold digits_value. rewrite foldl_app. fold (digits_value (digits fuel (n / 10))).
  rewrite Nat2Z.inj_succ, Z.pow_succ_r in Hn by lia. pose proof (Z.div_mod n 10 ltac:(done)).
  rewrite IH; [cbn [foldl]; unfold digit; lia|]. split; [apply Z.div_pos; lia|]. apply Z.div_lt_upper_bound; lia.
Qed.

(** A printed integer is read back. *)
Lemma int_text_reads n :
  in_i64 n ->
  exists neg ds, int_text n = (if neg : bool then [45] else []) ++ ds /\ (if neg then - digits_value ds else digits_value ds) = n.
Proof.
  unfold in_i64, int_text. intros Hn. destruct (Z.ltb_spec n 0).
  - exists true, (digits 20 (- n)). split; [done|]. rewrite digits_read; [lia|]. change (10 ^ Z.of_nat 20) with 100000000000000000000. lia.
  - exists false, (digits 20 n). split; [done|]. rewrite digits_read; [lia|]. change (10 ^ Z.of_nat 20) with 100000000000000000000. lia.
Qed.

(** ** Characters and bytes *)
Lemma decode_utf8_length l : forall cs, decode_utf8 l = Some cs -> (length cs <= length l)%nat.
Proof.
  induction l as [l IH] using (well_founded_induction (well_founded_ltof _ length)). unfold ltof in IH.
  intros cs. destruct l as [|b l]; cbn [decode_utf8]; [by intros [= <-]|].
  assert (Hnext : forall k c l', (length l' < S (length l))%nat -> (cs' ← decode_utf8 l'; Some (c :: cs')) = Some cs ->
    (S (length l') <= k)%nat -> (length cs <= k)%nat).
  { intros k c l' Hl (cs' & Hcs & [= <-])%bind_Some Hk. apply IH in Hcs; [cbn; lia|done]. }
  destruct (_ <? _); [intros E; eapply Hnext; [|exact E|]; cbn; lia|].
  destruct (_ <? 0xC0); [done|]. destruct (_ <? 0xE0); [|destruct (_ <? 0xF0); [|destruct (_ <? 0xF8); [|done]]].
  - destruct l as [|b1 l]; [done|]. intros (x1 & _ & E)%bind_Some. case_match; [done|]. eapply Hnext; [|exact E|]; cbn; lia.
  - destruct l as [|b1 [|b2 l]]; [done..|]. intros (x1 & _ & (x2 & _ & E)%bind_Some)%bind_Some. case_match; [done|].
    eapply Hnext; [|exact E|]; cbn; lia.
  - destruct l as [|b1 [|b2 [|b3 l]]]; [done..|].
    intros (x1 & _ & (x2 & _ & (x3 & _ & E)%bind_Some)%bind_Some)%bind_Some. case_match; [done|].
    eapply Hnext; [|exact E|]; cbn; lia.
Qed.

Lemma length_chars s : (length (chars s) <= length s)%nat.
Proof. unfold chars. destruct (decode_utf8 s) eqn:E; [by apply decode_utf8_length|cbn; lia]. Qed.

(** A string that is not longer than the width fills it. *)
Lemma length_pad w s : (length s <= w)%nat -> length (pad w s) = w.
Proof. intros Hs. pose proof (length_chars s). unfold pad. rewrite length_app, length_replicate. lia. Qed.
(** ** Columns *)
Lemma join_cons sep x l : l <> [] -> join sep (x :: l) = x ++ sep ++ join sep l.
Proof. by destruct l. Qed.

Lemma length_join sep l :
  length sep = 3%nat -> length (join sep l) = (sum_list (length <$> l) + 3 * (length l - 1))%nat.
Proof.
  intros Hs. induction l as [|x l IH]; [done|]. destruct l as [|y l]; [cbn; lia|].
  rewrite join_cons by done. rewrite !length_app, Hs, IH. cbn. lia.
Qed.

Lemma join_field sep l i x :
  length sep = 3%nat -> l !! i = Some x ->
  take (length x) (drop (sum_list (take i (length <$> l)) + 3 * i) (join sep l)) = x.
Proof.
  intros Hs. revert i. induction l as [|y l IH]; intros [|i]; [done|done| |].
  - intros [= ->]. cbn [take sum_list_with]. rewrite drop_0. destruct (decide (l = [])) as [->|Hl]; [by apply take_ge|].
    rewrite join_cons by done. apply take_app_length.
  - cbn [lookup list_lookup]. intros Hi. assert (Hl : l <> []) by (by intros ->). rewrite join_cons by done.
    csimpl. rewrite (assoc_L (++)), drop_app_ge by (rewrite length_app, Hs; lia). rewrite <- (IH i Hi) at 2. f_equal. f_equal.
    rewrite length_app, Hs. lia.
Qed.

Lemma framed_length a b sep cells ws :
  length sep = 3%nat -> length a = 1%nat -> length b = 1%nat -> length <$> cells = ws ->
  length (a ++ join sep cells ++ b) = line_width ws.
Proof.
  intros Hs Ha Hb <-. rewrite !length_app, length_join by done. unfold line_width. rewrite length_fmap. lia.
Qed.

Lemma framed_field a b sep cells ws i c :
  length sep = 3%nat -> length a = 1%nat -> length <$> cells = ws -> cells !! i = Some c ->
  field ws i (a ++ join sep cells ++ b) = c.
Proof.
  intros Hs Ha <- Hc. unfold field, column_start. rewrite list_lookup_fmap, Hc. cbn [fmap option_fmap option_map default].
  rewrite drop_app_ge by lia. rewrite Ha.
  replace (1 + _ + _ - 1)%nat with (sum_list (take i (length <$> cells)) + 3 * i)%nat by lia.
  rewrite <- (join_field sep cells i c Hs Hc) at 2. rewrite drop_app. rewrite take_app_le; [done|].
  pose proof (f_equal length (join_field sep cells i c Hs Hc)) as Hl. rewrite length_take in Hl. apply Nat.min_l_iff in Hl. exact Hl.
Qed.

(** Strings that fit the columns. *)
Lemma padded_lengths ws (ss : list rstring) :
  Forall2 (fun s w => length s <= w)%nat ss ws -> length <$> imap (fun i s => pad (default 0%nat (ws !! i)) s) ss = ws.
Proof.
  intros Hf. apply list_eq. intros i. rewrite list_lookup_fmap, list_lookup_imap.
  destruct (ws !! i) as [w|] eqn:Hw.
  - destruct (Forall2_lookup_r _ _ _ _ _ Hf Hw) as (s & -> & Hle). cbn. by rewrite length_pad.
  - apply lookup_ge_None in Hw. rewrite <- (Forall2_length _ _ _ Hf) in Hw. by rewrite lookup_ge_None_2.
Qed.

Lemma padded_field ws (ss : list rstring) i s :
  Forall2 (fun s w => length s <= w)%nat ss ws -> ss !! i = Some s ->
  exists k, field ws i (bar_line (imap (fun i s => pad (default 0%nat (ws !! i)) s) ss)) = chars s ++ replicate k 32.
Proof.
  intros Hf Hs. eexists. unfold bar_line. eapply framed_field; [done|done|by apply padded_lengths|].
  by rewrite list_lookup_imap, Hs.
Qed.

Lemma row_line_strings ws r :
  row_line ws r = bar_line (imap (fun i s => pad (default 0%nat (ws !! i)) s) (value_string <$> r)).
Proof. unfold row_line. by rewrite imap_fmap. Qed.

Lemma max_above (l : list nat) n : n ∈ l -> (n <= foldr Nat.max 0 l)%nat.
Proof. induction 1 as [n l|n m l _ IH]; cbn [foldr]; lia. Qed.

Lemma headers_fit cols rows : Forall2 (fun s w => length s <= w)%nat cols (column_widths cols rows).
Proof.
  apply Forall2_same_length_lookup_2; [by unfold column_widths; rewrite length_imap|].
  intros i c w Hc. unfold column_widths. rewrite list_lookup_imap, Hc.
  intros Hw. injection Hw as <-. apply Nat.le_max_l.
Qed.

Lemma row_fits cols rows r :
  r ∈ rows -> length r = length cols ->
  Forall2 (fun s w => length s <= w)%nat (value_string <$> r) (column_widths cols rows).
Proof.
  intros Hr Hl. apply Forall2_same_length_lookup_2; [unfold column_widths; by rewrite length_imap, length_fmap|].
  intros i s w Hs. unfold column_widths. rewrite list_lookup_imap. intros (c & Hc & ->)%fmap_Some.
  rewrite list_lookup_fmap in Hs. apply fmap_Some in Hs as (v & Hv & ->). unfold column_width.
  assert (Hin : length (value_string v) ∈ ((fun r => from_option (fun v => length (value_string v)) 0%nat (r !! i)) <$> rows)).
  { apply list_elem_of_fmap. exists r. by rewrite Hv. }
  pose proof (max_above _ _ Hin). lia.
Qed.
End Results.

(** C40: results line up, when there are rows and each has exactly the cells of
    the header (that of SELECT of some columns may not: see
    [selected_column_under_first_name]). The lines are a header, a divider, one
    line for each row and a count; all but the count have the same number of
    characters. In each of them column [i] starts at the same place and holds
    the name or the value, whole, followed by spaces alone (in the divider,
    dashes); whatever scripts the names and the texts are written in. *)
Theorem results_aligned `{FloatText} cols rows :
  rows <> [] -> Forall (fun r => length r = length cols) rows ->
  let ws := column_widths cols rows in
  exists header divider lines,
    print_results (Some cols) rows = header :: divider :: lines ++ [count_line (length rows)] /\
    Forall (fun l => length l = line_width ws) (header :: divider :: lines) /\
    (forall i c, cols !! i = Some c -> exists k, field ws i header = chars c ++ replicate k 32) /\
    (forall i w, ws !! i = Some w -> field ws i divider = replicate w DASH) /\
    Forall2 (fun r l => forall i v, r !! i = Some v ->
      exists k, field ws i l = chars (value_string v) ++ replicate k 32) rows lines.
Proof.
  intros Hne Hrows ws. exists (header_line ws cols), (divider_line ws), (row_line ws <$> rows).
  assert (Hfit : Forall (fun r => Forall2 (fun s w => length s <= w)%nat (value_string <$> r) ws) rows).
  { rewrite Forall_forall in *. intros r Hr. by apply row_fits; [|apply Hrows]. }
  assert (Hline : forall ss, Forall2 (fun s w => length s <= w)%nat ss ws ->
    length (bar_line (imap (fun i s => pad (default 0%nat (ws !! i)) s) ss)) = line_width ws).
  { intros ss Hss. apply framed_length; [done..|]. by apply padded_lengths. }
  assert (Hdash : length <$> ((fun w => replicate w DASH) <$> ws) = ws).
  { clear. induction ws as [|w ws' IH]; csimpl; [done|]. by rewrite length_replicate, IH. }
  split_and!.
  - destruct rows; [done|]. done.
  - constructor; [apply Hline, headers_fit|]. constructor; [by apply framed_length|].
    apply Forall_fmap. eapply Forall_impl; [exact Hfit|]. intros r Hr. unfold compose. rewrite row_line_strings. by apply Hline.
  - intros i c Hc. eapply padded_field; [apply headers_fit|done].
  - intros i w Hw. eapply framed_field; [done..|]. by rewrite list_lookup_fmap, Hw.
  - apply Forall2_fmap_r, Forall_Forall2_diag. eapply Forall_impl; [exact Hfit|]. intros r Hr i v Hv.
    rewrite row_line_strings. eapply padded_field; [done|]. by rewrite list_lookup_fmap, Hv.
Qed.

(** ** Concrete results *)
(** A row of an INT and a text of two bytes a character, under two names. *)
Definition demo_float_text : FloatText := fun _ => [].

Definition demo_rows : list Row := [[VInt (-12); VText [xc3; xa9; xc3; xa9]]; [VInt 7; VNull]].

Lemma results_aligned_witness :
  let ws := @column_widths demo_float_text [[x61]; [x62]] demo_rows in
  ws = [3; 4]%nat /\
  exists header divider lines,
    @print_results demo_float_text (Some [[x61]; [x62]]) demo_rows = header :: divider :: lines ++ [count_line 2] /\
    Forall (fun l => length l = 12%nat) (header :: divider :: lines).
Proof.
  intros ws. split; [by vm_compute|].
  destruct (@results_aligned demo_float_text [[x61]; [x62]] demo_rows) as (h & d & ls & E & Hl & _);
    [done|by repeat constructor|]. exists h, d, ls. split; [exact E|exact Hl].
Defined.

(** The lines of the results among what the shell prints. *)
Definition printed_results `{FloatText} (out : list output) : list text :=
  out ≫= (fun o => match o with Rows headers rows => print_results headers rows | _ => [] end).

(** The header is the table's, whatever columns were selected: the value of b
    stands under a. *)
Example selected_column_under_first_name :
  @printed_results demo_float_text <$>
    demo_run ["CREATE TABLE t (a INT, b TEXT);"; "INSERT INTO t VALUES (1, 'x');"; "SELECT b FROM t;"]%string =
  Some [codes " a " ++ [BAR] ++ codes " b "; [DASH; DASH; DASH; CROSS; DASH; DASH; DASH]; codes " x "; codes "(1 row)"].
Proof. vm_compute. reflexivity. Qed.
