(* ===== verification/Printing.v ===== *)
(** * What the program prints: main.rs, buffer_pool.rs, btree.rs

    The wording of the shell's messages, its prompts and its banner, the hit
    rate of the pool and the picture of a B-tree.  Errors of statements go to
    the standard error and are left out.  How an [f64] is written is the
    Standard Library's, a parameter. *)
From Stdlib Require Import Strings.String.
From S2P Require Export Distance Results.
Local Open Scope Z_scope.

(** A string of the source: its characters. *)
Definition lit (s : string) : text := chars (list_byte_of_string s).

(** ** The hit rate *)
Definition f64_from (n : Z) : f64 := binary_normalize prec emax n 0 false.

(** [hits as f64 / total as f64 * 100.0] *)
Definition hit_rate (b : BufferPool) : f64 :=
  let total := as_u64 (hits b + misses b) in
  if total =? 0 then f64_zero
  else fmul (fdiv (f64_from (hits b)) (f64_from total)) (f64_from 100).

Definition Executor_hit_rate (e : Executor) : f64 := hit_rate (buffer_pool e).

(** [{:.1}] of an [f64]. *)
Class TenthsText := tenths_text : f64 -> text.

(** ** The shell *)
Definition banner : list text := lit <$>
  ["";
   "██╗   ██╗███████╗███╗   ██╗ ██████╗ ███╗   ███╗";
   "██║   ██║██╔════╝████╗  ██║██╔═══██╗████╗ ████║";
   "██║   ██║█████╗  ██╔██╗ ██║██║   ██║██╔████╔██║";
   "╚██╗ ██╔╝██╔══╝  ██║╚██╗██║██║   ██║██║╚██╔╝██║";
   " ╚████╔╝ ███████╗██║ ╚████║╚██████╔╝██║ ╚═╝ ██║";
   "  ╚═══╝  ╚══════╝╚═╝  ╚═══╝ ╚═════╝ ╚═╝     ╚═╝";
   "";
   "██████╗ ██████╗";
   "██╔══██╗██╔══██╗";
   "██║  ██║██████╔╝";
   "██║  ██║██╔══██╗";
   "██████╔╝██████╔╝";
   "╚═════╝ ╚═════╝";
   ""]%string.

Definition help_lines : list text := lit <$>
  ["";
   "  ";
   "  ──────────────────────────────────────────────";
   "  SQL:  CREATE TABLE t (col TYPE, ...)";
   "        INSERT INTO t VALUES (v1, v2, ...)";
   "        SELECT [* | col,...] FROM t [WHERE col op val]";
   "        DELETE FROM t [WHERE col op val]";
   "        BEGIN / COMMIT / ROLLBACK";
   "  Ops:  =  !=  <  >  <=  >=";
   "  Meta: \tables  \stats  \help  \quit";
   "  Data: stored in ./venom-data/ (survives restart)";
   ""]%string.

(** [LockManager::acquire]'s error. *)
Definition lock_error_text (e : lock_error) : text :=
  match e with
  | DeadlockDetected t => lit "deadlock detected: txn " ++ int_text t ++ lit " is in a wait cycle"
  end.

Section Say.
Context `{FloatText, TenthsText}.

(** The lines an event puts on the standard output. *)
Definition say (e : Executor) (o : output) : list text :=
  match o with
  | Bye => [lit "bye bro have a great day man!."]
  | Help => help_lines
  | NoTables => [lit "  (no tables)"]
  | TableNames names => (fun t => lit "  " ++ chars t) <$> names
  | HitRate => [lit "  buffer pool hit rate: " ++ tenths_text (Executor_hit_rate e) ++ lit "%"]
  | AlreadyInTransaction => [lit "  already in a transaction — COMMIT or ROLLBACK first"]
  | TxnStarted id => [lit "  transaction " ++ int_text id ++ lit " started"]
  | TxnCommitted id => [lit "  transaction " ++ int_text id ++ lit " committed"]
  | TxnRolledBack id => [lit "  transaction " ++ int_text id ++ lit " rolled back"]
  | NoTransaction => [lit "  no active transaction"]
  | WaitingForLock => [lit "  waiting for lock..."]
  | LockRefused e => [lit "  " ++ lock_error_text e]
  | TableCreated => [lit "  Table created."]
  | RowInserted => [lit "  1 row inserted."]
  | RowsDeleted => [lit "  Rows deleted."]
  | Rows headers rows => [] :: print_results headers rows
  | RunFailed _ => []
  end.

(** What recovery reports: records redone and undone, tables loaded. *)
Definition recovery_lines (info : nat * nat * nat) : list text :=
  let '(redone, undone, tables_loaded) := info in
  let count n := int_text (Z.of_nat n) in
  if (0 <? tables_loaded)%nat || (0 <? redone)%nat then
    [[]; lit "  Recovery complete:"; lit "    tables loaded : " ++ count tables_loaded;
     lit "    WAL records redone : " ++ count redone; lit "    WAL records undone : " ++ count undone]
  else [[]; lit "  Fresh database — no data to recover."].

Definition opening_lines : list text := banner ++ [[]; [];
  lit "Developed by Ayush Sinha : github link: https://github.com/Ayush-sinha44 "].

Definition data_dir : text := lit "./venom-data".

Definition welcome_lines : list text :=
  [[]; lit "━━━ Interactive SQL Shell ━━━"; lit "  Data directory: " ++ data_dir;
   lit "  All changes are durable — data survives \quit and restart."; []].

(** [println!] of each line. *)
Definition printed (ls : list text) : text := ls ≫= (fun l => l ++ [10]).
End Say.

Section Session.
Context `{Unicode, Crc32, FloatText, TenthsText}.
Variables (order : gmap rstring Schema -> list Schema) (names : gmap rstring Schema -> list rstring)
  (iter : gset Z -> list Z).

Definition prompt (s : Shell) : text :=
  match trim (input_buf s) with
  | [] =>
      match current_txn s with
      | Some id => lit "venom-db [txn " ++ int_text id ++ lit "]> "
      | None => lit "venom-db> "
      end
  | _ => lit "       -> "
  end.

(** All that stands on the standard output after the loop has read the lines. *)
Fixpoint session_text (lines : list text) (s : Shell) : option text :=
  match lines with
  | [] => Some (prompt s)
  | line :: lines =>
      '(s', out, go) ← shell_step order names iter line s;
      let shown := prompt s ++ printed (out ≫= say (sh_exec s')) in
      if (go : bool) then rest ← session_text lines s'; Some (shown ++ rest) else Some shown
  end.

(** [main] on the files of a database: what it prints and whether it exits with
    a failure. *)
Definition main (it : iterations) (cat : option bytes) (metas : gmap rstring bytes) (db log : bytes)
    (lines : list text) : option (text * bool) :=
  match shell_start it cat metas db log with
  | Some (inl (s, info)) =>
      rest ← session_text lines s;
      Some (printed opening_lines ++ printed (recovery_lines info) ++ printed welcome_lines ++ rest, true)
  | Some (inr _) => Some (printed opening_lines, false)
  | None => None
  end.
End Session.

Section SessionText.
Context `{Unicode, Crc32, FloatText, TenthsText}.
Variables (order : gmap rstring Schema -> list Schema) (names : gmap rstring Schema -> list rstring)
  (iter : gset Z -> list Z).

(** The text is there exactly when the loop does not panic. *)
Lemma session_text_total lines s :
  is_Some (session_text order names iter lines s) <-> is_Some (shell_run order names iter lines s).
Proof.
  revert s. induction lines as [|line lines IH]; intros s; [by split; eexists|]. cbn [session_text shell_run].
  destruct (shell_step order names iter line s) as [[[s' out] go]|]; [|by split; intros []]. cbn [mbind option_bind].
  destruct go; [|by split; eexists]. specialize (IH s').
  destruct (session_text _ _ _ lines s') as [t|], (shell_run _ _ _ lines s') as [[s1 o1]|]; cbn;
    destruct IH as [IH1 IH2]; split; intros Hs; try done; try (by eexists).
  - by destruct (IH1 ltac:(by eexists)).
  - by destruct (IH2 ltac:(by eexists)).
Qed.
End SessionText.

(** ** The picture of a B-tree *)
Inductive tree_line :=
  | InternalLine (depth : nat) (keys : list Z)
  | LeafLine (depth : nat) (keys : list Z) (next : option Z)
  | MissingLine (depth : nat) (id : Z).

(** [{:?}] of a list of integers and of an optional one. *)
Definition list_text (l : list Z) : text := lit "[" ++ join (lit ", ") (int_text <$> l) ++ lit "]".
Definition option_text (o : option Z) : text :=
  match o with Some n => lit "Some(" ++ int_text n ++ lit ")" | None => lit "None" end.

Definition indent (depth : nat) : text := mjoin (replicate depth (lit "  ")).

Definition tree_line_text (l : tree_line) : text :=
  match l with
  | InternalLine d ks => indent d ++ lit "[Internal] keys: " ++ list_text ks
  | LeafLine d ks next => indent d ++ lit "[Leaf] keys: " ++ list_text ks ++ lit " next→" ++ option_text next
  | MissingLine d id => indent d ++ lit "[missing node " ++ int_text id ++ lit "]"
  end.

(** [None]: the fuel, where the program would recurse for ever. *)
Fixpoint print_node (fuel : nat) (t : BTree) (id : Z) (depth : nat) : option (list tree_line) :=
  match fuel with
  | O => None
  | S fuel =>
      match nodes t !! id with
      | Some (Internal n) =>
          ls ← mapM (fun child => print_node fuel t child (S depth)) (children n);
          Some (InternalLine depth (ikeys n) :: mjoin ls)
      | Some (Leaf n) => Some [LeafLine depth (lkeys n) (next_leaf n)]
      | None => Some [MissingLine depth id]
      end
  end.

Definition tree_lines (t : BTree) : option (list tree_line) := print_node (tree_fuel t) t (root_id t) 0.

Definition print_tree (t : BTree) : option (list text) :=
  match tree_lines t with Some ls => Some (tree_line_text <$> ls) | None => None end.

Definition leaf_keys (l : tree_line) : list Z := match l with LeafLine _ ks _ => ks | _ => [] end.

(** The leaves stand at one depth, the internal nodes above it. *)
Definition line_at (bottom : nat) (l : tree_line) : Prop :=
  match l with
  | InternalLine d _ => (d < bottom)%nat
  | LeafLine d _ _ => d = bottom
  | MissingLine _ _ => False
  end.

Lemma print_node_rep t h s fuel d :
  rep h (nodes t) s -> (h < fuel)%nat ->
  exists ls, print_node fuel t (s_id s) d = Some ls /\ ls ≫= leaf_keys = (s_es s).*1 /\ Forall (line_at (d + h)) ls.
Proof.
  revert s fuel d. induction h as [|h IH]; intros s [|fuel] d Hr Hf; [lia| |lia|]; cbn [print_node].
  - destruct Hr as (next & -> & _). eexists. split_and!; [done|by csimpl; rewrite app_nil_r|].
    repeat constructor. cbn. lia.
  - destruct Hr as (ks & ss & -> & _ & Hss & _ & -> & _). cbn [children ikeys].
    assert (Hall : exists lss, mapM (fun child => print_node fuel t child (S d)) (s_id <$> ss) = Some lss /\
      mjoin lss ≫= leaf_keys = (concat (s_es <$> ss)).*1 /\ Forall (line_at (d + S h)) (mjoin lss)).
    { setoid_rewrite mapM_Some. induction Hss as [|s' ss Hs' _ IHss]; [exists []; by repeat constructor|].
      destruct (IH s' fuel (S d) Hs' ltac:(lia)) as (ls & Hls1 & Hk & Hl). destruct IHss as (lss & Hlss & Hks & Hls).
      exists (ls :: lss). csimpl. split; [by constructor|]. split; [by rewrite bind_app, Hk, Hks, fmap_app|].
      apply Forall_app. split; [|done]. by replace (d + S h)%nat with (S d + h)%nat by lia. }
    destruct Hall as (lss & -> & Hk & Hl). eexists. split; [done|]. csimpl. split; [exact Hk|].
    constructor; [cbn; lia|done].
Qed.

(** The picture of a well-formed tree is finite, shows every node that it names
    and the keys of the index in order, all leaves at one depth. *)
Lemma tree_lines_ok t es :
  tree_ok t es -> exists ls bottom, tree_lines t = Some ls /\ ls ≫= leaf_keys = es.*1 /\ Forall (line_at bottom) ls.
Proof.
  intros (h & s & Ht). destruct (tree_fuel_height _ _ _ _ Ht) as [Hf _]. destruct Ht as [Hr Hroot _ _ <- _ _ _].
  destruct (print_node_rep t h s (tree_fuel t) 0 Hr Hf) as (ls & E & Hk & Hl). rewrite Hroot in E. by exists ls, h.
Qed.

(** Thirteen keys: a root over two leaves. *)
Example demo_picture :
  (t ← tree_run BTree_new (take 13 demo_tree_ops); print_tree t.1) = Some (lit <$>
    ["[Internal] keys: [5]";
     "  [Leaf] keys: [-3, 0, 1, 2, 3, 4] next→Some(1)";
     "  [Leaf] keys: [5, 6, 7, 8, 9, 10, 11] next→None"]%string).
Proof. vm_compute. reflexivity. Qed.

(** Three hits and a miss; nothing yet. *)
Example hit_rates :
  (fun p => hit_rate (mkPool [] ∅ (Lru_new 1) (DiskManager_new []) 1 p.1 p.2)) <$> [(3, 1); (0, 0); (1, 2)] =
  [f64_from 75; f64_zero; fmul (fdiv f64_one (f64_from 3)) (f64_from 100)].
Proof. vm_compute. reflexivity. Qed.

(** ** A session as it is seen

    The lines typed are not echoed.  A successful UPDATE prints nothing. *)
Definition demo_tenths_text : TenthsText := fun _ => lit "75.0".

Definition demo_session_text (lines : list string) : option text :=
  @session_text ascii_unicode sum_crc demo_float_text demo_tenths_text demo_order demo_names elements
    (codes <$> lines) (Shell_new Database.fresh).

(** The lines of a text: what stands before each line feed. *)
Fixpoint split_lines (s : text) : list text :=
  match s with
  | [] => [[]]
  | c :: s => if c =? 10 then [] :: split_lines s else
      match split_lines s with l :: ls => (c :: l) :: ls | [] => [[c]] end
  end.

Example demo_session_seen :
  split_lines <$> demo_session_text
    ["CREATE TABLE t (a INT PRIMARY KEY, b TEXT);"; "begin"; "INSERT INTO t VALUES (7, 'x')"; "UPDATE t";
     "SET a = 10;"; "commit;"; "SELECT * FROM t;"; "\quit"]%string = Some (lit <$>
    ["venom-db>   Table created.";
     "venom-db>   transaction 1 started";
     "venom-db [txn 1]>   1 row inserted.";
     "venom-db [txn 1]>        -> venom-db [txn 1]>   transaction 1 committed";
     "venom-db> ";
     " a  │ b ";
     "────┼───";
     " 10 │ x ";
     "(1 row)";
     "venom-db> bye bro have a great day man!.";
     ""]%string).
Proof. vm_compute. reflexivity. Qed.
