(* ===== verification/Threads.v ===== *)
(** * The demonstration with threads: main.rs

    [run_concurrency_demo]: two threads share a lock manager behind a mutex.
    A thread takes the mutex, works, prints and gives it back, so each such
    section is one step, and a schedule is the order in which the threads take
    them.  The sleeps promise no order and are left out.  The theorem is about
    every schedule. *)
From Stdlib Require Import Strings.String.
From S2P Require Export LockWait Printing.
Local Open Scope Z_scope.

(** ** Threads over a mutex *)
Inductive command :=
  | Say (ls : list text)
  | Acquire (t : Z) (row : LockRid) (m : LockMode) (granted waits : text)
  | Release (t : Z) (done : text)
  | Spawn (body : list command)
  | Join (thread : nat).

(** What the mutex guards, what each thread has left to do and what has been
    printed.  Thread 0 is the caller. *)
Record machine := mkMachine {
  guarded : LockManager;
  threads : list (list command);
  screen : list text;
}.

Section Machine.
Variable iter : gset Z -> list Z.

Definition deadlock_text (t : Z) (e : lock_error) : text :=
  lit "  txn " ++ int_text t ++ lit ": deadlock → " ++ lock_error_text e.

(** The next command of a thread; [None] when it has none, or must wait. *)
Definition thread_step (i : nat) (m : machine) : option machine :=
  p ← threads m !! i;
  match p with
  | [] => None
  | c :: rest =>
      let ths := <[i := rest]> (threads m) in
      match c with
      | Say ls => Some (mkMachine (guarded m) ths (screen m ++ ls))
      | Acquire t row mode granted waits =>
          match acquire iter (guarded m) t row mode with
          | (lm, Ok true) => Some (mkMachine lm ths (screen m ++ [granted]))
          | (lm, Ok false) => Some (mkMachine lm ths (screen m ++ [waits]))
          | (lm, Err e) => Some (mkMachine lm ths (screen m ++ [deadlock_text t e]))
          | (_, Panic) => None
          end
      | Release t done => Some (mkMachine (release_all (guarded m) t) ths (screen m ++ [done]))
      | Spawn body => Some (mkMachine (guarded m) (ths ++ [body]) (screen m))
      | Join j =>
          match threads m !! j with
          | Some [] => Some (mkMachine (guarded m) ths (screen m))
          | _ => None
          end
      end
  end.

(** One step of some thread. *)
Inductive step (m : machine) : machine -> Prop :=
  | step_thread i m' : thread_step i m = Some m' -> step m m'.

Definition finished (m : machine) : Prop := Forall (fun p => p = []) (threads m).

(** Whatever the schedule, the threads end, none is stuck, and [P] holds then. *)
Inductive always (P : machine -> Prop) (m : machine) : Prop :=
  | always_finished : finished m -> P m -> always P m
  | always_step : (exists m', step m m') -> (forall m', step m m' -> always P m') -> always P m.

(** ** Exploring all schedules *)
Definition successors_of (m : machine) : list machine :=
  omap (fun i => thread_step i m) (seq 0 (length (threads m))).

Fixpoint explore (P : machine -> bool) (fuel : nat) (m : machine) : bool :=
  match fuel with
  | O => false
  | S fuel =>
      match successors_of m with
      | [] => forallb (fun p => match p with [] => true | _ => false end) (threads m) && P m
      | ms => forallb (explore P fuel) ms
      end
  end.

Lemma step_successors m m' : step m m' <-> m' ∈ successors_of m.
Proof.
  unfold successors_of. rewrite list_elem_of_omap. setoid_rewrite elem_of_seq. split.
  - intros [i ? E]. exists i. split; [|done]. unfold thread_step in E.
    destruct (threads m !! i) eqn:Ei; [|done]. apply lookup_lt_Some in Ei. lia.
  - intros (i & _ & E). by exists i.
Qed.

Lemma explore_sound P fuel m : explore P fuel m = true -> always (fun m => P m = true) m.
Proof.
  revert m. induction fuel as [|fuel IH]; intros m; [done|]. cbn [explore].
  pose proof (step_successors m) as Hs. destruct (successors_of m) as [|m1 ms].
  - intros [Hf HP]%andb_true_iff. apply always_finished; [|done]. rewrite forallb_forall in Hf.
    apply Forall_forall. intros p Hp%list_elem_of_In%Hf. by destruct p.
  - intros Hall. rewrite forallb_forall in Hall. apply always_step.
    + exists m1. apply Hs. left.
    + intros m' Hm%Hs%list_elem_of_In. by apply IH, Hall.
Qed.

Lemma always_impl (P Q : machine -> Prop) m : (forall m, P m -> Q m) -> always P m -> always Q m.
Proof.
  intros HPQ. induction 1 as [m Hf HP|m He _ IH]; [apply always_finished; auto|by apply always_step].
Qed.
End Machine.

(** ** The program *)
Definition demo_row : LockRid := mkLockRid 0 0.

Definition thread1 : list command :=
  [Acquire 1 demo_row Exclusive (lit "  txn 1: acquired EXCLUSIVE lock on row (0,0) ✓")
     (lit "  txn 1: waiting for lock on row (0,0)...");
   Release 1 (lit "  txn 1: committed, released all locks")].

Definition thread2 : list command :=
  [Acquire 2 demo_row Shared (lit "  txn 2: acquired SHARED lock on row (0,0) ✓")
     (lit "  txn 2: blocked — row locked by txn 1, queued")].

(** [unwrap] of the answer. *)
Definition unwrapped (r : LockManager * result lock_error bool) : option LockManager :=
  match r with (lm, Ok _) => Some lm | _ => None end.

(** The second half has a lock manager of its own and no threads. *)
Definition deadlock_lines (iter : gset Z -> list Z) : option (list text) :=
  let row_a := mkLockRid 0 0 in
  let row_b := mkLockRid 0 1 in
  lm ← unwrapped (acquire iter LockManager_new 1 row_a Exclusive);
  lm ← unwrapped (acquire iter lm 2 row_b Exclusive);
  lm ← unwrapped (acquire iter lm 1 row_b Exclusive);
  verdict ← match acquire iter lm 2 row_a Exclusive with
            | (lm, Err e) => Some (lit "  txn 2: " ++ lock_error_text e ++ lit " → abort txn 2 ✓")
            | (lm, Ok _) => Some (lit "  (no deadlock detected — unexpected)")
            | (_, Panic) => None
            end;
  Some [[]; lit "  --- Deadlock Detection ---"; lit "  txn 1: locked row A"; lit "  txn 2: locked row B";
        lit "  txn 1: waiting for row B (held by txn 2)..."; verdict;
        lit "  txn 1: completed after txn 2 aborted"].

Definition demo_header : list text := [[]; lit "━━━ Concurrency Demo ━━━"; []].

Definition run_concurrency_demo (iter : gset Z -> list Z) : option (list command) :=
  ls ← deadlock_lines iter;
  Some [Say demo_header; Spawn thread1; Spawn thread2; Join 1; Join 2; Say ls].

(** ** Every schedule *)
Lemma has_cycle_order iter g s : iter_order iter -> has_cycle iter g s = has_cycle elements g s.
Proof.
  intros Hi. apply eq_true_iff_eq. rewrite (has_cycle_spec iter Hi), (has_cycle_spec elements elements_order). done.
Qed.

Lemma acquire_order iter lm t rid m : iter_order iter -> acquire iter lm t rid m = acquire elements lm t rid m.
Proof. intros Hi. unfold acquire. by rewrite has_cycle_order. Qed.

Lemma thread_step_order iter i m : iter_order iter -> thread_step iter i m = thread_step elements i m.
Proof.
  intros Hi. unfold thread_step. destruct (threads m !! i) as [[|c p]|]; [done| |done]. cbn [mbind option_bind].
  destruct c; try done. by rewrite acquire_order.
Qed.

Lemma always_order iter P m : iter_order iter -> always elements P m -> always iter P m.
Proof.
  intros Hi.
  assert (Hs : forall m m', step iter m m' <-> step elements m m').
  { intros m1 m2. split; intros [i ? E]; exists i; by rewrite thread_step_order in *. }
  induction 1 as [m Hf HP|m [m1 H1] _ IH]; [by apply always_finished|].
  apply always_step; [exists m1; by apply Hs|]. intros m' Hm%Hs. by apply IH.
Qed.

(** The first half as three schedules print it: thread 2 last, in between, first. *)
Definition demo_lines_of (l : list string) : list text :=
  demo_header ++ (lit <$> l) ++ default [] (deadlock_lines elements).

Definition demo_screens : list (list text) := demo_lines_of <$>
  [["  txn 1: acquired EXCLUSIVE lock on row (0,0) ✓"; "  txn 1: committed, released all locks";
    "  txn 2: acquired SHARED lock on row (0,0) ✓"];
   ["  txn 1: acquired EXCLUSIVE lock on row (0,0) ✓"; "  txn 2: blocked — row locked by txn 1, queued";
    "  txn 1: committed, released all locks"];
   ["  txn 2: acquired SHARED lock on row (0,0) ✓"; "  txn 1: waiting for lock on row (0,0)...";
    "  txn 1: committed, released all locks"]]%string.

Definition demo_done (m : machine) : Prop :=
  lock_table (guarded m) = {[demo_row := [mkReq 2 Shared true]]} /\
  map_Forall (fun _ w => w = ∅) (waits_for (guarded m)) /\ screen m ∈ demo_screens.

#[export] Instance LockRequest_eq_decision : EqDecision LockRequest.
Proof. solve_decision. Defined.

#[export] Instance demo_done_dec m : Decision (demo_done m).
Proof. unfold demo_done. apply _. Defined.

(** C20: the demonstration ends well under every schedule of its two threads.
    Whatever order they take the mutex in, and whatever order the wait sets are
    iterated in, nothing panics, no thread is stuck, all of them end; then
    transaction 2 alone holds the row, in shared mode, nobody is waited for,
    and what was printed is one of three screens, each with the deadlock of the
    second half detected. *)
Theorem demo_every_schedule (iter : gset Z -> list Z) :
  iter_order iter ->
  exists prog, run_concurrency_demo iter = Some prog /\
    always iter demo_done (mkMachine LockManager_new [prog] []).
Proof.
  intros Hi.
  assert (Hl : deadlock_lines iter = deadlock_lines elements).
  { unfold deadlock_lines. rewrite (acquire_order iter) by done.
    repeat (destruct (unwrapped _); [cbn [mbind option_bind]; rewrite (acquire_order iter) by done|done]). done. }
  assert (E : deadlock_lines elements = Some (default [] (deadlock_lines elements))) by (vm_compute; reflexivity).
  unfold run_concurrency_demo. rewrite Hl, E. eexists. split; [done|]. apply always_order; [done|].
  apply (always_impl _ (fun m => bool_decide (demo_done m) = true)); [by intros m ?%bool_decide_eq_true|].
  apply (explore_sound _ _ 12). vm_compute. reflexivity.
Qed.

Lemma demo_every_schedule_witness :
  exists prog, run_concurrency_demo elements = Some prog /\
    always elements demo_done (mkMachine LockManager_new [prog] []).
Proof. apply (demo_every_schedule elements), elements_order. Defined.

(** ** The three screens are all possible

    On the last one transaction 1 commits a lock that it has never held: the
    sleeps of the program promise nothing about the order. *)
Definition run_schedule (l : list nat) (m : machine) : option machine :=
  foldl (fun m i => m ← m; thread_step elements i m) (Some m) l.

Example demo_screens_reached :
  (prog ← run_concurrency_demo elements;
   mapM (fun l => screen <$> run_schedule l (mkMachine LockManager_new [prog] []))
     [[0; 0; 0; 1; 1; 2; 0; 0; 0]; [0; 0; 0; 1; 2; 1; 0; 0; 0]; [0; 0; 0; 2; 1; 1; 0; 0; 0]]%nat) = Some demo_screens.
Proof. vm_compute. reflexivity. Qed.
