(* ===== verification/Divergences.v ===== *)
(** * Where the engine surprises

    Sessions, evaluated, in which the engine does not do what SQL or its own
    comments promise.  The theorems of the other files say when it does. *)
From S2P Require Export Statements Lives.
Local Open Scope Z_scope.

#[local] Existing Instance sum_crc.

Definition answers_of (xs : list Statement) : list (result exec_error (list Row)) :=
  (run_session demo_order xs Database.fresh).2.

Definition col_a : rstring := [x61].
Definition col_b : rstring := [x62].
Definition where_ (c : rstring) (o : Op) (v : Value) : option Expr := Some (mkExpr c o v).

(** A CREATE TABLE that fails because the table exists has already put an
    empty index on its key column; queries then trust it. *)
Example failed_create_hides_rows :
  let find := Select demo_table Star (where_ col_b OpEq (VInt 10)) None None in
  answers_of [CreateTable demo_table [mkCol col_a DInt false; mkCol col_b DInt false];
              InsertInto demo_table [VInt 1; VInt 10]; find;
              CreateTable demo_table [mkCol col_b DInt true]; find]
  = [Ok []; Ok []; Ok [[VInt 1; VInt 10]]; Err (CatalogError (TableExists demo_table)); Ok []].
Proof. by vm_compute. Qed.

(** A primary key that is not an INT is not kept unique, and an INT literal
    looks for a FLOAT key in an index that has no entries. *)
Example float_key_not_unique :
  let five := f64_of_int 5 in
  answers_of [CreateTable demo_table [mkCol col_a DFloat true];
              InsertInto demo_table [VFloat five]; InsertInto demo_table [VFloat five];
              Select demo_table Star None None None;
              Select demo_table Star (where_ col_a OpEq (VInt 5)) None None]
  = [Ok []; Ok []; Ok []; Ok [[VFloat five]; [VFloat five]]; Ok []].
Proof. by vm_compute. Qed.

(** INSERT looks up the key before it counts the values. *)
Example short_insert_panics :
  answers_of [CreateTable demo_table [mkCol col_b DInt false; mkCol col_a DInt true]; InsertInto demo_table [VInt 1]]
  = [Ok []; Panic].
Proof. by vm_compute. Qed.

(** The bound of a range scan overflows at the ends of [i64]. *)
Example range_bound_panics :
  answers_of [CreateTable demo_table [mkCol col_a DInt true]; InsertInto demo_table [VInt 1];
              Select demo_table Star (where_ col_a OpGt (VInt I64_MAX)) None None]
  = [Ok []; Ok []; Panic].
Proof. by vm_compute. Qed.

(** UPDATE refuses every FLOAT. *)
Example update_refuses_floats :
  answers_of [CreateTable demo_table [mkCol col_a DFloat false]; InsertInto demo_table [VFloat 0];
              UpdateSet demo_table [mkAssign col_a (VFloat 0)] None]
  = [Ok []; Ok []; Err (AssignMismatch (mkAssign col_a (VFloat 0)))].
Proof. by vm_compute. Qed.

(** An UPDATE that fails at its second row leaves the first one changed. *)
Example failed_update_is_not_undone :
  answers_of [CreateTable demo_table [mkCol col_a DInt true];
              InsertInto demo_table [VInt 1]; InsertInto demo_table [VInt 2];
              UpdateSet demo_table [mkAssign col_a (VInt 5)] None;
              Select demo_table Star None None None]
  = [Ok []; Ok []; Ok []; Err (DuplicateKey col_a 5); Ok [[VInt 5]; [VInt 2]]].
Proof. by vm_compute. Qed.

(** A filter that fails leaves its page pinned for good. *)
Example failed_filter_leaks_a_pin :
  let e := (run_session demo_order
    [CreateTable demo_table [mkCol col_a DInt true]; InsertInto demo_table [VInt 1];
     Select demo_table Star (where_ col_b OpEq (VInt 1)) None None] Database.fresh).1 in
  pin_count <$> frames (buffer_pool e) !! 0%nat = Some 1.
Proof. by vm_compute. Qed.

(** ** A crash inside a statement

    INSERT up to its commit: the row is in the pool and in the log that is not
    yet synced, and the page list of the table is saved. *)
Definition insert_uncommitted (table : rstring) (values : Row) : ex (Z * Rid) :=
  s ← find_schema table;
  _ ← check_primary_key table s values;
  row ← encode_row s values;
  t ← walm begin_txn;
  m ← find_meta table;
  found ← try_pages t row m;
  rid ← match found with Some rid => mret rid | None => new_row_page table t row end;
  _ ← index_new_row table s values rid;
  mret (t, rid).

Lemma exec_insert_commits table values e :
  exec_insert table values e =
  ('(t, rid) ← insert_uncommitted table values; _ ← walm (commit t); _ ← pool (flush_page (page_id rid)); mret []) e.
Proof.
  unfold exec_insert, insert_uncommitted. unfold mbind, st_bind.
  repeat match goal with |- context [match ?m with pair _ _ => _ end] =>
    let e' := fresh "e'" in destruct m as [e' [?|?|]]; [|done..] end; done.
Qed.

(** The engine after these statements, the INSERT of a row that has got this
    far, a crash and recovery. *)
Definition crashed_insert (xs : list Statement) (table : rstring) (values : Row) : Executor :=
  let e := (insert_uncommitted table values (run_session demo_order xs Database.fresh).1).1 in
  (ex_recover demo_it (restart 0 e)).1.

(** The page list names a page that the file does not have: no row was
    committed and the table can be neither read nor written any more. *)
Example crashed_insert_loses_table :
  let e := crashed_insert [CreateTable demo_table [mkCol col_a DInt false]] demo_table [VInt 1] in
  (run_session demo_order [Select demo_table Star None None None; InsertInto demo_table [VInt 2]] e).2
  = [Err (IoError UnexpectedEof); Err (IoError UnexpectedEof)].
Proof. by vm_compute. Qed.

(** When another table gets that page, its rows are in both. *)
Example crashed_insert_shares_page :
  let u : rstring := [x75] in
  let e := crashed_insert [CreateTable demo_table [mkCol col_a DInt false]; CreateTable u [mkCol col_a DInt false]]
    demo_table [VInt 1] in
  (run_session demo_order [InsertInto u [VInt 7]; Select demo_table Star None None None] e).2
  = [Ok []; Ok [[VInt 7]]].
Proof. by vm_compute. Qed.

(** After the commit, which forces the log; the page is not yet in [data.db]. *)
Definition crashed_commit (xs : list Statement) (table : rstring) (values : Row) : Executor :=
  (ex_recover demo_it (restart 0 (insert_unflushed table values (run_session demo_order xs Database.fresh).1).1)).1.

(** On a page that the file has, the row is found in the log. *)
Example committed_row_survives :
  let e := crashed_commit [CreateTable demo_table [mkCol col_a DInt false]; InsertInto demo_table [VInt 1]]
    demo_table [VInt 2] in
  (run_session demo_order [Select demo_table Star None None None] e).2 = [Ok [[VInt 1]; [VInt 2]]].
Proof. by vm_compute. Qed.

(** On a new page it is lost, and the table with it: recovery puts a page of the
    log in the place of one that it has fetched from the file, and goes on
    without it when there is none. *)
Example committed_row_on_new_page_lost :
  let e := crashed_commit [CreateTable demo_table [mkCol col_a DInt false]] demo_table [VInt 1] in
  (run_session demo_order [Select demo_table Star None None None] e).2 = [Err (IoError UnexpectedEof)] /\
  dom (wal_pages (ex_wal e)) = {[0]}.
Proof. vm_compute. by split. Qed.

(** The same when the page was torn, as its write may be: the checksum refuses
    it, and the copy in the log is not used. *)
Example torn_page_not_recovered :
  let e := (run_session demo_order [CreateTable demo_table [mkCol col_a DInt false]; InsertInto demo_table [VInt 1]]
    Database.fresh).1 in
  let torn := <[4095%nat := xff]> (file (disk (buffer_pool e))) in
  let e := (ex_recover demo_it (Executor_open (catalog_file e) (meta_files e) torn (log_file (ex_wal e)))).1 in
  (run_session demo_order [Select demo_table Star None None None] e).2 = [Err (IoError InvalidData)] /\
  dom (wal_pages (ex_wal e)) = {[0]}.
Proof. vm_compute. by split. Qed.
